(* ===== verification/_CoqProject ===== *)
-Q . S2P
Prelude.v
Linked.v
Words.v
Settings.v
Utility.v
ArgError.v
CString.v
Text.v
Crypto.v
Packet.v
Log.v
PacketFacts.v
LogFacts.v
Checksum.v
Gate.v
Uthash.v
UthashFacts.v
NatData.v
World.v
Config.v
ToyCrypto.v
Net.v
Hopper.v
Startup.v
ToyWorld.v
Layout.v
ToySetup.v
ConfigFacts.v
KeyFiles.v
HopperFacts.v
Message.v
ArgPacket.v
CipherLoop.v
RoundTrip.v
AdminTrip.v
Replay.v
Protocol.v
ProtocolFacts.v
Tunnel.v
Handshake.v
TimeSync.v
Nat.v
Tables.v
NatFacts.v
NatClean.v
NatTable.v
TablesFacts.v
Rewrite.v
NatRoundTrip.v
Director.v
Threads.v
DirectorFacts.v
NatSafe.v
Invariant.v
ThreadsFacts.v
NoHang.v
GateList.v
StartupFacts.v
StartState.v
DirectorSetup.v
DirectorSetupFacts.v
ArgInit.v
ArgInitFacts.v
EndToEnd.v
Session.v
Launch.v
Concurrent.v
HashList.v
HashListFacts.v
HashSort.v
HashFns.v
NatRace.v
