(* ===== verification/Prelude.v ===== *)
(** * A verification of the addressing routing gateway

    The program under src/ is a gateway that hides the hosts of a network
    behind an address that changes ("hops") every few hundred milliseconds.
    Packets between two such networks are encrypted, authenticated and sent in
    datagrams of an IP protocol of their own (253); other traffic goes through
    a NAT that uses the hopping address.

    ** The program's parts and their model

    - src/settings.h, src/arg_error.*: constants and error codes.  [Settings],
      [ArgError].
    - src/utility.c: time arithmetic and byte masks ([Utility]); the log, with
      the names that src/packet.c gives to packets ([Log], on [Text], numbers
      and addresses as text).  Facts: [LogFacts].
    - src/crypto.c: one-time passwords.  [Crypto].  PolarSSL is not part of the
      repository: its functions are the class [PolarSSL], and the class
      [PolarSSL_ok] states the documented behaviour the theorems rely on
      (digest lengths, HMAC is a function of key and message, CTR mode XORs a
      key stream, PKCS#1 decryption and verification undo encryption and
      signing for a matching pair of keys).  [ToyCrypto] is a concrete instance
      of both classes; every witness is evaluated with it.
    - src/packet.*: parsing, ports, checksums, sending, ARP replies.  [Packet]
      (pure functions on a buffer with offsets for pointers), [Net] (the
      functions that allocate or send).  Facts: [PacketFacts], [Checksum].
    - src/settings.c: the main configuration file and the key files, as a list
      of bytes each; src/gen_gate_config.c, the tool that writes the key files.
      [CString] (the C library's strings, numbers and [fgets]), [Config]; the
      disk and PolarSSL's file functions are the class [Setup], with [ToySetup]
      a concrete one.  Facts: [ConfigFacts], [KeyFiles].
    - src/hopper.c, [get_hopper_conf], [init_hopper], [uninit_hopper]:
      [Startup].  Facts: [StartupFacts]; [StartState], that what it leaves is a
      state in which the threads may run.
    - What starts and stops devices and threads in src/director.c, src/nat.c
      and src/hopper.c: [DirectorSetup], over a process that has the gateway's
      world as a part; pcap is the class [Pcap].  Facts: [DirectorSetupFacts].
      src/init.c puts it together: [ArgInit].  Facts: [ArgInitFacts].
    - src/hopper.*: gateway records, hopping addresses, the list of gateways,
      one round of the administration thread.  [Gate] (the records), [Hopper];
      [Director] has the administration thread and the dispatch of messages.
      Facts: [HopperFacts], [GateList], [Invariant].
    - The threads, as turns of their loops: [Threads].  Facts: [ThreadsFacts]
      (they make the steps of [Invariant.step]), [NoHang] (they come back).
      [Concurrent] takes one place apart into statements: the lookup in the
      list of gateways while a gateway is linked into it.  [NatRace] cuts the
      NAT's functions at their critical sections.
    - src/protocol.*: payload structures ([Message]), building and checking ARG
      packets ([ArgPacket]), the protocol's actions ([Protocol]).  Facts:
      [CipherLoop], [RoundTrip] (wrapped packets), [AdminTrip] (signed and
      encrypted messages), [Replay], [ProtocolFacts], [Tunnel], [Handshake]
      (connection data, both ways), [TimeSync] (pings), [Session] (these one
      after the other, then packets), [Launch] (from two disks to a session).
    - src/uthash.h: the hash table macros in use, on lists, with their 32-bit
      counters and the end of the process when memory runs out.  [Uthash].
      Facts: [UthashFacts].  [HashList] has the pointers of the application order,
      with iteration and sorting; [HashListFacts] and [HashSort] show that they
      follow the lists.  [HashFns]: the other hash functions, Bloom filter and
      selection, which the program does not use.
    - src/nat.*: [NatData] (records), [Nat] (operations).  Facts: [NatFacts]
      (the table as a list of connections, and walks along it), [NatClean]
      (removal, cleaning), [NatTable] (search and insertion), [Rewrite] (what a
      rewritten packet is), [NatRoundTrip], [NatSafe] (for any packet, and out
      of memory: the mutexes come back and the table stays well-formed).
    - The tables of gateways and of connections that the threads print:
      [Tables].  Facts: [TablesFacts].
    - src/director.c: [Director].  Facts: [DirectorFacts], [EndToEnd].

    ** How C is modelled

    A pure function is a function, of type [option] when it could leave a
    buffer.  A function that touches shared state is a [proc] (this file): a
    state transformer whose outcome is a return value and a state, [Fault]
    (undefined behaviour: NULL or dangling pointers, accesses outside an
    object), [Stuck] (it never returns: locking a mutex that is held, or
    following a cyclic list) or [Exited] (the process has ended: uthash exits
    when an allocation fails).  The state is [World.world]: a heap of gateway
    records linked by addresses, [gateInfo], the NAT table with its heaps, the
    mutexes as flags, and what was sent.  Outside input (clock, random bytes,
    allocation results, results of [sendto]) is the class [World.Env]; the
    world counts how much of it was consumed.  Machine integers are [Z] with
    the wrap-around written out ([Words]); structures on the wire are byte
    lists at their offsets on a little-endian host.  Packets are owned by the
    function that creates them and are passed by value.

    Walks over linked structures take fuel: the number of objects in the heap
    (for the hash table the number of its elements).  A walk that needs more
    visits an object twice, so the C loop does not end, and the model says
    [Stuck].  The theorems show that on the structures the program builds it
    is enough: [Invariant.reachable_consistent] for lookups,
    [GateList.remove_all_keeps_first] and [ArgInitFacts.stop_first] for
    removal, [NatClean] for the NAT table, [StartupFacts] for the walks of the
    start-up, [CipherLoop] for the block loop and [ConfigFacts] for the line
    reader, whose fuel is the length of what they read.  [HashList.HASH_SRT]
    has 33 rounds, one more than the doublings of a 32-bit length.

    [Linked] is shared by the linked structures: [dseg], a segment of a doubly
    linked list in a heap, with insertion, removal and relinking at its ends;
    the gateways, the NAT's buckets and their entries are instances.

    ** What the theorems show

    - Delivery: [EndToEnd.end_to_end], on top of [Tunnel.tunnel_delivers] and
      [RoundTrip.wrapped_round_trip]: two gateways that share keys and are in
      step carry a host's packet unchanged.
    - Getting there: [Handshake.connection_established] and
      [TimeSync.ping_exchange] run a request, its delivery, the answer and its
      delivery, over the real encoding of the messages.
      [Launch.gateways_come_up] puts the start of the program in front of them
      and the delivery of packets behind: two disks with each other's public
      keys, for networks that do not overlap, are enough for the packets of both
      networks to be carried.
    - Authenticity and replay: [Replay]; [Handshake.peer_rejoins], what is let
      through so that a restarted gateway can come back.
    - The state invariant over all interleavings of whole operations:
      [Invariant.step] is one event of the gateway (a packet in either
      direction, a round of the administration thread, a cleaning of the NAT
      table); [Invariant.reachable_consistent] and
      [ProtocolFacts.connected_iff_both].
    - The threads: [ThreadsFacts.threads_are_steps] puts their loops under the
      invariant; [NoHang.no_thread_hangs], none of the four waits for a mutex
      in vain, their loops over the gateways and the NAT table end, and both
      structures stay good; [NoHang.at_rest] is the state between their turns.
    - Below whole operations: [Concurrent.lookup_linearizes], lookups may run
      next to the linking of a gateway without a mutex;
      [NatRace.entry_outlives_packet]: the NAT may read an entry after it gave
      the mutex back, if not too late ([NatRace.entry_freed_in_use]).
    - Hopping: which addresses are generated and accepted, and for how long
      ([HopperFacts.is_valid_ip_exact], also for intervals that do not fit the
      parameter they are passed in).
    - NAT: [UthashFacts.hash_table_is_ordered_map], the table refines an
      insertion-ordered map (as long as nobody grants it 32 GiB: there the
      number of buckets wraps, [UthashFacts.full_table_faults]); [HashSort.hash_table_sorts], its handles are
      linked in that order, and can be sorted; [NatClean.clean_keeps_live];
      [NatRoundTrip.nat_round_trip], replies reach the host that asked, and
      what the table cannot tell apart.
    - Configuration: [KeyFiles.key_files_round_trip], the generator's files are
      what the gateways read; [ConfigFacts.read_config_as_written].
    - The process: [ArgInitFacts.starts_from_disk], from the files to the
      running program, which is then at rest; [ArgInitFacts.stop_first], what
      [arg_exit] would do there, and [ArgInitFacts.main_never_returns], what it
      does after [main] has waited for the receivers;
      [DirectorSetupFacts.external_filter_fits] and
      [ArgInitFacts.long_network_crashes], networks that are too long to write.
    - Error paths: [DirectorFacts], [ProtocolFacts], [StartupFacts],
      [ConfigFacts].
    - Checksums verify and are idempotent; parsing stays in bounds; time
      arithmetic is exact.
    - The log: [LogFacts.packet_id_stable], the analysis of an experiment can
      follow a packet by its name; [LogFacts.packet_id_fits].

    ** Not modelled

    Sleeping.  An operation is one atomic step (the mutexes are still tracked),
    but for the lookup in [Concurrent], where a statement is a step and memory
    is sequentially consistent, and for [NatRace], where a critical
    section is one;
    a started thread is a flag of the process in [DirectorSetup], and what it
    does is a step of [Invariant.step].  [DirectorSetup.join_director] returns
    at once; what the threads do while [main] waits there is an argument of
    [main].  That a cancelled thread keeps the NAT's mutex is modelled, that it
    keeps a gateway's own mutex is not.  The debug messages between the
    operations are left out, but for the tables that the threads print.
    Packets and messages are values, so [free_packet] and [free_arg_msg] have
    nothing to do here.
    Of src/uthash.h: the chains of the buckets stay lists, their back pointers
    are not modelled; logging keys to a file, and reading words at odd addresses
    on processors that cannot, are left out.
    The scripts of the experiments and the configuration files are not C. *)

From stdpp Require Export prelude gmap list.
From Stdlib Require Export ZArith Lia.

#[global] Open Scope Z_scope.

(** ** Outcomes and procedures

    A C function that touches shared state is a [proc]: it maps a state to an
    [outcome].  [Done] is an ordinary return; [Fault] is undefined behaviour
    (NULL or dangling dereference, access outside an object); [Stuck] is a
    call that never returns (locking a mutex the thread already holds, or
    following a list that never ends); [Exited] is a process that has ended in
    the middle of it ([exit]). *)

Inductive outcome (S A : Type) : Type :=
  | Done (a : A) (s : S)
  | Fault
  | Stuck
  | Exited.
Arguments Done {S A} _ _.
Arguments Fault {S A}.
Arguments Stuck {S A}.
Arguments Exited {S A}.

Definition proc (S A : Type) : Type := S → outcome S A.

#[export] Instance proc_ret {S} : MRet (proc S) := λ A a s, Done a s.
#[export] Instance proc_bind {S} : MBind (proc S) := λ A B k m s,
  match m s with
  | Done a s' => k a s'
  | Fault => Fault
  | Stuck => Stuck
  | Exited => Exited
  end.

#[export] Instance proc_fmap {S} : FMap (proc S) := λ A B f m, m ≫= λ a, mret (f a).

Definition fault {S A} : proc S A := λ _, Fault.
Definition stuck {S A} : proc S A := λ _, Stuck.
Definition exit {S A} : proc S A := λ _, Exited.
Definition gets {S A} (f : S → A) : proc S A := λ s, Done (f s) s.
Definition modify {S} (f : S → S) : proc S unit := λ s, Done tt (f s).
Definition lift_opt {S A} (o : option A) : proc S A :=
  match o with Some a => mret a | None => fault end.

(** [wp m Q s]: from [s], [m] returns and its result satisfies [Q] (total). *)
Definition wp {S A} (m : proc S A) (Q : A → S → Prop) (s : S) : Prop :=
  match m s with Done a s' => Q a s' | _ => False end.

(** [respects R m]: whenever [m] returns, [R] relates the states before and
    after.  With a preorder [R] it is compositional. *)
Definition respects {S A} (R : S → S → Prop) (m : proc S A) : Prop :=
  ∀ s a s', m s = Done a s' → R s s'.

(** [keeps I m]: [m] preserves the invariant [I]. *)
Definition keeping {S} (I : S → Prop) (s s' : S) : Prop := I s → I s'.
Abbreviation keeps I m := (respects (keeping I) m).

(** [never_stuck I m]: from a state of [I], [m] comes back (or faults), and
    when it returns the state is in [I] again. *)
Definition comes_back {S A} (I : S → Prop) (m : proc S A) : Prop :=
  ∀ s, I s → match m s with Done _ s' => I s' | Fault | Exited => True | Stuck => False end.

#[export] Instance keeping_preorder {S} (I : S → Prop) : PreOrder (keeping I).
Proof. split; unfold keeping; [intros s; auto | intros s1 s2 s3; auto]. Qed.

Create HintDb procs.
Create HintDb words.

Section Proc.
Context {S : Type}.
Implicit Types s : S.

Lemma bind_done {A B} (m : proc S A) (k : A → proc S B) s b s'' :
  (m ≫= k) s = Done b s'' ↔ ∃ a s', m s = Done a s' ∧ k a s' = Done b s''.
Proof.
  unfold mbind, proc_bind. split.
  - destruct (m s); [eauto | done..].
  - by intros (a & s' & -> & ?).
Qed.

Lemma wp_ret {A} (a : A) (Q : A → S → Prop) s : Q a s → wp (mret a) Q s.
Proof. done. Qed.

Lemma wp_bind {A B} (m : proc S A) (k : A → proc S B) Q s :
  wp (m ≫= k) Q s ↔ wp m (λ a, wp (k a) Q) s.
Proof. unfold wp, mbind, proc_bind. by destruct (m s). Qed.

Lemma wp_mono {A} (m : proc S A) (P Q : A → S → Prop) s :
  wp m P s → (∀ a s', P a s' → Q a s') → wp m Q s.
Proof. unfold wp. destruct (m s); eauto. Qed.

Lemma wp_done {A} (m : proc S A) Q s a s' :
  m s = Done a s' → Q a s' → wp m Q s.
Proof. unfold wp. by intros ->. Qed.

Lemma wp_elim {A} (m : proc S A) Q s :
  wp m Q s → ∃ a s', m s = Done a s' ∧ Q a s'.
Proof. unfold wp. destruct (m s); [eauto | done..]. Qed.

Lemma lift_bind {A B} (o : option A) a (k : A → proc S B) : o = Some a → (lift_opt o ≫= k) = k a.
Proof. by intros ->. Qed.

Lemma bind_assoc {A B C} (m : proc S A) (f : A → proc S B) (k : B → proc S C) s :
  ((m ≫= f) ≫= k) s = (m ≫= λ a, f a ≫= k) s.
Proof. unfold mbind, proc_bind. by destruct (m s). Qed.
Lemma bind_ext {A B} (m : proc S A) (f k : A → proc S B) s :
  (∀ a s', f a s' = k a s') → (m ≫= f) s = (m ≫= k) s.
Proof. intros He. unfold mbind, proc_bind. by destruct (m s). Qed.

Lemma fault_bind {A B} (m : proc S A) (k : A → proc S B) s : m s = Fault → (m ≫= k) s = Fault.
Proof. intros Hm. unfold mbind, proc_bind. by rewrite Hm. Qed.

Lemma ret_bind {A B} (a : A) (k : A → proc S B) : (mret a ≫= k) = k a.
Proof. done. Qed.

Section Respects.
Context (R : S → S → Prop) `{!PreOrder R}.

Lemma respects_ret {A} (a : A) : respects R (mret a).
Proof. intros s a' s' [= -> ->]. reflexivity. Qed.

Lemma respects_bind {A B} (m : proc S A) (k : A → proc S B) :
  respects R m → (∀ a, respects R (k a)) → respects R (m ≫= k).
Proof.
  intros Hm Hk s b s'' (a & s' & H1 & H2)%bind_done.
  etrans; [by eapply Hm | by eapply Hk].
Qed.

Lemma respects_fmap {A B} (f : A → B) (m : proc S A) :
  respects R m → respects R (f <$> m).
Proof. intros Hm. apply respects_bind; [done | intros a; apply respects_ret]. Qed.

Lemma respects_fault {A} : respects R (@fault S A).
Proof. by intros s a s'. Qed.

Lemma respects_stuck {A} : respects R (@stuck S A).
Proof. by intros s a s'. Qed.

Lemma respects_gets {A} (f : S → A) : respects R (gets f).
Proof. intros s a s' [= <- <-]. reflexivity. Qed.

Lemma respects_lift {A} (o : option A) : respects R (lift_opt o).
Proof. destruct o; [apply respects_ret | apply respects_fault]. Qed.

(** After a successful access its value is known. *)
Lemma respects_lift_bind {A B} (o : option A) (k : A → proc S B) :
  (∀ a, o = Some a → respects R (k a)) → respects R (lift_opt o ≫= k).
Proof. intros Hk. destruct o; [by apply Hk | apply respects_fault]. Qed.

Lemma respects_modify (f : S → S) :
  (∀ s, R s (f s)) → respects R (modify f).
Proof. intros Hf s a s' [= <- <-]. apply Hf. Qed.
End Respects.

Section ComesBack.
Context (I : S → Prop).

Lemma comes_back_ret {A} (a : A) : comes_back I (mret a).
Proof. by intros s. Qed.

Lemma comes_back_bind {A B} (m : proc S A) (k : A → proc S B) :
  comes_back I m → (∀ a, comes_back I (k a)) → comes_back I (m ≫= k).
Proof.
  intros Hm Hk s Hs. unfold mbind, proc_bind.
  specialize (Hm s Hs). destruct (m s); [by apply Hk | done..].
Qed.

Lemma comes_back_fmap {A B} (f : A → B) (m : proc S A) :
  comes_back I m → comes_back I (f <$> m).
Proof. intros Hm. apply comes_back_bind; [done | intros a; apply comes_back_ret]. Qed.

Lemma comes_back_fault {A} : comes_back I (@fault S A).
Proof. by intros s. Qed.

Lemma comes_back_gets {A} (f : S → A) : comes_back I (gets f).
Proof. by intros s. Qed.

Lemma comes_back_lift {A} (o : option A) : comes_back I (lift_opt o).
Proof. intros s Hs. by destruct o. Qed.

Lemma comes_back_modify (f : S → S) :
  (∀ s, I s → I (f s)) → comes_back I (modify f).
Proof. by intros Hf s Hs; apply Hf. Qed.
End ComesBack.
End Proc.

#[export] Hint Resolve respects_ret respects_fault respects_stuck respects_gets
  respects_lift comes_back_ret comes_back_fault comes_back_gets comes_back_lift : procs.

(** Walk through the binds and the case distinctions of a procedure, closing
    the leaves with the [procs] hints. *)
Ltac proc_step :=
  match goal with
  | |- respects _ (lift_opt _ ≫= _) => apply respects_lift_bind; intros ? ?
  | |- respects _ (_ ≫= _) => apply respects_bind; [typeclasses eauto | | intros ?]
  | |- respects _ (_ <$> _) => apply respects_fmap; [typeclasses eauto |]
  | |- respects _ (match ?x with _ => _ end) => destruct x eqn:?
  | |- comes_back _ (_ ≫= _) => apply comes_back_bind; [| intros ?]
  | |- comes_back _ (_ <$> _) => apply comes_back_fmap
  | |- comes_back _ (match ?x with _ => _ end) => destruct x eqn:?
  | |- _ => solve [eauto with procs typeclass_instances]
  end.
Ltac proc_walk := repeat proc_step.

(** [lia] with the truncating quotients and remainders as atoms. *)
Ltac name_quot :=
  repeat match goal with
  | H : context [Z.quot ?a ?b] |- _ => remember (Z.quot a b) eqn:Eq; clear Eq
  | H : context [Z.rem ?a ?b] |- _ => remember (Z.rem a b) eqn:Eq; clear Eq
  | |- context [Z.quot ?a ?b] => remember (Z.quot a b) eqn:Eq; clear Eq
  | |- context [Z.rem ?a ?b] => remember (Z.rem a b) eqn:Eq; clear Eq
  end.
Ltac quot_lia := name_quot; lia.

(** A filter depends on its predicate at the list's members only. *)
Lemma list_filter_iff' {A} (P Q : A → Prop) `{∀ x, Decision (P x), ∀ x, Decision (Q x)} (l : list A) :
  Forall (λ x, P x ↔ Q x) l → filter P l = filter Q l.
Proof.
  induction 1 as [|x l Hx _ IH]; [done|]. destruct (decide (P x)).
  - rewrite !filter_cons_True by tauto. by rewrite IH.
  - rewrite !filter_cons_False by tauto. done.
Qed.

Lemma filter_all {A} (P : A → Prop) `{∀ x, Decision (P x)} (l : list A) :
  Forall P l → filter P l = l.
Proof. induction 1 as [|x l ? ? IH]; [done|]. by rewrite filter_cons_True, IH. Qed.

(** A closed decidable proposition, by evaluating its decision procedure. *)
Ltac by_decide := apply (bool_decide_eq_true_1 _); vm_compute; reflexivity.

(** Stepping through the option monad by rewriting. *)
Lemma some_bind {A B} (a : A) (k : A → option B) : Some a ≫= k = k a.
Proof. done. Qed.
Lemma some_fmap {A B} (f : A → B) (a : A) : f <$> Some a = Some (f a).
Proof. done. Qed.

(** ** Record update: [r <| field := v |>] *)

Class Eta (R : Type) : Type := eta : R → R.
Class Upd {R T : Type} (field : R → T) : Type := upd : (T → T) → R → R.
Arguments upd {R T} field {_} _ _ /.
(** Only the hint below builds an update. *)
#[global] Typeclasses Opaque Eta Upd.
#[export] Hint Mode Eta + : typeclass_instances.
#[export] Hint Mode Upd + + + : typeclass_instances.

Ltac solve_upd :=
  match goal with
  | |- @Upd ?R ?T ?field =>
      let e := constr:(_ : Eta R) in
      let f := fresh "f" in
      let r := fresh "r" in
      intros f r;
      let body := eval hnf in (e r) in
      let ctx := eval pattern (field r) in body in
      match ctx with
      | ?F _ =>
          let res := eval cbv beta in (F (f (field r))) in
          lazymatch res with context [f (field r)] => exact res end
      end
  end.
#[export] Hint Extern 1 (Upd _) => solve_upd : typeclass_instances.

Notation "r <| field := v |>" := (upd field (λ _, v) r)
  (at level 12, field at next level, left associativity).
Notation "r <| field ::= f |>" := (upd field f r)
  (at level 12, field at next level, f at level 99, left associativity).

(** ** Heaps: finite maps from addresses *)

Abbreviation loc := positive.

(** A path through distinct objects of a heap is no longer than the heap is
    large, so the heap's size is enough fuel for any walk along it. *)
Lemma path_fuel {A} (m : gmap loc A) (ls : list loc) :
  NoDup ls → (∀ l, l ∈ ls → is_Some (m !! l)) → (length ls ≤ size m)%nat.
Proof.
  intros Hnd Hls. rewrite <- (size_dom m), <- (size_list_to_set (C := gset loc) ls) by done.
  apply subseteq_size. intros l Hl%elem_of_list_to_set. apply elem_of_dom. by apply Hls.
Qed.

Lemma alter_as_insert {A} (f : A → A) (m : gmap loc A) l x :
  m !! l = Some x → alter f l m = <[l := f x]> m.
Proof.
  intros Hl. apply map_eq. intros i. destruct (decide (l = i)) as [<-|Hne].
  - by rewrite lookup_alter_eq, Hl, lookup_insert_eq.
  - by rewrite lookup_alter_ne, lookup_insert_ne by done.
Qed.

(** An address that no object of the heap has. *)
Definition fresh_loc {A} (m : gmap loc A) : loc :=
  map_fold (λ k _ n, Pos.max (Pos.succ k) n) 1%positive m.

Lemma fresh_loc_bound {A} (m : gmap loc A) l x :
  m !! l = Some x → (l < fresh_loc m)%positive.
Proof.
  revert l x. unfold fresh_loc.
  apply (map_fold_weak_ind (λ n m, ∀ l x, m !! l = Some x → (l < n)%positive)).
  - intros l x. by rewrite lookup_empty.
  - intros k v m' n Hk IH l x. rewrite lookup_insert_Some.
    intros [[-> _] | [_ Hl]]; [lia | apply IH in Hl; lia].
Qed.

Lemma fresh_loc_None {A} (m : gmap loc A) : m !! fresh_loc m = None.
Proof.
  destruct (m !! fresh_loc m) eqn:E; [|done].
  apply fresh_loc_bound in E. lia.
Qed.
