(* ===== verification/Linked.v ===== *)
(** * Doubly linked lists in a heap

    The lists of gateways (src/hopper.c) and of NAT entries (src/nat.c): objects
    with a pointer to the next and one to the previous.  A segment is the list
    of the addresses it goes through. *)

From S2P Require Import Prelude.

Lemma last_elem {A} (es : list A) x : last es = Some x → x ∈ es.
Proof. intros [ys ->]%last_Some. apply elem_of_app. right. by left. Qed.
Lemma hd_elem {A} (es : list A) x : hd_error es = Some x → x ∈ es.
Proof. destruct es; [done|]. intros [= ->]. by left. Qed.

(** What comes before the next object, once [es] are behind [prv]. *)
Definition last_or (prv : option loc) (es : list loc) : option loc :=
  match last es with Some l => Some l | None => prv end.

Lemma last_or_cons prv l es : last_or prv (l :: es) = last_or (Some l) es.
Proof. unfold last_or. rewrite last_cons. by destruct (last es). Qed.

(** Changing the object a pointer leads to, if it leads anywhere. *)
Definition opt_alter {A} (f : A → A) (p : option loc) (h : gmap loc A) : gmap loc A :=
  match p with None => h | Some l => alter f l h end.

Lemma opt_alter_ne {A} (f : A → A) p h l : p ≠ Some l → opt_alter f p h !! l = h !! l.
Proof. destruct p as [x|]; [|done]. intros Hne. apply lookup_alter_ne. congruence. Qed.

Lemma opt_alter_fmap {A B} (e : A → B) f p h l :
  (∀ x, e (f x) = e x) → e <$> opt_alter f p h !! l = e <$> h !! l.
Proof.
  intros Hf. destruct p as [x|]; [|done]. cbn. destruct (decide (x = l)) as [<-|Hne].
  - rewrite lookup_alter_eq. destruct (h !! x); [|done]. cbn. by rewrite Hf.
  - by rewrite lookup_alter_ne.
Qed.

(** The segment [es] from [p] up to [nxt]; [prv] is what comes before it, and
    [P] holds of every object. *)
Fixpoint dseg {A} (nx pv : A → option loc) (P : A → Prop) (h : gmap loc A) (prv p : option loc)
    (es : list loc) (nxt : option loc) : Prop :=
  match es with
  | [] => p = nxt
  | l :: es =>
      p = Some l ∧ ∃ e, h !! l = Some e ∧ pv e = prv ∧ P e ∧ dseg nx pv P h (Some l) (nx e) es nxt
  end.

Lemma opt_alter_commute {A} (f g : A → A) p q h :
  p = None ∨ p ≠ q → opt_alter f p (opt_alter g q h) = opt_alter g q (opt_alter f p h).
Proof.
  intros Hne. destruct p as [x|], q as [y|]; try done. cbn. apply alter_alter_ne. naive_solver.
Qed.

Section Segments.
Context {A : Type} {nx pv : A → option loc} {P : A → Prop}.
Implicit Types (h : gmap loc A) (es : list loc).
#[local] Abbreviation dseg := (dseg nx pv P).

Lemma dseg_app {h prv p xs ys nxt} :
  dseg h prv p (xs ++ ys) nxt ↔ ∃ m, dseg h prv p xs m ∧ dseg h (last_or prv xs) m ys nxt.
Proof.
  revert prv p. induction xs as [|x xs IH]; intros prv p.
  - cbn. unfold last_or. cbn. naive_solver.
  - cbn [app dseg]. rewrite last_or_cons. split.
    + intros (-> & e & He & Hp & Hb & (m & H1 & H2)%IH). exists m. naive_solver.
    + intros (m & (-> & e & He & Hp & Hb & H1) & H2). split; [done|]. exists e.
      split_and!; [done..|]. apply IH. eauto.
Qed.

Lemma dseg_agree {h h' prv p es nxt} :
  (∀ l, l ∈ es → h' !! l = h !! l) → dseg h prv p es nxt → dseg h' prv p es nxt.
Proof.
  revert prv p. induction es as [|l es IH]; intros prv p Hag; [done|].
  intros (-> & e & He & Hp & Hb & Hs). split; [done|]. exists e. rewrite Hag by (by left).
  split_and!; [done..|]. apply IH; [|done]. intros x Hx. apply Hag. by right.
Qed.

Lemma dseg_lookup {h prv p es nxt l} : dseg h prv p es nxt → l ∈ es → is_Some (h !! l).
Proof.
  revert prv p. induction es as [|x es IH]; intros prv p; [set_solver|].
  intros (-> & e & He & _ & _ & Hs) [->|Hl]%elem_of_cons; [by eexists | by eapply IH].
Qed.

Lemma dseg_head {h prv p es nxt} :
  dseg h prv p es nxt → p = match es with [] => nxt | l :: _ => Some l end.
Proof. destruct es; [done | by intros [-> _]]. Qed.

Lemma hd_error_dseg {h prv p es} : dseg h prv p es None → p = hd_error es.
Proof. intros ->%dseg_head. by destruct es. Qed.

Lemma dseg_rest {h p pre l rest e} :
  dseg h None p (pre ++ l :: rest) None → h !! l = Some e → dseg h (Some l) (nx e) rest None.
Proof. intros (m & _ & -> & e' & He & _ & _ & Hs)%dseg_app He'. by simplify_eq. Qed.

(** Linking a segment's last object to another successor. *)
Lemma dseg_relink_end {h prv p es nxt} nxt' f :
  (∀ x, nx (f x) = nxt') → (∀ x, pv (f x) = pv x) → (∀ x, P x → P (f x)) →
  NoDup es → dseg h prv p es nxt →
  dseg (opt_alter f (last es) h) prv (match es with [] => nxt' | _ => p end) es nxt'.
Proof.
  intros Hfn Hfp HfP. revert prv p. induction es as [|l es IH]; intros prv p; [done|].
  intros [Hl Hnd]%NoDup_cons (-> & e & He & Hp & Hb & Hs). split; [done|].
  rewrite last_cons. destruct es as [|y es].
  - exists (f e). cbn. rewrite lookup_alter_eq, He, Hfp. split_and!; auto.
  - specialize (IH _ _ Hnd Hs). pose proof (dseg_head Hs) as Hy.
    destruct (last (y :: es)) as [z|] eqn:Hz; [|by apply last_None in Hz].
    exists e. split_and!; [|done..].
    rewrite opt_alter_ne; [done|]. intros [= ->]. apply Hl. by apply last_elem.
Qed.

(** Linking a list's first object to another predecessor. *)
Lemma dseg_relink_start {h prv p es nxt} prv' f :
  (∀ x, nx (f x) = nx x) → (∀ x, pv (f x) = prv') → (∀ x, P x → P (f x)) →
  NoDup es → es ≠ [] → dseg h prv p es nxt → dseg (opt_alter f p h) prv' p es nxt.
Proof.
  intros Hfn Hfp HfP. destruct es as [|l es]; [done|].
  intros [Hl Hnd]%NoDup_cons _ (-> & e & He & Hp & Hb & Hs).
  split; [done|]. exists (f e). cbn. rewrite lookup_alter_eq, He, Hfn. split_and!; auto.
  eapply dseg_agree; [|exact Hs]. intros x Hx. apply lookup_alter_ne. by intros <-.
Qed.

(** ** Taking an object out *)

Context (setn setp : option loc → A → A).
Context (setn_n : ∀ a x, nx (setn a x) = a) (setn_p : ∀ a x, pv (setn a x) = pv x)
  (setp_p : ∀ a x, pv (setp a x) = a) (setp_n : ∀ a x, nx (setp a x) = nx x)
  (setn_P : ∀ a x, P x → P (setn a x)) (setp_P : ∀ a x, P x → P (setp a x)).

(** The heap in which [a] and [b] are linked to each other. *)
Definition bridged (a b : option loc) h : gmap loc A :=
  opt_alter (setp a) b (opt_alter (setn b) a h).

Lemma bridged_list {h p pre l post e} :
  NoDup (pre ++ l :: post) → h !! l = Some e →
  dseg h None p pre (Some l) → dseg h (Some l) (nx e) post None →
  dseg (bridged (last pre) (hd_error post) h) None
    (match pre with [] => hd_error post | _ => p end) (pre ++ post) None.
Proof using All.
  intros (Hpre & Hd & [Hl Hpost]%NoDup_cons)%NoDup_app He H1 H2.
  pose proof (hd_error_dseg H2) as Hn. rewrite Hn in H2.
  assert (∀ x, x ∈ pre → x ∉ post) as Hdp by (intros x Hx Hy; apply (Hd x Hx); by right).
  apply dseg_app. exists (hd_error post). split.
  - eapply dseg_agree; [|by apply (dseg_relink_end _ (setn (hd_error post)) (setn_n _) (setn_p _) (setn_P _) Hpre H1)].
    intros x Hx. unfold bridged. apply opt_alter_ne. intros Hy%hd_elem. by apply (Hdp x).
  - assert (last_or None pre = last pre) as -> by (unfold last_or; by destruct (last pre)).
    destruct (decide (post = [])) as [->|Hne]; [done|].
    assert (dseg (opt_alter (setn (hd_error post)) (last pre) h) (Some l) (hd_error post) post None) as H3.
    { eapply dseg_agree; [|done]. intros x Hx. apply opt_alter_ne. intros Hy%last_elem. by apply (Hdp x). }
    apply (dseg_relink_start (last pre) (setp (last pre)) (setp_n _) (setp_p _) (setp_P _) Hpost Hne H3).
Qed.

(** Objects away from the two keep their value, and so does the one between. *)
Lemma bridged_other a b h x : a ≠ Some x → b ≠ Some x → bridged a b h !! x = h !! x.
Proof. intros. unfold bridged. by rewrite !opt_alter_ne. Qed.

Lemma bridged_between {pre l post} h :
  NoDup (pre ++ l :: post) → bridged (last pre) (hd_error post) h !! l = h !! l.
Proof.
  intros (_ & Hd & [Hl _]%NoDup_cons)%NoDup_app. apply bridged_other.
  - intros Hx%last_elem. apply (Hd l Hx). by left.
  - by intros ?%hd_elem.
Qed.
End Segments.
