(* ===== verification/Words.v ===== *)
(** * Machine integers and byte buffers

    Fixed-width integers are values of [Z] with their wrap-around written out;
    memory is a list of bytes (values of [Z] in [0, 256)).  The host is the one
    the project is built for, x86-64 Linux: little-endian, [int] is 32 bits
    wide and [long] is 64. *)

From S2P Require Import Prelude.

Definition u8 (z : Z) : Z := z mod 2 ^ 8.
Definition u16 (z : Z) : Z := z mod 2 ^ 16.
Definition u32 (z : Z) : Z := z mod 2 ^ 32.
Definition u64 (z : Z) : Z := z mod 2 ^ 64.
Definition s32 (z : Z) : Z := (z + 2 ^ 31) mod 2 ^ 32 - 2 ^ 31.
Definition s64 (z : Z) : Z := (z + 2 ^ 63) mod 2 ^ 64 - 2 ^ 63.

Definition UINT16_MAX : Z := 2 ^ 16 - 1.
Definition UINT32_MAX : Z := 2 ^ 32 - 1.
Definition INT_MAX : Z := 2 ^ 31 - 1.

Abbreviation is_byte b := (0 ≤ b < 256).
Abbreviation bytes_ok := (Forall (λ b, is_byte b)).

(** Bytes of an integer in memory order (little-endian), and back. *)
Fixpoint le_bytes (n : nat) (z : Z) : list Z :=
  match n with
  | O => []
  | S n => z mod 256 :: le_bytes n (z / 256)
  end.

Fixpoint le_val (bs : list Z) : Z :=
  match bs with
  | [] => 0
  | b :: bs => b + 256 * le_val bs
  end.

(** Network byte order conversions: on this host a swap of the bytes. *)
Definition htons (z : Z) : Z := le_val (rev (le_bytes 2 z)).
Definition htonl (z : Z) : Z := le_val (rev (le_bytes 4 z)).
Definition ntohs : Z → Z := htons.
Definition ntohl : Z → Z := htonl.

(** Reading [n] bytes at offset [off] of an object, and writing there; [None]
    when the access leaves the object. *)
Definition rd (off : Z) (n : nat) (buf : list Z) : option (list Z) :=
  if bool_decide (0 ≤ off ∧ off + Z.of_nat n ≤ Z.of_nat (length buf))
  then Some (take n (drop (Z.to_nat off) buf)) else None.

Definition wr (off : Z) (bs : list Z) (buf : list Z) : option (list Z) :=
  if bool_decide (0 ≤ off ∧ off + Z.of_nat (length bs) ≤ Z.of_nat (length buf))
  then Some (take (Z.to_nat off) buf ++ bs ++ drop (Z.to_nat off + length bs) buf)
  else None.

(** Native loads and stores of 8, 16 and 32 bits. *)
Definition rd8 (off : Z) (buf : list Z) : option Z := le_val <$> rd off 1 buf.
Definition rd16 (off : Z) (buf : list Z) : option Z := le_val <$> rd off 2 buf.
Definition rd32 (off : Z) (buf : list Z) : option Z := le_val <$> rd off 4 buf.
Definition wr8 (off v : Z) (buf : list Z) : option (list Z) := wr off (le_bytes 1 v) buf.
Definition wr16 (off v : Z) (buf : list Z) : option (list Z) := wr off (le_bytes 2 v) buf.
Definition wr32 (off v : Z) (buf : list Z) : option (list Z) := wr off (le_bytes 4 v) buf.

Definition zeros (n : nat) : list Z := replicate n 0.
Arguments zeros : simpl never.

(** ** Integer ranges *)

Lemma u8_range z : 0 ≤ u8 z < 2 ^ 8.
Proof. by apply Z.mod_pos_bound. Qed.
Lemma u16_range z : 0 ≤ u16 z < 2 ^ 16.
Proof. by apply Z.mod_pos_bound. Qed.
Lemma u32_range z : 0 ≤ u32 z < 2 ^ 32.
Proof. by apply Z.mod_pos_bound. Qed.
Lemma s32_range z : - 2 ^ 31 ≤ s32 z < 2 ^ 31.
Proof. unfold s32. pose proof (Z.mod_pos_bound (z + 2 ^ 31) (2 ^ 32) eq_refl). lia. Qed.
Lemma s64_range z : - 2 ^ 63 ≤ s64 z < 2 ^ 63.
Proof. unfold s64. pose proof (Z.mod_pos_bound (z + 2 ^ 63) (2 ^ 64) eq_refl). lia. Qed.

Lemma u16_small z : 0 ≤ z < 2 ^ 16 → u16 z = z.
Proof. apply Z.mod_small. Qed.
Lemma u32_small z : 0 ≤ z < 2 ^ 32 → u32 z = z.
Proof. apply Z.mod_small. Qed.
Lemma u32_succ n : u32 (u32 (Z.of_nat n) + 1) = u32 (Z.of_nat (n + 1)).
Proof. unfold u32. by rewrite Z.add_mod_idemp_l, Nat2Z.inj_add by lia. Qed.
Lemma u32_pred z : u32 (u32 z - 1) = u32 (z - 1).
Proof. unfold u32. by rewrite Zminus_mod_idemp_l. Qed.
Lemma u64_small z : 0 ≤ z < 2 ^ 64 → u64 z = z.
Proof. apply Z.mod_small. Qed.
Lemma s32_small z : - 2 ^ 31 ≤ z < 2 ^ 31 → s32 z = z.
Proof. intros. unfold s32. rewrite Z.mod_small; lia. Qed.
Lemma s64_small z : - 2 ^ 63 ≤ z < 2 ^ 63 → s64 z = z.
Proof. intros. unfold s64. rewrite Z.mod_small; lia. Qed.

(** Drop wrap-arounds that cannot happen, innermost first. *)
Ltac drop_u32 :=
  repeat match goal with
  | |- context [u32 ?x] =>
      lazymatch x with context [u32 _] => fail | _ => rewrite (u32_small x) by lia end
  end.

Lemma bytes_ok_cons b bs : bytes_ok (b :: bs) ↔ is_byte b ∧ bytes_ok bs.
Proof. by rewrite Forall_cons. Qed.

(** ** Little-endian representation *)

Lemma length_le_bytes n z : length (le_bytes n z) = n.
Proof. revert z. induction n; intros; simpl; auto. Qed.

Lemma le_bytes_ok n z : bytes_ok (le_bytes n z).
Proof.
  revert z. induction n; intros z; simpl; constructor; auto.
  by apply Z.mod_pos_bound.
Qed.

Lemma le_val_bytes n z : le_val (le_bytes n z) = z mod 2 ^ (8 * Z.of_nat n).
Proof.
  revert z. induction n as [|n IH]; intros z.
  - simpl. by rewrite Z.mod_1_r.
  - cbn [le_bytes le_val]. rewrite IH.
    replace (8 * Z.of_nat (S n)) with (8 + 8 * Z.of_nat n) by lia.
    rewrite Z.pow_add_r by lia. change (2 ^ 8) with 256.
    by rewrite Z.rem_mul_r by lia.
Qed.

Lemma le_val_range bs : bytes_ok bs → 0 ≤ le_val bs < 2 ^ (8 * Z.of_nat (length bs)).
Proof.
  induction 1 as [|b bs Hb _ IH]; cbn [le_val length]; [done|].
  replace (8 * Z.of_nat (S (length bs))) with (8 + 8 * Z.of_nat (length bs)) by lia.
  rewrite Z.pow_add_r by lia. change (2 ^ 8) with 256. lia.
Qed.

Lemma le_bytes_val bs : bytes_ok bs → le_bytes (length bs) (le_val bs) = bs.
Proof.
  induction 1 as [|b bs Hb _ IH]; cbn [le_val length le_bytes]; [done|].
  rewrite (Z.mul_comm 256), Z.mod_add, Z.div_add by lia.
  by rewrite Z.mod_small, Z.div_small, Z.add_0_l, IH by lia.
Qed.

Lemma le_bytes_mod n z : le_bytes n (z mod 2 ^ (8 * Z.of_nat n)) = le_bytes n z.
Proof.
  rewrite <- le_val_bytes. rewrite <- (length_le_bytes n z) at 1.
  apply le_bytes_val, le_bytes_ok.
Qed.

Lemma bytes_ok_rev bs : bytes_ok bs → bytes_ok (rev bs).
Proof. apply List.Forall_rev. Qed.

Lemma le_val_zeros n : le_val (zeros n) = 0.
Proof. induction n as [|n IH]; [done|]. unfold zeros in *. cbn [replicate le_val]. by rewrite IH. Qed.

Lemma le_val_inj xs ys :
  bytes_ok xs → bytes_ok ys → length xs = length ys → le_val xs = le_val ys → xs = ys.
Proof.
  intros Hx Hy Hl He. rewrite <- (le_bytes_val xs), <- (le_bytes_val ys) by done.
  by rewrite Hl, He.
Qed.

(** Swapping the bytes of an [n]-byte integer twice gives it back. *)
Lemma swap_involutive n z :
  le_val (rev (le_bytes n (le_val (rev (le_bytes n z))))) = z mod 2 ^ (8 * Z.of_nat n).
Proof.
  pose proof (le_bytes_val (rev (le_bytes n z)) (bytes_ok_rev _ (le_bytes_ok n z))) as H.
  rewrite length_rev, length_le_bytes in H. rewrite H.
  rewrite rev_involutive. apply le_val_bytes.
Qed.

Lemma htons_range z : 0 ≤ htons z < 2 ^ 16.
Proof.
  pose proof (le_val_range (rev (le_bytes 2 z)) (bytes_ok_rev _ (le_bytes_ok 2 z))) as H.
  by rewrite length_rev, length_le_bytes in H.
Qed.

Lemma htonl_range z : 0 ≤ htonl z < 2 ^ 32.
Proof.
  pose proof (le_val_range (rev (le_bytes 4 z)) (bytes_ok_rev _ (le_bytes_ok 4 z))) as H.
  by rewrite length_rev, length_le_bytes in H.
Qed.

Lemma ntohs_htons z : ntohs (htons z) = u16 z.
Proof. apply (swap_involutive 2). Qed.
Lemma ntohl_htonl z : ntohl (htonl z) = u32 z.
Proof. apply (swap_involutive 4). Qed.
Lemma htons_ntohs z : htons (ntohs z) = u16 z.
Proof. apply (swap_involutive 2). Qed.
Lemma htonl_ntohl z : htonl (ntohl z) = u32 z.
Proof. apply (swap_involutive 4). Qed.

(** Loading two bytes and converting reads them in big-endian order. *)
Lemma ntohs_pair a b : is_byte a → is_byte b → ntohs (le_val [a; b]) = a * 256 + b.
Proof.
  intros Ha Hb. unfold ntohs, htons.
  assert (bytes_ok [a; b]) as Hok by (repeat constructor; lia).
  pose proof (le_bytes_val _ Hok) as Hl. cbn [length] in Hl. rewrite Hl.
  cbn [rev app le_val]. lia.
Qed.

Lemma htonl_zero_iff z : 0 ≤ z < 2 ^ 32 → htonl z = 0 ↔ z = 0.
Proof.
  intros Hz. split; [|by intros ->].
  intros H. rewrite <- (u32_small z), <- ntohl_htonl, H by done. done.
Qed.

(** ** Buffers *)

Section Buffers.
Implicit Types (off z : Z) (buf bs : list Z) (n : nat).

Lemma rd_Some off n buf bs :
  rd off n buf = Some bs ↔
    0 ≤ off ∧ off + Z.of_nat n ≤ Z.of_nat (length buf)
    ∧ bs = take n (drop (Z.to_nat off) buf).
Proof. unfold rd. case_bool_decide; naive_solver. Qed.

Lemma wr_Some off bs buf buf' :
  wr off bs buf = Some buf' ↔
    0 ≤ off ∧ off + Z.of_nat (length bs) ≤ Z.of_nat (length buf)
    ∧ buf' = take (Z.to_nat off) buf ++ bs ++ drop (Z.to_nat off + length bs) buf.
Proof. unfold wr. case_bool_decide; naive_solver. Qed.

Lemma rd_defined off n buf :
  0 ≤ off → off + Z.of_nat n ≤ Z.of_nat (length buf) →
  rd off n buf = Some (take n (drop (Z.to_nat off) buf)).
Proof. intros. by apply rd_Some. Qed.

Lemma rd_length off n buf bs : rd off n buf = Some bs → length bs = n.
Proof.
  intros (? & ? & ->)%rd_Some. rewrite length_take, length_drop. lia.
Qed.

Lemma rd_bytes_ok off n buf bs : bytes_ok buf → rd off n buf = Some bs → bytes_ok bs.
Proof. intros Hb (? & ? & ->)%rd_Some. by apply Forall_take, Forall_drop. Qed.

Lemma wr_defined off bs buf :
  0 ≤ off → off + Z.of_nat (length bs) ≤ Z.of_nat (length buf) →
  ∃ buf', wr off bs buf = Some buf'.
Proof. intros. eexists. by apply wr_Some. Qed.

Lemma wr16_defined off v buf :
  0 ≤ off → off + 2 ≤ Z.of_nat (length buf) → ∃ buf', wr16 off v buf = Some buf'.
Proof. intros. apply wr_defined; [done | by rewrite length_le_bytes]. Qed.

Lemma wr_length off bs buf buf' : wr off bs buf = Some buf' → length buf' = length buf.
Proof.
  intros (? & ? & ->)%wr_Some.
  rewrite !length_app, length_take, length_drop. lia.
Qed.

Lemma wr_bytes_ok off bs buf buf' :
  bytes_ok buf → bytes_ok bs → wr off bs buf = Some buf' → bytes_ok buf'.
Proof.
  intros Hb Hs (? & ? & ->)%wr_Some.
  repeat apply Forall_app_2; [by apply Forall_take | done | by apply Forall_drop].
Qed.

(** A buffer is determined by its byte reads. *)
Lemma wr_lookup off bs buf buf' (i : nat) :
  wr off bs buf = Some buf' →
  buf' !! i =
    if bool_decide (off ≤ Z.of_nat i < off + Z.of_nat (length bs))
    then bs !! (i - Z.to_nat off)%nat else buf !! i.
Proof.
  intros (? & ? & ->)%wr_Some.
  assert (length (take (Z.to_nat off) buf) = Z.to_nat off) as Hl
    by (rewrite length_take; lia).
  case_bool_decide as Hi.
  - rewrite lookup_app_r by lia. rewrite Hl, lookup_app_l by lia. done.
  - destruct (decide (Z.of_nat i < off)).
    + rewrite lookup_app_l by lia. by rewrite lookup_take_lt by lia.
    + rewrite lookup_app_r by lia. rewrite Hl, lookup_app_r by lia.
      rewrite lookup_drop. f_equal. lia.
Qed.

Lemma rd_lookup off n buf bs (i : nat) :
  rd off n buf = Some bs → (i < n)%nat → bs !! i = buf !! (Z.to_nat off + i)%nat.
Proof.
  intros (? & ? & ->)%rd_Some Hi. by rewrite lookup_take_lt, lookup_drop by lia.
Qed.

Lemma rd_agree off n xs ys :
  length xs = length ys →
  (∀ i : nat, off ≤ Z.of_nat i < off + Z.of_nat n → xs !! i = ys !! i) → rd off n xs = rd off n ys.
Proof.
  intros Hl Ha. unfold rd. rewrite Hl. case_bool_decide; [|done]. f_equal. apply list_eq. intros i.
  destruct (decide (i < n)%nat).
  - rewrite !lookup_take_lt, !lookup_drop by done. apply Ha. lia.
  - by rewrite !lookup_take_ge by lia.
Qed.

Lemma rd_ext off n buf off' buf' :
  0 ≤ off → off + Z.of_nat n ≤ Z.of_nat (length buf) →
  0 ≤ off' → off' + Z.of_nat n ≤ Z.of_nat (length buf') →
  (∀ i : nat, (i < n)%nat → buf !! (Z.to_nat off + i)%nat = buf' !! (Z.to_nat off' + i)%nat) →
  rd off n buf = rd off' n buf'.
Proof.
  intros ???? H. rewrite !rd_defined by done. f_equal.
  apply list_eq. intros i. destruct (decide (i < n)%nat).
  - rewrite !lookup_take_lt, !lookup_drop by done. by apply H.
  - by rewrite !lookup_take_ge by lia.
Qed.

Lemma rd_wr_same off bs buf buf' :
  wr off bs buf = Some buf' → rd off (length bs) buf' = Some bs.
Proof.
  intros Hw. pose proof (wr_length _ _ _ _ Hw). pose proof Hw as (? & ? & _)%wr_Some.
  rewrite rd_defined by lia. f_equal. apply list_eq. intros i.
  destruct (decide (i < length bs)%nat).
  - rewrite lookup_take_lt, lookup_drop, (wr_lookup _ _ _ _ _ Hw) by done.
    rewrite bool_decide_true by lia. f_equal. lia.
  - by rewrite lookup_take_ge, lookup_ge_None_2 by lia.
Qed.

Lemma rd_wr_ne off bs buf buf' off' n :
  wr off bs buf = Some buf' →
  (off' + Z.of_nat n ≤ off ∨ off + Z.of_nat (length bs) ≤ off') →
  rd off' n buf' = rd off' n buf.
Proof.
  intros Hw Hd. pose proof (wr_length _ _ _ _ Hw) as Hl.
  destruct (decide (0 ≤ off' ∧ off' + Z.of_nat n ≤ Z.of_nat (length buf))) as [Hr|Hr].
  - apply rd_ext; try lia. intros i Hi. rewrite (wr_lookup _ _ _ _ _ Hw).
    rewrite bool_decide_false by lia. done.
  - unfold rd. rewrite !bool_decide_false by lia. done.
Qed.

(** A load that stays in the first part of a buffer. *)
Lemma rd_app off n xs ys bs : rd off n xs = Some bs → rd off n (xs ++ ys) = Some bs.
Proof.
  intros (H0 & Hl & ->)%rd_Some. rewrite rd_defined by (rewrite ?length_app; lia).
  f_equal. rewrite drop_app_le by lia. rewrite take_app_le; [done|]. rewrite length_drop. lia.
Qed.

(** Restoring the bytes that a store overwrote undoes the store. *)
Lemma wr_restore off bs old buf buf' :
  wr off bs buf = Some buf' → rd off (length bs) buf = Some old →
  wr off old buf' = Some buf.
Proof.
  intros Hw Hr. pose proof (rd_length _ _ _ _ Hr) as Hlen.
  pose proof (wr_length _ _ _ _ Hw). pose proof Hw as (? & ? & _)%wr_Some.
  destruct (wr_defined off old buf') as [buf'' Hw']; [lia..|].
  rewrite Hw'. f_equal. apply list_eq. intros i.
  rewrite (wr_lookup _ _ _ _ _ Hw'), (wr_lookup _ _ _ _ _ Hw), Hlen.
  case_bool_decide; [|done].
  rewrite (rd_lookup _ _ _ _ _ Hr) by lia. f_equal. lia.
Qed.
Lemma wr_app off xs ys buf buf1 buf2 :
  wr off xs buf = Some buf1 → wr (off + Z.of_nat (length xs)) ys buf1 = Some buf2 →
  wr off (xs ++ ys) buf = Some buf2.
Proof.
  intros H1 H2. pose proof (wr_length _ _ _ _ H1). pose proof (wr_length _ _ _ _ H2).
  pose proof H1 as (? & ? & _)%wr_Some. pose proof H2 as (? & ? & _)%wr_Some.
  destruct (wr_defined off (xs ++ ys) buf) as [b Hb]; [done|rewrite length_app; lia|].
  rewrite Hb. f_equal. apply list_eq. intros i.
  rewrite (wr_lookup _ _ _ _ _ Hb), (wr_lookup _ _ _ _ _ H2), (wr_lookup _ _ _ _ _ H1), length_app.
  repeat case_bool_decide; try lia; try done.
  - rewrite lookup_app_r by lia. f_equal. lia.
  - by rewrite lookup_app_l by lia.
Qed.

Lemma wr16_length off v buf buf' : wr16 off v buf = Some buf' → length buf' = length buf.
Proof. apply wr_length. Qed.

Lemma wr16_bytes_ok off v buf buf' : bytes_ok buf → wr16 off v buf = Some buf' → bytes_ok buf'.
Proof. intros Hb. apply wr_bytes_ok; [done | apply le_bytes_ok]. Qed.

Lemma rd_wr16_ne off v buf buf' off' n :
  wr16 off v buf = Some buf' → (off' + Z.of_nat n ≤ off ∨ off + 2 ≤ off') →
  rd off' n buf' = rd off' n buf.
Proof. intros Hw Hd. apply (rd_wr_ne _ _ _ _ _ _ Hw). by rewrite length_le_bytes. Qed.
End Buffers.

#[export] Hint Resolve le_bytes_ok bytes_ok_rev u8_range u16_range u32_range : words.
