(* ===== verification/Settings.v ===== *)
(** * Compile-time settings (src/settings.h, src/protocol.h, src/packet.h,
    src/crypto.h) *)

From S2P Require Import Prelude Words.

(** ** Timeouts and thresholds, src/settings.h *)
Definition GATE_PRINT_TIME : Z := 30.
Definition LARGE_TIMEBASE_CHANGE : Z := 5.
Definition CONNECT_WAIT_TIME : Z := 60.
Definition MAX_UPDATE_TIME : Z := 180.
Definition MIN_PING_TIME : Z := 5.
Definition MAX_PING_TIME : Z := 30.
Definition MIN_VALID_IP_PROP : Z := 20.
Definition NAT_CLEAN_TIME : Z := 20.
Definition NAT_OLD_CONN_TIME : Z := 120.
Definition SEQ_NUM_WRAP_ALLOWANCE : Z := 10.

(** ** Sizes *)
Definition MAX_NAME_SIZE : nat := 10.
Definition MAX_CONF_LINE : nat := 300.
Definition RSA_SIG_SIZE : nat := 128.
Definition AES_KEY_SIZE : nat := 32.
Definition AES_BLOCK_SIZE : nat := 16.
Definition HOP_KEY_SIZE : nat := 16.
Definition SHA1_HASH_SIZE : nat := 20.
Definition HMAC_SIZE : nat := 20.
Definition ADDR_SIZE : nat := 4.
Definition ETH_ALEN : nat := 6.
Definition LINK_LAYER_SIZE : Z := 14.

(** ** Protocol numbers *)
Definition ICMP_PROTO : Z := 1.
Definition TCP_PROTO : Z := 6.
Definition UDP_PROTO : Z := 17.
Definition ARG_PROTO : Z := 253.

(** The message types of src/protocol.h, in the enumeration's order. *)
Definition ARG_WRAPPED_MSG : Z := 0.
Definition ARG_PING_MSG : Z := 1.
Definition ARG_CONN_DATA_RESP_MSG : Z := 2.
Definition ARG_CONN_DATA_REQ_MSG : Z := 3.
Definition ARG_TRUST_DATA_MSG : Z := 4.

(** Sizes of the wire structures of src/protocol.h; [sizeof] on this host. *)
Definition ARG_HDR_LEN : Z := 136.
Definition sizeof_conn_data : Z := 68.
Definition sizeof_trust_data : Z := 158.
Definition sizeof_ping_data : Z := 12.
