(* ===== verification/Utility.v ===== *)
(** * Time arithmetic and byte masks (src/utility.c)

    [timespec] values, the millisecond differences between them, and the
    masking of byte arrays.  Logging (src/utility.c, [arglog] and friends) is
    output only and is not modelled. *)

From S2P Require Import Prelude Words.

Record timespec := Timespec { tv_sec : Z; tv_nsec : Z }.
#[export] Instance timespec_eta : Eta timespec :=
  λ t, Timespec (tv_sec t) (tv_nsec t).
#[export] Instance timespec_eq_dec : EqDecision timespec.
Proof. solve_decision. Defined.

(** [time_offset begin end]: milliseconds from [begin] to [end].  C's division
    truncates; both dividends are non-negative where it is applied. *)
Definition time_offset (begin fin : timespec) : Z :=
  let diff := 1000 * (tv_sec fin - tv_sec begin) in
  if decide (tv_nsec fin > tv_nsec begin)
  then diff + Z.quot (tv_nsec fin - tv_nsec begin) 1000000
  else diff - Z.quot (tv_nsec begin - tv_nsec fin) 1000000.

(** [time_plus ts ms]: [ts] moved by [ms] milliseconds ([ms] is an [int]). *)
Definition time_plus (ts : timespec) (ms : Z) : timespec :=
  if decide (ms = 0) then ts else
  let ts := ts <| tv_sec ::= (λ s, s + Z.quot ms 1000) |> in
  let ts := ts <| tv_nsec ::= (λ n, n + Z.rem ms 1000 * 1000000) |> in
  if decide (tv_nsec ts > 1000000000)
  then ts <| tv_sec ::= Z.succ |> <| tv_nsec ::= (λ n, n - 1000000000) |>
  else ts.

(** [mask_array len orig mask]: the [result] array. *)
Fixpoint mask_array (len : nat) (orig mask : list Z) : list Z :=
  match len, orig, mask with
  | S len, o :: orig, m :: mask => Z.land o m :: mask_array len orig mask
  | _, _, _ => []
  end.

(** [mask_array_cmp len mask left right]: 0 when the masked arrays agree. *)
Fixpoint mask_array_cmp (len : nat) (mask lhs rhs : list Z) : Z :=
  match len, mask, lhs, rhs with
  | S len, m :: mask, l :: lhs, r :: rhs =>
      if decide (Z.land l m ≠ Z.land r m) then 1
      else mask_array_cmp len mask lhs rhs
  | _, _, _, _ => 0
  end.

(** ** Time *)

Definition NS : Z := 1000000000.

(** The instant a [timespec] denotes, in nanoseconds. *)
Definition nanos (t : timespec) : Z := tv_sec t * NS + tv_nsec t.

(** The form POSIX requires of a [timespec]. *)
Definition normal (t : timespec) : Prop := 0 ≤ tv_nsec t < NS.

#[export] Instance normal_dec t : Decision (normal t).
Proof. unfold normal. apply _. Defined.

Lemma quot_bounds a : 0 ≤ a → 0 ≤ a - 1000000 * Z.quot a 1000000 < 1000000.
Proof.
  intros. pose proof (Z.quot_rem' a 1000000).
  pose proof (Z.rem_bound_pos a 1000000 ltac:(done) ltac:(done)). quot_lia.
Qed.

Lemma time_offset_antisym b e : time_offset b e = - time_offset e b.
Proof.
  unfold time_offset. repeat case_decide; try quot_lia.
  replace (tv_nsec e) with (tv_nsec b) by lia.
  rewrite Z.sub_diag. change (Z.quot 0 1000000) with 0. lia.
Qed.

Lemma time_offset_refl t : time_offset t t = 0.
Proof. pose proof (time_offset_antisym t t). lia. Qed.

Lemma time_offset_error b e : Z.abs (1000000 * time_offset b e - (nanos e - nanos b)) < 1000000.
Proof.
  unfold time_offset, nanos, NS. case_decide as H.
  - pose proof (quot_bounds (tv_nsec e - tv_nsec b)). quot_lia.
  - pose proof (quot_bounds (tv_nsec b - tv_nsec e)). quot_lia.
Qed.

Lemma time_plus_nanos ts ms : nanos (time_plus ts ms) = nanos ts + 1000000 * ms.
Proof.
  unfold time_plus, nanos, NS. case_decide; [lia|].
  pose proof (Z.quot_rem' ms 1000). case_decide; cbn in *; quot_lia.
Qed.

Lemma time_plus_range ts ms :
  normal ts → 0 ≤ ms → 0 ≤ tv_nsec (time_plus ts ms) ≤ NS.
Proof.
  unfold time_plus, normal, NS. intros [??] ?. case_decide; [lia|].
  pose proof (Z.rem_bound_pos ms 1000 ltac:(done) ltac:(done)).
  case_decide; cbn in *; quot_lia.
Qed.

(** ** Masks *)

Lemma length_mask_array len o m :
  (len ≤ length o)%nat → (len ≤ length m)%nat → length (mask_array len o m) = len.
Proof.
  revert o m. induction len as [|len IH]; intros [|x o] [|y m]; cbn; intros; try lia.
  rewrite IH; lia.
Qed.

Lemma mask_array_idem len o m :
  mask_array len (mask_array len o m) m = mask_array len o m.
Proof.
  revert o m. induction len as [|len IH]; intros [|x o] [|y m]; cbn; try done.
  by rewrite IH, <- Z.land_assoc, Z.land_diag.
Qed.

Lemma mask_array_cmp_spec len m l r :
  mask_array_cmp len m l r = 0 ↔
  ∀ i a x y, (i < len)%nat → m !! i = Some a → l !! i = Some x → r !! i = Some y →
    Z.land x a = Z.land y a.
Proof.
  split.
  - revert m l r. induction len as [|len IH]; [intros; lia|].
    intros m l r Hc [|i] a x y Hi Ha Hx Hy; destruct m, l, r; try done;
      cbn in *; case_decide as H; try done.
    + simplify_eq. by destruct (decide (Z.land x a = Z.land y a)).
    + eapply IH; eauto. lia.
  - revert m l r. induction len as [|len IH]; intros [|a m] [|x l] [|y r] H; cbn; try done.
    rewrite decide_False.
    + apply IH. intros i a' x' y' Hi. apply (H (S i)). lia.
    + intros Hne. apply Hne. apply (H 0%nat); [lia | done..].
Qed.

Lemma mask_array_cmp_sym len m l r :
  mask_array_cmp len m l r = 0 → mask_array_cmp len m r l = 0.
Proof. rewrite !mask_array_cmp_spec. intros H **. symmetry. eauto. Qed.

Lemma mask_array_cmp_mask len m l :
  mask_array_cmp len m (mask_array len l m) l = 0.
Proof.
  revert m l. induction len as [|len IH]; intros [|a m] [|x l]; cbn; try done.
  rewrite <- Z.land_assoc, Z.land_diag, decide_False by (intros Hn; by apply Hn).
  apply IH.
Qed.

(** ** Properties *)

(** [time_offset] is exact to less than a millisecond on any two instants,
    and swapping its arguments negates it (the two truncations agree). *)
Theorem time_offset_accurate b e :
  Z.abs (1000000 * time_offset b e - (nanos e - nanos b)) < 1000000
  ∧ time_offset e b = - time_offset b e.
Proof. split; [apply time_offset_error | rewrite (time_offset_antisym b e); lia]. Qed.

(** [time_plus] moves an instant by exactly [ms] milliseconds, forwards or
    backwards, and [time_offset] measures that difference back. *)
Theorem time_plus_exact ts ms :
  nanos (time_plus ts ms) = nanos ts + 1000000 * ms
  ∧ time_offset ts (time_plus ts ms) = ms.
Proof.
  split; [apply time_plus_nanos|].
  pose proof (time_offset_error ts (time_plus ts ms)) as He.
  rewrite time_plus_nanos in He. lia.
Qed.

(** The result of [time_plus] need not be a normal [timespec]: moving back
    leaves negative nanoseconds, and a carry to exactly one second stays in
    the nanoseconds. *)
Theorem time_plus_not_normal :
  (∃ ts, normal ts ∧ ¬ normal (time_plus ts (-1)))
  ∧ (∃ ts, normal ts ∧ tv_nsec (time_plus ts 1) = NS).
Proof.
  split; [exists (Timespec 5 0) | exists (Timespec 5 999000000)]; vm_compute; intuition congruence.
Qed.
