(* ===== verification/ArgError.v ===== *)
(** * Error codes and their texts (src/arg_error.h, src/arg_error.c) *)

From stdpp Require Import strings.
From Stdlib Require Import Ascii.
From S2P Require Import Prelude Words.

(** errno values the project returns, Linux *)
Definition ENOMEM : Z := 12.

Definition ARG_MIN_ERROR : Z := 150.
Definition ARG_SEQ_BAD : Z := 150.
Definition ARG_UNHANDLED_TYPE : Z := 151.
Definition ARG_SIG_CHECK_FAILED : Z := 152.
Definition ARG_SIGNING_FAILED : Z := 153.
Definition ARG_DECRYPT_FAILED : Z := 154.
Definition ARG_ENCRYPT_FAILED : Z := 155.
Definition ARG_MSG_SIZE_BAD : Z := 156.
Definition ARG_MSG_UNEXPECTED : Z := 157.
Definition ARG_MSG_ID_BAD : Z := 158.
Definition ARG_PACKET_PARSE_ERROR : Z := 159.
Definition ARG_BUCKET_NOT_FOUND : Z := 160.
Definition ARG_ENTRY_NOT_FOUND : Z := 161.
Definition ARG_NOT_CONNECTED : Z := 162.
Definition ARG_CONFIG_BAD : Z := 163.
Definition ARG_INTERNAL_ERROR : Z := 164.

Definition MAX_ERROR_STR_LEN : nat := 35.

(** C strings as byte lists. *)
Definition bytes_of_string (s : string) : list Z :=
  List.map (λ c, Z.of_N (N_of_ascii c)) (String.list_ascii_of_string s).

(** The bytes of an array before its first zero byte. *)
Fixpoint until_nul (buf : list Z) : list Z :=
  match buf with
  | [] => []
  | b :: buf => if decide (b = 0) then [] else b :: until_nul buf
  end.

(** [strncpy dst src n]: the bytes of [src] up to its terminator, at most [n],
    padded with zeros to [n]; the rest of [dst] is unchanged. *)
Definition strncpy (dst src : list Z) (n : nat) : list Z :=
  let s := take n (until_nul src) in
  s ++ zeros (n - length s) ++ drop n dst.

(** The table of [arg_strerror_r]; [None] is the [default] label. *)
Definition arg_error_text (errnum : Z) : string := (
  if decide (errnum = - ARG_SEQ_BAD) then "sequence number incorrect"
  else if decide (errnum = - ARG_UNHANDLED_TYPE) then "unhandled message type"
  else if decide (errnum = - ARG_SIG_CHECK_FAILED) then "unable to verify sig"
  else if decide (errnum = - ARG_SIGNING_FAILED) then "signing failed"
  else if decide (errnum = - ARG_DECRYPT_FAILED) then "unable to decrypt"
  else if decide (errnum = - ARG_ENCRYPT_FAILED) then "unable to encrypt"
  else if decide (errnum = - ARG_MSG_SIZE_BAD) then "improper msg size"
  else if decide (errnum = - ARG_MSG_UNEXPECTED) then "msg unexpected"
  else if decide (errnum = - ARG_MSG_ID_BAD) then "msg identifier bad"
  else if decide (errnum = - ARG_PACKET_PARSE_ERROR) then "unable to parse packet"
  else if decide (errnum = - ARG_BUCKET_NOT_FOUND) then "NAT bucket not found"
  else if decide (errnum = - ARG_ENTRY_NOT_FOUND) then "NAT entry not found"
  else if decide (errnum = - ARG_NOT_CONNECTED) then "gateway not connected"
  else if decide (errnum = - ARG_CONFIG_BAD) then "problem in configuration"
  else if decide (errnum = - ARG_INTERNAL_ERROR) then "internal error"
  else "unknown reason")%string.

(** [arg_strerror_r errnum buf buflen]; [strerror_r] is the C library's, a
    function from an error number and the buffer to the new buffer. *)
Definition arg_strerror_r (strerror_r : Z → list Z → Z → list Z)
    (errnum : Z) (buf : list Z) (buflen : nat) : list Z :=
  if decide (- errnum < ARG_MIN_ERROR)
  then strerror_r (- errnum) buf (Z.of_nat buflen - 1)
  else strncpy buf (bytes_of_string (arg_error_text errnum)) (buflen - 1).

Definition arg_errors : list Z :=
  [ARG_SEQ_BAD; ARG_UNHANDLED_TYPE; ARG_SIG_CHECK_FAILED; ARG_SIGNING_FAILED;
   ARG_DECRYPT_FAILED; ARG_ENCRYPT_FAILED; ARG_MSG_SIZE_BAD; ARG_MSG_UNEXPECTED;
   ARG_MSG_ID_BAD; ARG_PACKET_PARSE_ERROR; ARG_BUCKET_NOT_FOUND;
   ARG_ENTRY_NOT_FOUND; ARG_NOT_CONNECTED; ARG_CONFIG_BAD; ARG_INTERNAL_ERROR].


Lemma until_nul_app s rest :
  Forall (λ b, b ≠ 0) s → until_nul (s ++ 0 :: rest) = s.
Proof.
  induction 1 as [|b s Hb _ IH]; cbn; [done|].
  rewrite decide_False by done. by rewrite IH.
Qed.

Lemma until_nul_no_nul s : Forall (λ b, b ≠ 0) s → until_nul s = s.
Proof.
  induction 1 as [|b s Hb _ IH]; cbn; [done|].
  rewrite decide_False by done. by rewrite IH.
Qed.

(** A string that fits strictly is stored with a terminator. *)
Lemma strncpy_until_nul dst src n :
  Forall (λ b, b ≠ 0) src → (length src < n)%nat →
  until_nul (strncpy dst src n) = src.
Proof.
  intros Hs Hl. unfold strncpy. rewrite (until_nul_no_nul src), take_ge by (done || lia).
  destruct (n - length src)%nat as [|k] eqn:E; [lia|]. by apply until_nul_app.
Qed.

Lemma length_strncpy dst src n :
  (n ≤ length dst)%nat → length (strncpy dst src n) = length dst.
Proof.
  intros. unfold strncpy, zeros.
  rewrite !length_app, length_replicate, !length_take, length_drop. lia.
Qed.

(** The texts have no zero byte and leave room for the terminator. *)
Lemma arg_error_text_fits e :
  e ∈ arg_errors →
  Forall (λ b, b ≠ 0) (bytes_of_string (arg_error_text (- e)))
  ∧ (length (bytes_of_string (arg_error_text (- e))) < MAX_ERROR_STR_LEN - 1)%nat.
Proof.
  intros He. unfold arg_errors in He.
  repeat (apply elem_of_cons in He as [->|He]; [by vm_compute; split; [repeat constructor|lia]|]).
  by apply elem_of_nil in He.
Qed.

(** Every error code of the project gets its own terminated text from
    [arg_strerror_r]: the text reads back complete, and two codes with the
    same text are the same code. *)
Theorem arg_strerror_distinct strerror_r buf e1 e2 :
  e1 ∈ arg_errors → e2 ∈ arg_errors → length buf = MAX_ERROR_STR_LEN →
  until_nul (arg_strerror_r strerror_r (- e1) buf MAX_ERROR_STR_LEN)
    = bytes_of_string (arg_error_text (- e1))
  ∧ (arg_strerror_r strerror_r (- e1) buf MAX_ERROR_STR_LEN
     = arg_strerror_r strerror_r (- e2) buf MAX_ERROR_STR_LEN → e1 = e2).
Proof.
  intros H1 H2 Hl.
  assert (∀ e, e ∈ arg_errors →
    until_nul (arg_strerror_r strerror_r (- e) buf MAX_ERROR_STR_LEN)
    = bytes_of_string (arg_error_text (- e))) as Htext.
  { intros e He. unfold arg_strerror_r. rewrite decide_False.
    - destruct (arg_error_text_fits e He). by apply strncpy_until_nul.
    - unfold arg_errors in He.
      repeat (apply elem_of_cons in He as [->|He]; [by vm_compute|]). by apply elem_of_nil in He. }
  split; [by apply Htext|]. intros Heq%(f_equal until_nul). rewrite !Htext in Heq by done.
  assert (NoDup ((λ e, bytes_of_string (arg_error_text (- e))) <$> arg_errors)) as Hnd
    by (apply (bool_decide_unpack _); by vm_compute).
  apply list_elem_of_lookup in H1 as [i1 Hi1], H2 as [i2 Hi2].
  assert (i1 = i2) as ->; [|congruence].
  eapply NoDup_lookup; [exact Hnd|by rewrite list_lookup_fmap, Hi1|].
  rewrite list_lookup_fmap, Hi2. cbn. by rewrite Heq.
Qed.

Lemma arg_strerror_distinct_witness :
  until_nul (arg_strerror_r (λ _ b _, b) (- ARG_SEQ_BAD) (zeros 35) MAX_ERROR_STR_LEN)
    = bytes_of_string (arg_error_text (- ARG_SEQ_BAD))
  ∧ (arg_strerror_r (λ _ b _, b) (- ARG_SEQ_BAD) (zeros 35) MAX_ERROR_STR_LEN
     = arg_strerror_r (λ _ b _, b) (- ARG_CONFIG_BAD) (zeros 35) MAX_ERROR_STR_LEN →
     ARG_SEQ_BAD = ARG_CONFIG_BAD).
Proof.
  apply (arg_strerror_distinct (λ _ b _, b) (zeros 35) ARG_SEQ_BAD ARG_CONFIG_BAD);
    [apply (bool_decide_unpack _); by vm_compute
    | apply (bool_decide_unpack _); by vm_compute | done].
Defined.
