(* ===== verification/CString.v ===== *)
(** * C strings, numbers and files, as src/settings.c uses them

    The functions of the C library that the configuration reader calls, on byte
    lists: a string in an array ends at its first zero byte, and reading one
    that does not end is undefined ([None]).  An open file is the list of bytes
    that are still to be read. *)

From S2P Require Import Prelude Words ArgError.

(** Character codes. *)
Definition NL : Z := 10.
Definition CR : Z := 13.
Definition SLASH : Z := 47.
Definition BACKSLASH : Z := 92.
Definition DOT : Z := 46.
Definition MINUS : Z := 45.
Definition PLUS : Z := 43.

(** The string in an array. *)
Definition cstr (buf : list Z) : option (list Z) :=
  if decide (0 ∈ buf) then Some (until_nul buf) else None.

(** [strrchr s c]: the position of the last [c]. *)
Definition strrchr (s : list Z) (c : Z) : option nat :=
  (λ i, length s - 1 - i)%nat <$> (list_find (λ x, x = c) (rev s) ≫= λ p, Some p.1).

(** [strncmp a b n == 0], for arrays of at least [n] bytes. *)
Definition strncmp_same (n : nat) (a b : list Z) : bool :=
  bool_decide (until_nul (take n a) = until_nul (take n b)).

(** [snprintf buf n], for a format that only joins strings: what [buf] holds. *)
Definition snprintf_cat (n : nat) (pieces : list (list Z)) : list Z :=
  take (n - 1) (concat pieces).

(** ** Numbers *)

Definition is_digit (c : Z) : bool := bool_decide (48 ≤ c ≤ 57).
Definition is_space (c : Z) : bool := bool_decide (c = 32 ∨ 9 ≤ c ≤ 13).

Fixpoint digits_val (acc : Z) (s : list Z) : Z :=
  match s with
  | [] => acc
  | c :: s => if is_digit c then digits_val (acc * 10 + (c - 48)) s else acc
  end.
Definition LONG_MAX : Z := 2 ^ 63 - 1.
Definition LONG_MIN : Z := - 2 ^ 63.
Definition clamp_long (v : Z) : Z := Z.max LONG_MIN (Z.min LONG_MAX v).
Fixpoint skip_space (s : list Z) : list Z :=
  match s with
  | [] => []
  | c :: s' => if is_space c then skip_space s' else s
  end.
Definition atol (s : list Z) : Z :=
  match skip_space s with
  | [] => 0
  | c :: s' =>
      if decide (c = MINUS) then clamp_long (- digits_val 0 s')
      else if decide (c = PLUS) then clamp_long (digits_val 0 s')
      else clamp_long (digits_val 0 (c :: s'))
  end.

(** ** Addresses: four decimal octets *)

Fixpoint pton (s : list Z) (octets : list Z) (cur : option Z) : option (list Z) :=
  match s with
  | [] =>
      match cur with
      | Some v => if decide (length octets = 3)%nat then Some (octets ++ [v]) else None
      | None => None
      end
  | c :: s =>
      if is_digit c then
        match cur with
        | None => pton s octets (Some (c - 48))
        | Some v =>
            if decide (v = 0 ∨ v * 10 + (c - 48) > 255) then None
            else pton s octets (Some (v * 10 + (c - 48)))
        end
      else if decide (c = DOT) then
        match cur with
        | Some v => if decide (length octets = 3)%nat then None else pton s (octets ++ [v]) None
        | None => None
        end
      else None
  end.

(** [inet_pton AF_INET s dst]: [dst] is unchanged when [s] is no address. *)
Definition inet_pton (s dst : list Z) : list Z := default dst (pton s [] None).

(** ** Reading a file *)

Abbreviation stream := (list Z).

(** What is read up to and with the next newline, at most [n] bytes. *)
Fixpoint take_line (n : nat) (f : stream) : list Z * stream :=
  match n, f with
  | O, _ => ([], f)
  | _, [] => ([], [])
  | S n, c :: f =>
      if decide (c = NL) then ([c], f)
      else let '(l, f) := take_line n f in (c :: l, f)
  end.

(** [fgets line max f]: [None] is NULL, at the end of the file. *)
Definition fgets (max : nat) (line : list Z) : proc stream (option (list Z)) :=
  f ← gets id;
  match f with
  | [] => mret None
  | _ =>
      let '(s, f') := take_line (max - 1) f in
      modify (λ _, f');;
      line ← lift_opt (wr 0 (s ++ [0]) line);
      mret (Some line)
  end.

(** A file that is opened, read by [m] and closed. *)
Definition with_stream {S A} (f : stream) (m : proc stream A) : proc S A := λ s,
  match m f with
  | Done a _ => Done a s
  | Fault => Fault
  | Stuck => Stuck
  | Exited => Exited
  end.

Example atol_ex : atol [32; 45; 49; 50; 48; 120] = -120.
Proof. reflexivity. Qed.
Example pton_ex : pton [49; 48; 46; 49; 46; 50; 53; 53; 46; 48] [] None = Some [10; 1; 255; 0].
Proof. reflexivity. Qed.
Example strrchr_ex : strrchr [47; 97; 47; 98] SLASH = Some 2%nat ∧ strrchr [97] SLASH = None.
Proof. split; reflexivity. Qed.
