(* ===== verification/Text.v ===== *)
(** * Numbers and addresses as text

    What the C library's [printf] writes for the conversions the program uses
    ([%i], [%lu], [%02x], [%0Nx], [%Ni]), and [inet_ntop]. *)

From stdpp Require Import strings.
From S2P Require Import Prelude Words Settings ArgError CString.

(** Pieces of text. *)
Abbreviation str s := (bytes_of_string s%string).

Definition INET_ADDRSTRLEN : nat := 16.

(** ** Numbers *)

(** 20 digits are enough for 64 bits. *)
Fixpoint dec_digits (fuel : nat) (n : Z) : list Z :=
  match fuel with
  | O => []
  | S fuel => (if decide (n < 10) then [] else dec_digits fuel (n / 10)) ++ [48 + n mod 10]
  end.
(** [%i], [%lu] *)
Definition dec (n : Z) : list Z :=
  if decide (n < 0) then 45 :: dec_digits 20 (- n) else dec_digits 20 n.

Definition hex_digit (d : Z) : Z := if decide (d < 10) then 48 + d else 87 + d.
Fixpoint hex_digits (fuel : nat) (n : Z) : list Z :=
  match fuel with
  | O => []
  | S fuel => (if decide (n < 16) then [] else hex_digits fuel (n / 16)) ++ [hex_digit (n mod 16)]
  end.

(** A minimal field width. *)
Definition pad (c : Z) (width : nat) (s : list Z) : list Z := replicate (width - length s) c ++ s.
(** [%0Nx] of a 32-bit number. *)
Definition hex (width : nat) (n : Z) : list Z := pad 48 width (hex_digits 8 n).

(** ** Addresses as text *)

(** The decimal digits of a byte. *)
Definition octet_text (b : Z) : list Z :=
  (if decide (b < 100) then [] else [48 + b / 100])
  ++ (if decide (b < 10) then [] else [48 + b / 10 mod 10]) ++ [48 + b mod 10].

Fixpoint join_octets (bs : list Z) : list Z :=
  match bs with
  | [] => []
  | [b] => octet_text b
  | b :: bs => octet_text b ++ [DOT] ++ join_octets bs
  end.
(** [inet_ntop AF_INET ip]: the string. *)
Definition inet_ntop (ip : list Z) : list Z := join_octets ip.

(** ** Lengths *)

Lemma length_dec_digits fuel k n :
  0 ≤ n < 10 ^ Z.of_nat (S k) → (length (dec_digits fuel n) ≤ S k)%nat.
Proof.
  revert k n. induction fuel as [|fuel IH]; intros k n Hn; [cbn; lia|].
  cbn [dec_digits]. rewrite length_app. cbn [length]. case_decide as Hs; [cbn; lia|].
  destruct k as [|k]; [change (10 ^ Z.of_nat 1) with 10 in Hn; lia|].
  enough (length (dec_digits fuel (n / 10)) ≤ S k)%nat by lia.
  apply IH. split; [apply Z.div_pos; lia|]. apply Z.div_lt_upper_bound; [lia|].
  rewrite <- Z.pow_succ_r by lia. replace (Z.succ (Z.of_nat (S k))) with (Z.of_nat (S (S k))) by lia. lia.
Qed.

(** [10 ^ 5 = 100000], and the like. *)
Lemma length_dec k n : 0 ≤ n < 10 ^ Z.of_nat (S k) → (length (dec n) ≤ S k)%nat.
Proof. intros Hn. unfold dec. rewrite decide_False by lia. by apply length_dec_digits. Qed.

Lemma length_hex_digits fuel k n :
  0 ≤ n < 16 ^ Z.of_nat (S k) → (length (hex_digits fuel n) ≤ S k)%nat.
Proof.
  revert k n. induction fuel as [|fuel IH]; intros k n Hn; [cbn; lia|].
  cbn [hex_digits]. rewrite length_app. cbn [length]. case_decide as Hs; [cbn; lia|].
  destruct k as [|k]; [change (16 ^ Z.of_nat 1) with 16 in Hn; lia|].
  enough (length (hex_digits fuel (n / 16)) ≤ S k)%nat by lia.
  apply IH. split; [apply Z.div_pos; lia|]. apply Z.div_lt_upper_bound; [lia|].
  rewrite <- Z.pow_succ_r by lia. replace (Z.succ (Z.of_nat (S k))) with (Z.of_nat (S (S k))) by lia. lia.
Qed.

Lemma length_hex width n :
  0 ≤ n < 16 ^ Z.of_nat (S width) → length (hex (S width) n) = S width.
Proof.
  intros Hn. unfold hex, pad. rewrite length_app, length_replicate.
  pose proof (length_hex_digits 8 width n Hn). lia.
Qed.

(** ** Text of addresses *)

(** Digits and dots. *)
Definition address_char (c : Z) : Prop := c = DOT ∨ 48 ≤ c < 58.

Lemma octet_text_ok b : is_byte b → Forall address_char (octet_text b) ∧ (length (octet_text b) ≤ 3)%nat.
Proof.
  intros Hb. split.
  - unfold octet_text. pose proof (Z.mod_pos_bound b 10 ltac:(done)). pose proof (Z.mod_pos_bound (b / 10) 10 ltac:(done)).
    assert (0 ≤ b / 100 < 10) by (split; [by apply Z.div_pos; lia|by apply Z.div_lt_upper_bound; lia]).
    repeat apply Forall_app_2; repeat case_decide; try apply Forall_nil_2;
      (apply Forall_cons_2; [right; lia|apply Forall_nil_2]).
  - unfold octet_text. by repeat case_decide; cbn; lia.
Qed.

Lemma inet_ntop_ok ip :
  bytes_ok ip → length ip = 4%nat →
  Forall address_char (inet_ntop ip) ∧ (length (inet_ntop ip) < INET_ADDRSTRLEN)%nat.
Proof.
  intros Hip Hl. destruct ip as [|a [|b [|c [|d [|]]]]]; try done.
  repeat (apply Forall_cons in Hip as [?%octet_text_ok Hip]).
  unfold inet_ntop. cbn [join_octets]. split.
  - assert (Forall address_char [DOT]) by (apply Forall_cons_2; [by left|apply Forall_nil_2]).
    destruct H as [? _], H0 as [? _], H1 as [? _], H2 as [? _].
    do 6 (apply Forall_app_2; [done|]). done.
  - rewrite !length_app. unfold INET_ADDRSTRLEN. cbn [length]. lia.
Qed.
