(* ===== verification/Crypto.v ===== *)
(** * Cryptographic primitives and one-time passwords (src/crypto.c)

    PolarSSL is not part of the repository: its functions are the operations of
    the class [PolarSSL], and what the gateway relies on is stated by the class
    [PolarSSL_ok] (documented behaviour: digest sizes, CTR mode XORs a key
    stream, PKCS#1 decryption and verification undo encryption and signing).
    [hotp] and [totp] are translated from src/crypto.c. *)

From S2P Require Import Prelude Words Settings.

(** The fields of PolarSSL's [rsa_context] that hold a key. *)
Record rsa_context := RSA {
  rsa_len : Z;
  rsa_N : Z; rsa_E : Z;
  rsa_D : Z; rsa_P : Z; rsa_Q : Z; rsa_DP : Z; rsa_DQ : Z; rsa_QP : Z }.
#[export] Instance rsa_context_eta : Eta rsa_context := λ r,
  RSA (rsa_len r) (rsa_N r) (rsa_E r) (rsa_D r) (rsa_P r) (rsa_Q r)
    (rsa_DP r) (rsa_DQ r) (rsa_QP r).
Definition rsa_zero : rsa_context := RSA 0 0 0 0 0 0 0 0 0.

Class PolarSSL := {
  sha1 : list Z → list Z;
  sha1_hmac : list Z → list Z → list Z;
  md_context : Type;
  md_init : md_context;
  md_hmac_starts : md_context → list Z → md_context;
  md_hmac_update : md_context → list Z → md_context;
  md_hmac_finish : md_context → list Z * md_context;
  cipher_context : Type;
  cipher_init : cipher_context;
  cipher_setkey : cipher_context → list Z → Z → cipher_context;
  cipher_reset : cipher_context → list Z → cipher_context;
  cipher_get_block_size : cipher_context → Z;
  cipher_update : cipher_context → list Z → list Z * cipher_context;
  ctr_drbg_context : Type;
  ctr_drbg_zero : ctr_drbg_context;
  rsa_pkcs1_encrypt : rsa_context → ctr_drbg_context → list Z → Z * list Z * ctr_drbg_context;
  rsa_pkcs1_decrypt : rsa_context → list Z → Z → Z * list Z;
  rsa_pkcs1_sign : rsa_context → list Z → Z * list Z;
  rsa_pkcs1_verify : rsa_context → list Z → list Z → Z;
  rsa_check_privkey : rsa_context → Z;
  mpi_write_binary : Z → nat → Z * list Z;
  mpi_read_binary : list Z → Z * Z;
  mpi_msb : Z → Z }.

(** The size of a key in bytes, and the smallest that PKCS#1 v1.5 can sign a SHA1
    hash with. *)
Definition key_size `{PolarSSL} (r : rsa_context) : Z := Z.shiftr (mpi_msb (rsa_N r) + 7) 3.
Definition SHA1_SIG_MIN : Z := 46.

(** A private key and the public key that belongs to it. *)
Definition rsa_pair `{PolarSSL} (pub priv : rsa_context) : Prop :=
  rsa_N pub = rsa_N priv ∧ rsa_E pub = rsa_E priv ∧ rsa_len pub = rsa_len priv
  ∧ rsa_check_privkey priv = 0 ∧ rsa_len priv = key_size priv ∧ SHA1_SIG_MIN ≤ rsa_len priv.

Definition xor_bytes (xs ys : list Z) : list Z := zip_with Z.lxor xs ys.

Class PolarSSL_ok `(P : PolarSSL) := {
  sha1_length m : length (sha1 m) = SHA1_HASH_SIZE;
  sha1_hmac_length k m : length (sha1_hmac k m) = HMAC_SIZE;
  sha1_hmac_bytes k m : bytes_ok (sha1_hmac k m);
  (** HMAC is a function of key and message, whatever the context held *)
  md_hmac : list Z → list Z → list Z;
  md_hmac_length k m : length (md_hmac k m) = 32%nat;
  md_hmac_bytes k m : bytes_ok (md_hmac k m);
  md_hmac_ok c k m :
    (md_hmac_finish (md_hmac_update (md_hmac_starts c k) m)).1 = md_hmac k m;
  (** CTR mode: position [p] of the stream for a key and an IV *)
  keystream : list Z → list Z → nat → Z;
  keystream_byte k iv p : is_byte (keystream k iv p);
  keyed : cipher_context → list Z → Prop;
  streaming : cipher_context → list Z → list Z → nat → Prop;
  cipher_setkey_ok c k n : n = 8 * Z.of_nat (length k) → keyed (cipher_setkey c k n) k;
  cipher_reset_ok c k iv : keyed c k → streaming (cipher_reset c iv) k iv 0;
  streaming_keyed c k iv p : streaming c k iv p → keyed c k;
  cipher_block_ok c k : keyed c k → cipher_get_block_size c = Z.of_nat AES_BLOCK_SIZE;
  cipher_update_ok c k iv p d :
    streaming c k iv p →
    (cipher_update c d).1 = xor_bytes d (keystream k iv <$> seq p (length d))
    ∧ streaming (cipher_update c d).2 k iv (p + length d);
  (** PKCS#1 v1.5 with a matching pair of keys *)
  rsa_encrypt_ok pub priv rng m :
    rsa_pair pub priv → bytes_ok m → Z.of_nat (length m) ≤ rsa_len pub - 11 →
    ∃ ct rng', rsa_pkcs1_encrypt pub rng m = (0, ct, rng')
      ∧ Z.of_nat (length ct) = rsa_len pub ∧ bytes_ok ct
      ∧ ∀ max, Z.of_nat (length m) ≤ max → rsa_pkcs1_decrypt priv ct max = (0, m);
  rsa_sign_ok pub priv h :
    rsa_pair pub priv → length h = SHA1_HASH_SIZE →
    ∃ sig, rsa_pkcs1_sign priv h = (0, sig)
      ∧ Z.of_nat (length sig) = rsa_len priv ∧ bytes_ok sig
      ∧ rsa_pkcs1_verify pub h sig = 0;
  mpi_write_ok x n :
    0 ≤ x < 2 ^ (8 * Z.of_nat n) → mpi_write_binary x n = (0, rev (le_bytes n x));
  mpi_read_ok bs : bytes_ok bs → mpi_read_binary bs = (0, le_val (rev bs));
  mpi_msb_ok x : 0 < x → mpi_msb x = Z.log2 x + 1 }.

Section OneTimePasswords.
Context `{PolarSSL}.

(** [hotp key klen count]: [None] is a read outside [hmac_result]. *)
Definition hotp (key : list Z) (klen : nat) (count : Z) : option Z :=
  let hmac_result := sha1_hmac (take klen key) (le_bytes 8 count) in
  last_byte ← hmac_result !! (HMAC_SIZE - 1)%nat;
  let offset := Z.to_nat (Z.land last_byte 15) in
  b0 ← hmac_result !! offset;
  b1 ← hmac_result !! (offset + 1)%nat;
  b2 ← hmac_result !! (offset + 2)%nat;
  b3 ← hmac_result !! (offset + 3)%nat;
  Some (Z.lor (Z.lor (Z.lor
    (Z.shiftl (Z.land b0 127) 24) (Z.shiftl (Z.land b1 255) 16))
    (Z.shiftl (Z.land b2 255) 8)) (Z.land b3 255)).

(** [totp key klen step time]; [time] and [step] are [unsigned long]. *)
Definition totp (key : list Z) (klen : nat) (step time : Z) : option Z :=
  let step := if decide (step = 0) then 1 else step in
  hotp key klen (time / step).
End OneTimePasswords.

(** ** The one-time password is always defined and fits in 31 bits *)

Lemma lor_range n a b : 0 ≤ n → 0 ≤ a < 2 ^ n → 0 ≤ b < 2 ^ n → 0 ≤ Z.lor a b < 2 ^ n.
Proof.
  intros Hn Ha Hb. split; [apply Z.lor_nonneg; lia|].
  destruct (decide (a = 0)) as [->|]; [by rewrite Z.lor_0_l; lia|].
  destruct (decide (b = 0)) as [->|]; [by rewrite Z.lor_0_r; lia|].
  assert (0 < Z.lor a b).
  { assert (0 ≤ Z.lor a b) by (apply Z.lor_nonneg; lia).
    assert (Z.lor a b ≠ 0) by (rewrite Z.lor_eq_0_iff; lia). lia. }
  apply Z.log2_lt_pow2; [done|]. rewrite Z.log2_lor by lia.
  apply Z.max_lub_lt; apply Z.log2_lt_pow2; lia.
Qed.

Lemma shiftl_land_range b n k m :
  0 ≤ n → 0 ≤ k → n + k ≤ m → 0 ≤ Z.shiftl (Z.land b (Z.ones n)) k < 2 ^ m.
Proof.
  intros ???. rewrite Z.land_ones, Z.shiftl_mul_pow2 by done.
  pose proof (Z.mod_pos_bound b (2 ^ n) ltac:(lia)).
  assert (2 ^ n * 2 ^ k ≤ 2 ^ m) by (rewrite <- Z.pow_add_r by done; apply Z.pow_le_mono_r; lia).
  nia.
Qed.

Section OneTimePasswordsOk.
Context `{Hok : PolarSSL_ok}.

Lemma hotp_defined key klen count :
  ∃ r, hotp key klen count = Some r ∧ 0 ≤ r < 2 ^ 31.
Proof.
  unfold hotp. set (h := sha1_hmac _ _).
  assert (length h = 20%nat) as Hl by apply sha1_hmac_length.
  destruct (lookup_lt_is_Some_2 h (HMAC_SIZE - 1)) as [lb ->]; [rewrite Hl; unfold HMAC_SIZE; lia|].
  cbn. assert (0 ≤ Z.land lb 15 < 16) as Ho.
  { change 15 with (Z.ones 4). rewrite Z.land_ones by done. by apply Z.mod_pos_bound. }
  remember (Z.to_nat (Z.land lb 15)) as o. assert (o < 16)%nat by lia.
  destruct (lookup_lt_is_Some_2 h o) as [b0 ->]; [lia|].
  destruct (lookup_lt_is_Some_2 h (o + 1)) as [b1 ->]; [lia|].
  destruct (lookup_lt_is_Some_2 h (o + 2)) as [b2 ->]; [lia|].
  destruct (lookup_lt_is_Some_2 h (o + 3)) as [b3 ->]; [lia|].
  cbn -[Z.pow]. eexists. split; [done|]. change 127 with (Z.ones 7). change 255 with (Z.ones 8).
  rewrite <- (Z.shiftl_0_r (Z.land b3 _)).
  repeat apply lor_range; try done; by apply shiftl_land_range.
Qed.

Lemma totp_defined key klen step time :
  ∃ r, totp key klen step time = Some r ∧ 0 ≤ r < 2 ^ 31.
Proof. apply hotp_defined. Qed.
End OneTimePasswordsOk.
