(* ===== verification/Packet.v ===== *)
(** * Packets: parsing, ports and checksums (src/packet.c, src/packet.h)

    A [packet_data] owns a buffer [p_data]; the header pointers of the C struct
    point into that buffer and are offsets here ([None] is NULL).  The pure
    functions return [None] when the C code would read or write outside the
    buffer or dereference NULL.  [tstamp] is never read and is left out. *)

From S2P Require Import Prelude Words Settings ArgError.

Definition sizeof_ethhdr : Z := 14.
Definition sizeof_ether_arp : Z := 28.
Definition sizeof_udphdr : Z := 8.
Definition sizeof_icmphdr : Z := 8.
Definition ETH_P_IP : Z := 2048.
Definition ETH_P_ARP : Z := 2054.

Record packet_data := Packet {
  p_len : Z;
  p_linkLayerLen : Z;
  p_eth : option Z; p_ipv4 : option Z; p_tcp : option Z; p_udp : option Z;
  p_icmp : option Z; p_arp : option Z; p_arg : option Z;
  p_unknown_data : option Z; p_unknown_len : Z;
  p_data : list Z }.
#[export] Instance packet_data_eta : Eta packet_data := λ p,
  Packet (p_len p) (p_linkLayerLen p) (p_eth p) (p_ipv4 p) (p_tcp p) (p_udp p)
    (p_icmp p) (p_arp p) (p_arg p) (p_unknown_data p) (p_unknown_len p) (p_data p).
#[export] Instance packet_data_eq_dec : EqDecision packet_data.
Proof. solve_decision. Defined.

(** Fields of the headers, at their offsets; bit fields are low bits first. *)
Definition ip_ihl (ip : Z) (buf : list Z) : option Z := (λ b, Z.land b 15) <$> rd8 ip buf.
Definition ip_version (ip : Z) (buf : list Z) : option Z := (λ b, Z.shiftr b 4) <$> rd8 ip buf.
Definition ip_tot_len (ip : Z) (buf : list Z) : option Z := rd16 (ip + 2) buf.
Definition ip_protocol (ip : Z) (buf : list Z) : option Z := rd8 (ip + 9) buf.
Definition ip_saddr (ip : Z) (buf : list Z) : option Z := rd32 (ip + 12) buf.
Definition ip_daddr (ip : Z) (buf : list Z) : option Z := rd32 (ip + 16) buf.
Definition tcp_doff (tcp : Z) (buf : list Z) : option Z := (λ b, Z.shiftr b 4) <$> rd8 (tcp + 12) buf.

(** The part of [parse_packet] that finds the network layer. *)
Definition parse_link (p : packet_data) : option packet_data :=
  let ll := p_linkLayerLen p in
  if decide (sizeof_ethhdr = ll) then
    let p := p <| p_eth := Some 0 |> in
    h_proto ← rd16 12 (p_data p);
    if decide (ntohs h_proto = ETH_P_IP) then
      ihl ← ip_ihl ll (p_data p);
      Some (p <| p_ipv4 := Some ll |> <| p_unknown_data := Some (ll + ihl * 4) |>)
    else if decide (ntohs h_proto = ETH_P_ARP) then
      Some (p <| p_arp := Some ll |> <| p_unknown_data := Some (ll + sizeof_ether_arp) |>)
    else Some p
  else
    ihl ← ip_ihl ll (p_data p);
    Some (p <| p_ipv4 := Some ll |> <| p_unknown_data := Some (ll + ihl * 4) |>).

(** The transport layer, by the protocol field; [trans] is [transStart]. *)
Definition parse_transport (protocol trans : Z) (p : packet_data) : option packet_data :=
  if decide (protocol = ARG_PROTO) then
    Some (p <| p_arg := Some trans |> <| p_unknown_data := Some (trans + ARG_HDR_LEN) |>)
  else if decide (protocol = TCP_PROTO) then
    doff ← tcp_doff trans (p_data p);
    Some (p <| p_tcp := Some trans |> <| p_unknown_data := Some (trans + doff * 4) |>)
  else if decide (protocol = UDP_PROTO) then
    Some (p <| p_udp := Some trans |> <| p_unknown_data := Some (trans + sizeof_udphdr) |>)
  else if decide (protocol = ICMP_PROTO) then
    Some (p <| p_icmp := Some trans |> <| p_unknown_data := Some (trans + sizeof_icmphdr) |>)
  else Some (p <| p_unknown_data := Some trans |>).

Definition clear_pointers (p : packet_data) : packet_data :=
  Packet (p_len p) (p_linkLayerLen p) None None None None None None None None 0 (p_data p).

(** [unknown_len]; subtracting [data] from a NULL [unknown_data] is undefined. *)
Definition set_unknown_len (p : packet_data) : option packet_data :=
  unknown ← p_unknown_data p;
  Some (p <| p_unknown_len := u64 (p_len p - unknown) |>).

Definition parse_packet (p : packet_data) : option (Z * packet_data) :=
  p ← parse_link (clear_pointers p);
  match p_ipv4 p with
  | Some ip =>
      version ← ip_version ip (p_data p);
      if decide (version ≠ 4) then Some (- ARG_PACKET_PARSE_ERROR, p) else
      tot_len ← ip_tot_len ip (p_data p);
      let p := p <| p_len := p_linkLayerLen p + ntohs tot_len |> in
      ihl ← ip_ihl ip (p_data p);
      protocol ← ip_protocol ip (p_data p);
      p ← parse_transport protocol (ip + ihl * 4) p;
      pair 0 <$> set_unknown_len p
  | None => pair 0 <$> set_unknown_len p
  end.

(** ** Port numbers *)

Definition get_source_port (p : packet_data) : option Z :=
  match p_tcp p, p_udp p with
  | Some tcp, _ => ntohs <$> rd16 tcp (p_data p)
  | None, Some udp => ntohs <$> rd16 udp (p_data p)
  | None, None => Some 0
  end.

Definition get_dest_port (p : packet_data) : option Z :=
  match p_tcp p, p_udp p with
  | Some tcp, _ => ntohs <$> rd16 (tcp + 2) (p_data p)
  | None, Some udp => ntohs <$> rd16 (udp + 2) (p_data p)
  | None, None => Some 0
  end.

Definition with_data (p : packet_data) (d : list Z) : packet_data := p <| p_data := d |>.

Definition set_source_port (p : packet_data) (port : Z) : option packet_data :=
  match p_tcp p, p_udp p with
  | Some tcp, _ => with_data p <$> wr16 tcp (htons port) (p_data p)
  | None, Some udp => with_data p <$> wr16 udp (htons port) (p_data p)
  | None, None => Some p
  end.

Definition set_dest_port (p : packet_data) (port : Z) : option packet_data :=
  match p_tcp p, p_udp p with
  | Some tcp, _ => with_data p <$> wr16 (tcp + 2) (htons port) (p_data p)
  | None, Some udp => with_data p <$> wr16 (udp + 2) (htons port) (p_data p)
  | None, None => Some p
  end.

(** ** Transport checksums *)

(** The loop [while(i > 1)] of [csum_with_psuedo]: result [i], [curr], [sum]. *)
Fixpoint csum_loop (fuel : nat) (buf : list Z) (i curr sum : Z) : option (Z * Z * Z) :=
  match fuel with
  | O => None
  | S fuel =>
      if decide (i > 1) then
        w ← rd16 curr buf;
        csum_loop fuel buf (i - 2) (curr + 2) (u32 (sum + ntohs w))
      else Some (i, curr, sum)
  end.

(** The last byte of an odd-sized segment is loaded as 16 bits; [slack] is
    whatever byte lies after the buffer when the segment ends where it ends. *)
Definition rd16_tail (off slack : Z) (buf : list Z) : option Z :=
  rd16 off (buf ++ [slack]).

Definition fold_carry (sum : Z) : Z := u32 (Z.shiftr sum 16 + Z.land sum 65535).

(** Words, addresses, protocol and length added up, before the carries. *)
Definition csum_sum (slack ip start len : Z) (buf : list Z) : option Z :=
  let i := s32 len in
  '(i, curr, sum) ← csum_loop (S (Z.to_nat i)) buf i start 0;
  sum ← (if decide (i = 1)
         then w ← rd16_tail curr slack buf; Some (u32 (sum + Z.land (ntohs w) 65280))
         else Some sum);
  saddr ← ip_saddr ip buf;
  let sum := u32 (sum + ntohs (Z.land (Z.shiftr saddr 16) 65535)) in
  let sum := u32 (sum + ntohs (Z.land saddr 65535)) in
  daddr ← ip_daddr ip buf;
  let sum := u32 (sum + ntohs (Z.land (Z.shiftr daddr 16) 65535)) in
  let sum := u32 (sum + ntohs (Z.land daddr 65535)) in
  protocol ← ip_protocol ip buf;
  let sum := u32 (sum + protocol) in
  Some (u32 (sum + len)).

(** The sum folded, complemented and stored in the checksum field at [off]. *)
Definition store_csum (slack ip start off len : Z) (buf : list Z) : option (list Z) :=
  sum ← csum_sum slack ip start len buf;
  wr16 off (u16 (Z.lnot (htons (u16 (fold_carry (fold_carry sum)))))) buf.

Definition csum_with_psuedo (slack : Z) (p : packet_data) : option packet_data :=
  match p_ipv4 p, p_tcp p, p_udp p with
  | Some ip, Some tcp, _ =>
      buf ← wr16 (tcp + 16) 0 (p_data p);
      tot_len ← ip_tot_len ip buf;
      ihl ← ip_ihl ip buf;
      with_data p <$> store_csum slack ip tcp (tcp + 16) (u32 (ntohs tot_len - ihl * 4)) buf
  | Some ip, None, Some udp =>
      buf ← wr16 (udp + 6) 0 (p_data p);
      ulen ← rd16 (udp + 4) buf;
      with_data p <$> store_csum slack ip udp (udp + 6) (ntohs ulen) buf
  | _, _, _ => Some p
  end.

(** [COMPUTE_CHECKSUMS] is defined in src/settings.h. *)
Definition tcp_csum (slack : Z) (p : packet_data) : option packet_data := csum_with_psuedo slack p.
Definition udp_csum (slack : Z) (p : packet_data) : option packet_data :=
  match p_udp p with
  | None => Some p
  | Some _ => csum_with_psuedo slack p
  end.
