(* ===== verification/Log.v ===== *)
(** * The log (src/utility.c) and the names of packets in it (src/packet.c)

    What the log functions write, as lists of bytes; the packets that
    [arglog_result] mentions are named by [create_packet_id], and the analysis
    of an experiment follows a packet through the gateways by that name.
    PolarSSL's MD5 is a parameter: [md5_update] of several pieces hashes what
    they are joined. *)

From stdpp Require Import strings.
From S2P Require Import Prelude Words Settings ArgError CString Text Utility Packet.

Definition MAX_PACKET_ID_SIZE : nat := 90.
Inductive log_level := LOG_RESULTS | LOG_FATAL | LOG_ALERT | LOG_INFO | LOG_DEBUG.
Definition log_num (l : log_level) : Z :=
  match l with LOG_RESULTS => 0 | LOG_FATAL => 1 | LOG_ALERT => 2 | LOG_INFO => 3 | LOG_DEBUG => 4 end.

(** ** Dumps *)

(** The loop of [printRaw] from [i] on. *)
Fixpoint print_raw_loop (i : Z) (buf : list Z) : list Z :=
  match buf with
  | [] => []
  | b :: buf =>
      (if decide (i mod 16 = 0) then NL :: str "[0x" ++ hex 4 i ++ str "]  " else [])
      ++ hex 2 b ++ str " " ++ print_raw_loop (i + 1) buf
  end.
Definition printRaw (len : nat) (buf : list Z) : option (list Z) :=
  (λ bs, print_raw_loop 0 bs ++ [NL]) <$> rd 0 len buf.

(** [c] is a signed [char], so that what is not ASCII is below 32. *)
Definition printable (b : Z) : bool := bool_decide (32 ≤ b ≤ 126).
Fixpoint print_ascii_loop (i shown : Z) (buf : list Z) : list Z :=
  match buf with
  | [] => []
  | b :: buf =>
      if printable b then
        (if decide (shown mod 40 = 0) then NL :: str "[" ++ pad 32 4 (dec i) ++ str "]  " else [])
        ++ b :: print_ascii_loop (i + 1) (shown + 1) buf
      else print_ascii_loop (i + 1) 0 buf
  end.
Definition printAscii (len : nat) (buf : list Z) : option (list Z) :=
  (λ bs, print_ascii_loop 0 0 bs ++ [NL]) <$> rd 0 len buf.

(** ** Log lines *)

(** The level and the one it replaces. *)
Definition set_log_level (level old : Z) : Z * Z := (level, old).

(** The format that [varglog] passes to [vprintf], if any: the time and the
    level in front of [fmt], in a buffer of 40 bytes more than [fmt] has;
    [allocated]: the result of [calloc]. *)
Definition varglog (logLevel : Z) (allocated : bool) (tv_sec tv_usec level : Z) (fmt : list Z) : option (list Z) :=
  if decide (level ≤ logLevel) then
    Some (if allocated then
      snprintf_cat (40 + length fmt)
        [dec tv_sec; str "."; pad 48 3 (dec (tv_usec / 1000)); str " LOG"; dec level; str " "; fmt]
    else fmt)
  else None.

(** ** The name of a packet *)

(** MD5 of PolarSSL: 16 bytes. *)
Class Md5 := md5 : list Z → list Z.

(** [md5_update] of [n] bytes at [off]. *)
Definition hashed (off n : Z) (buf : list Z) : option (list Z) :=
  if decide (n < 0) then None else rd off (Z.to_nat n) buf.

Definition hashed_transport (p : packet_data) : option (list Z) :=
  match p_tcp p, p_udp p, p_icmp p, p_arg p with
  | Some tcp, _, _, _ =>
      a ← hashed tcp 16 (p_data p);
      doff ← tcp_doff tcp (p_data p);
      b ← hashed (tcp + 16 + 2) (doff * 4 - 16 - 2) (p_data p);
      Some (a ++ b)
  | None, Some udp, _, _ => hashed udp 6 (p_data p)
  | None, None, Some icmp, _ => hashed icmp 2 (p_data p)
  | None, None, None, Some arg => hashed arg ARG_HDR_LEN (p_data p)
  | None, None, None, None => Some []
  end.

(** All that goes into the hash of a packet with an IP header at [ip]. *)
Definition hashed_packet (p : packet_data) (ip : Z) : option (list Z) :=
  a ← hashed ip 4 (p_data p);
  b ← hashed (ip + 9) 1 (p_data p);
  ihl ← ip_ihl ip (p_data p);
  c ← hashed (ip + 10 + 2) (ihl * 4 - 10 - 2) (p_data p);
  t ← hashed_transport p;
  unknown ← p_unknown_data p;
  u ← hashed unknown (p_unknown_len p) (p_data p);
  Some (a ++ b ++ c ++ t ++ u).

Section Log.
Context `{Md5}.

Definition md5sum (bs : list Z) : list Z := concat (hex 2 <$> md5 bs).

(** The arguments of the last [snprintf], joined. *)
Definition packet_id_text (p : packet_data) (ip : Z) : option (list Z) :=
  bs ← hashed_packet p ip;
  protocol ← ip_protocol ip (p_data p);
  s ← rd (ip + 12) ADDR_SIZE (p_data p);
  d ← rd (ip + 16) ADDR_SIZE (p_data p);
  sport ← get_source_port p;
  dport ← get_dest_port p;
  Some (str "p:" ++ dec protocol ++ str " s:" ++ inet_ntop s ++ str ":" ++ dec sport
        ++ str " d:" ++ inet_ntop d ++ str ":" ++ dec dport ++ str " hash:" ++ md5sum bs).

(** The string in [buf] afterwards. *)
Definition create_packet_id (p : packet_data) (buflen : nat) : option (list Z) :=
  match p_ipv4 p with
  | None => Some (snprintf_cat buflen [str "Unable to generate ID"])
  | Some ip => (λ t, snprintf_cat buflen [t]) <$> packet_id_text p ip
  end.

Definition id_or_empty (p : option packet_data) : option (list Z) :=
  match p with None => Some [] | Some p => create_packet_id p MAX_PACKET_ID_SIZE end.

(** The line, without time and level. *)
Definition arglog_result (inPacket outPacket : option packet_data) (is_inbound is_accepted : bool)
    (processor reason : list Z) : option (list Z) :=
  i ← id_or_empty inPacket;
  o ← id_or_empty outPacket;
  Some (str (if is_inbound then "Inbound" else "Outbound") ++ str ": "
        ++ str (if is_accepted then "Accept" else "Reject") ++ str ": "
        ++ processor ++ str ": " ++ reason ++ str ": " ++ i ++ str "/" ++ o ++ [NL]).
End Log.
