(* ===== verification/PacketFacts.v ===== *)
(** * Parsing and port access (src/packet.c)

    When [parse_packet] stays inside the buffer, what it finds in an ARG
    packet, and that the port setters are read back by the port getters. *)

From S2P Require Import Prelude Words Settings ArgError Packet.

(** ** Parsing *)

Lemma rd8_defined off buf :
  0 ≤ off → off < Z.of_nat (length buf) → ∃ b, rd8 off buf = Some b.
Proof. intros. unfold rd8. rewrite rd_defined by lia. by eexists. Qed.

Lemma rd16_defined off buf :
  0 ≤ off → off + 2 ≤ Z.of_nat (length buf) → ∃ b, rd16 off buf = Some b.
Proof. intros. unfold rd16. rewrite rd_defined by lia. by eexists. Qed.

Lemma nibble_range b : 0 ≤ Z.land b 15 < 16.
Proof. change 15 with (Z.ones 4). rewrite Z.land_ones by done. by apply Z.mod_pos_bound. Qed.

Lemma ip_ihl_defined ip buf :
  0 ≤ ip → ip < Z.of_nat (length buf) → ∃ i, ip_ihl ip buf = Some i ∧ 0 ≤ i < 16.
Proof.
  intros H0 Hl. unfold ip_ihl. destruct (rd8_defined ip buf H0 Hl) as [b ->].
  eexists. split; [done|]. apply nibble_range.
Qed.

(** The frame's type field, for frames with an Ethernet header. *)
Definition known_frame (p : packet_data) : Prop :=
  p_linkLayerLen p ≠ sizeof_ethhdr
  ∨ (∃ t, rd16 12 (p_data p) = Some t ∧ (ntohs t = ETH_P_IP ∨ ntohs t = ETH_P_ARP)).

(** What a parse of the link layer can lead to. *)
Lemma parse_link_cases p :
  known_frame p → 0 ≤ p_linkLayerLen p →
  p_linkLayerLen p < Z.of_nat (length (p_data p)) →
  ∃ p', parse_link (clear_pointers p) = Some p'
    ∧ p_data p' = p_data p ∧ p_linkLayerLen p' = p_linkLayerLen p ∧ p_len p' = p_len p
    ∧ is_Some (p_unknown_data p')
    ∧ (p_ipv4 p' = Some (p_linkLayerLen p) ∨ p_ipv4 p' = None).
Proof.
  intros Hk H0 Hl. destruct (ip_ihl_defined _ _ H0 Hl) as (i & Hi & _).
  unfold parse_link. cbn [p_linkLayerLen clear_pointers].
  destruct (decide (sizeof_ethhdr = p_linkLayerLen p)) as [He|He].
  - destruct Hk as [Hne|(t & Ht & Hc)]; [congruence|].
    cbn -[rd16 ip_ihl ntohs decide]. rewrite Ht, some_bind.
    destruct Hc as [Hc|Hc]; rewrite Hc.
    + rewrite decide_True, Hi, some_bind by done. eexists. split; [done|].
      cbn. split_and!; eauto.
    + rewrite decide_False, decide_True by done. eexists. split; [done|].
      cbn. split_and!; eauto.
  - cbn -[ip_ihl]. rewrite Hi, some_bind. eexists. split; [done|].
    cbn. split_and!; eauto.
Qed.

(** 73 bytes after the link layer are enough: a maximal IP header and the
    data-offset byte of a TCP header. *)
Lemma parse_transport_defined protocol trans p :
  0 ≤ trans → trans + 13 ≤ Z.of_nat (length (p_data p)) →
  ∃ p', parse_transport protocol trans p = Some p' ∧ is_Some (p_unknown_data p').
Proof.
  intros H0 Hl. unfold parse_transport, tcp_doff.
  destruct (rd8_defined (trans + 12) (p_data p)) as [b Hb]; [lia..|].
  repeat case_decide; try (eexists; split; [done|]; cbn; by eexists).
  rewrite Hb, some_fmap, some_bind. eexists. split; [done|]. cbn. by eexists.
Qed.

(** C30. [parse_packet] never reads outside the buffer of a known kind of frame
    that holds at least 73 bytes after the link layer. *)
Theorem parse_packet_in_bounds p :
  known_frame p → 0 ≤ p_linkLayerLen p →
  p_linkLayerLen p + 73 ≤ Z.of_nat (length (p_data p)) →
  ∃ r p', parse_packet p = Some (r, p').
Proof.
  intros Hk H0 Hl.
  destruct (parse_link_cases p) as (q & Hq & Hd & Hll & _ & [u Hu] & Hip); [done|done|lia|].
  unfold parse_packet. rewrite Hq, some_bind.
  destruct Hip as [Hip|Hip]; rewrite Hip.
  - unfold ip_version, ip_tot_len, ip_protocol. rewrite Hd.
    destruct (rd8_defined (p_linkLayerLen p) (p_data p)) as [v Hv]; [lia..|].
    rewrite Hv, some_fmap, some_bind. case_decide; [by do 2 eexists|].
    destruct (rd16_defined (p_linkLayerLen p + 2) (p_data p)) as [tl ->]; [lia..|]. rewrite some_bind.
    cbn [p_data upd]. rewrite ?Hd.
    destruct (ip_ihl_defined (p_linkLayerLen p) (p_data p)) as (i & -> & Hi); [lia..|]. rewrite some_bind.
    destruct (rd8_defined (p_linkLayerLen p + 9) (p_data p)) as [pr ->]; [lia..|]. rewrite some_bind.
    edestruct (parse_transport_defined pr) as (q' & -> & [u' Hu']); cycle 2.
    { rewrite some_bind. unfold set_unknown_len. rewrite Hu'. by do 2 eexists. }
    + lia.
    + cbn. rewrite ?Hd. lia.
  - unfold set_unknown_len. rewrite Hu. by do 2 eexists.
Qed.

Definition raw_packet (ll : Z) (d : list Z) : packet_data :=
  Packet (Z.of_nat (length d)) ll None None None None None None None None 0 d.

(** An Ethernet frame with the given type field and payload. *)
Definition eth_frame (h_proto : Z) (payload : list Z) : list Z :=
  zeros 12 ++ le_bytes 2 (htons h_proto) ++ payload.

Lemma parse_packet_in_bounds_witness :
  ∃ r p', parse_packet (raw_packet 14 (eth_frame ETH_P_IP (zeros 80))) = Some (r, p').
Proof.
  apply parse_packet_in_bounds; [right; by exists 8; vm_compute; auto | by vm_compute..].
Defined.

(** Two frames that make [parse_packet] leave the buffer: one that is
    neither IPv4 nor ARP (a NULL pointer is subtracted), and an IPv4 frame cut
    off inside its IP header. *)
Theorem parse_packet_faults :
  parse_packet (raw_packet 14 (eth_frame 34525 (zeros 80))) = None
  ∧ parse_packet (raw_packet 14 (eth_frame ETH_P_IP (69 :: zeros 5))) = None.
Proof. by vm_compute. Qed.

(** ** Ports *)

Definition has_ports (p : packet_data) : Prop :=
  ∃ t, 0 ≤ t ∧ t + 4 ≤ Z.of_nat (length (p_data p))
    ∧ (p_tcp p = Some t ∨ (p_tcp p = None ∧ p_udp p = Some t)).

Lemma rd16_wr16_same off v buf buf' : wr16 off v buf = Some buf' → rd16 off buf' = Some (u16 v).
Proof.
  intros Hw. unfold rd16.
  assert (rd off 2 buf' = Some (le_bytes 2 v)) as -> by apply (rd_wr_same _ (le_bytes 2 v) _ _ Hw).
  rewrite some_fmap, le_val_bytes. done.
Qed.

Lemma rd16_wr16_ne off v buf buf' off' :
  wr16 off v buf = Some buf' → (off' + 2 ≤ off ∨ off + 2 ≤ off') → rd16 off' buf' = rd16 off' buf.
Proof. intros Hw Hd. unfold rd16. f_equal. by apply (rd_wr16_ne _ _ _ _ _ _ Hw). Qed.

Lemma ntohs_u16_htons z : ntohs (u16 (htons z)) = u16 z.
Proof. rewrite u16_small by apply htons_range. apply ntohs_htons. Qed.

(** The port accessors agree: after a setter the getter of the same port
    returns the 16-bit value, the other port is untouched, and the header
    pointers and the buffer's length stay. *)
Theorem ports_round_trip p port :
  has_ports p →
  (∃ d, set_source_port p port = Some (with_data p d) ∧ length d = length (p_data p)
    ∧ get_source_port (with_data p d) = Some (u16 port)
    ∧ get_dest_port (with_data p d) = get_dest_port p)
  ∧ (∃ d, set_dest_port p port = Some (with_data p d) ∧ length d = length (p_data p)
    ∧ get_dest_port (with_data p d) = Some (u16 port)
    ∧ get_source_port (with_data p d) = get_source_port p).
Proof.
  intros (t & H0 & Hl & Hc).
  destruct (wr16_defined t (htons port) (p_data p)) as [d Hd]; [lia..|].
  destruct (wr16_defined (t + 2) (htons port) (p_data p)) as [d' Hd']; [lia..|].
  pose proof (wr16_length _ _ _ _ Hd). pose proof (wr16_length _ _ _ _ Hd').
  unfold set_source_port, set_dest_port, get_source_port, get_dest_port.
  split; [exists d | exists d'];
    destruct Hc as [Ht|[Ht Hu]]; cbn [with_data upd p_tcp p_udp p_data];
    rewrite ?Ht, ?Hu, ?Hd, ?Hd';
    (split; [done|]); (split; [done|]);
    first [rewrite (rd16_wr16_same _ _ _ _ Hd) | rewrite (rd16_wr16_same _ _ _ _ Hd')];
    rewrite some_fmap, ntohs_u16_htons; (split; [done|]);
    first [by rewrite (rd16_wr16_ne _ _ _ _ _ Hd) by lia
          | by rewrite (rd16_wr16_ne _ _ _ _ _ Hd') by lia].
Qed.

Definition udp_packet : packet_data :=
  Packet 31 0 None (Some 0) None (Some 20) None None None (Some 28) 3
    [69; 0; 0; 31; 0; 0; 64; 0; 64; 17; 0; 0; 10; 0; 0; 1; 192; 168; 1; 200;
     31; 144; 0; 53; 0; 11; 9; 9; 1; 2; 3].

Lemma ports_round_trip_witness :
  (∃ d, set_source_port udp_packet 70000 = Some (with_data udp_packet d)
    ∧ length d = length (p_data udp_packet)
    ∧ get_source_port (with_data udp_packet d) = Some (u16 70000)
    ∧ get_dest_port (with_data udp_packet d) = get_dest_port udp_packet)
  ∧ (∃ d, set_dest_port udp_packet 70000 = Some (with_data udp_packet d)
    ∧ length d = length (p_data udp_packet)
    ∧ get_dest_port (with_data udp_packet d) = Some (u16 70000)
    ∧ get_source_port (with_data udp_packet d) = get_source_port udp_packet).
Proof. apply ports_round_trip. exists 20. split; [lia|]. split; [by vm_compute|by right]. Defined.
