(* ===== verification/LogFacts.v ===== *)
(** * The log: facts (src/utility.c, src/packet.c)

    A packet keeps its name when routers rewrite what they may rewrite, how
    long a name gets, that a dump can be read back, and when a log line fits. *)

From stdpp Require Import strings.
From S2P Require Import Prelude Words Settings ArgError CString Text Utility Packet PacketFacts Log.

(** ** Where a parse puts the pointers *)

(** The transport header at [trans], and what follows it. *)
Definition transport_layout (p : packet_data) (protocol trans : Z) : Prop :=
  (p_tcp p = Some trans ∧ protocol = TCP_PROTO ∧
    ∃ doff, tcp_doff trans (p_data p) = Some doff ∧ p_unknown_data p = Some (trans + doff * 4))
  ∨ p_tcp p = None ∧
    ((p_udp p = Some trans ∧ p_unknown_data p = Some (trans + 8) ∧ protocol = UDP_PROTO)
     ∨ p_udp p = None ∧
       ((p_icmp p = Some trans ∧ p_unknown_data p = Some (trans + 8))
        ∨ p_icmp p = None ∧
          ((p_arg p = Some trans ∧ p_unknown_data p = Some (trans + ARG_HDR_LEN))
           ∨ p_arg p = None ∧ p_unknown_data p = Some trans))).

Record ip_layout (p : packet_data) (ip ihl protocol : Z) : Prop := {
  il_ihl : ip_ihl ip (p_data p) = Some ihl;
  il_protocol : ip_protocol ip (p_data p) = Some protocol;
  il_transport : transport_layout p protocol (ip + ihl * 4) }.

Lemma parse_transport_layout protocol trans p p' :
  p_tcp p = None → p_udp p = None → p_icmp p = None → p_arg p = None →
  parse_transport protocol trans p = Some p' →
  transport_layout p' protocol trans ∧ p_data p' = p_data p ∧ p_ipv4 p' = p_ipv4 p.
Proof.
  intros Ht Hu Hi Ha. unfold parse_transport, transport_layout.
  repeat case_decide; subst; [| |..].
  - intros [= <-]. cbn. rewrite Ht, Hu, Hi. split_and!; auto 12.
  - destruct (tcp_doff trans (p_data p)) as [doff|] eqn:Hd; [|done]. cbn. intros [= <-]. cbn.
    split_and!; [|done..]. left. eauto.
  - intros [= <-]. cbn. rewrite Ht. split_and!; auto 12.
  - intros [= <-]. cbn. rewrite Ht, Hu. split_and!; auto 12.
  - intros [= <-]. cbn. rewrite Ht, Hu, Hi, Ha. split_and!; auto 12.
Qed.

Lemma parse_link_ipv4 p p' ip :
  parse_link (clear_pointers p) = Some p' → p_ipv4 p' = Some ip →
  ip = p_linkLayerLen p ∧ p_data p' = p_data p ∧ p_tcp p' = None ∧ p_udp p' = None ∧ p_icmp p' = None ∧ p_arg p' = None.
Proof.
  unfold parse_link. intros Hp Hip. cbn -[rd16 ip_ihl ntohs decide] in Hp.
  repeat match type of Hp with
  | context [decide ?P] => destruct (decide P)
  | (?o ≫= _) = Some _ => destruct o eqn:?; cbn -[rd16 ip_ihl ntohs decide] in Hp; [|done]
  end; simplify_eq; cbn in *; by simplify_eq.
Qed.

Lemma parsed_layout q p ip :
  parse_packet q = Some (0, p) → p_ipv4 p = Some ip →
  ip = p_linkLayerLen q ∧ p_data p = p_data q ∧ ∃ ihl protocol, ip_layout p ip ihl protocol.
Proof.
  unfold parse_packet. destruct (parse_link (clear_pointers q)) as [p1|] eqn:Hl; [|done]. rewrite some_bind.
  destruct (p_ipv4 p1) as [ip1|] eqn:Hip1; cycle 1.
  { unfold set_unknown_len. destruct (p_unknown_data p1); [|done]. cbn. intros [= <-]. cbn. congruence. }
  destruct (parse_link_ipv4 q p1 ip1 Hl Hip1) as (-> & Hd & Ht & Hu & Hi & Ha).
  destruct (ip_version _ _) as [v|]; [|done]. rewrite some_bind.
  case_decide; [by intros [= ?]|].
  destruct (ip_tot_len _ _) as [tl|]; [|done]. rewrite some_bind.
  set (p2 := p1 <| p_len := p_linkLayerLen p1 + ntohs tl |>).
  destruct (ip_ihl _ (p_data p2)) as [ihl|] eqn:Hihl; [|done]. rewrite some_bind.
  destruct (ip_protocol _ (p_data p2)) as [protocol|] eqn:Hpr; [|done]. rewrite some_bind.
  destruct (parse_transport _ _ p2) as [p3|] eqn:Hpt; [|done]. rewrite some_bind.
  destruct (parse_transport_layout _ _ p2 p3 Ht Hu Hi Ha Hpt) as (Hlay & Hd3 & Hip3).
  unfold set_unknown_len. destruct (p_unknown_data p3) eqn:Hun; [|done]. cbn. intros [= <-] Hip.
  cbn in Hip. rewrite Hip3 in Hip. cbn in Hip. rewrite Hip1 in Hip. injection Hip as <-.
  split; [done|]. split; [cbn; by rewrite Hd3|].
  exists ihl, protocol. split; cbn; [by rewrite Hd3|by rewrite Hd3|]. exact Hlay.
Qed.

(** ** What the name depends on *)

Lemma hashed_agree off n xs ys :
  length xs = length ys → (∀ i : nat, off ≤ Z.of_nat i < off + n → xs !! i = ys !! i) →
  hashed off n xs = hashed off n ys.
Proof. intros Hl Ha. unfold hashed. case_decide; [done|]. apply rd_agree; [done|]. intros i Hi. apply Ha. lia. Qed.

(** The bytes that a router rewrites: identification, fragment, time to live
    and checksum of the IP header, the transport's checksum, and of ICMP all
    but type and code. *)
Definition hop_field (p : packet_data) (i : Z) : Prop :=
  match p_ipv4 p with Some ip => ip + 4 ≤ i < ip + 9 ∨ ip + 10 ≤ i < ip + 12 | None => False end
  ∨ match p_tcp p, p_udp p, p_icmp p with
    | Some tcp, _, _ => tcp + 16 ≤ i < tcp + 18
    | None, Some udp, _ => udp + 6 ≤ i < udp + 8
    | None, None, Some icmp => icmp + 2 ≤ i < icmp + 8
    | None, None, None => False
    end.

Section Stable.
Context `{Md5} (p : packet_data) (ip ihl protocol : Z) (d : list Z).
Context (Hip : p_ipv4 p = Some ip) (Hlay : ip_layout p ip ihl protocol) (Hihl : 5 ≤ ihl).
Context (Hlen : length d = length (p_data p)).
Context (Hd : ∀ i : nat, ¬ hop_field p (Z.of_nat i) → d !! i = p_data p !! i).

(** Outside the IP header's fields and behind the transport header's. *)
Definition kept (i : Z) : Prop :=
  (i < ip + 4 ∨ ip + 9 ≤ i < ip + 10 ∨ ip + 12 ≤ i)
  ∧ ¬ match p_tcp p, p_udp p, p_icmp p with
      | Some tcp, _, _ => tcp + 16 ≤ i < tcp + 18
      | None, Some udp, _ => udp + 6 ≤ i < udp + 8
      | None, None, Some icmp => icmp + 2 ≤ i < icmp + 8
      | None, None, None => False
      end.

Lemma kept_lookup i : kept (Z.of_nat i) → d !! i = p_data p !! i.
Proof using All. intros [H1 H2]. apply Hd. unfold hop_field. rewrite Hip. intros [?|?]; [lia|done]. Qed.

Lemma same_rd off n : (∀ i, off ≤ i < off + Z.of_nat n → kept i) → rd off n d = rd off n (p_data p).
Proof using All. intros Hk. apply rd_agree; [done|]. intros i Hi. by apply kept_lookup, Hk. Qed.
Lemma same_hashed off n : (∀ i, off ≤ i < off + n → kept i) → hashed off n d = hashed off n (p_data p).
Proof using All. intros Hk. apply hashed_agree; [done|]. intros i Hi. by apply kept_lookup, Hk. Qed.

(** Below the transport header. *)
Lemma kept_header i : (i < ip + 4 ∨ ip + 9 ≤ i < ip + 10 ∨ ip + 12 ≤ i) → i < ip + ihl * 4 → kept i.
Proof using All.
  intros Hi Hlt. split; [done|].
  destruct (il_transport _ _ _ _ Hlay) as [(-> & _ & _)|(-> & [(-> & _)|(-> & [(-> & _)|(-> & _)])])]; lia.
Qed.

Lemma same_transport : hashed_transport (with_data p d) = hashed_transport p.
Proof using All.
  unfold hashed_transport. cbn [p_tcp p_udp p_icmp p_arg p_data with_data upd].
  destruct (il_transport _ _ _ _ Hlay) as [(Ht & _ & doff & Hdoff & _)|(Ht & Hrest)]; rewrite Ht.
  - set (trans := ip + ihl * 4) in *.
    assert (∀ i, trans ≤ i < trans + 16 ∨ trans + 18 ≤ i → kept i) as Hk
      by (intros i Hi; split; [lia|]; rewrite Ht; lia).
    rewrite same_hashed by (intros; apply Hk; lia).
    assert (tcp_doff trans d = tcp_doff trans (p_data p)) as ->
      by (unfold tcp_doff, rd8; rewrite same_rd by (intros; apply Hk; lia); done).
    rewrite Hdoff. destruct (hashed trans 16 (p_data p)); [|done]. rewrite !some_bind.
    by rewrite same_hashed by (intros; apply Hk; lia).
  - destruct Hrest as [(Hu & _)|(Hu & [(Hc & _)|(Hc & [(Ha & _)|(Ha & _)])])]; rewrite Hu, ?Hc, ?Ha; [..|done];
      apply same_hashed; intros i Hi; (split; [lia|]); rewrite Ht, Hu, ?Hc; lia.
Qed.

Lemma same_unknown bs unknown :
  hashed_transport p = Some bs → p_unknown_data p = Some unknown →
  hashed unknown (p_unknown_len p) d = hashed unknown (p_unknown_len p) (p_data p).
Proof using All.
  intros Hbs Hun. apply same_hashed. intros i Hi.
  destruct (il_transport _ _ _ _ Hlay) as [(Ht & _ & doff & Hdoff & Hu)|(Ht & Hrest)].
  - rewrite Hu in Hun. injection Hun as <-. unfold hashed_transport in Hbs. rewrite Ht, Hdoff in Hbs.
    destruct (hashed _ 16 _); [|done]. rewrite !some_bind in Hbs.
    destruct (decide (doff * 4 - 16 - 2 < 0)) as [Hneg|Hpos].
    { unfold hashed in Hbs. by rewrite decide_True in Hbs by done. }
    split; [lia|]. rewrite Ht. lia.
  - destruct Hrest as [(Hu & Hn & _)|(Hu & [(Hc & Hn)|(Hc & [(Ha & Hn)|(Ha & Hn)])])]; rewrite Hn in Hun; injection Hun as <-;
      (split; [change ARG_HDR_LEN with 136 in *; lia|]); rewrite Ht, Hu, ?Hc; try lia; auto.
Qed.

Lemma same_ports :
  get_source_port (with_data p d) = get_source_port p ∧ get_dest_port (with_data p d) = get_dest_port p.
Proof using All.
  unfold get_source_port, get_dest_port. cbn [p_tcp p_udp p_data with_data upd].
  destruct (il_transport _ _ _ _ Hlay) as [(Ht & _)|(Ht & [(Hu & _)|(Hu & _)])]; rewrite Ht, ?Hu; [| |done];
    unfold rd16; rewrite !same_rd; try done; intros i Hi; (split; [lia|]); rewrite Ht, ?Hu; lia.
Qed.

Lemma same_packet : hashed_packet (with_data p d) ip = hashed_packet p ip.
Proof using All.
  unfold hashed_packet. rewrite same_transport. cbn [p_data p_unknown_data p_unknown_len with_data upd].
  rewrite !same_hashed by (intros; apply kept_header; lia).
  assert (ip_ihl ip d = ip_ihl ip (p_data p)) as ->
    by (unfold ip_ihl, rd8; rewrite same_rd by (intros; apply kept_header; lia); done).
  rewrite (il_ihl _ _ _ _ Hlay). destruct (hashed ip 4 _); [|done]. rewrite !some_bind.
  destruct (hashed (ip + 9) 1 _); [|done]. rewrite !some_bind.
  rewrite same_hashed by (intros; apply kept_header; lia). destruct (hashed (ip + 10 + 2) _ _); [|done].
  rewrite !some_bind. destruct (hashed_transport p) as [bs|] eqn:Hbs; [|done]. rewrite !some_bind.
  destruct (p_unknown_data p) as [u|] eqn:Hu; [|done]. rewrite !some_bind. by rewrite (same_unknown bs u).
Qed.

Lemma same_id_text : packet_id_text (with_data p d) ip = packet_id_text p ip.
Proof using All.
  unfold packet_id_text. rewrite same_packet. destruct same_ports as [-> ->].
  cbn [p_data with_data upd]. unfold ip_protocol, rd8.
  by rewrite !same_rd by (change (Z.of_nat ADDR_SIZE) with 4; intros; apply kept_header; lia).
Qed.
End Stable.

(** C25. A packet keeps its name on its way: rewriting what routers rewrite --
    identification, fragment, time to live and checksum of the IP header, the
    checksum of the transport header, and of an ICMP message all but type and
    code -- does not change what [create_packet_id] makes of it. *)
Theorem packet_id_stable `{Md5} q p ip ihl d n :
  parse_packet q = Some (0, p) → p_ipv4 p = Some ip → ip_ihl ip (p_data p) = Some ihl → 5 ≤ ihl →
  length d = length (p_data p) →
  (∀ i : nat, ¬ hop_field p (Z.of_nat i) → d !! i = p_data p !! i) →
  create_packet_id (with_data p d) n = create_packet_id p n.
Proof.
  intros Hp Hip Hihl Hge Hlen Hd. destruct (parsed_layout q p ip Hp Hip) as (_ & _ & ihl' & protocol & Hlay).
  assert (ihl' = ihl) as -> by (destruct Hlay; congruence).
  unfold create_packet_id. change (p_ipv4 (with_data p d)) with (p_ipv4 p). rewrite Hip.
  by rewrite (same_id_text p ip ihl protocol d).
Qed.

(** ** How long a name gets *)

Section Fits.
Context `{Md5} (md5_length : ∀ bs, length (md5 bs) = 16%nat) (md5_bytes : ∀ bs, bytes_ok (md5 bs)).

Lemma length_md5sum bs : length (md5sum bs) = 32%nat.
Proof using All.
  unfold md5sum. specialize (md5_length bs). specialize (md5_bytes bs). revert md5_length.
  enough (length (concat (hex 2 <$> md5 bs)) = 2 * length (md5 bs))%nat as -> by lia.
  induction md5_bytes as [|b l Hb _ IH]; [done|].
  rewrite fmap_cons. cbn [concat length]. rewrite length_app, length_hex, IH; [lia|].
  change (16 ^ Z.of_nat 2) with 256. lia.
Qed.

Lemma port_range off buf x : bytes_ok buf → ntohs <$> rd16 off buf = Some x → 0 ≤ x < 65536.
Proof using Type. destruct (rd16 off buf); [|done]. intros _ [= <-]. apply htons_range. Qed.

Lemma length_address off buf bs :
  bytes_ok buf → rd off ADDR_SIZE buf = Some bs → (length (inet_ntop bs) ≤ 15)%nat.
Proof using Type.
  intros Hb Hr. pose proof (inet_ntop_ok bs) as Hok. unfold INET_ADDRSTRLEN in Hok.
  enough (length (inet_ntop bs) < 16)%nat by lia.
  apply Hok; [by eapply rd_bytes_ok|by eapply rd_length].
Qed.

(** The name of a packet takes at most 90 characters, 89 if it is not UDP;
    [arglog_result] has room for 89: only UDP packets with the longest
    addresses and ports lose the last digit of their hash. *)
Theorem packet_id_fits q p ip t :
  parse_packet q = Some (0, p) → p_ipv4 p = Some ip → bytes_ok (p_data p) → packet_id_text p ip = Some t →
  (length t ≤ MAX_PACKET_ID_SIZE)%nat
  ∧ (p_udp p = None ∨ (length t < MAX_PACKET_ID_SIZE)%nat → create_packet_id p MAX_PACKET_ID_SIZE = Some t).
Proof using All.
  intros Hp Hip Hb Ht. destruct (parsed_layout q p ip Hp Hip) as (_ & _ & ihl & protocol & Hlay).
  enough (length t ≤ 90 ∧ (p_udp p = None → length t ≤ 89))%nat as [Hl Hl'].
  { split; [exact Hl|]. intros Hc. unfold create_packet_id. rewrite Hip, Ht. cbn. f_equal.
    unfold snprintf_cat. cbn [concat]. rewrite app_nil_r. apply take_ge. unfold MAX_PACKET_ID_SIZE in *.
    destruct Hc as [Hc|Hc]; [specialize (Hl' Hc)|]; lia. }
  revert Ht. unfold packet_id_text. rewrite (il_protocol _ _ _ _ Hlay).
  destruct (hashed_packet p ip) as [bs|]; [|done]. rewrite !some_bind.
  destruct (rd (ip + 12) _ _) as [s|] eqn:Hs; [|done]. rewrite some_bind.
  destruct (rd (ip + 16) _ _) as [d|] eqn:Hd; [|done]. rewrite some_bind.
  destruct (get_source_port p) as [sp|] eqn:Hsp; [|done]. rewrite some_bind.
  destruct (get_dest_port p) as [dp|] eqn:Hdp; [|done]. rewrite some_bind. intros <-%(inj Some).
  apply length_address in Hs, Hd; [|done..].
  rewrite !length_app, length_md5sum.
  repeat match goal with
  | |- context [length (bytes_of_string ?s)] =>
      let n := eval vm_compute in (length (bytes_of_string s)) in change (length (bytes_of_string s)) with n
  end.
  pose proof (il_protocol _ _ _ _ Hlay) as Hpr. unfold ip_protocol, rd8 in Hpr.
  assert (0 ≤ protocol < 256) as Hprot.
  { destruct (rd (ip + 9) 1 (p_data p)) as [x|] eqn:Hx; [|done]. injection Hpr as <-.
    pose proof (le_val_range x (rd_bytes_ok _ _ _ _ Hb Hx)). by rewrite (rd_length _ _ _ _ Hx) in *. }
  pose proof (length_dec 2 protocol) as Hdec. change (10 ^ Z.of_nat 3) with 1000 in Hdec.
  unfold get_source_port in Hsp. unfold get_dest_port in Hdp.
  pose proof (il_transport _ _ _ _ Hlay) as [(Htcp & -> & _)|(Htcp & Hrest)]; rewrite Htcp in Hsp, Hdp.
  - apply port_range in Hsp, Hdp; [|done..]. pose proof (length_dec 4 sp) as H1. pose proof (length_dec 4 dp) as H2.
    change (10 ^ Z.of_nat 5) with 100000 in *. assert (length (dec TCP_PROTO) = 1)%nat as -> by done. split; [|intros _]; lia.
  - destruct Hrest as [(Hu & Hrest)|(Hu & Hrest)]; rewrite Hu in Hsp, Hdp.
    + apply port_range in Hsp, Hdp; [|done..]. pose proof (length_dec 4 sp) as H1. pose proof (length_dec 4 dp) as H2.
      change (10 ^ Z.of_nat 5) with 100000 in *. destruct Hrest as [_ ->].
      assert (length (dec UDP_PROTO) = 2)%nat as -> by done. split; [lia|congruence].
    + injection Hsp as <-. injection Hdp as <-. assert (length (dec 0) = 1)%nat as -> by done. split; [|intros _]; lia.
Qed.
End Fits.

(** ** Dumps and lines *)

Definition unhex (c : Z) : Z := if decide (c < 58) then c - 48 else c - 87.

(** Reading a dump: a line starts with ten characters of offset, a byte is two
    digits and a space. *)
Fixpoint undump (fuel : nat) (t : list Z) : list Z :=
  match fuel, t with
  | S fuel, c :: t =>
      if decide (c = NL) then undump fuel (drop 10 t) else
      match t with
      | c' :: _ :: t => unhex c * 16 + unhex c' :: undump fuel t
      | _ => []
      end
  | _, _ => []
  end.

Lemma hex_digit_ok d : 0 ≤ d < 16 → unhex (hex_digit d) = d ∧ hex_digit d ≠ NL.
Proof. intros Hd. unfold unhex, hex_digit, NL. repeat case_decide; lia. Qed.

Lemma hex_byte b : is_byte b → hex 2 b = [hex_digit (b / 16); hex_digit (b mod 16)].
Proof.
  intros Hb. unfold hex, pad. cbn [hex_digits]. case_decide as H1; cbn [app length replicate Nat.sub].
  - by rewrite Z.div_small by lia.
  - assert (b / 16 < 16) by (apply Z.div_lt_upper_bound; lia). assert (0 ≤ b / 16) by (apply Z.div_pos; lia).
    rewrite decide_True by done. by rewrite (Z.mod_small (b / 16)) by lia.
Qed.

Lemma undump_loop fuel i buf :
  bytes_ok buf → 0 ≤ i → i + Z.of_nat (length buf) ≤ 65536 →
  (2 * length buf < fuel)%nat → undump fuel (print_raw_loop i buf ++ [NL]) = buf.
Proof.
  revert fuel i. induction buf as [|b buf IH]; intros fuel i Hb Hi Hl Hf.
  { destruct fuel as [|fuel]; [done|]. cbn. by destruct fuel. }
  apply Forall_cons in Hb as [Hb Hbs]. cbn [length] in Hl, Hf.
  pose proof (Z.mod_pos_bound b 16 ltac:(done)). assert (b / 16 < 16) by (apply Z.div_lt_upper_bound; lia).
  assert (0 ≤ b / 16) by (apply Z.div_pos; lia).
  assert (∀ fuel, (2 * length buf + 1 < fuel)%nat →
    undump fuel ((hex 2 b ++ str " " ++ print_raw_loop (i + 1) buf) ++ [NL]) = b :: buf) as Hrest.
  { intros fuel' Hf'. destruct fuel' as [|fuel']; [lia|]. rewrite (hex_byte _ Hb). cbn [app undump str].
    change (bytes_of_string " ") with [32]. cbn [app].
    destruct (hex_digit_ok (b / 16) ltac:(lia)) as [E1 N1], (hex_digit_ok (b mod 16) ltac:(lia)) as [E2 _].
    rewrite decide_False by done. rewrite E1, E2, (IH fuel' (i + 1)) by (done || lia). f_equal.
    pose proof (Z.div_mod b 16 ltac:(done)). lia. }
  cbn [print_raw_loop]. case_decide; [|by apply Hrest; lia].
  destruct fuel as [|fuel]; [lia|]. rewrite <- app_assoc. cbn [app undump]. rewrite decide_True by done.
  pose proof (length_hex 3 i) as Hh. change (16 ^ Z.of_nat 4) with 65536 in Hh.
  assert (length (hex 4 i) = 4%nat) as Hlen by (apply Hh; lia). clear Hh.
  rewrite drop_app_length' by (by rewrite !length_app, Hlen). apply Hrest. lia.
Qed.

(** A dump of up to 64 KiB can be read back. *)
Theorem raw_dump_readable len buf t fuel :
  bytes_ok buf → Z.of_nat len ≤ 65536 → printRaw len buf = Some t → (2 * len < fuel)%nat →
  undump fuel t = take len buf.
Proof.
  intros Hb Hl Hp Hf. unfold printRaw in Hp. destruct (rd 0 len buf) as [bs|] eqn:Hr; [|done]. injection Hp as <-.
  pose proof (rd_length _ _ _ _ Hr). apply rd_Some in Hr as (_ & _ & Hbs). rewrite drop_0 in Hbs.
  rewrite undump_loop; [done|rewrite Hbs; by apply Forall_take|lia..].
Qed.

(** The buffer of a log line holds time, level and the whole format while the
    seconds have ten digits. *)
Lemma log_line_whole logLevel sec usec level fmt :
  0 ≤ sec < 10 ^ 10 → 0 ≤ usec < 10 ^ 6 → 0 ≤ level < 10 → level ≤ logLevel →
  ∃ stamp, varglog logLevel true sec usec level fmt = Some (stamp ++ fmt) ∧ (length stamp ≤ 20)%nat.
Proof.
  intros Hs Hu Hl Hll. unfold varglog. rewrite decide_True by done.
  exists (dec sec ++ str "." ++ pad 48 3 (dec (usec / 1000)) ++ str " LOG" ++ dec level ++ str " ").
  assert (length (dec sec ++ str "." ++ pad 48 3 (dec (usec / 1000)) ++ str " LOG" ++ dec level ++ str " ") ≤ 20)%nat as Hlen.
  { pose proof (length_dec 9 sec) as H1. pose proof (length_dec 2 (usec / 1000)) as H2. pose proof (length_dec 0 level) as H3.
    change (10 ^ Z.of_nat 10) with (10 ^ 10) in H1. change (10 ^ Z.of_nat 3) with 1000 in H2.
    assert (0 ≤ usec / 1000 < 1000) by (split; [apply Z.div_pos; lia|apply Z.div_lt_upper_bound; lia]).
    unfold pad. rewrite !length_app, length_replicate. cbn [length bytes_of_string]. cbn. lia. }
  split; [|done]. f_equal. unfold snprintf_cat. cbn [concat]. rewrite app_nil_r, <- !app_assoc.
  apply take_ge. rewrite !length_app in Hlen. rewrite !length_app. lia.
Qed.

(** ** Evaluation: a datagram between two long addresses, before and after a
    router *)

#[export] Instance toy_md5 : Md5 := λ bs, take 16 (((λ b, b mod 256) <$> bs) ++ zeros 16).
Definition datagram_bytes (ttl check1 check2 ucheck1 ucheck2 : Z) : list Z :=
  [69; 0; 0; 30; 1; 2; 0; 0; ttl; 17; check1; check2; 192; 168; 100; 100; 192; 168; 200; 200;
   195; 80; 195; 81; 0; 10; ucheck1; ucheck2; 42; 43].
Definition datagram_frame : packet_data :=
  Packet 30 0 None None None None None None None None 0 (datagram_bytes 64 9 9 7 7).
Definition datagram : packet_data :=
  match parse_packet datagram_frame with Some (_, p) => p | None => datagram_frame end.
Definition datagram_id : list Z := default [] (packet_id_text datagram 0).

Lemma toy_md5_length bs : length (md5 bs) = 16%nat.
Proof. unfold md5, toy_md5. apply length_take_le. unfold zeros. rewrite length_app, length_replicate. lia. Qed.
Lemma toy_md5_bytes bs : bytes_ok (md5 bs).
Proof.
  unfold md5, toy_md5. apply Forall_take, Forall_app. split; [|by_decide].
  apply Forall_fmap, Forall_true. intros b. apply (Z.mod_pos_bound b 256). done.
Qed.

Lemma packet_id_stable_witness :
  create_packet_id (with_data datagram (datagram_bytes 63 8 8 5 6)) 60 = create_packet_id datagram 60.
Proof.
  apply (packet_id_stable datagram_frame datagram 0 5); try done.
  intros i Hi.
  change (¬ ((0 + 4 ≤ Z.of_nat i < 0 + 9 ∨ 0 + 10 ≤ Z.of_nat i < 0 + 12) ∨ 20 + 6 ≤ Z.of_nat i < 20 + 8)) in Hi.
  do 30 (destruct i as [|i]; [first [reflexivity | exfalso; apply Hi; lia]|]). reflexivity.
Defined.

Lemma packet_id_fits_witness :
  (length datagram_id ≤ MAX_PACKET_ID_SIZE)%nat
  ∧ (p_udp datagram = None ∨ (length datagram_id < MAX_PACKET_ID_SIZE)%nat →
     create_packet_id datagram MAX_PACKET_ID_SIZE = Some datagram_id).
Proof.
  apply (packet_id_fits toy_md5_length toy_md5_bytes
    datagram_frame datagram 0); [reflexivity|reflexivity|by_decide|reflexivity].
Defined.

(** This name loses its last digit. *)
Lemma datagram_id_cut : create_packet_id datagram MAX_PACKET_ID_SIZE = Some (take 89 datagram_id)
  ∧ length datagram_id = 90%nat.
Proof. by vm_compute. Qed.
