(* ===== verification/Checksum.v ===== *)
(** * The transport checksum (src/packet.c, [csum_with_psuedo])

    The loop over 16-bit words, the carries and the complement compute the
    Internet checksum: with the stored value, the one's complement sum of the
    segment and its pseudo-header is zero. *)

From S2P Require Import Prelude Words Settings ArgError Packet.

(** ** The reference: big-endian words, an odd last byte padded with zero *)

Fixpoint be_sum (bs : list Z) : Z :=
  match bs with
  | a :: b :: bs => a * 256 + b + be_sum bs
  | [a] => a * 256
  | [] => 0
  end.

Definition segment (start len : Z) (buf : list Z) : list Z :=
  take (Z.to_nat len) (drop (Z.to_nat start) buf).

(** Source and destination address, protocol and length. *)
Definition pseudo_sum (ip len : Z) (buf : list Z) : Z :=
  be_sum (segment (ip + 12) 8 buf) + nth (Z.to_nat (ip + 9)) buf 0 + len.

(** One's complement: a sum is zero when it is a positive multiple of 65535. *)
Definition checksum_valid (ip start len : Z) (buf : list Z) : Prop :=
  (pseudo_sum ip len buf + be_sum (segment start len buf)) mod 65535 = 0.
#[export] Instance checksum_valid_dec ip start len buf :
  Decision (checksum_valid ip start len buf).
Proof. unfold checksum_valid. apply _. Defined.

Lemma list_pair_ind (P : list Z → Prop) :
  P [] → (∀ a, P [a]) → (∀ a b l, P l → P (a :: b :: l)) → ∀ l, P l.
Proof.
  intros H0 H1 H2. fix IH 1. intros [|a [|b l]]; [done | done | apply H2, IH].
Qed.

Lemma be_sum_app xs ys : Nat.even (length xs) = true → be_sum (xs ++ ys) = be_sum xs + be_sum ys.
Proof.
  induction xs as [|a|a b xs IH] using list_pair_ind; cbn [length app be_sum]; intros He;
    [lia | done | rewrite IH by done; lia].
Qed.

Lemma be_sum_bounds bs :
  bytes_ok bs → 0 ≤ be_sum bs ∧ 2 * be_sum bs ≤ 65535 * Z.of_nat (length bs + 1).
Proof.
  induction bs as [|a|a b bs IH] using list_pair_ind; cbn [length be_sum]; [lia|..].
  - intros [Ha _]%bytes_ok_cons. lia.
  - intros [Ha [Hb Hbs]%bytes_ok_cons]%bytes_ok_cons. specialize (IH Hbs). lia.
Qed.

(** ** The loop *)

Lemma rd16_be off buf :
  bytes_ok buf → 0 ≤ off → off + 2 ≤ Z.of_nat (length buf) →
  ∃ a b, rd16 off buf = Some (le_val [a; b]) ∧ is_byte a ∧ is_byte b
    ∧ drop (Z.to_nat off) buf = a :: b :: drop (Z.to_nat (off + 2)) buf.
Proof.
  intros Hb H0 Hl. unfold rd16. rewrite rd_defined by lia.
  assert (bytes_ok (drop (Z.to_nat off) buf)) as Hd by by apply Forall_drop.
  assert (2 ≤ length (drop (Z.to_nat off) buf))%nat as Hn by (rewrite length_drop; lia).
  replace (Z.to_nat (off + 2)) with (Z.to_nat off + 2)%nat by lia.
  rewrite <- drop_drop.
  destruct (drop (Z.to_nat off) buf) as [|a [|b l]]; cbn in Hn; [lia..|].
  apply bytes_ok_cons in Hd as [Ha [Hbb _]%bytes_ok_cons].
  by exists a, b.
Qed.

Lemma csum_loop_words (n fuel : nat) buf (e curr sum : Z) :
  bytes_ok buf → 0 ≤ e ≤ 1 → 0 ≤ curr → curr + 2 * Z.of_nat n ≤ Z.of_nat (length buf) →
  (n < fuel)%nat → 0 ≤ sum → sum + 65535 * Z.of_nat n < 2 ^ 32 →
  csum_loop fuel buf (2 * Z.of_nat n + e) curr sum =
    Some (e, curr + 2 * Z.of_nat n,
          sum + be_sum (take (2 * n) (drop (Z.to_nat curr) buf))).
Proof.
  intros Hb He. revert fuel curr sum.
  induction n as [|n IH]; intros [|fuel] curr sum Hc Hl Hf Hs Hmax; try lia.
  - cbn [csum_loop]. rewrite decide_False by lia.
    change (2 * 0)%nat with 0%nat. rewrite take_0. cbn [be_sum].
    f_equal. apply f_equal2; [apply f_equal2|]; lia.
  - cbn [csum_loop]. rewrite decide_True by lia.
    destruct (rd16_be curr buf) as (a & b & -> & Ha & Hbb & ->); [done|lia..|].
    cbn [mbind option_bind]. rewrite ntohs_pair by done.
    rewrite u32_small by lia.
    replace (2 * Z.of_nat (S n) + e - 2) with (2 * Z.of_nat n + e) by lia.
    rewrite IH by lia.
    replace (2 * S n)%nat with (S (S (2 * n))) by lia. cbn [take be_sum].
    f_equal. apply f_equal2; [apply f_equal2|]; lia.
Qed.

Lemma rd16_tail_high off slack buf a :
  bytes_ok buf → is_byte slack → 0 ≤ off → off < Z.of_nat (length buf) →
  buf !! Z.to_nat off = Some a →
  ∃ w, rd16_tail off slack buf = Some w ∧ Z.land (ntohs w) 65280 = a * 256.
Proof.
  intros Hb Hs H0 Hl Ha. unfold rd16_tail.
  destruct (rd16_be off (buf ++ [slack])) as (x & y & -> & Hx & Hy & Hd);
    [apply Forall_app; split; [done | by apply bytes_ok_cons] | lia | rewrite length_app; cbn; lia |].
  eexists. split; [done|]. rewrite ntohs_pair by done.
  assert (x = a) as ->.
  { apply (f_equal (λ l, l !! 0%nat)) in Hd. rewrite lookup_drop, Nat.add_0_r in Hd.
    rewrite lookup_app_l in Hd by lia. cbn in Hd. congruence. }
  change 65280 with (Z.shiftl (Z.ones 8) 8). apply Z.bits_inj'. intros k Hk.
  rewrite Z.land_spec, Z.shiftl_spec by lia.
  replace (a * 256 + y) with (Z.lor (Z.shiftl a 8) y).
  2:{ rewrite <- Z.add_lor_land. change 256 with (2 ^ 8). rewrite <- Z.shiftl_mul_pow2 by lia.
      assert (Z.land (Z.shiftl a 8) y = 0) as ->; [|lia].
      apply Z.bits_inj'. intros j Hj. rewrite Z.land_spec, Z.shiftl_spec, Z.bits_0 by lia.
      destruct (decide (j < 8)); [by rewrite Z.testbit_neg_r by lia|].
      rewrite andb_comm. assert (Z.testbit y j = false) as ->; [|done].
      destruct (decide (y = 0)) as [->|]; [apply Z.bits_0|].
      apply Z.bits_above_log2; [lia|].
      assert (Z.log2 y < 8) by (apply Z.log2_lt_pow2; lia). lia. }
  replace (a * 256) with (Z.shiftl a 8) by (rewrite Z.shiftl_mul_pow2 by lia; lia).
  rewrite Z.lor_spec, Z.shiftl_spec by lia.
  destruct (decide (k < 8)).
  - rewrite !(Z.testbit_neg_r _ (k - 8)) by lia. by rewrite andb_false_r.
  - assert (Z.testbit y k = false) as ->.
    { destruct (decide (y = 0)) as [->|]; [apply Z.bits_0|]. apply Z.bits_above_log2; [lia|].
      assert (Z.log2 y < 8) by (apply Z.log2_lt_pow2; lia). lia. }
    rewrite orb_false_r. destruct (decide (k < 16)).
    + rewrite Z.ones_spec_low by lia. by rewrite andb_true_r.
    + rewrite Z.ones_spec_high by lia. rewrite andb_false_r. symmetry.
      destruct (decide (a = 0)) as [->|]; [apply Z.bits_0|]. apply Z.bits_above_log2; [lia|].
      assert (Z.log2 a < 8) by (apply Z.log2_lt_pow2; lia). lia.
Qed.

(** ** The sum before the carries *)

Lemma rd32_halves off buf :
  bytes_ok buf → 0 ≤ off → off + 4 ≤ Z.of_nat (length buf) →
  ∃ w, rd32 off buf = Some w
    ∧ ntohs (Z.land (Z.shiftr w 16) 65535) + ntohs (Z.land w 65535)
      = be_sum (segment off 4 buf)
    ∧ 0 ≤ ntohs (Z.land (Z.shiftr w 16) 65535) ∧ 0 ≤ ntohs (Z.land w 65535)
    ∧ be_sum (segment off 4 buf) ≤ 131070.
Proof.
  intros Hb H0 Hl. unfold rd32, segment. rewrite rd_defined by lia.
  assert (bytes_ok (drop (Z.to_nat off) buf)) as Hd by by apply Forall_drop.
  assert (4 ≤ length (drop (Z.to_nat off) buf))%nat as Hn by (rewrite length_drop; lia).
  change (Z.to_nat 4) with 4%nat.
  destruct (drop (Z.to_nat off) buf) as [|a [|b [|c [|d l]]]]; cbn in Hn; [lia..|].
  apply bytes_ok_cons in Hd as [Ha [Hb' [Hc [Hdd _]%bytes_ok_cons]%bytes_ok_cons]%bytes_ok_cons].
  cbn [take fmap option_fmap option_map]. rewrite take_0. cbn [be_sum].
  eexists. split; [done|]. change 65535 with (Z.ones 16) at 1 2 3 4.
  rewrite !Z.land_ones, Z.shiftr_div_pow2 by done.
  replace (le_val [a; b; c; d] / 2 ^ 16) with (le_val [c; d])
    by (cbn [le_val]; apply (Z.div_unique _ _ _ (a + 256 * b)); lia).
  replace (le_val [a; b; c; d] mod 2 ^ 16) with (le_val [a; b])
    by (cbn [le_val]; apply (Z.mod_unique _ _ (c + 256 * d)); lia).
  rewrite (Z.mod_small (le_val [c; d])) by (cbn [le_val]; lia).
  rewrite !ntohs_pair by done. lia.
Qed.

Lemma nth_of_drop (k : nat) (l r : list Z) x : drop k l = x :: r → nth k l 0 = x.
Proof.
  intros Hd. assert (l !! k = Some x) as Hx.
  { rewrite <- (Nat.add_0_r k), <- lookup_drop, Hd. done. }
  by apply nth_lookup_Some.
Qed.

Lemma segment_split start (n : nat) e buf :
  0 ≤ start → 0 ≤ e ≤ 1 → start + 2 * Z.of_nat n + e ≤ Z.of_nat (length buf) →
  be_sum (segment start (2 * Z.of_nat n + e) buf) =
    be_sum (take (2 * n) (drop (Z.to_nat start) buf))
    + (if decide (e = 1) then nth (Z.to_nat (start + 2 * Z.of_nat n)) buf 0 * 256 else 0).
Proof.
  intros H0 He Hl. unfold segment.
  replace (Z.to_nat (2 * Z.of_nat n + e)) with (2 * n + Z.to_nat e)%nat by lia.
  rewrite <- take_take_drop, be_sum_app.
  2:{ rewrite length_take, length_drop.
      replace ((2 * n) `min` (length buf - Z.to_nat start))%nat with (2 * n)%nat by lia.
      by rewrite Nat.even_even. }
  f_equal. rewrite drop_drop. case_decide as H1.
  - subst e. change (Z.to_nat 1) with 1%nat.
    replace (Z.to_nat (start + 2 * Z.of_nat n)) with (Z.to_nat start + 2 * n)%nat by lia.
    destruct (drop (Z.to_nat start + 2 * n) buf) as [|x l] eqn:Ed.
    + apply (f_equal length) in Ed. rewrite length_drop in Ed. cbn in Ed. lia.
    + rewrite (nth_of_drop _ _ _ _ Ed). done.
  - replace (Z.to_nat e) with 0%nat by lia. by rewrite take_0.
Qed.

(** The odd byte, as the code adds it and as the reference counts it. *)
Lemma csum_tail slack (curr e B : Z) buf :
  bytes_ok buf → is_byte slack → 0 ≤ curr → curr + e ≤ Z.of_nat (length buf) →
  0 ≤ B < 2 ^ 31 →
  (if decide (e = 1)
   then w ← rd16_tail curr slack buf; Some (u32 (B + Z.land (ntohs w) 65280))
   else Some B)
  = Some (B + (if decide (e = 1) then nth (Z.to_nat curr) buf 0 * 256 else 0)).
Proof.
  intros Hb Hs Hc Hl HB. case_decide as H1; [|f_equal; lia].
  destruct (lookup_lt_is_Some_2 buf (Z.to_nat curr)) as [x Hx]; [lia|].
  destruct (rd16_tail_high curr slack buf x) as (w & -> & Hw); [done..|lia|done|].
  cbn [mbind option_bind]. rewrite (nth_lookup_Some _ _ _ _ Hx), Hw.
  pose proof (Forall_lookup_1 _ _ _ _ Hb Hx). cbn beta in *. by rewrite u32_small by lia.
Qed.

(** The pseudo-header as the code loads it. *)
Lemma pseudo_loads ip buf :
  bytes_ok buf → 0 ≤ ip → ip + 20 ≤ Z.of_nat (length buf) →
  ∃ sa da pr, ip_saddr ip buf = Some sa ∧ ip_daddr ip buf = Some da
    ∧ ip_protocol ip buf = Some pr
    ∧ (∀ len, pseudo_sum ip len buf =
         ntohs (Z.land (Z.shiftr sa 16) 65535) + ntohs (Z.land sa 65535)
         + ntohs (Z.land (Z.shiftr da 16) 65535) + ntohs (Z.land da 65535) + pr + len)
    ∧ 0 ≤ ntohs (Z.land (Z.shiftr sa 16) 65535) < 2 ^ 16 ∧ 0 ≤ ntohs (Z.land sa 65535) < 2 ^ 16
    ∧ 0 ≤ ntohs (Z.land (Z.shiftr da 16) 65535) < 2 ^ 16 ∧ 0 ≤ ntohs (Z.land da 65535) < 2 ^ 16
    ∧ is_byte pr.
Proof.
  intros Hb Hip Hil.
  destruct (rd32_halves (ip + 12) buf) as (sa & Hsa & Hs1 & _); [done|lia..|].
  destruct (rd32_halves (ip + 16) buf) as (da & Hda & Hd1 & _); [done|lia..|].
  destruct (rd16_be (ip + 9) buf) as (pr & pr2 & _ & Hpr & _ & Hdr); [done|lia..|].
  exists sa, da, pr. do 2 (split; [done|]). split.
  { unfold ip_protocol, rd8. rewrite rd_defined by lia. rewrite Hdr.
    cbn [take fmap option_fmap option_map le_val]. f_equal. lia. }
  split; [|split_and!; try apply htons_range; lia].
  intros len. unfold pseudo_sum. rewrite (nth_of_drop _ _ _ _ Hdr).
  enough (be_sum (segment (ip + 12) 8 buf) =
    be_sum (segment (ip + 12) 4 buf) + be_sum (segment (ip + 16) 4 buf)) by lia.
  unfold segment. change (Z.to_nat 8) with (4 + 4)%nat. rewrite <- take_take_drop, be_sum_app.
  - rewrite drop_drop. change (Z.to_nat 4) with 4%nat.
    by replace (Z.to_nat (ip + 12) + 4)%nat with (Z.to_nat (ip + 16)) by lia.
  - rewrite length_take, length_drop. by replace (4 `min` _)%nat with 4%nat by lia.
Qed.

Lemma segment_sum_range start len buf :
  bytes_ok buf → 0 ≤ len < 2 ^ 16 → 0 ≤ be_sum (segment start len buf) < 2 ^ 31.
Proof.
  intros Hb Hl. assert (bytes_ok (segment start len buf)) as Hs by by apply Forall_take, Forall_drop.
  pose proof (be_sum_bounds _ Hs).
  assert (length (segment start len buf) ≤ Z.to_nat len)%nat by (unfold segment; rewrite length_take; lia).
  lia.
Qed.

Lemma csum_sum_spec slack ip start len buf :
  bytes_ok buf → is_byte slack → 0 ≤ len < 2 ^ 16 →
  0 ≤ start → start + len ≤ Z.of_nat (length buf) →
  0 ≤ ip → ip + 20 ≤ Z.of_nat (length buf) →
  csum_sum slack ip start len buf =
    Some (pseudo_sum ip len buf + be_sum (segment start len buf))
  ∧ 0 ≤ pseudo_sum ip len buf + be_sum (segment start len buf) < 2 ^ 32.
Proof.
  intros Hb Hs Hlen Hst Hsl Hip Hil. unfold csum_sum. rewrite s32_small by lia.
  pose proof (segment_sum_range start len buf Hb Hlen) as HB.
  set (n := Z.to_nat (len / 2)). set (e := len mod 2).
  assert (0 ≤ e ≤ 1) as He by (pose proof (Z.mod_pos_bound len 2 eq_refl); lia).
  assert (len = 2 * Z.of_nat n + e) as Hl2.
  { unfold n, e. rewrite Z2Nat.id by (apply Z.div_pos; lia). by apply Z.div_mod. }
  clearbody n e. subst len.
  rewrite csum_loop_words by (done || lia). cbn [mbind option_bind].
  rewrite segment_split in * by lia. rewrite Z.add_0_l.
  set (B := be_sum (take (2 * n) _)) in *.
  assert (0 ≤ B) by (apply be_sum_bounds; by apply Forall_take, Forall_drop).
  assert (0 ≤ nth (Z.to_nat (start + 2 * Z.of_nat n)) buf 0) as Hnth.
  { destruct (nth_in_or_default (Z.to_nat (start + 2 * Z.of_nat n)) buf 0) as [Hin|Hd]; [|lia].
    apply list_elem_of_In in Hin. rewrite Forall_forall in Hb. apply Hb in Hin. lia. }
  rewrite csum_tail; [|done|done|lia|lia|case_decide; lia].
  cbn [mbind option_bind]. set (T := if decide (e = 1) then _ else _) in *.
  destruct (pseudo_loads ip buf) as (sa & da & pr & -> & -> & -> & Hps & ? & ? & ? & ? & ?); [done..|].
  cbn [mbind option_bind]. rewrite Hps. clear Hnth.
  split; [f_equal|lia]. drop_u32. lia.
Qed.

(** ** Carries and complement *)

Lemma fold_carry_eq s :
  0 ≤ s < 2 ^ 32 →
  fold_carry s = s / 65536 + s mod 65536
  ∧ 0 ≤ s / 65536 ≤ 65535 ∧ 0 ≤ s mod 65536 < 65536 ∧ s = 65536 * (s / 65536) + s mod 65536.
Proof.
  intros Hs. unfold fold_carry.
  pose proof (Z.land_ones s 16 ltac:(done)) as Hland. change (Z.ones 16) with 65535 in Hland.
  rewrite Hland, Z.shiftr_div_pow2 by done. change (2 ^ 16) with 65536.
  pose proof (Z.mod_pos_bound s 65536 eq_refl).
  assert (0 ≤ s / 65536) by (apply Z.div_pos; lia).
  assert (s / 65536 ≤ 65535) by (apply Z.lt_succ_r, Z.div_lt_upper_bound; lia).
  split_and!; [apply u32_small | | | | |apply Z.div_mod]; lia.
Qed.

Lemma fold_carry_mod s : 0 ≤ s < 2 ^ 32 → fold_carry s mod 65535 = s mod 65535.
Proof.
  intros Hs. destruct (fold_carry_eq s Hs) as (-> & _ & _ & Hd). rewrite Hd at 3.
  replace (65536 * (s / 65536) + s mod 65536)
    with (s / 65536 + s mod 65536 + (s / 65536) * 65535) by lia.
  by rewrite Z.mod_add.
Qed.

Lemma fold_carry_twice s :
  0 ≤ s < 2 ^ 32 →
  0 ≤ fold_carry (fold_carry s) ≤ 65535
  ∧ fold_carry (fold_carry s) mod 65535 = s mod 65535.
Proof.
  intros Hs. destruct (fold_carry_eq s Hs) as (Hf & ? & ? & _).
  assert (0 ≤ fold_carry s < 2 ^ 32) as Hf2 by lia.
  split; [|by rewrite !fold_carry_mod].
  destruct (fold_carry_eq _ Hf2) as (-> & ? & ? & Hd). lia.
Qed.

Lemma complement_ntohs r :
  0 ≤ r ≤ 65535 → ntohs (u16 (Z.lnot (htons (u16 r)))) = 65535 - r.
Proof.
  intros Hr. rewrite (u16_small r) by lia.
  pose proof (Z.div_mod r 256 ltac:(lia)) as Hdm.
  pose proof (Z.mod_pos_bound r 256 eq_refl).
  assert (0 ≤ r / 256 < 256) by (split; [apply Z.div_pos | apply Z.div_lt_upper_bound]; lia).
  set (hi := r / 256) in *. set (lo := r mod 256) in *. clearbody hi lo.
  assert (r = le_val [lo; hi]) as -> by (cbn [le_val]; lia).
  change (htons (le_val [lo; hi])) with (ntohs (le_val [lo; hi])).
  rewrite ntohs_pair by lia.
  replace (u16 (Z.lnot (lo * 256 + hi))) with (le_val [255 - hi; 255 - lo]).
  - rewrite ntohs_pair by lia. cbn [le_val]. lia.
  - unfold u16, Z.lnot. cbn [le_val]. apply (Z.mod_unique _ _ (-1)); lia.
Qed.

(** ** Storing the checksum *)

Lemma segment_mid start off len (mid buf : list Z) :
  0 ≤ start ≤ off → off + 2 ≤ start + len → start + len ≤ Z.of_nat (length buf) →
  length mid = 2%nat →
  segment start len (take (Z.to_nat off) buf ++ mid ++ drop (Z.to_nat off + 2) buf) =
    drop (Z.to_nat start) (take (Z.to_nat off) buf) ++ mid
      ++ take (Z.to_nat (start + len - off - 2)) (drop (Z.to_nat off + 2) buf).
Proof.
  intros Ho Hl Hb Hm. unfold segment.
  assert (length (take (Z.to_nat off) buf) = Z.to_nat off) as Ht by (rewrite length_take; lia).
  rewrite drop_app_le by lia.
  assert (length (drop (Z.to_nat start) (take (Z.to_nat off) buf)) = (Z.to_nat off - Z.to_nat start)%nat)
    as Hd by (rewrite length_drop; lia).
  rewrite take_app_ge by lia. f_equal. rewrite take_app_ge by lia. f_equal.
  f_equal. lia.
Qed.

(** Replacing a 16-bit word at an even offset of a segment changes the sum by
    the difference of the words. *)
Lemma be_sum_store start (k : nat) len c buf buf' :
  bytes_ok buf → 0 ≤ start → 2 * Z.of_nat k + 2 ≤ len →
  start + len ≤ Z.of_nat (length buf) →
  wr16 (start + 2 * Z.of_nat k) c buf = Some buf' →
  rd16 (start + 2 * Z.of_nat k) buf = Some 0 →
  be_sum (segment start len buf') = be_sum (segment start len buf) + ntohs c.
Proof.
  intros Hb H0 Hk Hl Hw Hr. set (off := start + 2 * Z.of_nat k) in *.
  destruct (rd16_be off buf) as (a & b & Hab & Ha & Hbb & Hd); [done|lia..|].
  assert (a = 0 ∧ b = 0) as [-> ->] by (rewrite Hab in Hr; injection Hr; cbn; lia).
  apply wr_Some in Hw as (_ & _ & ->). rewrite length_le_bytes.
  assert (buf = take (Z.to_nat off) buf ++ [0; 0] ++ drop (Z.to_nat off + 2) buf) as Heq.
  { rewrite <- (take_drop (Z.to_nat off) buf) at 1. f_equal. rewrite Hd. cbn.
    by replace (Z.to_nat (off + 2)) with (Z.to_nat off + 2)%nat by lia. }
  rewrite Heq at 3. rewrite !segment_mid by (rewrite ?length_le_bytes; lia || done).
  assert (Nat.even (length (drop (Z.to_nat start) (take (Z.to_nat off) buf))) = true) as He.
  { rewrite length_drop, length_take.
    replace (_ - _)%nat with (2 * k)%nat by lia. by rewrite Nat.even_even. }
  rewrite !(be_sum_app _ _ He).
  pose proof (ntohs_pair (c mod 256) (c / 256 mod 256)) as Hp.
  rewrite (be_sum_app (le_bytes 2 c)), (be_sum_app [0; 0]) by done.
  cbn [le_bytes be_sum].
  enough (ntohs c = c mod 256 * 256 + c / 256 mod 256) by lia.
  rewrite <- Hp by (by apply Z.mod_pos_bound). unfold ntohs, htons.
  change [c mod 256; c / 256 mod 256] with (le_bytes 2 c). by rewrite le_val_bytes, le_bytes_mod.
Qed.

Lemma pseudo_sum_frame ip len off bs buf buf' :
  0 ≤ ip → ip + 20 ≤ off → wr off bs buf = Some buf' →
  pseudo_sum ip len buf' = pseudo_sum ip len buf.
Proof.
  intros Hip Ho Hw. unfold pseudo_sum, segment.
  pose proof (wr_length _ _ _ _ Hw). pose proof Hw as (? & ? & _)%wr_Some.
  pose proof (rd_wr_ne _ _ _ _ (ip + 12) 8 Hw ltac:(lia)) as Hrd.
  rewrite !rd_defined in Hrd by lia. injection Hrd as Heq. change (Z.to_nat 8) with 8%nat.
  rewrite Heq. f_equal. f_equal.
  rewrite !nth_lookup, (wr_lookup _ _ _ _ _ Hw), bool_decide_false by lia. done.
Qed.

(** ** The result of [csum_with_psuedo] *)

(** Where the checksummed segment of a packet starts, where its checksum field
    is, and how long the code takes the segment to be. *)
Definition csum_layout (p : packet_data) : option (Z * Z * Z * Z) :=
  match p_ipv4 p, p_tcp p, p_udp p with
  | Some ip, Some tcp, _ =>
      tot_len ← ip_tot_len ip (p_data p); ihl ← ip_ihl ip (p_data p);
      Some (ip, tcp, tcp + 16, u32 (ntohs tot_len - ihl * 4))
  | Some ip, None, Some udp =>
      ulen ← rd16 (udp + 4) (p_data p); Some (ip, udp, udp + 6, ntohs ulen)
  | _, _, _ => None
  end.

(** The segment lies in the buffer, after the IP header, and covers the field. *)
Record csum_fits (p : packet_data) (ip start off len : Z) : Prop := {
  fits_bytes : bytes_ok (p_data p);
  fits_layout : csum_layout p = Some (ip, start, off, len);
  fits_ip : 0 ≤ ip ∧ ip + 20 ≤ start;
  fits_field : off + 2 ≤ start + len;
  fits_len : len < 2 ^ 16;
  fits_buf : start + len ≤ Z.of_nat (length (p_data p)) }.

(** The value the code stores, from the buffer with a zeroed field. *)
Definition checksum_value (ip start len : Z) (zeroed : list Z) : Z :=
  u16 (Z.lnot (htons (u16 (fold_carry (fold_carry
    (pseudo_sum ip len zeroed + be_sum (segment start len zeroed))))))).

Lemma csum_layout_parts p ip start off len :
  csum_layout p = Some (ip, start, off, len) →
  p_ipv4 p = Some ip ∧ 0 ≤ len ∧
  ((p_tcp p = Some start ∧ off = start + 16
    ∧ ∃ tl ihl, ip_tot_len ip (p_data p) = Some tl ∧ ip_ihl ip (p_data p) = Some ihl
        ∧ len = u32 (ntohs tl - ihl * 4))
   ∨ (p_tcp p = None ∧ p_udp p = Some start ∧ off = start + 6
    ∧ ∃ ul, rd16 (start + 4) (p_data p) = Some ul ∧ len = ntohs ul)).
Proof.
  unfold csum_layout. destruct (p_ipv4 p), (p_tcp p), (p_udp p); try done;
    try (destruct (ip_tot_len _ _) eqn:?, (ip_ihl _ _) eqn:?);
    try (destruct (rd16 _ _) eqn:?); intros [= <- <- <- <-]; split_and!;
    try apply u32_range; try apply htons_range; eauto 10.
Qed.

Lemma store_csum_spec slack ip start off len zeroed :
  bytes_ok zeroed → is_byte slack → 0 ≤ len < 2 ^ 16 → 0 ≤ ip → ip + 20 ≤ start →
  start + len ≤ Z.of_nat (length zeroed) → 20 ≤ Z.of_nat (length zeroed) - ip →
  store_csum slack ip start off len zeroed
  = wr16 off (checksum_value ip start len zeroed) zeroed.
Proof.
  intros. unfold store_csum, checksum_value.
  destruct (csum_sum_spec slack ip start len zeroed) as [-> _]; [done..|lia|lia|lia|lia|done].
Qed.

Lemma csum_run slack p ip start off len :
  is_byte slack → csum_fits p ip start off len →
  ∃ zeroed d, wr16 off 0 (p_data p) = Some zeroed
    ∧ wr16 off (checksum_value ip start len zeroed) zeroed = Some d
    ∧ csum_with_psuedo slack p = Some (with_data p d).
Proof.
  intros Hs [Hb Hlay [Hip Hst] Hf Hlen Hbuf].
  destruct (csum_layout_parts _ _ _ _ _ Hlay) as (Hipv4 & Hlen0 & Hcases).
  assert (start ≤ off ∧ 20 ≤ off - ip) as [? ?] by (destruct Hcases as [(_ & -> & _)|(_ & _ & -> & _)]; lia).
  destruct (wr16_defined off 0 (p_data p)) as [z Hz]; [lia..|].
  pose proof (wr16_length _ _ _ _ Hz) as Hzl.
  pose proof (wr16_bytes_ok _ _ _ _ Hb Hz) as Hzb.
  destruct (wr16_defined off (checksum_value ip start len z) z) as [d Hd]; [lia..|].
  exists z, d. do 2 (split; [done|]).
  rewrite <- (store_csum_spec slack) in Hd by (done || lia).
  assert (∀ o n, o + Z.of_nat n ≤ off → rd o n z = rd o n (p_data p)) as Hframe
    by (intros; apply (rd_wr16_ne _ _ _ _ _ _ Hz); lia).
  unfold csum_with_psuedo.
  destruct Hcases as [(-> & -> & tl & ihl & Htl & Hihl & ->)|(-> & -> & -> & ul & Hul & ->)];
    rewrite Hipv4, Hz, some_bind; unfold ip_tot_len, ip_ihl, rd16, rd8 in *; rewrite !Hframe by lia.
  - by rewrite Htl, some_bind, Hihl, some_bind, Hd.
  - by rewrite Hul, some_bind, Hd.
Qed.

Lemma checksum_store_valid ip start (k : nat) len zeroed d :
  bytes_ok zeroed → 0 ≤ ip → ip + 20 ≤ start → 2 * Z.of_nat k + 2 ≤ len < 2 ^ 16 →
  start + len ≤ Z.of_nat (length zeroed) →
  rd16 (start + 2 * Z.of_nat k) zeroed = Some 0 →
  wr16 (start + 2 * Z.of_nat k) (checksum_value ip start len zeroed) zeroed = Some d →
  checksum_valid ip start len d.
Proof.
  intros Hb Hip Hst Hk Hl Hz Hd. unfold checksum_valid.
  destruct (csum_sum_spec 0 ip start len zeroed) as [_ Hr]; [done..|lia|lia|lia|lia|lia|].
  rewrite (be_sum_store start k len _ zeroed d Hb ltac:(lia) ltac:(lia) ltac:(lia) Hd Hz).
  rewrite (pseudo_sum_frame ip len (start + 2 * Z.of_nat k) _ zeroed d Hip ltac:(lia) Hd).
  set (s := pseudo_sum ip len zeroed + be_sum (segment start len zeroed)) in *.
  destruct (fold_carry_twice s Hr) as [Hf Hm].
  unfold checksum_value. rewrite complement_ntohs by done. fold s.
  rewrite Z.add_assoc. fold s. rewrite Z.add_sub_assoc.
  rewrite Zminus_mod, Hm, <- Zminus_mod.
  replace (s + 65535 - s) with (1 * 65535) by lia. by rewrite Z.mod_mul.
Qed.

Lemma csum_fits_ranges p ip start off len :
  csum_fits p ip start off len → start ≤ off ∧ 0 ≤ len ∧ ∃ k : nat, off = start + 2 * Z.of_nat k.
Proof.
  intros [Hb Hlay [Hip Hst] Hf Hlen Hbuf].
  destruct (csum_layout_parts _ _ _ _ _ Hlay) as (_ & ? & [(_ & -> & _)|(_ & _ & -> & _)]).
  - split_and!; [lia..|]. by exists 8%nat.
  - split_and!; [lia..|]. by exists 3%nat.
Qed.

Lemma rd16_zeroed off buf z : wr16 off 0 buf = Some z → rd16 off z = Some 0.
Proof.
  intros Hz. unfold rd16.
  assert (rd off 2 z = Some (le_bytes 2 0)) as -> by apply (rd_wr_same _ (le_bytes 2 0) _ _ Hz).
  done.
Qed.

Lemma csum_fits_stored p ip start off len z d c :
  csum_fits p ip start off len → wr16 off 0 (p_data p) = Some z → wr16 off c z = Some d →
  csum_fits (with_data p d) ip start off len.
Proof.
  intros Hfits Hz Hd. destruct (csum_fits_ranges _ _ _ _ _ Hfits) as (? & ? & _).
  destruct Hfits as [Hb Hlay [Hip Hst] Hf Hlen Hbuf].
  pose proof (wr_length _ _ _ _ Hz). pose proof (wr_length _ _ _ _ Hd).
  assert (∀ o n, o + Z.of_nat n ≤ off → rd o n d = rd o n (p_data p)) as Hframe.
  { intros o n Ho. rewrite (rd_wr_ne _ _ _ _ _ _ Hd), (rd_wr_ne _ _ _ _ _ _ Hz) by lia. done. }
  split; cbn -[csum_layout]; [| |lia..].
  - eapply wr_bytes_ok; [eapply wr_bytes_ok; [done| |done]| |done]; apply le_bytes_ok.
  - destruct (csum_layout_parts _ _ _ _ _ Hlay) as (Hip4 & _ & Hc).
    unfold csum_layout in *. cbn. rewrite Hip4 in *.
    destruct Hc as [(Ht & -> & _)|(Ht & Hu & -> & _)]; [|rewrite Hu in *]; rewrite Ht in *;
      unfold ip_tot_len, ip_ihl, rd16, rd8 in *; by rewrite !Hframe by lia.
Qed.

(** C16. After [csum_with_psuedo] the one's complement sum of the transport
    segment and its pseudo-header verifies, whatever odd length the segment
    has, and no byte outside the checksum field has changed. *)
Theorem csum_verifies slack p ip start off len :
  is_byte slack → csum_fits p ip start off len →
  ∃ d, csum_with_psuedo slack p = Some (with_data p d)
    ∧ checksum_valid ip start len d
    ∧ (∀ i : nat, ¬ (off ≤ Z.of_nat i < off + 2) → d !! i = p_data p !! i).
Proof.
  intros Hs Hfits. destruct (csum_run _ _ _ _ _ _ Hs Hfits) as (z & d & Hz & Hd & Hrun).
  destruct (csum_fits_ranges _ _ _ _ _ Hfits) as (? & ? & k & ->).
  destruct Hfits as [Hb _ [Hip Hst] Hf Hlen Hbuf].
  pose proof (wr_length _ _ _ _ Hz).
  exists d. split_and!; [done| |].
  - apply (checksum_store_valid ip start k len z d); [|done|done|split; [lia|done]|lia|by eapply rd16_zeroed|done].
    eapply wr_bytes_ok; [done|apply le_bytes_ok|done].
  - intros i Hi. rewrite (wr_lookup _ _ _ _ _ Hd), (wr_lookup _ _ _ _ _ Hz).
    by rewrite !bool_decide_false.
Qed.

(** The checksum does not depend on the byte after the buffer that an odd
    segment makes the code load, and computing it a second time (as both NAT
    directions do for UDP) changes nothing. *)
Theorem csum_idempotent slack slack' p ip start off len :
  is_byte slack → is_byte slack' → csum_fits p ip start off len →
  csum_with_psuedo slack' p = csum_with_psuedo slack p
  ∧ (csum_with_psuedo slack p ≫= csum_with_psuedo slack') = csum_with_psuedo slack p.
Proof.
  intros Hs Hs' Hfits.
  destruct (csum_run _ _ _ _ _ _ Hs Hfits) as (z & d & Hz & Hd & Hrun).
  destruct (csum_run _ _ _ _ _ _ Hs' Hfits) as (z' & d' & Hz' & Hd' & Hrun').
  assert (z' = z) as -> by congruence. assert (d' = d) as -> by congruence.
  rewrite Hrun, Hrun'. split; [done|]. cbn [mbind option_bind].
  pose proof (csum_fits_stored _ _ _ _ _ _ _ _ Hfits Hz Hd) as Hfits2.
  destruct (csum_run _ _ _ _ _ _ Hs' Hfits2) as (z2 & d2 & Hz2 & Hd2 & ->). cbn in Hz2.
  assert (z2 = z) as ->.
  { assert (wr16 off 0 d = Some z) as E; [|congruence].
    apply (wr_restore _ _ _ _ _ Hd). apply (rd_wr_same _ (le_bytes 2 0) _ _ Hz). }
  by assert (d2 = d) as -> by congruence.
Qed.

(** ** Evaluation: a TCP segment with an odd payload, a UDP datagram *)

Definition tcp_example : list Z :=
  [69; 0; 0; 43; 0; 0; 64; 0; 64; 6; 0; 0; 10; 0; 0; 1; 192; 168; 1; 200;
   31; 144; 0; 80; 0; 0; 0; 1; 0; 0; 0; 0; 80; 2; 255; 255; 171; 205; 0; 0; 104; 105; 33].
Definition udp_example : list Z :=
  [69; 0; 0; 31; 0; 0; 64; 0; 64; 17; 0; 0; 10; 0; 0; 1; 192; 168; 1; 200;
   31; 144; 0; 53; 0; 11; 9; 9; 1; 2; 3].
Definition parsed (d : list Z) : packet_data :=
  match parse_packet (Packet (Z.of_nat (length d)) 0 None None None None None None None None 0 d) with
  | Some (_, p) => p
  | None => Packet 0 0 None None None None None None None None 0 []
  end.

Lemma tcp_example_fits : csum_fits (parsed tcp_example) 0 20 36 23.
Proof. split; [repeat constructor; cbv; congruence | vm_compute; done..]. Defined.
Lemma udp_example_fits : csum_fits (parsed udp_example) 0 20 26 11.
Proof. split; [repeat constructor; cbv; congruence | vm_compute; done..]. Defined.

Lemma csum_verifies_witness :
  ∃ d, csum_with_psuedo 7 (parsed tcp_example) = Some (with_data (parsed tcp_example) d)
    ∧ checksum_valid 0 20 23 d
    ∧ (∀ i : nat, ¬ (36 ≤ Z.of_nat i < 36 + 2) → d !! i = p_data (parsed tcp_example) !! i).
Proof. apply (csum_verifies 7 _ 0 20 36 23); [lia | exact tcp_example_fits]. Defined.

Lemma csum_idempotent_witness :
  csum_with_psuedo 255 (parsed udp_example) = csum_with_psuedo 0 (parsed udp_example)
  ∧ (csum_with_psuedo 0 (parsed udp_example) ≫= csum_with_psuedo 255)
    = csum_with_psuedo 0 (parsed udp_example).
Proof. apply (csum_idempotent 0 255 _ 0 20 26 11); [lia | lia | exact udp_example_fits]. Defined.
