(* ===== verification/Gate.v ===== *)
(** * Gateway records (src/hopper.h, src/protocol.h)

    [arg_network_info] and [proto_data] field by field.  The mutex of a gateway
    is the flag [lock]; [next] and [prev] are addresses in the gateway heap. *)

From S2P Require Import Prelude Words Settings Utility Crypto.

Record proto_data := Proto {
  sendConnData : bool; sendPing : bool; sendTrust : bool;
  connDataAvailable : bool; timeBaseAvailable : bool;
  lastConnAttemptTime : timespec;
  inSeqNum : Z; outSeqNum : Z; latency : Z;
  goodIPCount : Z; badIPCount : Z;
  pingSentTime : timespec; sentPingID : Z }.
#[export] Instance proto_data_eta : Eta proto_data := λ p,
  Proto (sendConnData p) (sendPing p) (sendTrust p) (connDataAvailable p)
    (timeBaseAvailable p) (lastConnAttemptTime p) (inSeqNum p) (outSeqNum p)
    (latency p) (goodIPCount p) (badIPCount p) (pingSentTime p) (sentPingID p).

Section Gate.
Context `{PolarSSL}.

Record arg_network_info := Gate {
  name : list Z;
  connected : bool;
  lastDataUpdate : timespec;
  proto : proto_data;
  lock : bool;
  symKey : list Z; iv : list Z;
  cipher : cipher_context; md : md_context;
  rsa : rsa_context; ctr_drbg : ctr_drbg_context;
  hopKey : list Z; timeBase : timespec; hopInterval : Z;
  baseIP : list Z; mask : list Z;
  next : option loc; prev : option loc }.
#[export] Instance arg_network_info_eta : Eta arg_network_info := λ g,
  Gate (name g) (connected g) (lastDataUpdate g) (proto g) (lock g) (symKey g)
    (iv g) (cipher g) (md g) (rsa g) (ctr_drbg g) (hopKey g) (timeBase g)
    (hopInterval g) (baseIP g) (mask g) (next g) (prev g).

Definition time_zero : timespec := Timespec 0 0.

(** The record [create_arg_network_info] returns: cleared memory, then the
    contexts, [hopInterval], and the two sequence numbers. *)
Definition new_arg_network_info : arg_network_info := {|
  name := zeros MAX_NAME_SIZE; connected := false; lastDataUpdate := time_zero;
  proto := {| sendConnData := false; sendPing := false; sendTrust := false;
    connDataAvailable := false; timeBaseAvailable := false;
    lastConnAttemptTime := time_zero; inSeqNum := 0; outSeqNum := 1; latency := 0;
    goodIPCount := 0; badIPCount := 0; pingSentTime := time_zero; sentPingID := 0 |};
  lock := false; symKey := zeros AES_KEY_SIZE; iv := zeros AES_BLOCK_SIZE;
  cipher := cipher_init; md := md_init; rsa := rsa_zero; ctr_drbg := ctr_drbg_zero;
  hopKey := zeros HOP_KEY_SIZE; timeBase := time_zero; hopInterval := UINT32_MAX;
  baseIP := zeros ADDR_SIZE; mask := zeros ADDR_SIZE; next := None; prev := None |}.

(** ** Updates of one gateway that need nothing else *)

Definition with_proto (f : proto_data → proto_data) (g : arg_network_info) : arg_network_info :=
  g <| proto ::= f |>.

Definition set_sendPing (b : bool) : arg_network_info → arg_network_info :=
  with_proto (λ p, p <| sendPing := b |>).
Definition set_sendConnData (b : bool) : arg_network_info → arg_network_info :=
  with_proto (λ p, p <| sendConnData := b |>).
Definition set_sendTrust (b : bool) : arg_network_info → arg_network_info :=
  with_proto (λ p, p <| sendTrust := b |>).

(** The assignments of [end_connection]. *)
Definition disconnect (g : arg_network_info) : arg_network_info :=
  with_proto (λ p, p <| timeBaseAvailable := false |> <| connDataAvailable := false |>) g
    <| connected := false |>.

(** ** The connection invariant

    A gateway counts as connected exactly when both its connection data and
    its time base have arrived since it was last disconnected. *)
Definition conn_ok (g : arg_network_info) : Prop :=
  connected g = connDataAvailable (proto g) && timeBaseAvailable (proto g).

#[export] Instance conn_ok_dec g : Decision (conn_ok g).
Proof. unfold conn_ok. apply _. Defined.

(** Sizes the C types fix: array members and unsigned fields. *)
Record gate_wf (g : arg_network_info) : Prop := {
  wf_symKey : length (symKey g) = AES_KEY_SIZE;
  wf_iv : length (iv g) = AES_BLOCK_SIZE;
  wf_hopKey : length (hopKey g) = HOP_KEY_SIZE;
  wf_baseIP : length (baseIP g) = ADDR_SIZE;
  wf_mask : length (mask g) = ADDR_SIZE;
  wf_name : length (name g) = MAX_NAME_SIZE }.

(** The fields of 32 bits hold 32 bits.  ([latency] is a [long].) *)
Definition is_u32 (z : Z) : Prop := 0 ≤ z < 2 ^ 32.
Record proto_typed (p : proto_data) : Prop := {
  ty_inSeqNum : is_u32 (inSeqNum p);
  ty_outSeqNum : is_u32 (outSeqNum p);
  ty_goodIPCount : is_u32 (goodIPCount p);
  ty_badIPCount : is_u32 (badIPCount p);
  ty_sentPingID : is_u32 (sentPingID p) }.
Record gate_typed (g : arg_network_info) : Prop := {
  ty_proto : proto_typed (proto g);
  ty_hopInterval : is_u32 (hopInterval g) }.

Lemma new_gate_typed : gate_typed new_arg_network_info.
Proof. by repeat split. Qed.

Lemma new_gate_wf : gate_wf new_arg_network_info.
Proof. by split; cbn; repeat constructor. Qed.

Lemma new_gate_conn_ok : conn_ok new_arg_network_info.
Proof. done. Qed.
End Gate.
