(* ===== verification/Uthash.v ===== *)
(** * The hash table macros the NAT table uses (src/uthash.h)

    A table is [None] when the head pointer is NULL.  The elements of a bucket
    ([hh_head], [hh_next]) and of the application order (the [hh.next] chain
    from the head) are lists of handles; a handle records the address of its
    element, the element's [int] key and the cached hash value.  The counters are
    [unsigned], and wrap.  A macro that allocates counts the allocations in its
    state, and ends the process when one fails ([uthash_fatal]).  The contract
    the NAT table relies on is in [UthashFacts]. *)

From stdpp Require Import sorting.
From S2P Require Import Prelude Words.

Record hash_handle := Handle { h_elt : loc; h_key : Z; h_hashv : Z }.

Record ut_bucket := UtBucket { hh_chain : list hash_handle; count : Z; expand_mult : Z }.
#[export] Instance ut_bucket_eta : Eta ut_bucket := λ b,
  UtBucket (hh_chain b) (count b) (expand_mult b).

Record ut_table := UtTable {
  buckets : list ut_bucket;
  num_buckets : Z; log2_num_buckets : Z;
  num_items : Z;
  ideal_chain_maxlen : Z; nonideal_items : Z; ineff_expands : Z; noexpand : Z;
  app_order : list hash_handle }.
#[export] Instance ut_table_eta : Eta ut_table := λ t,
  UtTable (buckets t) (num_buckets t) (log2_num_buckets t) (num_items t)
    (ideal_chain_maxlen t) (nonideal_items t) (ineff_expands t) (noexpand t) (app_order t).

Definition HASH_INITIAL_NUM_BUCKETS : Z := 32.
Definition HASH_INITIAL_NUM_BUCKETS_LOG2 : Z := 5.
Definition HASH_BKT_CAPACITY_THRESH : Z := 10.

(** ** Jenkins' hash of a four-byte key; [char] is signed on this host *)

Definition sx8 (b : Z) : Z := if decide (128 ≤ b) then b - 256 else b.

Definition HASH_JEN_MIX (a b c : Z) : Z * Z * Z :=
  let a := u32 (a - b) in let a := u32 (a - c) in let a := Z.lxor a (Z.shiftr c 13) in
  let b := u32 (b - c) in let b := u32 (b - a) in let b := Z.lxor b (u32 (Z.shiftl a 8)) in
  let c := u32 (c - a) in let c := u32 (c - b) in let c := Z.lxor c (Z.shiftr b 13) in
  let a := u32 (a - b) in let a := u32 (a - c) in let a := Z.lxor a (Z.shiftr c 12) in
  let b := u32 (b - c) in let b := u32 (b - a) in let b := Z.lxor b (u32 (Z.shiftl a 16)) in
  let c := u32 (c - a) in let c := u32 (c - b) in let c := Z.lxor c (Z.shiftr b 5) in
  let a := u32 (a - b) in let a := u32 (a - c) in let a := Z.lxor a (Z.shiftr c 3) in
  let b := u32 (b - c) in let b := u32 (b - a) in let b := Z.lxor b (u32 (Z.shiftl a 10)) in
  let c := u32 (c - a) in let c := u32 (c - b) in let c := Z.lxor c (Z.shiftr b 15) in
  (a, b, c).

(** [s[o] + (s[o+1] << 8) + (s[o+2] << 16) + (s[o+3] << 24)], as [unsigned] *)
Definition key_byte (key : list Z) (i : nat) : Z := u32 (sx8 (nth i key 0)).
Definition key_word (key : list Z) (o : nat) : Z :=
  u32 (key_byte key o + u32 (Z.shiftl (key_byte key (o + 1)) 8)
    + u32 (Z.shiftl (key_byte key (o + 2)) 16) + u32 (Z.shiftl (key_byte key (o + 3)) 24)).

(** The loop [while (_hj_k >= 12)]; [fuel] is the key's length. *)
Fixpoint jen_blocks (fuel : nat) (key : list Z) (i j hashv : Z) : list Z * Z * Z * Z :=
  match fuel with
  | O => (key, i, j, hashv)
  | S fuel =>
      if decide (12 ≤ length key)%nat then
        let '(i, j, hashv) := HASH_JEN_MIX (u32 (i + key_word key 0)) (u32 (j + key_word key 4))
                                (u32 (hashv + key_word key 8)) in
        jen_blocks fuel (drop 12 key) i j hashv
      else (key, i, j, hashv)
  end.

(** One case of the switch, with the fall-through: byte [n - 1] is added,
    shifted by [sh], when at least [n] bytes are left. *)
Definition jen_case (key : list Z) (n : nat) (sh : Z) (x : Z) : Z :=
  if decide (n ≤ length key)%nat
  then u32 (x + u32 (Z.shiftl (key_byte key (n - 1)) sh)) else x.

Definition HASH_JEN (key : list Z) : Z :=
  let '(k, i, j, hashv) := jen_blocks (length key) key 2654435769 2654435769 4276993775 in
  let hashv := u32 (hashv + Z.of_nat (length key)) in
  let hashv := jen_case k 9 8 (jen_case k 10 16 (jen_case k 11 24 hashv)) in
  let j := jen_case k 5 0 (jen_case k 6 8 (jen_case k 7 16 (jen_case k 8 24 j))) in
  let i := jen_case k 1 0 (jen_case k 2 8 (jen_case k 3 16 (jen_case k 4 24 i))) in
  (HASH_JEN_MIX i j hashv).2.

(** The hash value of an [int] key, in its memory layout. *)
Definition hash_int (key : Z) : Z := HASH_JEN (le_bytes 4 key).

(** The array index; [num_bkts - 1] is [unsigned]. *)
Definition HASH_TO_BKT (hashv num_bkts : Z) : nat := Z.to_nat (Z.land hashv (u32 (num_bkts - 1))).

Definition empty_bucket : ut_bucket := UtBucket [] 0 0.

(** What [HASH_MAKE_TABLE] fills in. *)
Definition empty_table : ut_table :=
  UtTable (replicate (Z.to_nat HASH_INITIAL_NUM_BUCKETS) empty_bucket)
    HASH_INITIAL_NUM_BUCKETS HASH_INITIAL_NUM_BUCKETS_LOG2 0 0 0 0 0 [].

(** [HASH_FIND_IN_BKT]: the first handle of the chain with the key. *)
Fixpoint HASH_FIND_IN_BKT (chain : list hash_handle) (key : Z) : option loc :=
  match chain with
  | [] => None
  | h :: chain => if decide (h_key h = key) then Some (h_elt h) else HASH_FIND_IN_BKT chain key
  end.

(** There is always a bucket of that number ([UthashFacts.table_ok]). *)
Definition HASH_FIND_INT (head : option ut_table) (key : Z) : option loc :=
  match head with
  | None => None
  | Some tbl =>
      match buckets tbl !! HASH_TO_BKT (hash_int key) (num_buckets tbl) with
      | Some b => HASH_FIND_IN_BKT (hh_chain b) key
      | None => None
      end
  end.

(** Division and right shift of [unsigned], undefined for some operands. *)
Definition udiv (a b : Z) : option Z := if decide (b = 0) then None else Some (a / b).
Definition ushr (a k : Z) : option Z := if decide (32 ≤ k) then None else Some (Z.shiftr a k).

(** Moving one item to its bucket in the doubled array; the pair is the new
    array and [nonideal_items]. *)
Definition expand_item (ideal num_bkts : Z) (acc : list ut_bucket * Z) (h : hash_handle)
    : option (list ut_bucket * Z) :=
  let '(bkts, nonideal) := acc in
  let i := HASH_TO_BKT (h_hashv h) num_bkts in
  b ← bkts !! i;
  let b := b <| count ::= (λ c, u32 (c + 1)) |> in
  if decide (count b > ideal) then
    m ← udiv (count b) ideal;
    Some (<[i := b <| expand_mult := m |> <| hh_chain ::= cons h |>]> bkts, u32 (nonideal + 1))
  else Some (<[i := b <| hh_chain ::= cons h |>]> bkts, nonideal).
Fixpoint expand_items (ideal num_bkts : Z) (acc : list ut_bucket * Z) (hs : list hash_handle)
    : option (list ut_bucket * Z) :=
  match hs with
  | [] => Some acc
  | h :: hs => acc ← expand_item ideal num_bkts acc h; expand_items ideal num_bkts acc hs
  end.

Definition sizeof_UT_hash_bucket : Z := 16.
Definition sizeof_UT_hash_table : Z := 64.

Section Adding.
(** Whether the n-th allocation, of so many bytes, succeeds. *)
Context (malloc : nat → Z → bool).

Definition uthash_malloc (size : Z) : proc nat unit := λ n, if malloc n size then Done tt (S n) else Exited.

(** [HASH_MAKE_TABLE] *)
Definition HASH_MAKE_TABLE : proc nat ut_table :=
  uthash_malloc sizeof_UT_hash_table;;
  uthash_malloc (HASH_INITIAL_NUM_BUCKETS * sizeof_UT_hash_bucket);;
  mret empty_table.

Definition HASH_EXPAND_BUCKETS (tbl : ut_table) : proc nat ut_table :=
  let n2 := u32 (2 * num_buckets tbl) in
  uthash_malloc (n2 * sizeof_UT_hash_bucket);;
  chain ← lift_opt (ushr (num_items tbl) (u32 (log2_num_buckets tbl + 1)));
  let ideal := u32 (chain + (if decide (Z.land (num_items tbl) (u32 (n2 - 1)) = 0) then 0 else 1)) in
  moved ← lift_opt (expand_items ideal n2 (replicate (Z.to_nat n2) empty_bucket, 0) (mjoin (hh_chain <$> buckets tbl)));
  let ineff := if decide (moved.2 > Z.shiftr (num_items tbl) 1) then u32 (ineff_expands tbl + 1) else 0 in
  mret (UtTable moved.1 n2 (u32 (log2_num_buckets tbl + 1)) (num_items tbl) ideal moved.2 ineff
    (if decide (ineff > 1) then 1 else noexpand tbl) (app_order tbl)).

(** [HASH_ADD_TO_BKT] for the bucket [i] of the table. *)
Definition HASH_ADD_TO_BKT (tbl : ut_table) (i : nat) (h : hash_handle) : proc nat ut_table :=
  b ← lift_opt (buckets tbl !! i);
  let b := b <| count ::= (λ c, u32 (c + 1)) |> <| hh_chain ::= cons h |> in
  let tbl := tbl <| buckets ::= <[i := b]> |> in
  if decide (u32 (u32 (expand_mult b + 1) * HASH_BKT_CAPACITY_THRESH) ≤ count b ∧ noexpand tbl ≠ 1)
  then HASH_EXPAND_BUCKETS tbl else mret tbl.

Definition HASH_ADD_INT (head : option ut_table) (key : Z) (elt : loc) : proc nat (option ut_table) :=
  tbl ← (match head with None => HASH_MAKE_TABLE | Some tbl => mret tbl end);
  let hashv := hash_int key in
  let h := Handle elt key hashv in
  let tbl := tbl <| app_order ::= (λ l, l ++ [h]) |> <| num_items ::= (λ n, u32 (n + 1)) |> in
  Some <$> HASH_ADD_TO_BKT tbl (HASH_TO_BKT hashv (num_buckets tbl)) h.
End Adding.

(** [HASH_FSCK], the integrity check compiled in with [HASH_DEBUG]: the count
    of every bucket is the length of its chain, and the items of the buckets,
    the items in application order and [num_items] are the same number.  (Its
    checks of the back pointers have no counterpart for lists.) *)
Definition HASH_FSCK (head : option ut_table) : bool :=
  match head with
  | None => true
  | Some tbl =>
      forallb (λ b, bool_decide (count b = u32 (Z.of_nat (length (hh_chain b))))) (buckets tbl)
      && bool_decide (u32 (Z.of_nat (length (mjoin (hh_chain <$> buckets tbl)))) = num_items tbl)
      && bool_decide (u32 (Z.of_nat (length (app_order tbl))) = num_items tbl)
  end.

(** Unlinking the handle of an element from a chain. *)
Definition unlink (elt : loc) (l : list hash_handle) : list hash_handle :=
  filter (λ h, h_elt h ≠ elt) l.

Definition HASH_DEL (head : option ut_table) (elt : loc) : option ut_table :=
  match head with
  | None => None
  | Some tbl =>
      match list_find (λ h, h_elt h = elt) (app_order tbl) with
      | None => head
      | Some (_, h) =>
          if decide (length (app_order tbl) = 1%nat) then None else
          let i := HASH_TO_BKT (h_hashv h) (num_buckets tbl) in
          Some (tbl <| app_order ::= unlink elt |>
            <| buckets ::= alter (λ b, b <| count ::= (λ c, u32 (c - 1)) |> <| hh_chain ::= unlink elt |>) i |>
            <| num_items ::= (λ n, u32 (n - 1)) |>)
      end
  end.

(** Application order: the head, and the [hh.next] of an element. *)
Definition hash_order (head : option ut_table) : list loc :=
  match head with None => [] | Some tbl => h_elt <$> app_order tbl end.
Definition hash_head (head : option ut_table) : option loc := hd_error (hash_order head).

Fixpoint next_in (l : list loc) (elt : loc) : option loc :=
  match l with
  | [] => None
  | x :: l => if decide (x = elt) then hd_error l else next_in l elt
  end.
Definition hh_next (head : option ut_table) (elt : loc) : option loc :=
  next_in (hash_order head) elt.
