(* ===== verification/UthashFacts.v ===== *)
(** * The hash table is an insertion-ordered map

    [table_ok] is the integrity of a table: every bucket's chain holds exactly
    the items that hash to it, and the counters agree.  The macros keep it, and
    in terms of the sequence of (key, element) pairs in insertion order adding
    appends, deleting removes, and finding searches: the contract src/nat.c
    relies on. *)

From stdpp Require Import sorting.
From S2P Require Import Prelude Words Uthash.

Lemma NoDup_fmap_filter {A B} (f : A → B) (P : A → Prop) `{∀ x, Decision (P x)} (l : list A) :
  NoDup (f <$> l) → NoDup (f <$> filter P l).
Proof.
  induction l as [|x l IH]; [done|]. intros [Hx Hnd]%NoDup_cons.
  destruct (decide (P x)); [|rewrite filter_cons_False by done; by apply IH].
  rewrite filter_cons_True, fmap_cons by done. apply NoDup_cons. split; [|by apply IH].
  intros (y & Heq & [_ Hy]%list_elem_of_filter)%list_elem_of_fmap.
  apply Hx. cbn. rewrite Heq. by apply list_elem_of_fmap_2.
Qed.

(** ** Splitting a list into the classes of a function to [0 .. n-1] *)

Section Classes.
Context {A : Type} (f : A → nat).
Implicit Types l : list A.

Lemma filter_lt_S n l :
  filter (λ x, (f x < S n)%nat) l ≡ₚ filter (λ x, (f x < n)%nat) l ++ filter (λ x, f x = n) l.
Proof.
  induction l as [|x l IH]; [done|]. rewrite !filter_cons.
  destruct (decide (f x < S n)%nat), (decide (f x < n)%nat), (decide (f x = n)); try lia;
    rewrite IH; [done | by apply Permutation_middle | done].
Qed.

Lemma mjoin_classes n l :
  mjoin ((λ i, filter (λ x, f x = i) l) <$> seq 0 n) ≡ₚ filter (λ x, (f x < n)%nat) l.
Proof.
  induction n as [|n IH].
  - cbn. induction l as [|x l IH]; [done|]. rewrite filter_cons_False by lia. done.
  - rewrite seq_S, fmap_app, join_app, IH, filter_lt_S. cbn. by rewrite app_nil_r.
Qed.

Lemma mjoin_perm (ls ls' : list (list A)) :
  Forall2 (≡ₚ) ls ls' → mjoin ls ≡ₚ mjoin ls'.
Proof. induction 1 as [|l l' ls ls' H1 _ IH]; [done|]. cbn. by rewrite H1, IH. Qed.

(** Chains that are the classes of [l] make up [l]. *)
Lemma classes_join n (ls : list (list A)) l :
  length ls = n →
  (∀ i c, ls !! i = Some c → c ≡ₚ filter (λ x, f x = i) l) →
  (∀ x, x ∈ l → (f x < n)%nat) →
  mjoin ls ≡ₚ l.
Proof.
  intros Hlen Hls Hf. transitivity (mjoin ((λ i, filter (λ x, f x = i) l) <$> seq 0 n)).
  - apply mjoin_perm, Forall2_lookup. intros i. rewrite list_lookup_fmap.
    destruct (decide (i < n)%nat) as [Hi|Hi].
    + destruct (lookup_lt_is_Some_2 ls i) as [c Hc]; [lia|].
      rewrite Hc, lookup_seq_lt by done. constructor. by apply Hls.
    + rewrite !(proj2 (lookup_ge_None _ _)) by (rewrite ?length_seq; lia). constructor.
  - rewrite mjoin_classes. by rewrite filter_all by (by apply Forall_forall).
Qed.
End Classes.

(** ** Integrity *)

Definition slot (tbl : ut_table) (h : hash_handle) : nat := HASH_TO_BKT (h_hashv h) (num_buckets tbl).

Lemma pow2_range k : 0 ≤ k ≤ 31 → 0 < 2 ^ k < 2 ^ 32.
Proof. intros. split; [lia|]. apply Z.pow_lt_mono_r; lia. Qed.

Lemma HASH_TO_BKT_mod h k : 0 ≤ k ≤ 31 → HASH_TO_BKT h (2 ^ k) = Z.to_nat (h mod 2 ^ k).
Proof.
  intros Hk. unfold HASH_TO_BKT. pose proof (pow2_range k Hk).
  by rewrite u32_small, Z.sub_1_r, <- Z.ones_equiv, Z.land_ones by lia.
Qed.

Lemma HASH_TO_BKT_lt h k : 0 ≤ k ≤ 31 → (HASH_TO_BKT h (2 ^ k) < Z.to_nat (2 ^ k))%nat.
Proof.
  intros. rewrite HASH_TO_BKT_mod by done.
  pose proof (Z.mod_pos_bound h (2 ^ k) ltac:(lia)). lia.
Qed.

(** The buckets [bkts] of a table of [n] buckets hold the items [l]. *)
Record holds (n : Z) (bkts : list ut_bucket) (l : list hash_handle) : Prop := {
  holds_len : length bkts = Z.to_nat n;
  holds_chain i b : bkts !! i = Some b →
    hh_chain b ≡ₚ filter (λ h, HASH_TO_BKT (h_hashv h) n = i) l
    ∧ count b = u32 (Z.of_nat (length (hh_chain b))) }.

Record table_ok (tbl : ut_table) : Prop := {
  tk_log2 : 0 ≤ log2_num_buckets tbl ≤ 31;
  tk_num : num_buckets tbl = 2 ^ log2_num_buckets tbl;
  tk_items : num_items tbl = u32 (Z.of_nat (length (app_order tbl)));
  tk_hash : Forall (λ h, h_hashv h = hash_int (h_key h)) (app_order tbl);
  tk_elts : NoDup (h_elt <$> app_order tbl);
  tk_holds : holds (num_buckets tbl) (buckets tbl) (app_order tbl) }.

Lemma holds_slot n k bkts l h :
  holds n bkts l → 0 ≤ k ≤ 31 → n = 2 ^ k →
  ∃ b, bkts !! HASH_TO_BKT (h_hashv h) n = Some b.
Proof.
  intros [Hlen _] Hk ->. apply lookup_lt_is_Some_2. rewrite Hlen. by apply HASH_TO_BKT_lt.
Qed.

Lemma holds_empty n k : 0 ≤ k ≤ 31 → n = 2 ^ k → holds n (replicate (Z.to_nat n) empty_bucket) [].
Proof.
  intros. split; [by rewrite length_replicate|].
  intros i b [-> _]%lookup_replicate. done.
Qed.

Lemma holds_perm n bkts l l' : l ≡ₚ l' → holds n bkts l → holds n bkts l'.
Proof.
  intros Hl [Hlen Hb]. split; [done|]. intros i b Hi. destruct (Hb i b Hi) as [Hc Hn].
  split; [|done]. by rewrite Hc, Hl.
Qed.

Lemma holds_join n k bkts l :
  holds n bkts l → 0 ≤ k ≤ 31 → n = 2 ^ k → mjoin (hh_chain <$> bkts) ≡ₚ l.
Proof.
  intros [Hlen Hb] Hk ->. apply (classes_join (λ h, HASH_TO_BKT (h_hashv h) (2 ^ k)) (Z.to_nat (2 ^ k))).
  - by rewrite length_fmap.
  - intros i c. intros (b & -> & Hi)%list_lookup_fmap_Some. by apply Hb.
  - intros. by apply HASH_TO_BKT_lt.
Qed.

(** Putting an item at the head of its chain. *)
Lemma holds_insert n bkts l h b b' :
  holds n bkts l → bkts !! HASH_TO_BKT (h_hashv h) n = Some b →
  hh_chain b' = h :: hh_chain b → count b' = u32 (count b + 1) →
  holds n (<[HASH_TO_BKT (h_hashv h) n := b']> bkts) (h :: l).
Proof.
  intros [Hlen Hb] Hi Hc Hn. split; [by rewrite length_insert|].
  intros i x. rewrite list_lookup_insert_Some. intros [(<- & <- & _)|[Hne Hx]].
  - destruct (Hb _ _ Hi) as [Hp Hcount]. rewrite Hc, Hn, filter_cons_True by done.
    split; [by rewrite Hp|]. cbn. by rewrite Hcount, u32_succ, Nat.add_1_r.
  - rewrite filter_cons_False by done. by apply Hb.
Qed.

(** Moving items into the new array; it is undefined only when the ideal
    length is zero. *)
Lemma expand_item_holds ideal n k acc l h :
  0 ≤ k ≤ 31 → n = 2 ^ k → holds n acc.1 l →
  match expand_item ideal n acc h with Some acc' => holds n acc'.1 (h :: l) | None => ideal = 0 end.
Proof.
  intros Hk Hn Hl. destruct acc as [bkts nonideal]. cbn [fst] in Hl.
  destruct (holds_slot n k bkts l h Hl Hk Hn) as [b Hb].
  unfold expand_item, udiv. rewrite Hb, some_bind. cbv zeta. case_decide; [case_decide; [done|]; rewrite some_bind|];
    by apply (holds_insert n bkts l h b).
Qed.

Lemma expand_items_holds ideal n k hs acc l :
  0 ≤ k ≤ 31 → n = 2 ^ k → holds n acc.1 l →
  match expand_items ideal n acc hs with Some acc' => holds n acc'.1 (reverse hs ++ l) | None => ideal = 0 end.
Proof.
  intros Hk Hn. revert acc l. induction hs as [|h hs IH]; intros acc l Hl; [done|].
  pose proof (expand_item_holds ideal n k acc l h Hk Hn Hl) as H1. cbn [expand_items].
  destruct (expand_item _ _ _ _) as [acc1|]; [|done]. rewrite some_bind, reverse_cons, <- app_assoc. by apply IH.
Qed.

(** The length of an ideal chain is not zero, unless there are no items. *)
Lemma ideal_nonzero items k :
  0 ≤ items < 2 ^ 32 → 1 ≤ k ≤ 31 → items ≠ 0 →
  u32 (Z.shiftr items k + (if decide (Z.land items (u32 (2 ^ k - 1)) = 0) then 0 else 1)) ≠ 0.
Proof.
  intros Hi Hk Hne. pose proof (pow2_range k ltac:(lia)) as Hp.
  rewrite (u32_small (2 ^ k - 1)), Z.sub_1_r, <- Z.ones_equiv, Z.land_ones, Z.shiftr_div_pow2 by lia.
  pose proof (Z.div_mod items (2 ^ k) ltac:(lia)). pose proof (Z.mod_pos_bound items (2 ^ k) ltac:(lia)).
  assert (0 ≤ items / 2 ^ k < 2 ^ 31) as Hd.
  { split; [apply Z.div_pos; lia|]. apply Z.div_lt_upper_bound; [lia|].
    assert (2 ^ 1 ≤ 2 ^ k) by (apply Z.pow_le_mono_r; lia). lia. }
  rewrite u32_small by (case_decide; lia). case_decide; [|lia]. intros Hz.
  assert (items / 2 ^ k = 0) as Hq by lia. rewrite Hq in *. lia.
Qed.

Section Adding.
Context (malloc : nat → Z → bool).

(** What [m] may do with the items [l] of a table whose array has [2 ^ log2]
    buckets: a table with the items [l'] and an array of that length, or of one
    that was allocated; an end of the process after a failed allocation;
    undefined behaviour with 2^31 buckets or 2^32 items. *)
Definition adds (log2 : Z) (l : list hash_handle) (m : proc nat ut_table) : Prop := ∀ n,
  match m n with
  | Done t _ => table_ok t ∧ app_order t = l
      ∧ (log2_num_buckets t = log2 ∨ ∃ i, malloc i (num_buckets t * sizeof_UT_hash_bucket) = true)
  | Fault => log2 = 31 ∨ u32 (Z.of_nat (length l)) = 0
  | Stuck => False
  | Exited => ∃ i size, malloc i size = false
  end.

(** Doubling keeps the items of the buckets. *)
Lemma HASH_EXPAND_BUCKETS_holds tbl l n :
  0 ≤ log2_num_buckets tbl ≤ 31 → num_buckets tbl = 2 ^ log2_num_buckets tbl → 0 ≤ num_items tbl < 2 ^ 32 →
  holds (num_buckets tbl) (buckets tbl) l →
  match HASH_EXPAND_BUCKETS malloc tbl n with
  | Done t _ => 0 ≤ log2_num_buckets t ≤ 31 ∧ num_buckets t = 2 ^ log2_num_buckets t ∧ num_items t = num_items tbl
      ∧ app_order t = app_order tbl ∧ holds (num_buckets t) (buckets t) l
      ∧ ∃ i, malloc i (num_buckets t * sizeof_UT_hash_bucket) = true
  | Fault => log2_num_buckets tbl = 31 ∨ num_items tbl = 0
  | Stuck => False
  | Exited => ∃ i size, malloc i size = false
  end.
Proof using Type.
  intros Hlog Hnum Hitems Hholds.
  unfold HASH_EXPAND_BUCKETS, uthash_malloc, mbind, proc_bind. destruct (malloc n _) eqn:Hal; [|by eauto].
  unfold ushr. rewrite (u32_small (log2_num_buckets tbl + 1)) by lia. case_decide; [left; lia|]. cbn [lift_opt mret proc_ret].
  pose proof (holds_join _ _ _ _ Hholds Hlog Hnum) as Hjoin.
  set (k := log2_num_buckets tbl + 1) in *. pose proof (pow2_range k ltac:(lia)) as Hk.
  assert (u32 (2 * num_buckets tbl) = 2 ^ k) as Hn.
  { assert (2 ^ k = 2 * num_buckets tbl) as -> by (unfold k; rewrite Hnum, Z.pow_add_r by lia; lia).
    apply u32_small. unfold k in Hk. rewrite Z.pow_add_r in Hk by lia. lia. }
  rewrite Hn in *. set (ideal := u32 (_ + _)).
  pose proof (expand_items_holds ideal _ k (mjoin (hh_chain <$> buckets tbl))
    (replicate (Z.to_nat (2 ^ k)) empty_bucket, 0) [] ltac:(lia) eq_refl (holds_empty _ k ltac:(lia) eq_refl)) as Hacc.
  destruct (expand_items _ _ _ _) as [[bkts nonideal]|]; cbn [lift_opt mret proc_ret fst snd].
  - rewrite app_nil_r in Hacc. cbn. split_and!; [lia..|done|done|done| |by exists n].
    apply (holds_perm _ _ (reverse (mjoin (hh_chain <$> buckets tbl)))); [by rewrite reverse_Permutation|done].
  - right. destruct (decide (num_items tbl = 0)) as [|Hz]; [done|].
    destruct (ideal_nonzero (num_items tbl) k Hitems ltac:(lia) Hz Hacc).
Qed.

Lemma HASH_EXPAND_BUCKETS_ok tbl :
  table_ok tbl → adds (log2_num_buckets tbl) (app_order tbl) (HASH_EXPAND_BUCKETS malloc tbl).
Proof using Type.
  intros [Hlog Hnum Hitems Hhash Helts Hholds] n.
  pose proof (HASH_EXPAND_BUCKETS_holds tbl _ n Hlog Hnum ltac:(rewrite Hitems; apply u32_range) Hholds) as He.
  destruct (HASH_EXPAND_BUCKETS _ _ _) as [t n'| | |]; [|by rewrite <- Hitems|done..].
  destruct He as (? & ? & Hi & Ho & ? & ?). split; [|by split; [|right]]. by split; rewrite ?Hi, ?Ho.
Qed.

(** ** Adding *)

#[local] Opaque hash_int HASH_TO_BKT.

Definition handle (key : Z) (elt : loc) : hash_handle := Handle elt key (hash_int key).

Lemma empty_table_ok : table_ok empty_table.
Proof.
  split; [by vm_compute | done | done | constructor | constructor | by apply (holds_empty _ 5)].
Qed.

(** The number of doublings so far; a new table starts with 32 buckets. *)
Definition table_log2 (head : option ut_table) : Z := from_option log2_num_buckets 5 head.
Definition table_items (head : option ut_table) : list hash_handle := from_option app_order [] head.

Definition with_item (h : hash_handle) (tbl : ut_table) : ut_table :=
  tbl <| app_order ::= (λ l, l ++ [h]) |> <| num_items ::= (λ n, u32 (n + 1)) |>.

Lemma HASH_ADD_TO_BKT_ok tbl key elt :
  table_ok tbl → elt ∉ h_elt <$> app_order tbl →
  adds (log2_num_buckets tbl) (app_order tbl ++ [handle key elt])
    (HASH_ADD_TO_BKT malloc (with_item (handle key elt) tbl) (HASH_TO_BKT (hash_int key) (num_buckets tbl)) (handle key elt)).
Proof.
  destruct tbl as [bkts n k items id non ineff noexp order]. intros [Hk Hn Hitems Hhash Helts Hholds] Helt.
  cbn in *. subst items. destruct (holds_slot n k bkts order (handle key elt) Hholds Hk Hn) as [b Hb].
  unfold HASH_ADD_TO_BKT. cbn in *. erewrite lift_bind by exact Hb. cbv zeta.
  match goal with |- context [HASH_EXPAND_BUCKETS _ ?t] => set (tbl := t) end.
  assert (table_ok tbl) as Hok.
  { split; cbn; [done | done | by rewrite length_app, u32_succ | | |].
    - apply Forall_app_2; [done | by constructor].
    - rewrite fmap_app. apply NoDup_app. split; [done|]. split; [|apply NoDup_singleton].
      by intros x Hx ->%list_elem_of_singleton.
    - apply (holds_perm _ _ (handle key elt :: order)); [by rewrite Permutation_app_comm|].
      by apply (holds_insert n bkts order (handle key elt) b). }
  case_decide; [apply (HASH_EXPAND_BUCKETS_ok tbl Hok)|]. intros m. by split_and!; [..|left].
Qed.

Lemma HASH_ADD_INT_ok head key elt n :
  match head with None => True | Some tbl => table_ok tbl end → elt ∉ hash_order head →
  match HASH_ADD_INT malloc head key elt n with
  | Done head' _ => ∃ tbl, head' = Some tbl ∧ table_ok tbl ∧ app_order tbl = table_items head ++ [handle key elt]
      ∧ (log2_num_buckets tbl = table_log2 head ∨ ∃ i, malloc i (num_buckets tbl * sizeof_UT_hash_bucket) = true)
  | Fault => table_log2 head = 31 ∨ u32 (Z.of_nat (length (table_items head)) + 1) = 0
  | Stuck => False
  | Exited => ∃ i size, malloc i size = false
  end.
Proof.
  intros Hhead Hfresh. unfold HASH_ADD_INT. set (start := match head with None => _ | Some _ => _ end).
  assert (match start n with
    | Done tbl _ => table_ok tbl ∧ app_order tbl = table_items head ∧ log2_num_buckets tbl = table_log2 head
        ∧ elt ∉ h_elt <$> app_order tbl
    | Exited => ∃ i size, malloc i size = false | _ => False end) as Hstart.
  { unfold start. destruct head as [tbl|]; [done|]. unfold HASH_MAKE_TABLE, uthash_malloc, mbind, proc_bind.
    destruct (malloc n _) eqn:?; [|by eauto]. destruct (malloc (S n) _) eqn:?; [|by eauto].
    split; [apply empty_table_ok|]. do 2 (split; [reflexivity|]). apply not_elem_of_nil. }
  clearbody start. unfold mbind at 1, proc_bind at 1. destruct (start n) as [tbl m| | |]; [|done..].
  destruct Hstart as (Hok & <- & <- & Helt).
  pose proof (HASH_ADD_TO_BKT_ok tbl key elt Hok Helt m) as Hadd. unfold with_item, handle in Hadd.
  change (num_buckets (upd num_items _ _)) with (num_buckets tbl).
  unfold fmap, proc_fmap, mbind, proc_bind. destruct (HASH_ADD_TO_BKT _ _ _ _ _) as [t m'| | |]; [|..|done].
  - exists t. by destruct Hadd as (? & ? & ?).
  - rewrite length_app, Nat2Z.inj_add in Hadd. exact Hadd.
  - done.
Qed.
End Adding.

(** ** Deleting *)

#[local] Opaque hash_int HASH_TO_BKT.

Lemma filter_comm {A} (P Q : A → Prop) `{∀ x, Decision (P x), ∀ x, Decision (Q x)} (l : list A) :
  filter P (filter Q l) = filter Q (filter P l).
Proof. rewrite !list_filter_filter. apply list_filter_iff. tauto. Qed.

Lemma filter_unlink (P : hash_handle → Prop) `{∀ x, Decision (P x)} elt l :
  filter P (unlink elt l) = unlink elt (filter P l).
Proof. apply filter_comm. Qed.

Lemma unlink_notin elt l : elt ∉ h_elt <$> l → unlink elt l = l.
Proof.
  intros Hl. apply filter_all, Forall_forall. intros x Hx <-. by apply Hl, list_elem_of_fmap_2.
Qed.

Lemma unlink_length elt l :
  NoDup (h_elt <$> l) → elt ∈ h_elt <$> l → Z.of_nat (length (unlink elt l)) = Z.of_nat (length l) - 1.
Proof.
  induction l as [|h l IH]; rewrite ?fmap_nil, ?fmap_cons; intros Hnd Hin; [set_solver|].
  apply NoDup_cons in Hnd as [Hnin Hnd]. unfold unlink in *. destruct (decide (h_elt h = elt)) as [<-|Hne].
  - rewrite filter_cons_False by naive_solver. fold (unlink (h_elt h) l).
    rewrite unlink_notin by done. cbn [length]. lia.
  - rewrite filter_cons_True by done. cbn [length]. rewrite !Nat2Z.inj_succ, IH; [lia | done |].
    by apply elem_of_cons in Hin as [->|].
Qed.

Lemma length_one_unlink elt l :
  NoDup (h_elt <$> l) → elt ∈ h_elt <$> l → length l = 1%nat ↔ unlink elt l = [].
Proof.
  intros Hnd Hin. pose proof (unlink_length elt l Hnd Hin) as Hl.
  split; intros H; [destruct (unlink elt l); cbn in *; [done|lia] | rewrite H in Hl; cbn in Hl; lia].
Qed.

Lemma elt_unique l h h' :
  NoDup (h_elt <$> l) → h ∈ l → h' ∈ l → h_elt h = h_elt h' → h = h'.
Proof.
  induction l as [|x l IH]; cbn; [set_solver|].
  intros [Hx Hnd]%NoDup_cons Hh Hh' Heq. apply elem_of_cons in Hh as [->|Hh], Hh' as [->|Hh'].
  - done.
  - destruct Hx. rewrite Heq. by apply list_elem_of_fmap_2.
  - destruct Hx. rewrite <- Heq. by apply list_elem_of_fmap_2.
  - by apply IH.
Qed.

Lemma holds_delete n bkts l h :
  NoDup (h_elt <$> l) → h ∈ l → holds n bkts l →
  holds n (alter (λ b, b <| count ::= (λ c, u32 (c - 1)) |> <| hh_chain ::= unlink (h_elt h) |>)
             (HASH_TO_BKT (h_hashv h) n) bkts) (unlink (h_elt h) l).
Proof.
  intros Hnd Hh [Hlen Hb]. split; [by rewrite length_alter|]. intros j b.
  assert (∀ i, NoDup (h_elt <$> filter (λ x, HASH_TO_BKT (h_hashv x) n = i) l)) as Hnds.
  { intros i. by apply NoDup_fmap_filter. }
  destruct (decide (HASH_TO_BKT (h_hashv h) n = j)) as [<-|Hne].
  - rewrite list_lookup_alter_eq. intros (c & Hc & ->)%fmap_Some.
    destruct (Hb _ _ Hc) as [Hp Hcount].
    assert (NoDup (h_elt <$> hh_chain c)) by (by rewrite Hp).
    assert (h_elt h ∈ h_elt <$> hh_chain c)
      by (apply list_elem_of_fmap_2; rewrite Hp; by apply list_elem_of_filter).
    cbn [count hh_chain upd]. split.
    + rewrite filter_unlink. unfold unlink. by rewrite Hp.
    + by rewrite unlink_length, Hcount, u32_pred by done.
  - rewrite list_lookup_alter_ne by done. intros Hc. destruct (Hb _ _ Hc) as [Hp Hcount].
    split; [|done]. rewrite filter_unlink, unlink_notin; [done|]. intros (x & Hx & [Hj Hin]%list_elem_of_filter)%list_elem_of_fmap.
    apply Hne. by rewrite (elt_unique l h x).
Qed.

Lemma HASH_DEL_ok tbl elt :
  table_ok tbl → elt ∈ h_elt <$> app_order tbl →
  match HASH_DEL (Some tbl) elt with
  | None => unlink elt (app_order tbl) = []
  | Some tbl' => table_ok tbl' ∧ app_order tbl' = unlink elt (app_order tbl)
      ∧ unlink elt (app_order tbl) ≠ []
  end.
Proof.
  intros [Hk Hn Hitems Hhash Helts Hholds] Hin. unfold HASH_DEL.
  pose proof (length_one_unlink elt (app_order tbl) Helts Hin) as Hone.
  destruct (list_find _ _) as [[i h]|] eqn:Hf.
  - apply list_find_Some in Hf as (Hi & <- & _). apply list_elem_of_lookup_2 in Hi.
    case_decide as Hlen; [by apply Hone|]. split_and!; [|done|tauto].
    split; cbn; [done | done | | | |].
    + by rewrite Hitems, unlink_length, u32_pred by done.
    + rewrite Forall_forall in Hhash |- *. intros x [_ Hx]%list_elem_of_filter. by apply Hhash.
    + by apply NoDup_fmap_filter.
    + by apply holds_delete.
  - apply list_find_None in Hf. apply list_elem_of_fmap in Hin as (x & -> & Hx).
    rewrite Forall_forall in Hf. by destruct (Hf x Hx).
Qed.

(** ** Finding *)

Lemma find_in_bkt_None chain key : HASH_FIND_IN_BKT chain key = None ↔ key ∉ h_key <$> chain.
Proof.
  induction chain as [|h chain IH]; cbn; [split; [intros _; apply not_elem_of_nil | done]|].
  rewrite not_elem_of_cons. case_decide; [naive_solver | rewrite IH; naive_solver].
Qed.

Lemma find_in_bkt_Some chain key e :
  HASH_FIND_IN_BKT chain key = Some e → ∃ h, h ∈ chain ∧ h_key h = key ∧ h_elt h = e.
Proof.
  induction chain as [|h chain IH]; cbn; [done|]. case_decide; [intros [= <-]; set_solver|].
  intros (x & ? & ? & ?)%IH. set_solver.
Qed.

(** Finding looks at the whole table: it gives an element with the key, or
    there is none. *)
Lemma HASH_FIND_INT_spec tbl key :
  table_ok tbl →
  match HASH_FIND_INT (Some tbl) key with
  | Some e => ∃ h, h ∈ app_order tbl ∧ h_key h = key ∧ h_elt h = e
  | None => key ∉ h_key <$> app_order tbl
  end.
Proof.
  intros [Hk Hn Hitems Hhash Helts Hholds]. unfold HASH_FIND_INT.
  destruct (holds_slot _ _ _ _ (handle key 1%positive) Hholds Hk Hn) as [b Hb].
  cbn in Hb. rewrite Hb. destruct (holds_chain _ _ _ Hholds _ _ Hb) as [Hp _].
  destruct (HASH_FIND_IN_BKT (hh_chain b) key) as [e|] eqn:Hf.
  - apply find_in_bkt_Some in Hf as (h & Hh & ? & ?). exists h. split_and!; [|done|done].
    rewrite Hp in Hh. by apply list_elem_of_filter in Hh as [_ ?].
  - apply find_in_bkt_None in Hf. intros (h & -> & Hh)%list_elem_of_fmap.
    apply Hf, list_elem_of_fmap_2. rewrite Hp. apply list_elem_of_filter. split; [|done].
    rewrite Forall_forall in Hhash. by rewrite (Hhash h Hh).
Qed.

(** ** The contract: an insertion-ordered map from keys to elements *)

Definition item (h : hash_handle) : Z * loc := (h_key h, h_elt h).

(** [head] holds the pairs [items], oldest first; keys and elements are unique. *)
Record models (head : option ut_table) (items : list (Z * loc)) : Prop := {
  md_table : match head with
             | None => items = []
             | Some tbl => table_ok tbl ∧ items = item <$> app_order tbl ∧ items ≠ []
             end;
  md_keys : NoDup items.*1;
  md_elts : NoDup items.*2 }.

Lemma item_elts l : (item <$> l).*2 = h_elt <$> l.
Proof. by rewrite <- list_fmap_compose. Qed.
Lemma item_keys l : (item <$> l).*1 = h_key <$> l.
Proof. by rewrite <- list_fmap_compose. Qed.

Lemma models_nil : models None [].
Proof. split; [done | constructor..]. Qed.

Lemma models_order head items : models head items → hash_order head = items.*2.
Proof.
  intros [Ht _ _]. destruct head as [tbl|]; cbn; [|by subst].
  destruct Ht as (_ & -> & _). by rewrite item_elts.
Qed.

Lemma models_find head items key :
  models head items → HASH_FIND_INT head key = (list_to_map items : gmap Z loc) !! key.
Proof.
  intros [Ht Hk _]. destruct head as [tbl|]; [|by subst].
  destruct Ht as (Hok & Hitems & _). pose proof (HASH_FIND_INT_spec tbl key Hok) as Hf.
  destruct (HASH_FIND_INT _ _) as [e|]; symmetry.
  - apply elem_of_list_to_map; [done|]. destruct Hf as (h & Hh & <- & <-). rewrite Hitems.
    by apply (list_elem_of_fmap_2 item).
  - apply not_elem_of_list_to_map_1. by rewrite Hitems, item_keys.
Qed.

Lemma models_items head items : models head items → items = item <$> table_items head.
Proof. intros [Ht _ _]. destruct head; [apply Ht|done]. Qed.

Lemma models_add malloc head items key elt n :
  models head items → key ∉ items.*1 → elt ∉ items.*2 →
  match HASH_ADD_INT malloc head key elt n with
  | Done head' _ => models head' (items ++ [(key, elt)])
      ∧ (table_log2 head' = table_log2 head ∨ ∃ i, malloc i (2 ^ table_log2 head' * sizeof_UT_hash_bucket) = true)
  | Fault => table_log2 head = 31 ∨ u32 (Z.of_nat (length items) + 1) = 0
  | Stuck => False
  | Exited => ∃ i size, malloc i size = false
  end.
Proof.
  intros Hm Hkey Helt. pose proof (models_order _ _ Hm) as Ho. pose proof (models_items _ _ Hm) as Hi.
  destruct Hm as [Ht Hk He].
  assert (elt ∉ hash_order head) as Hfresh by (by rewrite Ho).
  assert (match head with None => True | Some tbl => table_ok tbl end) as Hok by (destruct head; [apply Ht|done]).
  pose proof (HASH_ADD_INT_ok malloc head key elt n Hok Hfresh) as Hadd.
  destruct (HASH_ADD_INT _ _ _ _ _) as [head' n'| | |]; [|by rewrite Hi, length_fmap|done..].
  destruct Hadd as (tbl & -> & Htbl & Horder & Hlog). split; [|cbn [table_log2 from_option]; by rewrite <- (tk_num _ Htbl)].
  split; [|rewrite fmap_app; apply NoDup_app..].
  - split; [done|]. rewrite Horder, fmap_app, Hi. split; [done|]. by destruct (item <$> _).
  - split; [done|]. split; [by intros x Hx ->%list_elem_of_singleton | apply NoDup_singleton].
  - split; [done|]. split; [by intros x Hx ->%list_elem_of_singleton | apply NoDup_singleton].
Qed.

(** The items without one element. *)
Definition without (elt : loc) (items : list (Z * loc)) : list (Z * loc) :=
  filter (λ x, x.2 ≠ elt) items.

Lemma without_items elt l : without elt (item <$> l) = item <$> unlink elt l.
Proof.
  unfold without, unlink. induction l as [|h l IH]; [done|].
  destruct (decide (h_elt h = elt)).
  - rewrite filter_cons_False, fmap_cons, filter_cons_False by (cbn; tauto). done.
  - rewrite filter_cons_True, !fmap_cons, filter_cons_True by done. by rewrite IH.
Qed.

Lemma models_del head items elt :
  models head items → elt ∈ items.*2 → models (HASH_DEL head elt) (without elt items).
Proof.
  intros Hm Helt. pose proof (models_order _ _ Hm) as Ho. destruct Hm as [Ht Hk He].
  split; [|by apply NoDup_fmap_filter..].
  destruct head as [tbl|]; [|subst; by apply elem_of_nil in Helt].
  destruct Ht as (Hok & -> & _). rewrite without_items. rewrite <- Ho in Helt. cbn in Helt.
  pose proof (HASH_DEL_ok tbl elt Hok Helt) as Hd. destruct (HASH_DEL _ _) as [t|].
  - destruct Hd as (? & Hord & Hne). split_and!; [done | by rewrite Hord |].
    intros Hx%fmap_nil_inv. by apply Hne.
  - by rewrite Hd.
Qed.

(** The integrity check of the library passes. *)
Lemma models_fsck head items : models head items → HASH_FSCK head = true.
Proof.
  intros [Ht _ _]. destruct head as [tbl|]; [|done]. destruct Ht as ([Hk Hn Hi _ _ Hh] & _ & _).
  pose proof (holds_join _ _ _ _ Hh Hk Hn) as Hj. cbn. rewrite !andb_true_iff. split_and!.
  - apply forallb_forall. intros b Hb. apply list_elem_of_In, list_elem_of_lookup in Hb as [i Hb].
    apply bool_decide_eq_true. by apply (holds_chain _ _ _ Hh i).
  - apply bool_decide_eq_true. by rewrite Hj.
  - by apply bool_decide_eq_true.
Qed.

(** ** Histories *)

Inductive hash_op := OpAdd (key : Z) (elt : loc) | OpDel (elt : loc).

Definition run_op (malloc : nat → Z → bool) (head : option ut_table) (op : hash_op) : proc nat (option ut_table) :=
  match op with OpAdd key elt => HASH_ADD_INT malloc head key elt | OpDel elt => mret (HASH_DEL head elt) end.
Fixpoint run_ops (malloc : nat → Z → bool) (head : option ut_table) (ops : list hash_op) : proc nat (option ut_table) :=
  match ops with
  | [] => mret head
  | op :: ops => head ← run_op malloc head op; run_ops malloc head ops
  end.
Definition spec_op (items : list (Z * loc)) (op : hash_op) : list (Z * loc) :=
  match op with OpAdd key elt => items ++ [(key, elt)] | OpDel elt => without elt items end.

(** Only new keys and elements are added, only present ones deleted, and there
    are never 2^32 elements. *)
Fixpoint ops_ok (items : list (Z * loc)) (ops : list hash_op) : bool :=
  match ops with
  | [] => true
  | op :: ops =>
      (match op with
       | OpAdd key elt => bool_decide (key ∉ items.*1) && bool_decide (elt ∉ items.*2)
           && bool_decide (Z.of_nat (length items) + 1 < 2 ^ 32)
       | OpDel elt => bool_decide (elt ∈ items.*2)
       end) && ops_ok (spec_op items op) ops
  end.

Lemma run_op_done malloc op head items n head' n' :
  models head items → ops_ok items [op] = true → run_op malloc head op n = Done head' n' → models head' (spec_op items op).
Proof.
  intros Hm Hop Hr. destruct op as [key elt|elt]; cbn [run_op spec_op ops_ok] in *;
    rewrite !andb_true_iff, !bool_decide_eq_true in Hop; destruct_and?.
  - pose proof (models_add malloc head items key elt n Hm ltac:(done) ltac:(done)) as Hadd. rewrite Hr in Hadd. apply Hadd.
  - injection Hr as <- <-. by apply models_del.
Qed.

Lemma ops_ok_cons items op ops : ops_ok items (op :: ops) = true → ops_ok items [op] = true ∧ ops_ok (spec_op items op) ops = true.
Proof. cbn [ops_ok]. rewrite !andb_true_iff. tauto. Qed.

(** Whenever a history comes to its end the table holds its items. *)
Lemma run_ops_done malloc ops head items n head' n' :
  models head items → ops_ok items ops = true → run_ops malloc head ops n = Done head' n' →
  models head' (foldl spec_op items ops).
Proof.
  revert head items n. induction ops as [|op ops IH]; intros head items n Hm; [by intros _ [= <- _]|].
  intros [Hop Hops]%ops_ok_cons (head1 & n1 & H1 & H2)%bind_done. cbn [foldl].
  eapply IH; [by eapply run_op_done|done|exact H2].
Qed.

Section Histories.
Context (malloc : nat → Z → bool) (below_32G : ∀ i size, malloc i size = true → size < 2 ^ 35).

(** No array of 2^31 buckets fits into memory. *)
Lemma run_op_models op head items n :
  models head items → table_log2 head ≤ 30 → ops_ok items [op] = true →
  match run_op malloc head op n with
  | Done head' _ => models head' (spec_op items op) ∧ table_log2 head' ≤ 30
  | Exited => ∃ i size, malloc i size = false
  | Fault | Stuck => False
  end.
Proof using below_32G.
  intros Hm Hlog Hop. pose proof (run_op_done malloc op head items n) as Hd.
  assert (match run_op malloc head op n with
    Done head' _ => table_log2 head' ≤ 30 | Exited => ∃ i size, malloc i size = false | _ => False end) as Hl.
  2: { destruct (run_op _ _ _ _) as [head' n'| | |]; [|done..]. split; [by eapply Hd|done]. }
  destruct op as [key elt|elt]; cbn [run_op ops_ok] in *; rewrite !andb_true_iff, !bool_decide_eq_true in Hop; destruct_and?.
  - pose proof (models_add malloc head items key elt n Hm ltac:(done) ltac:(done)) as Hadd.
    destruct (HASH_ADD_INT _ _ _ _ _) as [head' n'| | |]; [|rewrite u32_small in Hadd by lia; lia|done..].
    destruct Hadd as [_ [->|[i Hi%below_32G]]]; [done|].
    change sizeof_UT_hash_bucket with (2 ^ 4) in Hi.
    destruct (Z_le_gt_dec (table_log2 head') 30) as [|Hgt]; [done|].
    assert (2 ^ 31 ≤ 2 ^ table_log2 head') by (apply Z.pow_le_mono_r; lia). lia.
  - cbn. destruct head as [t|]; [|exact Hlog]. unfold HASH_DEL.
    destruct (list_find _ _) as [[]|]; [|exact Hlog]. destruct (decide (length (app_order t) = 1%nat)); [change (5 ≤ 30); lia|exact Hlog].
Qed.

Lemma run_ops_models ops head items n :
  models head items → table_log2 head ≤ 30 → ops_ok items ops = true →
  match run_ops malloc head ops n with
  | Done head' _ => models head' (foldl spec_op items ops)
  | Exited => ∃ i size, malloc i size = false
  | Fault | Stuck => False
  end.
Proof using below_32G.
  revert head items n. induction ops as [|op ops IH]; intros head items n Hm Hlog Hops; [done|].
  apply ops_ok_cons in Hops as [Hop Hops]. pose proof (run_op_models op head items n Hm Hlog Hop) as H1.
  cbn [run_ops foldl]. unfold mbind, proc_bind. destruct (run_op _ _ _ _) as [head' n'| | |]; [|done..].
  destruct H1. by apply IH.
Qed.
End Histories.


(** A history long enough to double the bucket array several times: four
    hundred additions, then two deletions. *)
Definition busy_history : list hash_op :=
  ((λ k, OpAdd (Z.of_nat (k * 7)) (Pos.of_succ_nat k)) <$> seq 0 400) ++ [OpDel 3; OpDel 4].
(** A machine that grants requests below one MiB. *)
Definition small_machine (_ : nat) (size : Z) : bool := size <? 2 ^ 20.


(** Twenty-six doublings after the first 32 buckets the array has 2^31; the next
    doubling asks for no memory, and shifts by the width of [unsigned]. *)
Example full_table_faults malloc t n :
  malloc n 0 = true → num_buckets t = 2 ^ 31 → log2_num_buckets t = 31 → HASH_EXPAND_BUCKETS malloc t n = Fault.
Proof.
  intros Hm Hn Hl. unfold HASH_EXPAND_BUCKETS. rewrite Hn, Hl. change (u32 (2 * 2 ^ 31)) with 0.
  unfold uthash_malloc, mbind, proc_bind. change (0 * sizeof_UT_hash_bucket) with 0. by rewrite Hm.
Qed.
