(* ===== verification/NatData.v ===== *)
(** * NAT records (src/nat.h) *)

From S2P Require Import Prelude Words Settings Utility Uthash.

(** [nat_entry]: a connection; the links are addresses in the entry heap. *)
Record nat_entry := NatEntry {
  intIP : list Z; intPort : Z;
  gateIP : list Z; gatePort : Z;
  e_proto : Z;
  lastUsed : timespec;
  e_bucket : option loc; e_next : option loc; e_prev : option loc }.
#[export] Instance nat_entry_eta : Eta nat_entry := λ e,
  NatEntry (intIP e) (intPort e) (gateIP e) (gatePort e) (e_proto e) (lastUsed e)
    (e_bucket e) (e_next e) (e_prev e).

(** [nat_entry_bucket]; its hash handle lives in the table. *)
Record nat_entry_bucket := NatBucket {
  b_key : Z;
  extIP : list Z; extPort : Z;
  b_first : option loc }.
#[export] Instance nat_entry_bucket_eta : Eta nat_entry_bucket := λ b,
  NatBucket (b_key b) (extIP b) (extPort b) (b_first b).

(** The static variables of src/nat.c with the objects they reach. *)
Record nat_state := NatState {
  natTable : option ut_table;
  n_buckets : gmap loc nat_entry_bucket;
  n_entries : gmap loc nat_entry;
  natTableLock : bool }.
#[export] Instance nat_state_eta : Eta nat_state := λ n,
  NatState (natTable n) (n_buckets n) (n_entries n) (natTableLock n).

Definition nat_init : nat_state := NatState None ∅ ∅ false.
