(* ===== verification/World.v ===== *)
(** * The gateway's shared state and its environment

    One [world] holds everything the threads of the gateway share: the heap of
    gateway records and the head pointer [gateInfo] (src/hopper.c), the NAT
    table (src/nat.c), the packets handed to the kernel, and how far each
    source of outside input has been consumed.  [Env] is that outside input:
    the monotonic clock, /dev/urandom, the outcome of every allocation and of
    every [sendto]. *)

From S2P Require Import Prelude Words Settings Utility Crypto Packet Gate NatData.

Class Env := {
  env_clock : nat → timespec;
  env_random : nat → Z;
  env_malloc : nat → bool;
  env_sendto : nat → Z;
  (** whether a thread that is cancelled -- the NAT cleaner where it prints the
      table -- dies with the table's mutex locked *)
  env_dies_locked : bool;
  (** the byte after the end of a heap buffer, see [Packet.rd16_tail] *)
  env_slack : Z }.

(** What a [sendto] puts on the wire: an IP datagram for a destination address,
    or a frame on an interface. *)
Inductive output :=
  | OutIP (dest : Z) (bytes : list Z)
  | OutFrame (dev : Z) (bytes : list Z).

Section World.
Context `{PolarSSL}.

Record world := World {
  w_gates : gmap loc arg_network_info;
  w_gateInfo : option loc;
  w_nat : nat_state;
  w_ipLock : bool;
  w_clock : nat; w_random : nat; w_malloc : nat; w_sendto : nat;
  w_sent : list output }.
#[export] Instance world_eta : Eta world := λ w,
  World (w_gates w) (w_gateInfo w) (w_nat w) (w_ipLock w) (w_clock w) (w_random w)
    (w_malloc w) (w_sendto w) (w_sent w).

Abbreviation prog := (proc world).

(** ** Outside input *)

Section Input.
Context `{Env}.

Definition current_time : prog timespec := λ w,
  Done (env_clock (w_clock w)) (w <| w_clock ::= S |>).

(** [get_random_bytes buf n]: the next [n] bytes of /dev/urandom. *)
Definition get_random_bytes (n : nat) : prog (list Z) := λ w,
  Done ((λ k, u8 (env_random k)) <$> seq (w_random w) n) (w <| w_random ::= (λ k, k + n)%nat |>).

(** Whether the next [malloc] or [calloc] succeeds. *)
Definition malloc_ok : prog bool := λ w,
  Done (env_malloc (w_malloc w)) (w <| w_malloc ::= S |>).

(** [sendto]: [- errno] on failure; on success the bytes are on the wire.
    Opening the static raw socket is folded into its first use. *)
Definition sendto (o : output) : prog Z := λ w,
  let r := env_sendto (w_sendto w) in
  let w := w <| w_sendto ::= S |> in
  Done r (if decide (r < 0) then w
          else w <| w_sent ::= (λ l, l ++ [o]) |>).

Definition current_time_offset (begin : timespec) : prog Z :=
  now ← current_time; mret (time_offset begin now).

Definition current_time_plus (ms : Z) : prog timespec :=
  now ← current_time; mret (time_plus now ms).
End Input.

(** ** The gateway heap *)

Definition gate_get (l : loc) : prog arg_network_info :=
  w ← gets w_gates; lift_opt (w !! l).

Definition gate_upd (l : loc) (f : arg_network_info → arg_network_info) : prog unit :=
  g ← gate_get l;
  modify (λ w : world, w <| w_gates ::= (λ gs, <[l := f g]> gs) |>).

(** Following a pointer. *)
Definition deref (p : option loc) : prog loc := lift_opt p.

Definition gateInfo : prog (option loc) := gets w_gateInfo.

(** Default mutexes: locking one that is held by this thread never returns. *)
Definition mutex_lock (l : loc) : prog unit :=
  g ← gate_get l;
  if lock g then stuck else gate_upd l (λ g, g <| lock := true |>).
Definition mutex_unlock (l : loc) : prog unit :=
  gate_upd l (λ g, g <| lock := false |>).
Definition ipLock_lock : prog unit :=
  held ← gets w_ipLock; if (held : bool) then stuck else modify (λ w : world, w <| w_ipLock := true |>).
Definition ipLock_unlock : prog unit := modify (λ w : world, w <| w_ipLock := false |>).
End World.

Abbreviation prog := (proc world).
