(* ===== verification/Config.v ===== *)
(** * The configuration (src/settings.c, src/gen_gate_config.c)

    Reading the main configuration file, the list of public keys next to it and
    the key files themselves, and the tool that writes the key files. *)

From S2P Require Import Prelude Words Settings ArgError CString Utility Crypto Gate World.

(** What the configuration code finds outside: files, directories, and the
    functions of PolarSSL that read, write and generate keys. *)
Class Setup `{PolarSSL} := {
  (** [fopen path "r"]: the file's contents, or [errno] *)
  fs_read : list Z → Z + list Z;
  (** [opendir]: the names [readdir] returns, in its order *)
  fs_dir : list Z → option (list (list Z));
  (** whether [fopen path "wb+"] succeeds *)
  fs_create : list Z → bool;
  (** [mpi_read_file radix f]: result, value, what is left of the file *)
  mpi_read_file : Z → list Z → Z * Z * list Z;
  (** [mpi_write_file prefix x radix]: result, bytes written *)
  mpi_write_file : list Z → Z → Z → Z * list Z;
  (** [ctr_drbg_init] on a cleared context *)
  ctr_drbg_init : Z * ctr_drbg_context;
  (** [rsa_gen_key] with a key size and an exponent *)
  rsa_gen_key : ctr_drbg_context → Z → Z → Z * rsa_context }.

Record gate_list := GateName { gl_name : list Z; gl_next : option loc }.
#[export] Instance gate_list_eta : Eta gate_list := λ g, GateName (gl_name g) (gl_next g).

Record config_data := Config {
  cf_file : list Z; cf_dir : list Z;
  ourGateName : list Z;
  intDev : list Z; extDev : list Z;
  cf_gate : option loc;
  hopRate : Z }.
#[export] Instance config_data_eta : Eta config_data := λ c,
  Config (cf_file c) (cf_dir c) (ourGateName c) (intDev c) (extDev c) (cf_gate c) (hopRate c).

(** Sizes of the array members. *)
Definition DEV_SIZE : nat := 16.
Record config_wf (c : config_data) : Prop := {
  cw_file : length (cf_file c) = MAX_CONF_LINE;
  cw_dir : length (cf_dir c) = MAX_CONF_LINE;
  cw_name : length (ourGateName c) = MAX_CONF_LINE;
  cw_int : length (intDev c) = DEV_SIZE;
  cw_ext : length (extDev c) = DEV_SIZE }.

(** The [gate_list] nodes, and how many allocations there were. *)
Record conf_heap := ConfHeap { c_gates : gmap loc gate_list; c_malloc : nat }.
#[export] Instance conf_heap_eta : Eta conf_heap := λ h, ConfHeap (c_gates h) (c_malloc h).

(** ** Lines *)

Fixpoint next_line_loop (fuel : nat) (max : nat) (line : list Z) : proc stream (Z * list Z) :=
  match fuel with
  | O => stuck
  | S fuel =>
      r ← fgets max line;
      match r with
      | None => mret (-1, line)
      | Some line =>
          c ← lift_opt (line !! 0%nat);
          if decide (c ≠ NL ∧ c ≠ CR) then
            let len := length (until_nul (take max line)) in
            if decide (len = 0%nat) then fault else
            last ← lift_opt (line !! (len - 1)%nat);
            mret (0, if decide (last = NL) then <[(len - 1)%nat := 0]> line else line)
          else next_line_loop fuel max line
      end
  end.
Definition get_next_line (line : list Z) (max : nat) : proc stream (Z * list Z) :=
  f ← gets (id : stream → stream);
  next_line_loop (S (length f)) max line.

(** ** The main file *)

(** The directory part of [conf->file], or "." *)
Definition config_dir (c : config_data) : option (Z * config_data) :=
  file ← cstr (cf_file c);
  match (match strrchr file SLASH with Some i => Some i | None => strrchr file BACKSLASH end) with
  | Some dirLen =>
      if decide (length (cf_dir c) < dirLen + 1)%nat then Some (- ARG_CONFIG_BAD, c) else
      d ← wr 0 (take dirLen (cf_file c)) (cf_dir c);
      d ← wr (Z.of_nat dirLen) [0] d;
      Some (0, c <| cf_dir := d |>)
  | None => Some (0, c <| cf_dir := strncpy (cf_dir c) [DOT; 0] (MAX_CONF_LINE - 1) |>)
  end.

(** The four lines; [line] is the uninitialised line buffer. *)
Definition read_settings (line : list Z) (c : config_data) : proc stream (Z * config_data) :=
  '(r, line) ← get_next_line line MAX_CONF_LINE;
  if decide (r ≠ 0) then mret (- ARG_CONFIG_BAD, c) else
  let c := c <| ourGateName ::= (λ d, strncpy d line (MAX_CONF_LINE - 1)) |> in
  '(r, line) ← get_next_line line MAX_CONF_LINE;
  if decide (r ≠ 0) then mret (- ARG_CONFIG_BAD, c) else
  let c := c <| intDev ::= (λ d, strncpy d line (DEV_SIZE - 1)) |> in
  '(r, line) ← get_next_line line MAX_CONF_LINE;
  if decide (r ≠ 0) then mret (- ARG_CONFIG_BAD, c) else
  let c := c <| extDev ::= (λ d, strncpy d line (DEV_SIZE - 1)) |> in
  '(r, line) ← get_next_line line MAX_CONF_LINE;
  if decide (r ≠ 0) then mret (- ARG_CONFIG_BAD, c) else
  mret (0, c <| hopRate := atol (until_nul line) |>).

(** ".pub" and ".priv" *)
Definition dot_pub : list Z := [46; 112; 117; 98].
Definition dot_priv : list Z := [46; 112; 114; 105; 118].

(** A directory entry that names a public key. *)
Definition is_pub (d_name : list Z) : bool :=
  let len := length d_name in
  negb (bool_decide (d_name !! 0%nat = Some DOT ∨ (len < 5)%nat))
  && bool_decide (drop (len - 4) d_name = dot_pub).

Section Config.
Context `{Setup, Env}.

Abbreviation conf_prog := (proc conf_heap).

Definition cmalloc_ok : conf_prog bool := λ h,
  Done (env_malloc (c_malloc h)) (h <| c_malloc ::= S |>).
Definition node_upd (l : loc) (f : gate_list → gate_list) : conf_prog unit :=
  h ← gets c_gates; n ← lift_opt (h !! l);
  modify (λ h : conf_heap, h <| c_gates ::= (λ m, <[l := f n]> m) |>).

(** One directory entry; the state is [conf->gate] and [currGate]. *)
Definition scan_entry (d_name : list Z) (st : option loc * option loc)
    : conf_prog (option loc * option loc) :=
  if negb (is_pub d_name) then mret st else
  let '(first, prevGate) := st in
  ok ← cmalloc_ok;
  if negb ok then mret (first, None) else
  heap ← gets c_gates;
  let l := fresh_loc heap in
  modify (λ h : conf_heap, h <| c_gates ::= (λ m, <[l := GateName (zeros MAX_CONF_LINE) None]> m) |>);;
  (match prevGate with
   | None => mret tt
   | Some p => node_upd p (λ n, n <| gl_next := Some l |>)
   end);;
  nm ← lift_opt (wr 0 (take (length d_name - 4) d_name ++ [0]) (zeros MAX_CONF_LINE));
  node_upd l (λ n, n <| gl_name := nm |>);;
  mret (Some (default l first), Some l).

Fixpoint scan_dir (names : list (list Z)) (st : option loc * option loc)
    : conf_prog (option loc * option loc) :=
  match names with
  | [] => mret st
  | d_name :: names => st ← scan_entry d_name st; scan_dir names st
  end.

Definition read_config (line : list Z) (c : config_data) : conf_prog (Z * config_data) :=
  '(r, c) ← lift_opt (config_dir c);
  if decide (r ≠ 0) then mret (r, c) else
  path ← lift_opt (cstr (cf_file c));
  match fs_read path with
  | inl errno => mret (- errno, c)
  | inr content =>
      '(r, c) ← with_stream content (read_settings line c);
      if decide (r ≠ 0) then mret (r, c) else
      dir ← lift_opt (cstr (cf_dir c));
      match fs_dir dir with
      | None => mret (-1, c)
      | Some names =>
          '(first, currGate) ← scan_dir names (None, None);
          l ← lift_opt currGate;
          node_upd l (λ n, n <| gl_next := None |>);;
          mret (0, c <| cf_gate := first |>)
      end
  end.

Fixpoint release_list (fuel : nat) (curr : option loc) : conf_prog unit :=
  match curr with
  | None => mret tt
  | Some l =>
      match fuel with
      | O => stuck
      | S fuel =>
          h ← gets c_gates; n ← lift_opt (h !! l);
          modify (λ h : conf_heap, h <| c_gates ::= delete l |>);;
          release_list fuel (gl_next n)
      end
  end.
Definition release_config (c : config_data) : conf_prog unit :=
  h ← gets c_gates; release_list (size h) (cf_gate c).

(** ** Key files *)

(** The file of gate [name], next to the configuration. *)
Definition key_path (c : config_data) (name ext : list Z) : option (list Z) :=
  dir ← cstr (cf_dir c); n ← cstr name;
  Some (snprintf_cat MAX_CONF_LINE [dir; [SLASH]; n; ext]).

(** [mpi_read_file (&x, 16, f)] *)
Definition read_mpi : proc stream (Z * Z) := λ f,
  let '(r, x, f) := mpi_read_file 16 f in Done (r, x) f.

(** Reads one number after the other while all goes well. *)
Fixpoint read_mpis (fields : list (Z → rsa_context → rsa_context)) (k : rsa_context)
    : proc stream (Z * rsa_context) :=
  match fields with
  | [] => mret (0, k)
  | set :: fields =>
      '(r, x) ← read_mpi;
      let k := set x k in
      if decide (r ≠ 0) then mret (r, k) else read_mpis fields k
  end.
Definition public_fields : list (Z → rsa_context → rsa_context) :=
  [λ x k, k <| rsa_N := x |>; λ x k, k <| rsa_E := x |>].
Definition private_fields : list (Z → rsa_context → rsa_context) :=
  public_fields ++
  [λ x k, k <| rsa_D := x |>; λ x k, k <| rsa_P := x |>; λ x k, k <| rsa_Q := x |>;
   λ x k, k <| rsa_DP := x |>; λ x k, k <| rsa_DQ := x |>; λ x k, k <| rsa_QP := x |>].

(** What [read_public_key] does with the open file. *)
Definition read_public (g : arg_network_info) : proc stream (Z * arg_network_info) :=
  '(r, line) ← get_next_line (zeros MAX_CONF_LINE) MAX_CONF_LINE;
  if decide (r ≠ 0) then mret (- ARG_CONFIG_BAD, g) else
  let g := g <| baseIP ::= inet_pton (until_nul line) |> in
  '(r, line) ← get_next_line line MAX_CONF_LINE;
  if decide (r ≠ 0) then mret (- ARG_CONFIG_BAD, g) else
  let g := g <| mask ::= inet_pton (until_nul line) |> in
  '(r, k) ← read_mpis public_fields (rsa g);
  if decide (r ≠ 0) then mret (-1, g <| rsa := k |>) else
  mret (0, g <| rsa := k <| rsa_len := Z.shiftr (mpi_msb (rsa_N k) + 7) 3 |> |>).

Definition read_public_key {S} (c : config_data) (g : arg_network_info)
    : proc S (Z * arg_network_info) :=
  path ← lift_opt (key_path c (name g) dot_pub);
  match fs_read path with
  | inl errno => mret (- errno, g)
  | inr content => with_stream content (read_public g)
  end.

Definition read_private_key {S} (c : config_data) (g : arg_network_info)
    : proc S (Z * arg_network_info) :=
  path ← lift_opt (key_path c (name g) dot_priv);
  match fs_read path with
  | inl errno => mret (- errno, g)
  | inr content =>
      '(r, k) ← with_stream content (read_mpis private_fields (rsa g));
      let g := g <| rsa := k |> in
      if decide (r ≠ 0) then mret (-1, g)
      else if decide (rsa_check_privkey k ≠ 0) then mret (- ARG_CONFIG_BAD, g)
      else mret (0, g)
  end.
End Config.

(** ** The key generator, src/gen_gate_config.c *)

Definition RSA_KEY_BITS : Z := 1024.
Definition EXPONENT : Z := 65537.
Definition IP_TEXT_SIZE : nat := 20.

Section Generator.
Context `{Setup}.

(** Numbers written one after the other while all goes well. *)
Fixpoint write_mpis (xs : list (list Z * Z)) : Z * list Z :=
  match xs with
  | [] => (0, [])
  | (prefix, x) :: xs =>
      let '(r, bs) := mpi_write_file prefix x 16 in
      if decide (r ≠ 0) then (r, bs)
      else let '(r', bs') := write_mpis xs in (r', bs ++ bs')
  end.

(** The labels: "N = " and so on. *)
Definition label (s : list Z) : list Z := s ++ [32; 61; 32].
Definition public_numbers (k : rsa_context) : list (list Z * Z) :=
  [(label [78], rsa_N k); (label [69], rsa_E k)].
Definition private_numbers (k : rsa_context) : list (list Z * Z) :=
  public_numbers k ++
  [(label [68], rsa_D k); (label [80], rsa_P k); (label [81], rsa_Q k);
   (label [68; 80], rsa_DP k); (label [68; 81], rsa_DQ k); (label [81; 80], rsa_QP k)].

(** [main]: the exit code and the files written.  [name0], [ip0] and [mask0] are
    what the local arrays hold at first; [rsa_free] of a context that was never
    initialised is undefined. *)
Definition gen_gate_config (argv : list (list Z)) (name0 ip0 mask0 : list Z)
    : option (Z * list (list Z * list Z)) :=
  match argv with
  | [_; arg1; arg2; arg3] =>
      let name := strncpy name0 arg1 (MAX_NAME_SIZE - 1) in
      let baseIP := strncpy ip0 arg2 (IP_TEXT_SIZE - 1) in
      let mask := strncpy mask0 arg3 (IP_TEXT_SIZE - 1) in
      let '(r, drbg) := ctr_drbg_init in
      if decide (r ≠ 0) then None else
      let '(r, k) := rsa_gen_key drbg RSA_KEY_BITS EXPONENT in
      if decide (r ≠ 0) then Some (r, []) else
      nm ← cstr name;
      let pubKeyName := snprintf_cat MAX_CONF_LINE [nm; dot_pub] in
      if negb (fs_create pubKeyName) then Some (1, []) else
      ip ← cstr baseIP;
      m ← cstr mask;
      let '(r, bs) := write_mpis (public_numbers k) in
      let pub := (pubKeyName, ip ++ [NL] ++ m ++ [NL] ++ bs) in
      if decide (r ≠ 0) then Some (r, [pub]) else
      let privKeyName := snprintf_cat MAX_CONF_LINE [nm; dot_priv] in
      if negb (fs_create privKeyName) then Some (1, [pub]) else
      let '(r, bs) := write_mpis (private_numbers k) in
      Some (r, [pub; (privKeyName, bs)])
  | _ => Some (1, [])
  end.
End Generator.
