(* ===== verification/ToyCrypto.v ===== *)
(** * A concrete [PolarSSL] for evaluation

    A small instance of the cryptographic interface that satisfies all the laws
    of [PolarSSL_ok], so that the theorems that rely on them can be evaluated
    on concrete packets.  It models no real cipher. *)

From S2P Require Import Prelude Words Settings Crypto.

Definition toy_digest (n : nat) (m : list Z) : list Z :=
  le_bytes n (foldl (λ a b, (a * 257 + b) mod 2 ^ 160) 7 m).
Definition toy_keystream (k i : list Z) (p : nat) : Z :=
  (le_val k + 3 * le_val i + 7 * Z.of_nat p) mod 256.

(** Key, IV and stream position. *)
Record toy_cipher := ToyCipher { tc_key : option (list Z); tc_iv : list Z; tc_pos : nat }.

Fixpoint toy_strip (l : list Z) : option (list Z) :=
  match l with
  | [] => None
  | b :: l => if decide (b = 0) then Some l else toy_strip l
  end.
Definition toy_pad (len : Z) (m : list Z) : list Z :=
  replicate (Z.to_nat len - 1 - length m) 255 ++ [0] ++ m.
Definition toy_sig (len n : Z) (h : list Z) : list Z :=
  (λ b, (b + n) mod 256) <$> take (Z.to_nat len) (h ++ zeros (Z.to_nat len)).

#[export] Instance toy : PolarSSL := {|
  sha1 m := toy_digest SHA1_HASH_SIZE m;
  sha1_hmac k m := toy_digest HMAC_SIZE (k ++ m);
  md_context := list Z * list Z;
  md_init := ([], []);
  md_hmac_starts c k := (k, []);
  md_hmac_update c m := (c.1, c.2 ++ m);
  md_hmac_finish c := (toy_digest 32 (c.1 ++ c.2), c);
  cipher_context := toy_cipher;
  cipher_init := ToyCipher None [] 0;
  cipher_setkey c k n := ToyCipher (Some k) [] 0;
  cipher_reset c i := ToyCipher (tc_key c) i 0;
  cipher_get_block_size c := 16;
  cipher_update c d :=
    (xor_bytes d (toy_keystream (default [] (tc_key c)) (tc_iv c) <$> seq (tc_pos c) (length d)),
     ToyCipher (tc_key c) (tc_iv c) (tc_pos c + length d));
  ctr_drbg_context := unit;
  ctr_drbg_zero := tt;
  rsa_pkcs1_encrypt r rng m :=
    if decide (Z.of_nat (length m) ≤ rsa_len r - 11) then (0, toy_pad (rsa_len r) m, rng)
    else (-1, [], rng);
  rsa_pkcs1_decrypt r ct mx :=
    match toy_strip ct with
    | Some m => if decide (Z.of_nat (length m) ≤ mx) then (0, m) else (-1, [])
    | None => (-1, [])
    end;
  rsa_pkcs1_sign r h := (0, toy_sig (rsa_len r) (rsa_N r) h);
  rsa_pkcs1_verify r h s := if decide (s = toy_sig (rsa_len r) (rsa_N r) h) then 0 else -1;
  rsa_check_privkey r := 0;
  mpi_write_binary x n :=
    if decide (0 ≤ x < 2 ^ (8 * Z.of_nat n)) then (0, rev (le_bytes n x)) else (-1, []);
  mpi_read_binary bs := (0, le_val (rev bs));
  mpi_msb x := Z.log2 x + 1 |}.

Lemma toy_strip_pad n m : toy_strip (replicate n 255 ++ [0] ++ m) = Some m.
Proof. induction n as [|n IH]; [done|]. cbn. exact IH. Qed.

Lemma length_toy_pad len m :
  Z.of_nat (length m) ≤ len - 11 → Z.of_nat (length (toy_pad len m)) = len.
Proof. intros. unfold toy_pad. rewrite !length_app, length_replicate. cbn. lia. Qed.

Lemma length_toy_sig len n h : 0 ≤ len → Z.of_nat (length (toy_sig len n h)) = len.
Proof.
  intros. unfold toy_sig, zeros. rewrite length_fmap, length_take, length_app, length_replicate. lia.
Qed.

Lemma toy_sig_bytes len n h : bytes_ok (toy_sig len n h).
Proof. apply Forall_fmap, Forall_true. intros b. by apply Z.mod_pos_bound. Qed.

#[export] Instance toy_ok : PolarSSL_ok toy.
Proof.
  refine (Build_PolarSSL_ok toy _ _ _ (λ k m, toy_digest 32 (k ++ m)) _ _ _ toy_keystream _
    (λ (c : @cipher_context toy) k, tc_key c = Some k)
    (λ (c : @cipher_context toy) k i p, tc_key c = Some k ∧ tc_iv c = i ∧ tc_pos c = p)
    _ _ _ _ _ _ _ _ _ _).
  - intros. apply length_le_bytes.
  - intros. apply length_le_bytes.
  - intros. apply le_bytes_ok.
  - intros. apply length_le_bytes.
  - intros. apply le_bytes_ok.
  - done.
  - intros. by apply Z.mod_pos_bound.
  - done.
  - intros c k i Hk. done.
  - by intros c k i p (? & _).
  - done.
  - intros c k i p d (Hk & Hi & Hp). cbn. rewrite Hk, Hi, Hp. done.
  - intros pub priv rng m (_ & _ & Hl & _ & _ & ?) Hb Hm. cbn.
    rewrite decide_True by done. do 2 eexists. split; [done|].
    split; [by apply length_toy_pad|]. split.
    + unfold toy_pad. repeat apply Forall_app_2; [by apply Forall_replicate | by repeat constructor | done].
    + intros mx Hmx. unfold toy_pad. rewrite toy_strip_pad. by rewrite decide_True.
  - intros pub priv h (HN & _ & Hl & _ & _ & Hmin) Hh. unfold SHA1_SIG_MIN in Hmin. cbn. eexists. split; [done|].
    split; [apply length_toy_sig; lia|]. split; [apply toy_sig_bytes|].
    by rewrite HN, Hl, decide_True.
  - intros x n Hx. cbn. by rewrite decide_True.
  - done.
  - done.
Defined.
