(* ===== verification/Net.v ===== *)
(** * Packets on the heap and on the wire (src/packet.c)

    Creating, copying and sending packets, and the answer to ARP requests.  A
    packet is owned by the function that creates it, so it is passed by value;
    freeing it has no effect here. *)

From S2P Require Import Prelude Words Settings ArgError Utility Crypto Packet Gate World.

Section Net.
Context `{PolarSSL, Env}.

(** A store through a pointer into a packet's buffer. *)
Definition store (off : Z) (bs : list Z) (p : packet_data) : prog packet_data :=
  lift_opt (with_data p <$> wr off bs (p_data p)).
Definition load (off : Z) (n : nat) (p : packet_data) : prog (list Z) :=
  lift_opt (rd off n (p_data p)).

Definition reparse (p : packet_data) : prog (Z * packet_data) := lift_opt (parse_packet p).

(** A packet of [len] zero bytes; NULL when an allocation fails.  For
    [len <= 0] the C code parses an uninitialised pointer. *)
Definition create_packet (len : Z) : prog (option packet_data) :=
  ok ← malloc_ok;
  if negb ok then mret None else
  if decide (len > 0) then
    ok ← malloc_ok;
    if negb ok then mret None else
    '(_, c) ← reparse (Packet len 0 None None None None None None None None 0
                        (zeros (Z.to_nat len)));
    mret (Some c)
  else fault.

Definition copy_packet (p : packet_data) : prog (option packet_data) :=
  ok ← malloc_ok;
  if negb ok then mret None else
  ok ← malloc_ok;
  if negb ok then mret None else
  d ← load 0 (Z.to_nat (p_len p)) p;
  '(_, c) ← reparse (Packet (p_len p) (p_linkLayerLen p) None None None None None None
                      None None 0 d);
  mret (Some c).

Definition send_packet (p : packet_data) : prog Z :=
  _ ← lift_opt (get_dest_port p);
  ip ← lift_opt (p_ipv4 p);
  daddr ← lift_opt (ip_daddr ip (p_data p));
  tot_len ← lift_opt (ip_tot_len ip (p_data p));
  bytes ← load (p_linkLayerLen p) (Z.to_nat (ntohs tot_len)) p;
  r ← sendto (OutIP daddr bytes);
  mret (if decide (r < 0) then r else 0).

(** The destination address is copied with the size of [sll_addr], 8 bytes. *)
Definition send_packet_on (dev_index : Z) (p : packet_data) : prog Z :=
  match p_eth p with
  | None => mret (- ARG_INTERNAL_ERROR)
  | Some eth =>
      _ ← load eth 8 p;
      bytes ← load 0 (Z.to_nat (p_len p)) p;
      r ← sendto (OutFrame dev_index bytes);
      mret (if decide (r < 0) then r else 0)
  end.

Definition ARPOP_REQUEST : Z := 1.
Definition ARPOP_REPLY : Z := 2.
Definition ARPHRD_ETHER : Z := 1.

(** Offsets in [struct ether_arp]. *)
Definition ar_op_off : Z := 6.
Definition arp_sha_off : Z := 8.
Definition arp_spa_off : Z := 14.
Definition arp_tha_off : Z := 18.
Definition arp_tpa_off : Z := 24.

(** The reply's bytes, once its request's fields are known. *)
Definition fill_arp_reply (sha spa tpa hwaddr : list Z) (reply : packet_data) : prog packet_data :=
  let reply := reply <| p_linkLayerLen := sizeof_ethhdr |> <| p_eth := Some 0 |> in
  reply ← store 12 (le_bytes 2 (htons ETH_P_ARP)) reply;
  reply ← store 0 sha reply;
  reply ← store 6 hwaddr reply;
  '(_, reply) ← reparse reply;
  arp ← lift_opt (p_arp reply);
  reply ← store arp (le_bytes 2 (htons ARPHRD_ETHER)) reply;
  reply ← store (arp + 2) (le_bytes 2 (htons ETH_P_IP)) reply;
  reply ← store (arp + 4) [Z.of_nat ETH_ALEN] reply;
  reply ← store (arp + 5) [Z.of_nat ADDR_SIZE] reply;
  reply ← store (arp + ar_op_off) (le_bytes 2 (htons ARPOP_REPLY)) reply;
  reply ← store (arp + arp_sha_off) hwaddr reply;
  reply ← store (arp + arp_spa_off) tpa reply;
  reply ← store (arp + arp_tha_off) sha reply;
  store (arp + arp_tpa_off) spa reply.

Definition send_arp_reply (p : packet_data) (devIndex : Z) (hwaddr : list Z) : prog Z :=
  match p_arp p with
  | None => mret (-1)
  | Some arp =>
      op ← lift_opt (rd16 (arp + ar_op_off) (p_data p));
      if decide (ntohs op ≠ ARPOP_REQUEST) then mret (-1) else
      reply ← create_packet (sizeof_ethhdr + sizeof_ether_arp);
      match reply with
      | None => mret (- ENOMEM)
      | Some reply =>
          sha ← load (arp + arp_sha_off) ETH_ALEN p;
          spa ← load (arp + arp_spa_off) ADDR_SIZE p;
          tpa ← load (arp + arp_tpa_off) ADDR_SIZE p;
          reply ← fill_arp_reply sha spa tpa hwaddr reply;
          send_packet_on devIndex reply
      end
  end.
End Net.
