(* ===== verification/Hopper.v ===== *)
(** * IP hopping and the list of gateways (src/hopper.c)

    The address a gateway uses at an instant, the check that an address is
    valid now or was one hop ago, and the doubly linked list of gateways. *)

From S2P Require Import Prelude Words Settings Utility Crypto Packet Gate World.

(** The loop of [generate_ip_corrected]: host bits are taken from [bits]. *)
Fixpoint mix_ip (ip mask bits : list Z) : list Z :=
  match ip, mask, bits with
  | b :: ip, m :: mask, x :: bits => Z.lor b (Z.land (Z.lnot m) x) :: mix_ip ip mask bits
  | _, _, _ => ip
  end.

Section Hopper.
Context `{PolarSSL, Env}.

(** The password counter's time argument: [long] plus [int], as [unsigned long]. *)
Definition hop_time (g : arg_network_info) (now : timespec) (correction : Z) : Z :=
  u64 (time_offset (timeBase g) now + correction).

(** The address of gateway [g] at [now], shifted by [correction] ms. *)
Definition ip_at (g : arg_network_info) (now : timespec) (correction : Z) : option (list Z) :=
  bits ← totp (hopKey g) HOP_KEY_SIZE (hopInterval g) (hop_time g now correction);
  Some (mix_ip (baseIP g) (mask g) (le_bytes 4 bits)).

Definition generate_ip_corrected (gate : loc) (correction : Z) : prog (list Z) :=
  currTime ← current_time;
  g ← gate_get gate;
  lift_opt (ip_at g currTime correction).

Definition current_ip : prog (list Z) :=
  ipLock_lock;;
  gi ← gateInfo;
  gate ← deref gi;
  ip ← generate_ip_corrected gate 0;
  ipLock_unlock;;
  mret ip.

(** [-gate->hopInterval] is computed as [uint32_t] and passed as [int]: above
    2^31 it is not negative. *)
Definition previous_hop (g : arg_network_info) : Z := s32 (u32 (- hopInterval g)).

Definition is_valid_ip (gate : loc) (ip : list Z) : prog bool :=
  mutex_lock gate;;
  genIP ← generate_ip_corrected gate 0;
  ret ← (if decide (ip = genIP) then mret true else
           g ← gate_get gate;
           genIP ← generate_ip_corrected gate (previous_hop g);
           mret (bool_decide (ip = genIP)));
  mutex_unlock gate;;
  mret ret.

Definition is_valid_local_ip (ip : list Z) : prog bool :=
  gi ← gateInfo; gate ← deref gi; is_valid_ip gate ip.

(** The loop [for(i = -5; i <= 5; i++)]; [n] iterations are left. *)
Fixpoint ip_direction_loop (n : nat) (gate : loc) (ip : list Z) (i dir : Z) : prog Z :=
  match n with
  | O => mret dir
  | S n =>
      g ← gate_get gate;
      genIP ← generate_ip_corrected gate (s32 (u32 (hopInterval g * dir)));
      ip_direction_loop n gate ip (i + 1) (if decide (ip = genIP) then i else dir)
  end.
Definition invalid_ip_direction (gate : loc) (ip : list Z) : prog Z :=
  ip_direction_loop 11 gate ip (-5) INT_MAX.

Definition invalid_local_ip_direction (ip : list Z) : prog Z :=
  gi ← gateInfo; gate ← deref gi; invalid_ip_direction gate ip.

Definition note_bad_ip (gate : loc) : prog unit :=
  gate_upd gate (with_proto (λ p, p <| badIPCount ::= (λ c, u32 (c + 1)) |>)).
Definition note_good_ip (gate : loc) : prog unit :=
  gate_upd gate (with_proto (λ p, p <| goodIPCount ::= (λ c, u32 (c + 1)) |>)).

(** ** The list of gateways *)

Definition gate_matches (g : arg_network_info) (ip : list Z) : bool :=
  bool_decide (mask_array_cmp ADDR_SIZE (mask g) (baseIP g) ip = 0).

(** The walk of [get_arg_network]; more steps than there are gateways means
    that the list has a cycle and the loop never ends. *)
Fixpoint find_network (fuel : nat) (curr : option loc) (ip : list Z) : prog (option loc) :=
  match curr with
  | None => mret None
  | Some l =>
      match fuel with
      | O => stuck
      | S fuel =>
          g ← gate_get l;
          if gate_matches g ip then mret (Some l) else find_network fuel (next g) ip
      end
  end.
Definition get_arg_network (ip : list Z) : prog (option loc) :=
  gs ← gets w_gates;
  gi ← gateInfo;
  find_network (size gs) gi ip.
Definition is_arg_ip (ip : list Z) : prog bool :=
  n ← get_arg_network ip; mret (bool_decide (n ≠ None)).

Definition create_arg_network_info : prog (option loc) :=
  ok ← malloc_ok;
  if negb ok then mret None else
  gs ← gets w_gates;
  let l := fresh_loc gs in
  modify (λ w : world, w <| w_gates ::= (λ gs, <[l := new_arg_network_info]> gs) |>);;
  mret (Some l).

(** [if(p != NULL) p->field = ...] *)
Definition upd_opt (p : option loc) (f : arg_network_info → arg_network_info) : prog unit :=
  match p with None => mret tt | Some l => gate_upd l f end.

Definition remove_arg_network (network : loc) : prog (option loc) :=
  g ← gate_get network;
  let nxt := next g in
  upd_opt (next g) (λ n, n <| prev := prev g |>);;
  g ← gate_get network;
  upd_opt (prev g) (λ p, p <| next := next g |>);;
  modify (λ w : world, w <| w_gates ::= delete network |>);;
  mret nxt.

(** [while(gateInfo->next != NULL) remove_arg_network(gateInfo->next)] *)
Fixpoint remove_all_loop (fuel : nat) : prog unit :=
  gi ← gateInfo;
  head ← deref gi;
  g ← gate_get head;
  match next g with
  | None => mret tt
  | Some l =>
      match fuel with
      | O => stuck
      | S fuel => _ ← remove_arg_network l; remove_all_loop fuel
      end
  end.
Definition remove_all_associated_arg_networks : prog unit :=
  gi ← gateInfo;
  match gi with
  | None => mret tt
  | Some _ => gs ← gets w_gates; remove_all_loop (size gs)
  end.
End Hopper.
