(* ===== verification/Startup.v ===== *)
(** * Starting and stopping the hopper (src/hopper.c, [get_hopper_conf],
    [init_hopper], [uninit_hopper])

    Building the list of gateways from the configuration, with the gateway
    itself first, its keys, and freeing it all.  [networksLock] is taken by
    these functions only, always together with [ipLock], so it has no state of
    its own here. *)

From S2P Require Import Prelude Words Settings ArgError CString Utility Crypto Packet Gate Uthash NatData World Config Net Hopper.

Section Startup.
Context `{Setup, Env}.

Definition set_head (p : option loc) : prog unit := modify (λ w : world, w <| w_gateInfo := p |>).

(** ** One gateway per name *)

(** Linking [net] behind [prevNet], or making it the first. *)
Definition link_gate (prevNet : option loc) (net : loc) : prog unit :=
  gi ← gateInfo;
  (match gi with None => set_head (Some net) | Some _ => mret tt end);;
  match prevNet with
  | None => mret tt
  | Some p => gate_upd p (λ g, g <| next := Some net |>);; gate_upd net (λ g, g <| prev := Some p |>)
  end.

(** Its name, and its public data if the file can be read. *)
Definition load_gate (c : config_data) (nm : list Z) (net : loc) : prog unit :=
  gate_upd net (λ g, g <| name ::= (λ d, strncpy d nm (MAX_NAME_SIZE - 1)) |>);;
  g ← gate_get net;
  '(_, g) ← read_public_key c g;
  gate_upd net (λ _, g);;
  gate_upd net (λ g, g <| baseIP ::= (λ ip, mask_array ADDR_SIZE ip (mask g)) |>).

Fixpoint add_gates (fuel : nat) (nodes : gmap loc gate_list) (c : config_data)
    (currGateName : option loc) (prevNet : option loc) : prog Z :=
  match currGateName with
  | None => mret 0
  | Some l =>
      match fuel with
      | O => stuck
      | S fuel =>
          n ← lift_opt (nodes !! l);
          currNet ← create_arg_network_info;
          match currNet with
          | None => mret (- ENOMEM)
          | Some net =>
              link_gate prevNet net;;
              load_gate c (gl_name n) net;;
              add_gates fuel nodes c (gl_next n) (Some net)
          end
      end
  end.

(** ** Which one is ours *)

Fixpoint find_ours (fuel : nat) (c : config_data) (curr : option loc) : prog (option loc) :=
  match curr with
  | None => mret None
  | Some l =>
      match fuel with
      | O => stuck
      | S fuel =>
          g ← gate_get l;
          if strncmp_same MAX_NAME_SIZE (ourGateName c) (name g) then mret (Some l)
          else find_ours fuel c (next g)
      end
  end.

(** Moving [l] to the front, if it is not there already. *)
Definition move_to_front (l : loc) : prog unit :=
  gi ← gateInfo;
  if decide (gi = Some l) then mret tt else
  g ← gate_get l;
  upd_opt (next g) (λ n, n <| prev := prev g |>);;
  g ← gate_get l;
  upd_opt (prev g) (λ p, p <| next := next g |>);;
  upd_opt gi (λ h, h <| prev := Some l |>);;
  gate_upd l (λ g, g <| prev := None |> <| next := gi |>);;
  set_head (Some l).

(** ** Our own keys and hopping data *)

Definition own_keys (head : loc) : prog unit :=
  r ← get_random_bytes AES_BLOCK_SIZE;
  gate_upd head (λ g, g <| iv := r |>);;
  r ← get_random_bytes HOP_KEY_SIZE;
  gate_upd head (λ g, g <| hopKey := r |>);;
  r ← get_random_bytes AES_KEY_SIZE;
  gate_upd head (λ g, g <| symKey := r |>);;
  gate_upd head (λ g, g <| cipher ::= (λ c, cipher_setkey c (symKey g) (Z.of_nat AES_KEY_SIZE * 8)) |>);;
  gate_upd head (λ g, g <| md ::= (λ m, md_hmac_starts m (symKey g)) |>).

(** Once our record was found, or not. *)
Definition conf_ours (c : config_data) (found : option loc) : prog Z :=
  match found with
  | None => mret (- ARG_CONFIG_BAD)
  | Some l =>
      move_to_front l;;
      gi ← gateInfo;
      head ← deref gi;
      g ← gate_get head;
      '(r, g) ← read_private_key c g;
      gate_upd head (λ _, g);;
      if decide (r ≠ 0) then mret (- ARG_CONFIG_BAD) else
      own_keys head;;
      now ← current_time;
      gate_upd head (λ g, g <| timeBase := now |>);;
      gate_upd head (λ g, g <| hopInterval := u32 (hopRate c) |>);;
      mret 0
  end.

Definition get_hopper_conf (nodes : gmap loc gate_list) (c : config_data) : prog Z :=
  r ← add_gates (size nodes) nodes c (cf_gate c) None;
  if decide (r ≠ 0) then mret r else
  gi ← gateInfo;
  gs ← gets w_gates;
  found ← find_ours (size gs) c gi;
  conf_ours c found.

(** ** Start and stop; the administration thread is not running yet *)

Definition uninit_hopper : prog unit :=
  ipLock_lock;;
  gi ← gateInfo;
  (match gi with
   | None => mret tt
   | Some head =>
       remove_all_associated_arg_networks;;
       modify (λ w : world, w <| w_gates ::= delete head |>);;
       set_head None
   end);;
  ipLock_unlock.

Definition init_hopper (nodes : gmap loc gate_list) (c : config_data) : prog Z :=
  ipLock_lock;;
  r ← get_hopper_conf nodes c;
  if decide (r ≠ 0) then ipLock_unlock;; uninit_hopper;; mret (- ARG_CONFIG_BAD) else
  gi ← gateInfo;
  head ← deref gi;
  let '(r, drbg) := ctr_drbg_init in
  gate_upd head (λ g, g <| ctr_drbg := drbg |>);;
  if decide (r ≠ 0) then ipLock_unlock;; uninit_hopper;; mret (- ARG_INTERNAL_ERROR) else
  ipLock_unlock;;
  mret 0.
End Startup.
