(* ===== verification/ToyWorld.v ===== *)
(** * Concrete gateways for evaluation

    Two gateways A and B that share keys, each with its record of itself (at
    address 1) and of the other (at address 2), and a concrete environment. *)

From S2P Require Import Prelude Words Settings Utility Crypto Packet Gate NatData World ToyCrypto.

#[export] Instance toy_env : Env := {|
  env_clock _ := Timespec 100 0; env_random n := Z.of_nat n; env_malloc _ := true;
  env_sendto _ := 0; env_dies_locked := false; env_slack := 0 |}.

(** A gateway with its keys set, its time base and data known, connected. *)
Definition toy_gate (key seed : Z) (base : list Z) (nxt prv : option loc) : arg_network_info :=
  new_arg_network_info
    <| symKey := le_bytes AES_KEY_SIZE key |> <| iv := le_bytes AES_BLOCK_SIZE seed |>
    <| hopKey := le_bytes HOP_KEY_SIZE (key + 1) |> <| hopInterval := 1000 |>
    <| cipher := @cipher_setkey toy (@cipher_init toy) (le_bytes AES_KEY_SIZE key) 256 |>
    <| rsa := RSA 128 (2 ^ 1023 + key) 3 0 0 0 0 0 0 |>
    <| timeBase := Timespec 90 0 |> <| baseIP := base |> <| mask := [255; 255; 255; 0] |>
    <| connected := true |> <| lastDataUpdate := Timespec 95 0 |>
    <| proto ::= (λ p, p <| connDataAvailable := true |> <| timeBaseAvailable := true |>
                          <| outSeqNum := 5 |> <| inSeqNum := 4 |>) |>
    <| next := nxt |> <| prev := prv |>.

Definition gateA (nxt prv : option loc) := toy_gate 123456789 17 [10; 1; 1; 0] nxt prv.
Definition gateB (nxt prv : option loc) := toy_gate 987654321 23 [10; 2; 2; 0] nxt prv.

Definition toy_world (own other : option loc → option loc → arg_network_info) : world :=
  World {[1%positive := own (Some 2%positive) None; 2%positive := other None (Some 1%positive)]}
    (Some 1%positive) nat_init false 0 0 0 0 [].
Definition worldA : world := toy_world gateA gateB.
Definition worldB : world := toy_world gateB gateA.

Lemma toy_gate_wf key seed base nxt prv : length base = ADDR_SIZE → gate_wf (toy_gate key seed base nxt prv).
Proof. intros. split; cbn; by rewrite ?length_le_bytes. Defined.
