(* ===== verification/Layout.v ===== *)
(** * Layouts: buffers as concatenations of fields (src/packet.c, src/protocol.h)

    A buffer that is built field by field is the concatenation of a list of
    chunks; loads and stores at chunk boundaries act on the list.  The layout
    of an ARG packet, and what [parse_packet] makes of it. *)

From S2P Require Import Prelude Words Settings ArgError Utility Crypto Packet PacketFacts Gate World Net.

(** ** Chunked buffers *)

Definition span (cs : list (list Z)) : Z := Z.of_nat (length (concat cs)).

Lemma span_nil : span [] = 0.
Proof. done. Qed.
Lemma span_cons c cs : span (c :: cs) = Z.of_nat (length c) + span cs.
Proof. unfold span. cbn. rewrite length_app. lia. Qed.
Lemma span_app cs ds : span (cs ++ ds) = span cs + span ds.
Proof. unfold span. rewrite concat_app, length_app. lia. Qed.
Lemma span_nonneg cs : 0 ≤ span cs.
Proof. unfold span. lia. Qed.

(** Reading the chunks [mid] between [pre] and [post]. *)
Lemma rd_span pre mid post off n :
  off = span pre → Z.of_nat n = span mid →
  rd off n (concat (pre ++ mid ++ post)) = Some (concat mid).
Proof.
  intros -> Hn. unfold span in *. rewrite !concat_app, rd_defined by (rewrite ?length_app; lia).
  f_equal. rewrite drop_app_ge by lia. replace (_ - _)%nat with 0%nat by lia.
  rewrite drop_0, take_app_le by lia. apply take_ge. lia.
Qed.

(** Overwriting the chunk [old] between [pre] and [post]. *)
Lemma wr_span pre old post off bs :
  off = span pre → length bs = length old →
  wr off bs (concat (pre ++ old :: post)) = Some (concat (pre ++ bs :: post)).
Proof.
  intros -> Hl. rewrite !concat_app. cbn. apply wr_Some. unfold span.
  rewrite !length_app. split_and!; [lia..|].
  rewrite Nat2Z.id, take_app_length, Hl. f_equal. f_equal.
  rewrite drop_app_ge by lia. replace (_ + _ - _)%nat with (length old) by lia.
  by rewrite drop_app_length.
Qed.

Lemma concat_take_drop {A} k (cs : list (list A)) :
  concat cs = concat (take k cs) ++ concat (drop k cs).
Proof. by rewrite <- concat_app, take_drop. Qed.

(** The same by index, for explicit lists of chunks. *)
Lemma rd_chunks i j cs off n :
  off = span (take i cs) → Z.of_nat n = span (take j (drop i cs)) →
  rd off n (concat cs) = Some (concat (take j (drop i cs))).
Proof.
  intros Ho Hn. rewrite <- (take_drop i cs) at 1. rewrite <- (take_drop j (drop i cs)) at 1.
  by apply rd_span.
Qed.

Lemma wr_chunk i cs old off bs :
  cs !! i = Some old → off = span (take i cs) → length bs = length old →
  wr off bs (concat cs) = Some (concat (<[i := bs]> cs)).
Proof.
  intros Hi Ho Hl. assert (i < length cs)%nat by by eapply lookup_lt_Some.
  rewrite <- (take_drop_middle cs i old Hi) at 1.
  rewrite (wr_span _ _ _ _ bs Ho Hl). by rewrite <- insert_take_drop.
Qed.

(** A store over two adjacent chunks keeps the boundary between them. *)
Lemma wr_two i cs a b off xs ys :
  cs !! i = Some a → cs !! S i = Some b → off = span (take i cs) →
  length xs = length a → length ys = length b →
  wr off (xs ++ ys) (concat cs) = Some (concat (<[S i := ys]> (<[i := xs]> cs))).
Proof.
  intros Ha Hb Ho Hx Hy. eapply wr_app; [by apply (wr_chunk i _ a)|].
  eapply (wr_chunk (S i)); [rewrite list_lookup_insert_ne by lia; exact Hb| |done].
  rewrite (take_S_r _ i xs) by (apply list_lookup_insert_eq; by eapply lookup_lt_Some).
  rewrite take_insert_ge by lia. rewrite span_app, span_cons, span_nil. lia.
Qed.

(** Prove an equation between the span of explicit chunks and an offset. *)
Ltac span_eq :=
  cbn [take drop]; rewrite ?span_cons, ?span_nil;
  rewrite ?length_le_bytes; unfold zeros in *; rewrite ?length_replicate;
  cbn [length]; repeat match goal with H : length _ = _ |- _ => rewrite H end;
  cbv [ADDR_SIZE AES_KEY_SIZE AES_BLOCK_SIZE HOP_KEY_SIZE RSA_SIG_SIZE]; lia.

(** ** Stepping through a procedure *)

Lemma wp_lift {S A} (o : option A) a (Q : A → S → Prop) s :
  o = Some a → Q a s → wp (lift_opt o) Q s.
Proof. by intros ->. Qed.

Lemma wp_bind_lift {S A B} (o : option A) a (k : A → proc S B) Q s :
  o = Some a → wp (k a) Q s → wp (lift_opt o ≫= k) Q s.
Proof. by intros ->. Qed.

Lemma wp_fmap {S A B} (f : A → B) (m : proc S A) Q s :
  wp m (λ a, Q (f a)) s → wp (f <$> m) Q s.
Proof. intros. by apply wp_bind. Qed.

Lemma wp_assoc {S A B C} (m : proc S A) (f : A → proc S B) (k : B → proc S C) Q s :
  wp (m ≫= λ a, f a ≫= k) Q s → wp ((m ≫= f) ≫= k) Q s.
Proof. rewrite !wp_bind. intros Hm. eapply wp_mono; [done|]. cbn. intros a s'. by rewrite wp_bind. Qed.

Lemma wp_bind_right {S A} (m : proc S A) Q s : wp (m ≫= mret) Q s → wp m Q s.
Proof. rewrite wp_bind. intros. by eapply wp_mono. Qed.

Section Steps.
Context `{PolarSSL}.

Lemma wp_bind_gets {B} {A} (f : world → A) (k : A → proc world B) Q w :
  wp (k (f w)) Q w → wp (gets f ≫= k) Q w.
Proof. done. Qed.

Lemma get_bind {B} l g (k : arg_network_info → proc world B) w :
  w_gates w !! l = Some g → (gate_get l ≫= k) w = k g w.
Proof. intros Hl. unfold gate_get, gets, mbind, proc_bind. by rewrite Hl. Qed.
Lemma wp_bind_get {B} l g (k : arg_network_info → proc world B) Q w :
  w_gates w !! l = Some g → wp (k g) Q w → wp (gate_get l ≫= k) Q w.
Proof. intros Hl Hk. unfold gate_get. apply wp_bind. cbn. unfold wp, mbind, proc_bind, gets. by rewrite Hl. Qed.

(** The world after [gate_upd l f], when [g] is at [l]. *)
Definition set_gate (l : loc) (g : arg_network_info) (w : world) : world :=
  w <| w_gates ::= (λ gs, <[l := g]> gs) |>.

Lemma gate_upd_run l g f w :
  w_gates w !! l = Some g → gate_upd l f w = Done tt (set_gate l (f g) w).
Proof. intros Hl. unfold gate_upd, gate_get, gets, mbind, proc_bind. by rewrite Hl. Qed.

Lemma gate_get_None l w : w_gates w !! l = None → gate_get l w = Fault.
Proof. intros Hl. unfold gate_get, gets, mbind, proc_bind. by rewrite Hl. Qed.
Lemma gate_upd_None l f w : w_gates w !! l = None → gate_upd l f w = Fault.
Proof. intros Hl. unfold gate_upd, mbind, proc_bind. by rewrite gate_get_None. Qed.
Lemma gate_get_run l g w : w_gates w !! l = Some g → gate_get l w = Done g w.
Proof. intros Hl. unfold gate_get, gets, mbind, proc_bind. by rewrite Hl. Qed.

Lemma wp_bind_upd {B} l g f (k : unit → proc world B) Q w :
  w_gates w !! l = Some g → wp (k tt) Q (set_gate l (f g) w) → wp (gate_upd l f ≫= k) Q w.
Proof. intros Hl Hk. apply wp_bind. unfold wp at 1. by rewrite (gate_upd_run _ _ _ _ Hl). Qed.

Lemma set_gate_same l g w : w_gates (set_gate l g w) !! l = Some g.
Proof. apply lookup_insert_eq. Qed.
Lemma set_gate_ne l l' g w : l ≠ l' → w_gates (set_gate l g w) !! l' = w_gates w !! l'.
Proof. intros. by apply lookup_insert_ne. Qed.

(** The record with its mutex taken or free. *)
Definition with_lock (b : bool) (g : arg_network_info) : arg_network_info := g <| lock := b |>.

Lemma wp_bind_lock {B} l g (k : unit → proc world B) Q w :
  w_gates w !! l = Some g → lock g = false →
  wp (k tt) Q (set_gate l (with_lock true g) w) → wp (mutex_lock l ≫= k) Q w.
Proof.
  intros Hl Hf Hk. unfold mutex_lock. apply wp_assoc. eapply wp_bind_get; [done|]. rewrite Hf.
  by eapply wp_bind_upd.
Qed.

Lemma wp_bind_unlock {B} l g (k : unit → proc world B) Q w :
  w_gates w !! l = Some g →
  wp (k tt) Q (set_gate l (with_lock false g) w) → wp (mutex_unlock l ≫= k) Q w.
Proof. intros Hl Hk. by eapply wp_bind_upd. Qed.

Context `{Env}.

Lemma wp_bind_sendto {B} o (k : Z → proc world B) Q w :
  0 ≤ env_sendto (w_sendto w) →
  wp (k (env_sendto (w_sendto w))) Q (w <| w_sendto ::= S |> <| w_sent ::= (λ l, l ++ [o]) |>) →
  wp (sendto o ≫= k) Q w.
Proof.
  intros Hs Hk. apply wp_bind. unfold wp at 1. unfold sendto.
  by rewrite decide_False by lia.
Qed.

Lemma wp_bind_time {B} (k : timespec → proc world B) Q w :
  wp (k (env_clock (w_clock w))) Q (w <| w_clock ::= S |>) → wp (current_time ≫= k) Q w.
Proof. intros Hk. by apply wp_bind. Qed.

Lemma wp_bind_malloc {B} (k : bool → proc world B) Q w :
  wp (k (env_malloc (w_malloc w))) Q (w <| w_malloc ::= S |>) → wp (malloc_ok ≫= k) Q w.
Proof. intros Hk. by apply wp_bind. Qed.

Lemma wp_bind_store {B} off bs p d (k : packet_data → proc world B) Q w :
  wr off bs (p_data p) = Some d → wp (k (with_data p d)) Q w → wp (store off bs p ≫= k) Q w.
Proof. intros Hw Hk. unfold store. rewrite Hw. by apply wp_bind_lift with (with_data p d). Qed.

Lemma wp_bind_load {B} off n p d (k : list Z → proc world B) Q w :
  rd off n (p_data p) = Some d → wp (k d) Q w → wp (load off n p ≫= k) Q w.
Proof. intros Hr Hk. unfold load. by apply wp_bind_lift with d. Qed.
End Steps.

(** ** ARG datagrams *)

(** The parsed form of a buffer with an ARG datagram after [ll] link bytes. *)
Definition arg_parsed (ll tot : Z) (d : list Z) : packet_data :=
  Packet (ll + tot) ll (if decide (sizeof_ethhdr = ll) then Some 0 else None) (Some ll)
    None None None None (Some (ll + 20)) (Some (ll + 156)) (u64 (tot - 156)) d.

Lemma parse_arg_datagram p ll t :
  p_linkLayerLen p = ll →
  (ll = sizeof_ethhdr → ∃ h, rd16 12 (p_data p) = Some h ∧ ntohs h = ETH_P_IP) →
  rd8 ll (p_data p) = Some 69 → rd16 (ll + 2) (p_data p) = Some t →
  rd8 (ll + 9) (p_data p) = Some ARG_PROTO →
  parse_packet p = Some (0, arg_parsed ll (ntohs t) (p_data p)).
Proof.
  intros Hll Heth H0 H2 H9. destruct p as [len ll' e i t' u ic ar ag ud ul d].
  cbn [p_linkLayerLen p_data] in *. subst ll'.
  assert (parse_link (clear_pointers (Packet len ll e i t' u ic ar ag ud ul d))
    = Some (Packet len ll (if decide (sizeof_ethhdr = ll) then Some 0 else None) (Some ll)
              None None None None None (Some (ll + 20)) 0 d)) as Hlink.
  { unfold parse_link, clear_pointers, ip_ihl. cbn -[rd16 rd8 ntohs decide]. rewrite H0.
    destruct (decide (sizeof_ethhdr = ll)) as [He|He].
    - destruct (Heth (eq_sym He)) as (h & Hh & Hn). rewrite Hh, some_bind, Hn.
      rewrite decide_True by done. done.
    - done. }
  unfold parse_packet. rewrite Hlink, some_bind. cbn [p_ipv4 p_data p_linkLayerLen].
  unfold ip_version, ip_tot_len, ip_ihl, ip_protocol.
  rewrite H0, some_fmap, some_bind. rewrite decide_False by (intros Hv; by apply Hv).
  rewrite H2, some_bind. cbn [p_data upd].
  rewrite H0, some_fmap, some_bind, H9, some_bind. unfold parse_transport.
  rewrite decide_True by done. rewrite some_bind. unfold set_unknown_len. cbn -[ntohs u64].
  unfold arg_parsed, ARG_HDR_LEN. change (Z.land 69 15 * 4) with 20.
  replace (ll + 20 + 136) with (ll + 156) by lia.
  by replace (ll + ntohs t - (ll + 156)) with (ntohs t - 156) by lia.
Qed.
