(* ===== verification/ToySetup.v ===== *)
(** * A concrete set-up for evaluation

    A disk with one configuration directory, /etc/arg, and numbers written in
    binary, least significant digit first. *)

From stdpp Require Import strings.
From S2P Require Import Prelude Words Settings ArgError CString Utility Crypto Gate World Config ToyCrypto ToyWorld.

Abbreviation str s := (bytes_of_string s%string).

(** ** Numbers *)

Fixpoint toy_bits (p : positive) : list Z :=
  match p with
  | xH => [49]
  | xO p => 48 :: toy_bits p
  | xI p => 49 :: toy_bits p
  end.
Definition toy_digits (x : Z) : list Z := match x with Zpos p => toy_bits p | _ => [48] end.
Fixpoint toy_value (l : list Z) : Z :=
  match l with
  | [] => 0
  | c :: l => (if decide (c = 49) then 1 else 0) + 2 * toy_value l
  end.

Fixpoint toy_line (f : list Z) : list Z * list Z :=
  match f with
  | [] => ([], [])
  | c :: f => if decide (c = NL) then ([], f) else let '(l, r) := toy_line f in (c :: l, r)
  end.
(** What follows the last space. *)
Fixpoint toy_word (cur l : list Z) : list Z :=
  match l with
  | [] => cur
  | c :: l' => if decide (c = 32) then toy_word l' l' else toy_word cur l'
  end.

(** ** The disk *)

Definition toy_key : rsa_context := RSA 0 3233 17 413 61 53 53 49 38.
Definition toy_write (p : list Z) (x : Z) : list Z := p ++ toy_digits x ++ [NL].
Definition toy_numbers (k : rsa_context) : list Z :=
  mjoin ((λ px, toy_write px.1 px.2) <$> private_numbers k).
Definition etc_arg : list Z := str "/etc/arg".
Definition main_conf : list Z := str "main.conf".
Definition alpha : list Z := str "alpha".
Definition eth0 : list Z := str "eth0".
Definition eth1 : list Z := str "eth1".
Definition rate : list Z := str "1000".
Definition beta : list Z := str "beta".
Definition beta_ip : list Z := str "10.2.2.0".
Definition alpha_ip : list Z := str "10.1.1.0".
Definition alpha_mask : list Z := str "255.255.255.0".
Definition long_name : list Z := str "gateway-one".
Definition toy_lines : list (list Z) := [alpha; []; eth0; eth1; rate].
Definition toy_text (ls : list (list Z)) : list Z := mjoin ((λ l, l ++ [NL]) <$> ls).
Definition toy_names : list (list Z) :=
  [str "."; str ".."; main_conf; str "beta.pub"; str "alpha.pub"; str "alpha.priv"].
Definition toy_public (ip : list Z) (k : rsa_context) : list Z :=
  toy_text [ip; alpha_mask]
  ++ toy_write (label [78]) (rsa_N k) ++ toy_write (label [69]) (rsa_E k).
(** The disk of the gateways, with alpha's network at [ip]. *)
Definition toy_disk_at (ip : list Z) : list (list Z * list Z) :=
  [(str "/etc/arg/main.conf", toy_text toy_lines);
   (str "/etc/arg/alpha.pub", toy_public ip toy_key);
   (str "/etc/arg/alpha.priv", toy_numbers toy_key);
   (str "/etc/arg/beta.pub", toy_public beta_ip (toy_key <| rsa_N := 2773 |>))].

Definition toy_disk : list (list Z * list Z) := toy_disk_at alpha_ip.

#[export] Instance toy_setup : Setup := {|
  fs_read path :=
    match list_find (λ f, f.1 = path) toy_disk with Some (_, f) => inr f.2 | None => inl 2 end;
  fs_dir path := if decide (path = etc_arg) then Some toy_names else None;
  fs_create path := true;
  mpi_read_file radix f :=
    let '(l, rest) := toy_line f in (0, toy_value (toy_word l l), rest);
  mpi_write_file p x radix := (0, toy_write p x);
  ctr_drbg_init := (0, tt);
  rsa_gen_key drbg bits e := (0, toy_key) |}.

(** A configuration record as [arg_init] passes it, for a file of that name. *)
Definition toy_config (path : list Z) : config_data :=
  Config (strncpy (zeros MAX_CONF_LINE) path (MAX_CONF_LINE - 1)) (zeros MAX_CONF_LINE)
    (zeros MAX_CONF_LINE) (zeros DEV_SIZE) (zeros DEV_SIZE) None 0.
