(* ===== verification/ConfigFacts.v ===== *)
(** * Reading the configuration (src/settings.c)

    What the line reader returns, that a well-formed configuration is read as
    written, and that the key files the generator writes are read back. *)

From S2P Require Import Prelude Words Settings ArgError CString Utility Crypto Gate NatData World Config ToyCrypto ToyWorld Layout ToySetup.

(** ** Files of lines *)

(** A line that fits the buffer, with neither zero bytes nor newlines. *)
Definition line_ok (l : list Z) : Prop :=
  Forall (λ b, b ≠ 0 ∧ b ≠ NL) l ∧ (length l < MAX_CONF_LINE - 1)%nat.
Definition text (ls : list (list Z)) : stream := mjoin ((λ l, l ++ [NL]) <$> ls).

(** The reader skips empty lines and those that start with a carriage return. *)
Definition is_blank (l : list Z) : bool := bool_decide (l = [] ∨ l !! 0%nat = Some CR).
Definition shown (ls : list (list Z)) : list (list Z) := filter (λ l, is_blank l = false) ls.

Lemma take_line_text n l rest :
  Forall (λ b, b ≠ 0 ∧ b ≠ NL) l → (length l < n)%nat →
  take_line n (l ++ NL :: rest) = (l ++ [NL], rest).
Proof.
  revert n. induction l as [|b l IH]; intros [|n] Hl Hn; try (cbn in Hn; lia); [done|].
  inversion Hl as [|? ? [_ Hb] Hl']; subst. cbn [app take_line]. rewrite decide_False by done.
  rewrite IH; [done..|cbn in Hn; lia].
Qed.

(** The line buffer after [l] was read into it, with its newline or without. *)
Lemma wr_string s line :
  (length s < length line)%nat →
  wr 0 (s ++ [0]) line = Some (s ++ 0 :: drop (length s + 1) line).
Proof.
  intros. unfold wr. rewrite bool_decide_true by (rewrite length_app; cbn; lia).
  rewrite length_app, take_0. cbn. by rewrite <- app_assoc.
Qed.

Lemma fgets_text l rest line :
  line_ok l → length line = MAX_CONF_LINE →
  fgets MAX_CONF_LINE line (l ++ NL :: rest)
  = Done (Some (l ++ [NL] ++ 0 :: drop (length l + 2) line)) rest.
Proof.
  intros [Hl Hn] Hline. unfold fgets, gets, mbind, proc_bind, id.
  destruct (l ++ NL :: rest) as [|c f] eqn:E; [by destruct l|]. rewrite <- E.
  rewrite take_line_text by done. unfold modify.
  rewrite (wr_string (l ++ [NL])) by (rewrite length_app; cbn; lia).
  cbn. rewrite length_app. cbn. rewrite <- app_assoc. do 4 f_equal. cbn. do 2 f_equal. lia.
Qed.

(** The buffer that holds [l] with its newline. *)
Definition filled (l line : list Z) : list Z := (l ++ [NL]) ++ 0 :: drop (length l + 2) line.

Lemma length_filled l line : line_ok l → length line = MAX_CONF_LINE → length (filled l line) = MAX_CONF_LINE.
Proof.
  intros [_ Hn] Hl. unfold filled. rewrite !length_app. cbn [length]. rewrite length_drop.
  unfold MAX_CONF_LINE in *. lia.
Qed.

Lemma until_nul_filled l line : line_ok l → until_nul (filled l line) = l ++ [NL].
Proof.
  intros [Hl _]. apply until_nul_app. apply Forall_app. split; [|by repeat constructor].
  eapply Forall_impl; [exact Hl|]. by intros b [? _].
Qed.

Lemma filled_first l line : filled l line !! 0%nat = Some (default NL (l !! 0%nat)).
Proof. by destruct l. Qed.

Section Lines.
Context (line : list Z) (Hline : length line = MAX_CONF_LINE).

Lemma next_line_blank fuel l rest :
  line_ok l → is_blank l = true →
  next_line_loop (S fuel) MAX_CONF_LINE line (l ++ NL :: rest)
  = next_line_loop fuel MAX_CONF_LINE (filled l line) rest.
Proof using Hline.
  intros Hl Hb. cbn [next_line_loop]. unfold mbind at 1, proc_bind at 1. rewrite fgets_text by done.
  rewrite app_assoc. change ((l ++ [NL]) ++ 0 :: drop (length l + 2) line) with (filled l line).
  unfold mbind, proc_bind. rewrite filled_first. cbn [lift_opt mret proc_ret].
  rewrite decide_False; [done|]. intros [H1 H2]. apply bool_decide_eq_true in Hb as [->|Hb]; [done|].
  rewrite Hb in H2. done.
Qed.

Lemma next_line_shown fuel l rest :
  line_ok l → is_blank l = false →
  next_line_loop (S fuel) MAX_CONF_LINE line (l ++ NL :: rest)
  = Done (0, l ++ 0 :: 0 :: drop (length l + 2) line) rest.
Proof using Hline.
  intros Hl Hb. cbn [next_line_loop]. unfold mbind at 1, proc_bind at 1. rewrite fgets_text by done.
  rewrite app_assoc. change ((l ++ [NL]) ++ 0 :: drop (length l + 2) line) with (filled l line).
  pose proof (length_filled _ _ Hl Hline) as Hlen. pose proof (until_nul_filled _ line Hl) as Hun.
  unfold mbind, proc_bind. rewrite filled_first. cbn [lift_opt mret proc_ret].
  apply bool_decide_eq_false in Hb. rewrite decide_True.
  - rewrite take_ge, Hun, length_app by lia. cbn [length].
    rewrite decide_False by lia. replace (length l + 1 - 1)%nat with (length l) by lia.
    unfold filled. rewrite <- app_assoc. cbn [app].
    rewrite list_lookup_middle by done. cbn [lift_opt mret proc_ret].
    rewrite decide_True by done. do 2 f_equal. rewrite insert_app_r_alt by lia. by rewrite Nat.sub_diag.
  - destruct l as [|c l]; cbn; [by destruct Hb; left|]. destruct Hl as [Hl _]. inversion Hl as [|? ? [_ Hc] _]; subst.
    split; [done|]. intros ->. apply Hb. by right.
Qed.
End Lines.

Lemma until_nul_line l rest : line_ok l → until_nul (l ++ 0 :: rest) = l.
Proof. intros [Hl _]. apply until_nul_app. eapply Forall_impl; [exact Hl|]. by intros b [? _]. Qed.

Lemma text_cons' l ls : text (l :: ls) = l ++ NL :: text ls.
Proof. unfold text. cbn. by rewrite <- app_assoc. Qed.
Lemma text_cons l ls rest : text (l :: ls) ++ rest = l ++ NL :: text ls ++ rest.
Proof. by rewrite text_cons', <- app_assoc. Qed.

Lemma next_line_loop_run fuel ls l rest tail line :
  Forall line_ok ls → shown ls = l :: rest → length line = MAX_CONF_LINE → (length ls ≤ fuel)%nat →
  ∃ bs ls' line', ls = bs ++ l :: ls' ∧ shown ls' = rest
    ∧ next_line_loop fuel MAX_CONF_LINE line (text ls ++ tail) = Done (0, line') (text ls' ++ tail)
    ∧ until_nul line' = l ∧ length line' = MAX_CONF_LINE.
Proof.
  revert ls line. induction fuel as [|fuel IH]; intros [|l0 ls] line Hok Hs Hline Hfu;
    try (cbn in Hfu; lia); try done.
  apply Forall_cons in Hok as [Hl0 Hok]. rewrite text_cons. unfold shown in Hs. destruct (is_blank l0) eqn:Hb.
  - rewrite next_line_blank by done. rewrite filter_cons_False in Hs by (by rewrite Hb).
    destruct (IH ls (filled l0 line)) as (bs & ls' & line' & -> & Hs' & Hrun & Hun & Hl');
      [done..|by apply length_filled|cbn in Hfu; lia|].
    exists (l0 :: bs), ls', line'. by split_and!.
  - rewrite next_line_shown by done. rewrite filter_cons_True in Hs by done. injection Hs as -> Hs.
    eexists [], ls, _. split_and!; [done..|by apply until_nul_line|].
    destruct Hl0 as [_ Hn]. rewrite length_app. cbn. rewrite length_drop. unfold MAX_CONF_LINE in *. lia.
Qed.

Lemma length_text ls : (length ls ≤ length (text ls))%nat.
Proof.
  induction ls as [|l ls IH]; [done|]. rewrite text_cons', length_app. cbn. lia.
Qed.

(** The next shown line is read, and what precedes it is skipped. *)
Lemma get_next_line_run ls l rest tail line :
  Forall line_ok ls → shown ls = l :: rest → length line = MAX_CONF_LINE →
  ∃ bs ls' line', ls = bs ++ l :: ls' ∧ shown ls' = rest
    ∧ get_next_line line MAX_CONF_LINE (text ls ++ tail) = Done (0, line') (text ls' ++ tail)
    ∧ until_nul line' = l ∧ length line' = MAX_CONF_LINE.
Proof.
  intros Hok Hs Hline. apply next_line_loop_run; [done..|].
  pose proof (length_text ls). unfold id. rewrite length_app. lia.
Qed.

Lemma next_line_loop_end fuel ls line :
  Forall line_ok ls → shown ls = [] → length line = MAX_CONF_LINE → (length ls < fuel)%nat →
  ∃ line', next_line_loop fuel MAX_CONF_LINE line (text ls) = Done (-1, line') [].
Proof.
  revert ls line. induction fuel as [|fuel IH]; intros [|l0 ls] line Hok Hs Hline Hfu;
    try (cbn in Hfu; lia); [by eexists|].
  apply Forall_cons in Hok as [Hl0 Hok]. unfold shown in Hs. destruct (is_blank l0) eqn:Hb.
  - rewrite filter_cons_False in Hs by (by rewrite Hb).
    rewrite text_cons', next_line_blank by done.
    apply IH; [done..|by apply length_filled|cbn in Hfu; lia].
  - by rewrite filter_cons_True in Hs.
Qed.

Lemma get_next_line_end ls line :
  Forall line_ok ls → shown ls = [] → length line = MAX_CONF_LINE →
  ∃ line', get_next_line line MAX_CONF_LINE (text ls) = Done (-1, line') [].
Proof.
  intros. apply next_line_loop_end; [done..|]. pose proof (length_text ls). unfold id. lia.
Qed.

(** ** The four settings *)

Lemma strncpy_line dst l line n :
  line_ok l → until_nul line = l → strncpy dst line n = strncpy dst l n.
Proof.
  intros [Hl _] Hu. unfold strncpy. rewrite Hu, (until_nul_no_nul l); [done|].
  eapply Forall_impl; [exact Hl|]. by intros b [? _].
Qed.

Lemma shown_ok ls l rest : Forall line_ok ls → shown ls = l :: rest → line_ok l.
Proof.
  intros Hok Hs. rewrite Forall_forall in Hok. apply Hok.
  assert (l ∈ shown ls) as Hin by (rewrite Hs; by left). by apply list_elem_of_filter in Hin as [_ ?].
Qed.

(** One setting, whatever is done with it. *)
Lemma setting_step {A} (k : Z * list Z → proc stream A) ls l rest line a :
  Forall line_ok ls → shown ls = l :: rest → length line = MAX_CONF_LINE →
  (∀ ls' line', Forall line_ok ls' → shown ls' = rest → until_nul line' = l →
     length line' = MAX_CONF_LINE → ∃ f, k (0, line') (text ls') = Done a f) →
  ∃ f, (get_next_line line MAX_CONF_LINE ≫= k) (text ls) = Done a f.
Proof.
  intros Hok Hs Hline Hk.
  destruct (get_next_line_run ls l rest [] line Hok Hs Hline) as (bs & ls' & line' & -> & Hs' & Hrun & Hu & Hl').
  rewrite !app_nil_r in Hrun. unfold mbind, proc_bind. rewrite Hrun. apply Hk; [|done..].
  apply Forall_app in Hok as [_ [_ Hok]%Forall_cons]. done.
Qed.

(** The configuration with the settings of the four lines. *)
Definition with_settings (n i e r : list Z) (c : config_data) : config_data :=
  c <| ourGateName ::= (λ d, strncpy d n (MAX_CONF_LINE - 1)) |>
    <| intDev ::= (λ d, strncpy d i (DEV_SIZE - 1)) |>
    <| extDev ::= (λ d, strncpy d e (DEV_SIZE - 1)) |>
    <| hopRate := atol r |>.

Lemma read_settings_run ls n i e r rest line c :
  Forall line_ok ls → shown ls = n :: i :: e :: r :: rest → length line = MAX_CONF_LINE →
  ∃ f, read_settings line c (text ls) = Done (0, with_settings n i e r c) f.
Proof.
  intros Hok Hs Hline. unfold read_settings.
  pose proof (shown_ok _ _ _ Hok Hs) as Hn. eapply setting_step; [done..|]. clear line ls Hok Hs Hline.
  intros ls1 line1 Hok Hs Hu1 Hline. rewrite decide_False by lia.
  pose proof (shown_ok _ _ _ Hok Hs) as Hi. eapply setting_step; [done..|]. clear ls1 Hok Hs Hline.
  intros ls2 line2 Hok Hs Hu2 Hline. rewrite decide_False by lia.
  pose proof (shown_ok _ _ _ Hok Hs) as He. eapply setting_step; [done..|]. clear ls2 Hok Hs Hline.
  intros ls3 line3 Hok Hs Hu3 Hline. rewrite decide_False by lia.
  eapply setting_step; [done..|]. clear ls3 Hok Hs Hline.
  intros ls4 line4 _ _ Hu4 _. rewrite decide_False by lia. eexists. unfold mret, proc_ret, with_settings.
  rewrite Hu4. destruct c as [x1 x2 x3 x4 x5 x6 x7]. cbn -[strncpy].
  rewrite (strncpy_line _ _ _ _ Hn Hu1), (strncpy_line _ _ _ _ Hi Hu2), (strncpy_line _ _ _ _ He Hu3). done.
Qed.

(** With fewer than four lines the configuration is refused. *)
Definition refused (m : proc stream (Z * config_data)) (f : stream) : Prop :=
  ∃ c' f', m f = Done (- ARG_CONFIG_BAD, c') f'.

Lemma setting_refused (k : Z * list Z → proc stream (Z * config_data)) ls line m :
  Forall line_ok ls → (length (shown ls) < m)%nat → length line = MAX_CONF_LINE →
  (∀ line', refused (k (-1, line')) []) →
  (∀ ls' line', Forall line_ok ls' → (S (length (shown ls')) < m)%nat → length line' = MAX_CONF_LINE →
     refused (k (0, line')) (text ls')) →
  refused (get_next_line line MAX_CONF_LINE ≫= k) (text ls).
Proof.
  intros Hok Hs Hline Hend Hk. unfold refused, mbind, proc_bind. destruct (shown ls) as [|l rest] eqn:E.
  - destruct (get_next_line_end ls line Hok E Hline) as [line' ->]. apply Hend.
  - destruct (get_next_line_run ls l rest [] line Hok E Hline) as (bs & ls' & line' & -> & Hs' & Hrun & _ & Hl').
    rewrite !app_nil_r in Hrun. rewrite Hrun. apply Hk; [|by rewrite Hs'|done].
    by apply Forall_app in Hok as [_ [_ Hok]%Forall_cons].
Qed.

Lemma read_settings_short ls line c :
  Forall line_ok ls → (length (shown ls) < 4)%nat → length line = MAX_CONF_LINE →
  refused (read_settings line c) (text ls).
Proof.
  assert (∀ (c : config_data) f, refused (mret (- ARG_CONFIG_BAD, c)) f) as Hend
    by (intros; by eexists _, _).
  intros Hok Hs Hline. unfold read_settings.
  do 4 (eapply setting_refused; [done|exact Hs|done|intros ?; apply Hend|];
    clear dependent ls; clear Hline; let l := fresh "line" in intros ls l Hok Hs Hline;
    rewrite decide_False by lia; apply Nat.succ_lt_mono in Hs). lia.
Qed.

(** ** The list of public keys *)

(** The nodes [items] in order: where each is and its name. *)
Fixpoint glist (h : gmap loc gate_list) (p : option loc) (items : list (loc * list Z)) : Prop :=
  match items with
  | [] => p = None
  | (l, nm) :: items => p = Some l ∧ ∃ n, h !! l = Some n ∧ until_nul (gl_name n) = nm
                          ∧ length (gl_name n) = MAX_CONF_LINE ∧ glist h (gl_next n) items
  end.

Lemma glist_agree h h' p items :
  (∀ l, l ∈ items.*1 → h' !! l = h !! l) → glist h p items → glist h' p items.
Proof.
  revert p. induction items as [|[l nm] items IH]; intros p Ha; [done|].
  intros (-> & n & Hn & Hnm & Hlen & Hg). split; [done|]. exists n. rewrite Ha by (by left).
  split_and!; [done..|]. apply IH; [|done]. intros x Hx. apply Ha. by right.
Qed.

(** A node more at the end. *)
Lemma glist_snoc h p items l l' n nm n' :
  glist h p (items ++ [(l, nm)]) → NoDup (items ++ [(l, nm)]).*1 → l' ∉ (items ++ [(l, nm)]).*1 →
  h !! l = Some n → length (gl_name n') = MAX_CONF_LINE → gl_next n' = None →
  glist (<[l' := n']> (<[l := n <| gl_next := Some l' |>]> h)) p
    (items ++ [(l, nm); (l', until_nul (gl_name n'))]).
Proof.
  revert p. induction items as [|[x xm] items IH]; intros p.
  - cbn. intros (-> & n0 & Hn0 & Hnm & Hlen & Hg) _ Hl' Hn Hln Hnx. assert (n0 = n) as -> by congruence.
    apply not_elem_of_cons in Hl' as [Hne _]. split; [done|].
    exists (n <| gl_next := Some l' |>). rewrite lookup_insert_ne, lookup_insert_eq by done.
    split_and!; [done..|]. exists n'. by rewrite lookup_insert_eq.
  - cbn. intros (-> & n0 & Hn0 & Hnm & Hlen & Hg) [Hx Hnd]%NoDup_cons [Hne Hl']%not_elem_of_cons Hn Hln Hnx.
    split; [done|]. exists n0. rewrite lookup_insert_ne by done. rewrite lookup_insert_ne.
    + split_and!; [done..|]. by apply IH.
    + intros ->. apply Hx. rewrite fmap_app, elem_of_app. right. by left.
Qed.

(** The name of a public key's gate. *)
Definition stem (d_name : list Z) : list Z := take (length d_name - 4) d_name.
Definition file_name (d_name : list Z) : Prop :=
  Forall (λ b, b ≠ 0) d_name ∧ (length d_name ≤ 255)%nat.

Section Scan.
Context `{Setup, Env}.
Hypothesis callocs_ok : ∀ i, env_malloc i = true.
Implicit Types h : conf_heap.

(** What a scan has found so far. *)
Record scanned (items : list (loc * list Z)) (st : option loc * option loc) h : Prop := {
  sc_list : glist (c_gates h) st.1 items;
  sc_nodup : NoDup items.*1;
  sc_last : st.2 = last items.*1;
  sc_heap l : is_Some (c_gates h !! l) ↔ l ∈ items.*1 }.

Lemma stem_buffer d_name :
  file_name d_name → ∃ nm, wr 0 (stem d_name ++ [0]) (zeros MAX_CONF_LINE) = Some nm
    ∧ until_nul nm = stem d_name ∧ length nm = MAX_CONF_LINE.
Proof.
  intros [Hz Hl]. assert (length (stem d_name) < 300)%nat as Hs by (unfold stem; rewrite length_take; lia).
  eexists. rewrite (wr_string (stem d_name)) by (unfold zeros; rewrite length_replicate; exact Hs).
  split; [done|]. split.
  - apply until_nul_app. by apply Forall_take.
  - rewrite length_app. cbn [length]. unfold zeros. rewrite length_drop, length_replicate.
    unfold MAX_CONF_LINE. lia.
Qed.

Lemma wp_bind_node_upd {B} l n f (k : unit → proc conf_heap B) Q h :
  c_gates h !! l = Some n → wp (k tt) Q (h <| c_gates ::= (λ m, <[l := f n]> m) |>) →
  wp (node_upd l f ≫= k) Q h.
Proof.
  intros Hl Hk. unfold node_upd. apply wp_bind. unfold wp at 1, mbind, proc_bind, gets. by rewrite Hl.
Qed.

Lemma wp_bind_calloc {B} (k : bool → proc conf_heap B) Q h :
  wp (k true) Q (h <| c_malloc ::= S |>) → wp (cmalloc_ok ≫= k) Q h.
Proof using callocs_ok. intros Hk. apply wp_bind. unfold cmalloc_ok, wp at 1. by rewrite callocs_ok. Qed.

Lemma scan_entry_run d_name items st h :
  file_name d_name → scanned items st h → is_pub d_name = true →
  wp (scan_entry d_name st) (λ st' h', ∃ l, scanned (items ++ [(l, stem d_name)]) st' h') h.
Proof using callocs_ok.
  intros Hf [Hg Hnd Hlast Hheap] Hp. destruct st as [first prv]. cbn in Hg, Hlast.
  destruct (stem_buffer _ Hf) as (nm & Hnm & Hun & Hlen). unfold scan_entry. rewrite Hp. cbn [negb].
  apply wp_bind_calloc. cbn [negb]. apply wp_bind. unfold gets, wp at 1. cbn [c_gates upd].
  set (l := fresh_loc (c_gates h)).
  assert (c_gates h !! l = None) as Hl by apply fresh_loc_None.
  assert (l ∉ items.*1) as Hnin by (rewrite <- Hheap, Hl; by intros []).
  apply wp_bind. unfold modify, wp at 1. unfold stem in Hnm.
  destruct items as [|[x xm] items _] using rev_ind.
  - cbn in Hg, Hlast. subst. rewrite ret_bind.
    eapply wp_bind_lift; [exact Hnm|].
    eapply wp_bind_node_upd; [cbn; apply lookup_insert_eq|]. apply wp_ret.
    exists l. cbn. rewrite insert_insert_eq. split; cbn.
    + split; [done|]. eexists. rewrite lookup_insert_eq. by split_and!.
    + apply NoDup_singleton.
    + done.
    + intros y. rewrite lookup_insert_is_Some, Hheap, list_elem_of_singleton, elem_of_nil. split; [by intros [->|[_ []]]|intros ->; by left].
  - rewrite fmap_app, last_app in Hlast. cbn in Hlast. subst prv.
    assert (∃ n, c_gates h !! x = Some n) as [n Hn].
    { apply Hheap. rewrite fmap_app. apply elem_of_app. right. by left. }
    assert (x ≠ l) as Hxl by congruence.
    assert (∃ f, first = Some f) as [f ->] by (destruct items as [|[] ?]; destruct Hg as [-> _]; eauto).
    eapply wp_bind_node_upd; [cbn; rewrite lookup_insert_ne by done; exact Hn|].
    eapply wp_bind_lift; [exact Hnm|].
    eapply wp_bind_node_upd; [cbn; rewrite lookup_insert_ne by done; apply lookup_insert_eq|]. apply wp_ret.
    exists l. cbn [c_gates upd]. rewrite (insert_insert_ne _ x l) by done. rewrite insert_insert_eq.
    rewrite <- app_assoc, <- Hun. split; cbn [fst snd app c_gates].
    + exact (glist_snoc _ _ items x l n xm (GateName nm None) Hg Hnd Hnin Hn Hlen eq_refl).
    + change [(x, xm); (l, until_nul nm)] with ([(x, xm)] ++ [(l, until_nul nm)]).
      rewrite app_assoc, fmap_app.
      apply NoDup_app. split_and!; [done| |apply NoDup_singleton].
      intros y Hy ->%list_elem_of_singleton. done.
    + by rewrite fmap_app, last_app.
    + assert (x ∈ (items ++ [(x, xm)]).*1) as Hx by (rewrite fmap_app, elem_of_app; right; by left).
      intros y. rewrite !lookup_insert_is_Some, Hheap. change [(x, xm); (l, until_nul nm)] with ([(x, xm)] ++ [(l, until_nul nm)]).
      rewrite app_assoc, (fmap_app _ (items ++ _)), elem_of_app, (list_elem_of_singleton y l : y ∈ [(l, until_nul nm)].*1 ↔ y = l).
      destruct (decide (l = y)), (decide (x = y)); naive_solver.
Qed.

(** The keys of a directory, in its order. *)
Definition pub_stems (names : list (list Z)) : list (list Z) :=
  stem <$> filter (λ d, is_pub d = true) names.

Lemma scan_dir_run names items st h :
  Forall file_name names → scanned items st h →
  wp (scan_dir names st) (λ st' h', ∃ items', scanned items' st' h'
    ∧ items'.*2 = items.*2 ++ pub_stems names) h.
Proof using callocs_ok.
  revert items st h. induction names as [|d names IH]; intros items st h Hf Hs.
  { exists items. split; [done|]. by rewrite app_nil_r. }
  apply Forall_cons in Hf as [Hd Hf]. cbn [scan_dir]. apply wp_bind. destruct (is_pub d) eqn:Hp.
  - eapply wp_mono; [by eapply scan_entry_run|]. intros st1 h1 [l Hs1].
    eapply wp_mono; [by apply (IH (items ++ [(l, stem d)]))|]. intros st2 h2 (items' & Hs2 & Hi).
    exists items'. split; [done|]. unfold pub_stems. rewrite filter_cons_True by done.
    rewrite Hi, fmap_app, <- app_assoc. done.
  - unfold scan_entry, wp at 1. rewrite Hp. cbn [negb mret proc_ret].
    eapply wp_mono; [by apply (IH items)|]. intros st2 h2 (items' & Hs2 & Hi). exists items'.
    split; [done|]. unfold pub_stems. by rewrite filter_cons_False by (by rewrite Hp).
Qed.
End Scan.

(** ** The directory of the configuration file *)

Lemma cstr_Some buf s :
  cstr buf = Some s → Forall (λ b, b ≠ 0) s ∧ ∃ rest, buf = s ++ 0 :: rest.
Proof.
  unfold cstr. case_decide as Hin; [|done]. intros [= <-]. induction buf as [|b buf IH].
  { by apply elem_of_nil in Hin. }
  cbn. case_decide as Hb; [split; [constructor|]; exists buf; by subst|].
  destruct IH as (Hz & rest & Hr); [set_solver|]. split; [by constructor|]. exists rest. cbn. by f_equal.
Qed.

Lemma cstr_intro s rest : Forall (λ b, b ≠ 0) s → cstr (s ++ 0 :: rest) = Some s.
Proof.
  intros Hs. unfold cstr. rewrite decide_True by (apply elem_of_app; right; by left).
  by rewrite until_nul_app.
Qed.

Lemma strrchr_app dir base c :
  c ∉ base → strrchr (dir ++ c :: base) c = Some (length dir).
Proof.
  intros Hc. unfold strrchr. rewrite rev_app_distr. cbn. rewrite <- app_assoc. cbn.
  assert (list_find (λ x, x = c) (rev base ++ c :: rev dir) = Some (length base, c)) as ->.
  { rewrite list_find_app_r.
    - cbn. rewrite decide_True by done. cbn. by rewrite length_rev.
    - apply list_find_None, Forall_forall. intros x Hx ->. apply Hc.
      by apply list_elem_of_In, in_rev, list_elem_of_In. }
  cbn. rewrite length_app. cbn. f_equal. lia.
Qed.

Lemma config_dir_run c dir base :
  config_wf c → cstr (cf_file c) = Some (dir ++ SLASH :: base) → SLASH ∉ base →
  ∃ c', config_dir c = Some (0, c') ∧ cstr (cf_dir c') = Some dir
    ∧ cf_file c' = cf_file c ∧ ourGateName c' = ourGateName c ∧ intDev c' = intDev c
    ∧ extDev c' = extDev c ∧ length (cf_dir c') = MAX_CONF_LINE.
Proof.
  intros [Hf Hd _ _ _] Hp Hb. pose proof (cstr_Some _ _ Hp) as (Hz & rest & Hfile).
  apply Forall_app in Hz as [Hz _].
  assert (length dir + 2 ≤ MAX_CONF_LINE)%nat as Hlen
    by (rewrite <- Hf, Hfile, !length_app; cbn [length]; lia).
  unfold config_dir. rewrite Hp, some_bind, strrchr_app by done.
  rewrite decide_False by lia.
  assert (take (length dir) (cf_file c) = dir) as -> by (by rewrite Hfile, <- app_assoc, take_app_length).
  assert (∃ d, (d ← wr 0 dir (cf_dir c); wr (Z.of_nat (length dir)) [0] d)
    = Some (dir ++ 0 :: d) ∧ length (dir ++ 0 :: d) = MAX_CONF_LINE) as (d & Hd1 & Hd2).
  { exists (drop (length dir + 1) (cf_dir c)). unfold wr.
    rewrite bool_decide_true by lia. cbn [mbind option_bind]. rewrite take_0. cbn [app Z.to_nat].
    rewrite bool_decide_true by (rewrite length_app, length_drop; cbn; lia).
    rewrite Nat2Z.id, take_app_length. cbn [length]. rewrite drop_app_add, drop_drop. split; [do 3 f_equal; lia|].
    rewrite length_app. cbn. rewrite length_drop. lia. }
  apply bind_Some in Hd1 as (d1 & Hw1 & Hw2). rewrite Hw1, some_bind, Hw2, some_bind.
  eexists. split; [reflexivity|].
  cbn [cf_dir cf_file ourGateName intDev extDev upd]. split_and!; [by apply cstr_intro|reflexivity..|exact Hd2].
Qed.

(** ** Releasing the list *)

Lemma glist_last h p items l nm n :
  glist h p (items ++ [(l, nm)]) → h !! l = Some n → gl_next n = None.
Proof.
  revert p. induction items as [|[x xm] items IH]; intros p.
  - cbn. intros (_ & n0 & Hn0 & _ & _ & Hg) Hn. congruence.
  - cbn. intros (_ & n0 & _ & _ & _ & Hg). by eapply IH.
Qed.

Lemma glist_lookup h p items l : glist h p items → l ∈ items.*1 → is_Some (h !! l).
Proof.
  revert p. induction items as [|[x xm] items IH]; intros p; [intros _ Hl; by apply elem_of_nil in Hl|].
  intros (-> & n & Hn & _ & _ & Hg) [->|Hl]%elem_of_cons; [by eexists|by eapply IH].
Qed.

Lemma release_empty (h : gmap loc gate_list) : (∀ l, is_Some (h !! l) → l ∈ ([] : list loc)) → h = ∅.
Proof.
  intros Hh. apply map_empty. intros l. destruct (h !! l) eqn:E; [|done].
  by destruct (proj1 (elem_of_nil l) (Hh l (ex_intro _ _ E))).
Qed.

Lemma release_list_run fuel p items (h : conf_heap) :
  glist (c_gates h) p items → NoDup items.*1 → (length items ≤ fuel)%nat →
  (∀ l, is_Some (c_gates h !! l) → l ∈ items.*1) →
  ∃ h', release_list fuel p h = Done tt h' ∧ c_gates h' = ∅.
Proof.
  revert p items h. induction fuel as [|fuel IH]; intros p [|[l nm] items] h Hg Hnd Hfu Hheap;
    try (cbn in Hfu; lia);
    try (cbn in Hg; subst; exists h; split; [done|]; by apply release_empty).
  destruct Hg as (-> & n & Hn & _ & _ & Hg). apply NoDup_cons in Hnd as [Hl Hnd].
  cbn [release_list]. unfold gets, mbind, proc_bind. rewrite Hn. cbn [lift_opt mret proc_ret modify].
  unfold modify. apply (IH _ items); cbn; [|done|cbn in Hfu; lia|].
  - eapply glist_agree; [|exact Hg]. intros x Hx. apply lookup_delete_ne. by intros <-.
  - intros x [Hx Hs]%lookup_delete_is_Some. apply Hheap in Hs. apply elem_of_cons in Hs as [->|?]; done.
Qed.

(** ** The whole configuration *)

Section Reading.
Context `{Setup, Env}.
Context (callocs_ok : ∀ i, env_malloc i = true) (n0 : nat).
Context (c : config_data) (dir base : list Z) (ls names : list (list Z)) (n i e r : list Z)
  (rest : list (list Z)) (line : list Z).
Context (Hwf : config_wf c) (Hpath : cstr (cf_file c) = Some (dir ++ SLASH :: base)) (Hbase : SLASH ∉ base).
Context (Hread : fs_read (dir ++ SLASH :: base) = inr (text ls)) (Hls : Forall line_ok ls).
Context (Hline : length line = MAX_CONF_LINE).
Context (Hdir : fs_dir dir = Some names) (Hnames : Forall file_name names).

(** Up to the scan of the directory, and what is left to do then. *)
Definition finish (c' : config_data) (st : option loc * option loc) : proc conf_heap (Z * config_data) :=
  let '(first, currGate) := st in
  l ← lift_opt currGate;
  node_upd l (λ n, n <| gl_next := None |>);;
  mret (0, c' <| cf_gate := first |>).

Lemma read_config_scan :
  shown ls = n :: i :: e :: r :: rest →
  ∃ c' items st h', read_config line c (ConfHeap ∅ n0) = finish c' st h'
    ∧ scanned items st h' ∧ items.*2 = pub_stems names
    ∧ cstr (cf_dir c') = Some dir ∧ ourGateName c' = strncpy (ourGateName c) n (MAX_CONF_LINE - 1)
    ∧ intDev c' = strncpy (intDev c) i (DEV_SIZE - 1) ∧ extDev c' = strncpy (extDev c) e (DEV_SIZE - 1)
    ∧ hopRate c' = atol r.
Proof using All.
  intros Hshown. destruct (config_dir_run c dir base Hwf Hpath Hbase)
    as (c1 & Hc1 & Hd1 & Hf1 & Hn1 & Hi1 & He1 & _).
  destruct (read_settings_run ls n i e r rest line c1 Hls Hshown Hline) as [f Hs].
  destruct (wp_elim _ _ _ (scan_dir_run callocs_ok names [] (None, None) (ConfHeap ∅ n0) Hnames ltac:(
    split; [done|constructor|done|]; intros l; cbn; rewrite lookup_empty, elem_of_nil; by split; [intros []|])))
    as (st & h' & Hscan & items & Hsc & Hit).
  exists (with_settings n i e r c1), items, st, h'. split_and!; try done; cbn; rewrite ?Hn1, ?Hi1, ?He1; try done.
  unfold read_config. rewrite (lift_bind _ _ _ Hc1). cbn beta iota. rewrite decide_False by lia.
  rewrite Hf1, (lift_bind _ _ _ Hpath), Hread. unfold with_stream, mbind at 1, proc_bind at 1.
  rewrite Hs. cbn beta iota. rewrite decide_False by lia.
  rewrite (lift_bind _ _ _ (Hd1 : cstr (cf_dir (with_settings n i e r c1)) = _)), Hdir.
  unfold mbind at 1, proc_bind at 1. by rewrite Hscan.
Qed.
End Reading.

Lemma finish_run `{Setup} c' items first h :
  scanned items (first, last items.*1) h → items ≠ [] →
  ∃ h2, finish c' (first, last items.*1) h = Done (0, c' <| cf_gate := first |>) h2 ∧ c_gates h2 = c_gates h.
Proof.
  intros [Hg _ _ _] Hne. cbn in Hg. destruct items as [|[l nm] items _] using rev_ind; [done|].
  assert (is_Some (c_gates h !! l)) as [nd Hnd].
  { eapply glist_lookup; [exact Hg|]. rewrite fmap_app. apply elem_of_app. right. by left. }
  pose proof (glist_last _ _ _ _ _ _ Hg Hnd) as Hlast.
  unfold finish. rewrite fmap_app, last_app. cbn [fst fmap list_fmap last].
  unfold node_upd, gets, modify, mbind, proc_bind. cbn [lift_opt mret proc_ret]. rewrite Hnd.
  cbn [lift_opt mret proc_ret]. eexists. split; [reflexivity|]. cbn.
  apply insert_id. rewrite Hnd. destruct nd. cbn in *. by subst.
Qed.

(** A setting that fits its array with the terminator is stored as a string. *)
Lemma stored_setting dst s n : line_ok s → (length s < n)%nat → until_nul (strncpy dst s n) = s.
Proof.
  intros [Hs _] Hl. apply strncpy_until_nul; [|done]. eapply Forall_impl; [exact Hs|]. by intros b [? _].
Qed.

Lemma shown_settings ls n i e r rest :
  Forall line_ok ls → shown ls = n :: i :: e :: r :: rest → line_ok n ∧ line_ok i ∧ line_ok e.
Proof.
  intros Hok Hs. rewrite Forall_forall in Hok.
  assert (∀ l, l ∈ shown ls → line_ok l) as Ha by (intros l [_ ?]%list_elem_of_filter; auto).
  rewrite Hs in Ha. split_and!; apply Ha; set_solver.
Qed.

Lemma read_config_run `{Setup, Env} n0 c dir base ls names n i e r rest line :
  (∀ i, env_malloc i = true) →
  config_wf c → cstr (cf_file c) = Some (dir ++ SLASH :: base) → SLASH ∉ base →
  fs_read (dir ++ SLASH :: base) = inr (text ls) → Forall line_ok ls → length line = MAX_CONF_LINE →
  fs_dir dir = Some names → Forall file_name names →
  shown ls = n :: i :: e :: r :: rest → pub_stems names ≠ [] →
  ∃ c' h' items, read_config line c (ConfHeap ∅ n0) = Done (0, c') h'
    ∧ cstr (cf_dir c') = Some dir
    ∧ ourGateName c' = strncpy (ourGateName c) n (MAX_CONF_LINE - 1)
    ∧ intDev c' = strncpy (intDev c) i (DEV_SIZE - 1) ∧ extDev c' = strncpy (extDev c) e (DEV_SIZE - 1)
    ∧ hopRate c' = atol r
    ∧ glist (c_gates h') (cf_gate c') items ∧ NoDup items.*1 ∧ items.*2 = pub_stems names
    ∧ ∀ l, is_Some (c_gates h' !! l) → l ∈ items.*1.
Proof.
  intros Hm Hwf Hp Hb Hr Hls Hline Hd Hn Hs Hne.
  destruct (read_config_scan Hm n0 c dir base ls names n i e r rest line Hwf Hp Hb Hr Hls Hline Hd Hn Hs)
    as (c' & items & [first last'] & h' & Hrun & Hsc & Hit & Hcd & Hcn & Hci & Hce & Hch).
  pose proof Hsc as [Hg Hnd Hlast Hheap]. cbn in Hg, Hlast. subst last'.
  destruct (finish_run c' items first h' Hsc) as (h2 & Hfin & Hh2).
  { intros ->. by rewrite <- Hit in Hne. }
  rewrite Hrun, Hfin. exists (c' <| cf_gate := first |>), h2, items.
  cbn [cf_dir cf_gate ourGateName intDev extDev hopRate upd]. rewrite Hh2.
  split_and!; try done. by intros l ?%Hheap.
Qed.

Lemma release_config_run c h items :
  glist (c_gates h) (cf_gate c) items → NoDup items.*1 →
  (∀ l, is_Some (c_gates h !! l) → l ∈ items.*1) →
  ∃ h', release_config c h = Done tt h' ∧ c_gates h' = ∅.
Proof.
  intros Hg Hnd Hheap. unfold release_config, gets, mbind, proc_bind. eapply release_list_run; [done..| |done].
  rewrite <- (length_fmap fst). apply path_fuel; [done|]. intros l Hl. by eapply glist_lookup.
Qed.

(** C24. A configuration is read as it was written: the gate's name, the two
    devices and the hop rate are those of the first four lines that are not
    blank, and the list of gates names the public keys of the directory in the
    directory's order.  Releasing it frees every node. *)
Theorem read_config_as_written `{Setup, Env} c dir base ls names n i e r rest line :
  (∀ i, env_malloc i = true) →
  config_wf c → cstr (cf_file c) = Some (dir ++ SLASH :: base) → SLASH ∉ base →
  fs_read (dir ++ SLASH :: base) = inr (text ls) → Forall line_ok ls → length line = MAX_CONF_LINE →
  fs_dir dir = Some names → Forall file_name names →
  shown ls = n :: i :: e :: r :: rest → pub_stems names ≠ [] →
  ∃ c' h' items, read_config line c (ConfHeap ∅ 0) = Done (0, c') h'
    ∧ cstr (cf_dir c') = Some dir
    ∧ until_nul (ourGateName c') = n
    ∧ ((length i < DEV_SIZE - 1)%nat → until_nul (intDev c') = i)
    ∧ ((length e < DEV_SIZE - 1)%nat → until_nul (extDev c') = e)
    ∧ hopRate c' = atol r
    ∧ glist (c_gates h') (cf_gate c') items ∧ items.*2 = pub_stems names
    ∧ ∃ h'', release_config c' h' = Done tt h'' ∧ c_gates h'' = ∅.
Proof.
  intros Hm Hwf Hp Hb Hr Hls Hline Hd Hn Hs Hne. destruct (shown_settings _ _ _ _ _ _ Hls Hs) as (Hnok & Hiok & Heok).
  destruct (read_config_run 0 c dir base ls names n i e r rest line Hm Hwf Hp Hb Hr Hls Hline Hd Hn Hs Hne)
    as (c' & h' & items & Hrun & Hcd & Hcn & Hci & Hce & Hch & Hg & Hnd & Hit & Hheap).
  exists c', h', items. rewrite Hcn, Hci, Hce. split_and!; try done; try (intros; by apply stored_setting).
  - apply stored_setting; [done|]. by destruct Hnok.
  - by eapply release_config_run.
Qed.

(** C37. A configuration whose directory has no file with a public key crashes
    the reader: after the four settings it dereferences NULL. *)
Theorem read_config_without_keys `{Setup, Env} c dir base ls names n i e r rest line :
  (∀ i, env_malloc i = true) →
  config_wf c → cstr (cf_file c) = Some (dir ++ SLASH :: base) → SLASH ∉ base →
  fs_read (dir ++ SLASH :: base) = inr (text ls) → Forall line_ok ls → length line = MAX_CONF_LINE →
  fs_dir dir = Some names → Forall file_name names →
  shown ls = n :: i :: e :: r :: rest → pub_stems names = [] →
  read_config line c (ConfHeap ∅ 0) = Fault.
Proof.
  intros Hm Hwf Hp Hb Hr Hls Hline Hd Hn Hs Hnone.
  destruct (read_config_scan Hm 0 c dir base ls names n i e r rest line Hwf Hp Hb Hr Hls Hline Hd Hn Hs)
    as (c' & items & [first last'] & h' & -> & [_ _ Hlast _] & Hit & _).
  rewrite Hnone in Hit. apply fmap_nil_inv in Hit. subst. cbn in Hlast. by subst.
Qed.

(** ** Evaluation *)

Definition toy_main : config_data := toy_config (etc_arg ++ SLASH :: main_conf).
(** The same in a directory of its own, without keys. *)
Definition bare_setup : Setup := {|
  fs_read path := @fs_read toy toy_setup path; fs_dir path := Some [main_conf];
  fs_create path := true; mpi_read_file := @mpi_read_file toy toy_setup;
  mpi_write_file := @mpi_write_file toy toy_setup; ctr_drbg_init := (0, tt);
  rsa_gen_key drbg bits e := (0, toy_key) |}.

Lemma toy_config_wf : config_wf toy_main.
Proof. by split. Qed.
Lemma toy_lines_ok : Forall line_ok toy_lines.
Proof. by_decide. Qed.
Lemma toy_names_ok : Forall file_name toy_names.
Proof. by_decide. Qed.

Lemma read_config_as_written_witness :
  ∃ c' h' items, read_config (zeros MAX_CONF_LINE) toy_main (ConfHeap ∅ 0) = Done (0, c') h'
    ∧ cstr (cf_dir c') = Some etc_arg
    ∧ until_nul (ourGateName c') = alpha
    ∧ ((length eth0 < DEV_SIZE - 1)%nat → until_nul (intDev c') = eth0)
    ∧ ((length eth1 < DEV_SIZE - 1)%nat → until_nul (extDev c') = eth1)
    ∧ hopRate c' = atol rate
    ∧ glist (c_gates h') (cf_gate c') items ∧ items.*2 = pub_stems toy_names
    ∧ ∃ h'', release_config c' h' = Done tt h'' ∧ c_gates h'' = ∅.
Proof.
  apply (read_config_as_written toy_main etc_arg main_conf toy_lines toy_names
    alpha eth0 eth1 rate []); try done; try by_decide.
Defined.

Lemma read_config_without_keys_witness :
  @read_config toy bare_setup toy_env (zeros MAX_CONF_LINE) toy_main (ConfHeap ∅ 0) = Fault.
Proof.
  apply (@read_config_without_keys toy bare_setup toy_env toy_main etc_arg main_conf toy_lines
    [main_conf] alpha eth0 eth1 rate []); try done; try by_decide.
Defined.
