(* ===== verification/KeyFiles.v ===== *)
(** * The key files (src/gen_gate_config.c, src/settings.c)

    The files that the generator writes are read back by the gateways, and the
    names it cannot handle. *)

From S2P Require Import Prelude Words Settings ArgError CString Utility Crypto Gate NatData World Config ToyCrypto ToyWorld Layout ToySetup ConfigFacts.

(** PolarSSL's documented promise: a number written to a file with a label in
    front of it is read back. *)
Class MpiFiles `(U : Setup) := {
  mpi_write_file_ok p x : 0 ≤ x → (mpi_write_file p x 16).1 = 0;
  mpi_read_file_ok s x rest : 0 ≤ x → NL ∉ s →
    mpi_read_file 16 ((mpi_write_file (label s) x 16).2 ++ rest) = (0, x, rest) }.

(** ** Addresses as text *)

Lemma is_digit_range c : is_digit c = true → 48 ≤ c ≤ 57.
Proof. by intros ?%bool_decide_eq_true. Qed.

Lemma pton_chars s octets cur v :
  pton s octets cur = Some v → Forall (λ c, 46 ≤ c ≤ 57) s.
Proof.
  revert octets cur. induction s as [|c s IH]; intros octets cur; [constructor|]. cbn.
  destruct (is_digit c) eqn:Hd.
  - apply is_digit_range in Hd. destruct cur as [x|].
    + case_decide; [done|]. intros Hp. constructor; [lia|]. by eapply IH.
    + intros Hp. constructor; [lia|]. by eapply IH.
  - case_decide as Hdot; [|done]. destruct cur as [x|]; [|done]. case_decide; [done|].
    intros Hp. constructor; [unfold DOT in Hdot; lia|]. by eapply IH.
Qed.

(** An address in text form is a line the reader shows. *)
Lemma pton_line s v :
  pton s [] None = Some v → (length s < IP_TEXT_SIZE - 1)%nat →
  line_ok s ∧ is_blank s = false ∧ Forall (λ b, b ≠ 0) s.
Proof.
  intros Hp Hl. pose proof (pton_chars _ _ _ _ Hp) as Hc. split_and!.
  - split; [|unfold IP_TEXT_SIZE, MAX_CONF_LINE in *; lia].
    eapply Forall_impl; [exact Hc|]. cbn. unfold NL. lia.
  - apply bool_decide_eq_false. destruct s as [|c s]; [done|]. inversion Hc; subst. cbn.
    intros [?|[= ->]]; [done|]. unfold CR in *. lia.
  - eapply Forall_impl; [exact Hc|]. cbn. lia.
Qed.

(** ** Numbers one after the other *)

Section Numbers.
Context `{U : Setup} {Hmpi : MpiFiles U}.

Definition number_ok (px : list Z * Z) : Prop := (0 ≤ px.2) ∧ ∃ s, (NL ∉ s) ∧ px.1 = label s.

Definition number_bytes (xs : list (list Z * Z)) : list Z :=
  mjoin ((λ px, (mpi_write_file px.1 px.2 16).2) <$> xs).

Lemma write_mpis_run xs : Forall number_ok xs → write_mpis xs = (0, number_bytes xs).
Proof.
  induction 1 as [|[p x] xs [Hx _] _ IH]; [done|]. cbn in Hx |- *. pose proof (mpi_write_file_ok p x Hx) as Hr.
  destruct (mpi_write_file p x 16) as [r bs] eqn:E. cbn in Hr. subst r. cbn [snd].
  rewrite decide_False by lia. by rewrite IH.
Qed.

Fixpoint set_all (fields : list (Z → rsa_context → rsa_context)) (xs : list Z) (k : rsa_context)
    : rsa_context :=
  match fields, xs with
  | set :: fields, x :: xs => set_all fields xs (set x k)
  | _, _ => k
  end.

Lemma read_mpis_run fields xs k rest :
  length fields = length xs → Forall number_ok xs →
  read_mpis fields k (number_bytes xs ++ rest) = Done (0, set_all fields xs.*2 k) rest.
Proof.
  revert xs k. induction fields as [|set fields IH]; intros [|[p x] xs] k Hl Hx; try done.
  apply Forall_cons in Hx as [[Hx0 (s & Hs & Hp)] Hx]. cbn in Hx0, Hp. subst p. cbn [read_mpis]. unfold read_mpi, mbind, proc_bind.
  assert (number_bytes ((label s, x) :: xs) = (mpi_write_file (label s) x 16).2 ++ number_bytes xs) as -> by done.
  rewrite <- app_assoc, mpi_read_file_ok by done. cbn beta iota. rewrite decide_False by lia.
  apply IH; [by injection Hl|done].
Qed.
End Numbers.

(** All numbers of a key are non-negative. *)
Definition key_ok (k : rsa_context) : Prop := Forall (λ px, 0 ≤ px.2) (private_numbers k).

Lemma key_numbers k : key_ok k → Forall number_ok (private_numbers k).
Proof.
  unfold key_ok, private_numbers, public_numbers. cbn [app]. intros Hk.
  repeat (apply Forall_cons in Hk as [Hx Hk]; apply Forall_cons;
    split; [split; [exact Hx|eexists; split; [|reflexivity]; by_decide]|]; clear Hx). constructor.
Qed.

Lemma key_numbers_public k : key_ok k → Forall number_ok (public_numbers k).
Proof. intros [? _]%key_numbers%Forall_app. done. Qed.

(** ** Writing and reading back *)

Lemma cstr_strncpy dst s n :
  Forall (λ b, b ≠ 0) s → (length s < n)%nat → cstr (strncpy dst s n) = Some s.
Proof.
  intros Hs Hl. unfold strncpy. rewrite (until_nul_no_nul s), take_ge by (done || lia).
  unfold zeros. destruct (n - length s)%nat eqn:E; [lia|]. by apply cstr_intro.
Qed.

Lemma get_next_line_first l rest line :
  line_ok l → is_blank l = false → length line = MAX_CONF_LINE →
  get_next_line line MAX_CONF_LINE (l ++ NL :: rest) = Done (0, l ++ 0 :: 0 :: drop (length l + 2) line) rest.
Proof. intros. unfold get_next_line, gets, mbind, proc_bind. by rewrite next_line_shown. Qed.

Lemma length_line l line :
  line_ok l → length line = MAX_CONF_LINE → length (l ++ 0 :: 0 :: drop (length l + 2) line) = MAX_CONF_LINE.
Proof.
  intros [_ Hl] Hline. rewrite length_app. cbn [length]. rewrite length_drop. unfold MAX_CONF_LINE in *. lia.
Qed.

(** A file name that is not cut off. *)
Lemma snprintf_fits pieces : (length (mjoin pieces) < MAX_CONF_LINE)%nat → snprintf_cat MAX_CONF_LINE pieces = mjoin pieces.
Proof.
  intros Hl. unfold snprintf_cat. assert (concat pieces = mjoin pieces) as ->
    by (clear; induction pieces as [|x ps IH]; cbn; by rewrite ?IH).
  apply take_ge. unfold MAX_CONF_LINE in *. lia.
Qed.

Section KeyFiles.
Context `{U : Setup} {Hmpi : MpiFiles U}.

(** The public file of key [k] for the address [ip] and the mask [m]. *)
Definition public_file (ip m : list Z) (k : rsa_context) : list Z :=
  text [ip; m] ++ number_bytes (public_numbers k).

Lemma gen_gate_config_run prog nm ip m name0 ip0 mask0 drbg k :
  ctr_drbg_init = (0, drbg) → rsa_gen_key drbg RSA_KEY_BITS EXPONENT = (0, k) → key_ok k →
  (∀ path, fs_create path = true) →
  Forall (λ b, b ≠ 0) nm → (length nm < MAX_NAME_SIZE - 1)%nat →
  Forall (λ b, b ≠ 0) ip → (length ip < IP_TEXT_SIZE - 1)%nat →
  Forall (λ b, b ≠ 0) m → (length m < IP_TEXT_SIZE - 1)%nat →
  gen_gate_config [prog; nm; ip; m] name0 ip0 mask0 =
    Some (0, [(nm ++ dot_pub, public_file ip m k); (nm ++ dot_priv, number_bytes (private_numbers k))]).
Proof using Hmpi.
  intros Hd Hk Hko Hc Hn Hnl Hi Hil Hm Hml. unfold gen_gate_config. rewrite Hd. cbn beta iota.
  rewrite decide_False by lia. rewrite Hk. cbn beta iota. rewrite decide_False by lia.
  rewrite (cstr_strncpy name0 nm), some_bind, Hc by done. cbn [negb].
  rewrite (cstr_strncpy ip0 ip), some_bind, (cstr_strncpy mask0 m), some_bind by done.
  rewrite write_mpis_run by (by apply key_numbers_public). cbn beta iota. rewrite decide_False by lia.
  rewrite Hc. cbn [negb]. rewrite write_mpis_run by (by apply key_numbers).
  assert (∀ ext, (length ext ≤ 5)%nat → snprintf_cat MAX_CONF_LINE [nm; ext] = nm ++ ext) as Hpath.
  { intros ext He. rewrite snprintf_fits; cbn; rewrite app_nil_r; [done|]. rewrite length_app.
    unfold MAX_NAME_SIZE, MAX_CONF_LINE in *. lia. }
  rewrite !Hpath by (cbn; lia). unfold public_file, text. cbn. by rewrite app_nil_r, <- !app_assoc.
Qed.

Lemma key_path_run c g dir nm ext :
  cstr (cf_dir c) = Some dir → cstr (name g) = Some nm →
  (length dir + length nm + length ext + 1 < MAX_CONF_LINE)%nat →
  key_path c (name g) ext = Some (dir ++ SLASH :: nm ++ ext).
Proof.
  intros Hd Hn Hl. unfold key_path. rewrite Hd, some_bind, Hn, some_bind. rewrite snprintf_fits.
  - cbn. by rewrite app_nil_r.
  - cbn. rewrite app_nil_r, !length_app. cbn. rewrite length_app. lia.
Qed.

Lemma read_public_run g ip m k v w :
  key_ok k → pton ip [] None = Some v → pton m [] None = Some w →
  (length ip < IP_TEXT_SIZE - 1)%nat → (length m < IP_TEXT_SIZE - 1)%nat →
  read_public g (public_file ip m k) = Done (0, g <| baseIP := v |> <| mask := w |>
    <| rsa ::= (λ r, r <| rsa_N := rsa_N k |> <| rsa_E := rsa_E k |>
                      <| rsa_len := Z.shiftr (mpi_msb (rsa_N k) + 7) 3 |>) |>) [].
Proof using Hmpi.
  intros Hk Hv Hw Hil Hml. destruct (pton_line _ _ Hv Hil) as (Hi1 & Hi2 & _).
  destruct (pton_line _ _ Hw Hml) as (Hm1 & Hm2 & _).
  unfold read_public, public_file. rewrite text_cons.
  unfold mbind at 1, proc_bind at 1. rewrite get_next_line_first by (done || by rewrite length_replicate).
  cbn beta iota. rewrite decide_False by lia. rewrite until_nul_line by done. rewrite text_cons.
  unfold mbind at 1, proc_bind at 1. rewrite get_next_line_first by (done || by apply length_line).
  cbn beta iota. rewrite decide_False by lia. rewrite until_nul_line by done.
  unfold mbind at 1, proc_bind at 1. change (text [] ++ ?x) with x.
  rewrite <- (app_nil_r (number_bytes _)).
  rewrite read_mpis_run by (done || by apply key_numbers_public). cbn beta iota. rewrite decide_False by lia.
  unfold inet_pton. rewrite Hv, Hw. done.
Qed.

Lemma with_stream_done {S A} f (m : proc stream A) a f' (s : S) :
  m f = Done a f' → with_stream f m s = Done a s.
Proof. intros Hm. unfold with_stream. by rewrite Hm. Qed.

Lemma read_public_key_run {S} c g dir nm ip m k v w (s : S) :
  cstr (cf_dir c) = Some dir → cstr (name g) = Some nm →
  (length dir + length nm + 6 < MAX_CONF_LINE)%nat →
  fs_read (dir ++ SLASH :: nm ++ dot_pub) = inr (public_file ip m k) →
  key_ok k → pton ip [] None = Some v → pton m [] None = Some w →
  (length ip < IP_TEXT_SIZE - 1)%nat → (length m < IP_TEXT_SIZE - 1)%nat →
  read_public_key c g s = Done (0, g <| baseIP := v |> <| mask := w |>
    <| rsa ::= (λ r, r <| rsa_N := rsa_N k |> <| rsa_E := rsa_E k |>
                      <| rsa_len := Z.shiftr (mpi_msb (rsa_N k) + 7) 3 |>) |>) s.
Proof using Hmpi.
  intros Hd Hn Hl Hr Hk Hv Hw Hil Hml. unfold read_public_key.
  rewrite (lift_bind _ _ _ (key_path_run c g dir nm dot_pub Hd Hn ltac:(cbn; lia))), Hr.
  eapply with_stream_done. by apply read_public_run.
Qed.

Lemma read_private_key_run {S} c g dir nm k (s : S) :
  cstr (cf_dir c) = Some dir → cstr (name g) = Some nm →
  (length dir + length nm + 6 < MAX_CONF_LINE)%nat →
  fs_read (dir ++ SLASH :: nm ++ dot_priv) = inr (number_bytes (private_numbers k)) →
  key_ok k → rsa_check_privkey (k <| rsa_len := rsa_len (rsa g) |>) = 0 →
  read_private_key c g s = Done (0, g <| rsa := k <| rsa_len := rsa_len (rsa g) |> |>) s.
Proof using Hmpi.
  intros Hd Hn Hl Hr Hk Hc. unfold read_private_key.
  rewrite (lift_bind _ _ _ (key_path_run c g dir nm dot_priv Hd Hn ltac:(cbn; lia))), Hr.
  unfold mbind, proc_bind. rewrite (with_stream_done _ _ (0, k <| rsa_len := rsa_len (rsa g) |>) []).
  - cbn beta iota zeta. rewrite decide_False by lia. rewrite decide_False by (rewrite Hc; lia). done.
  - rewrite <- (app_nil_r (number_bytes _)), read_mpis_run by (done || by apply key_numbers). by destruct k.
Qed.
End KeyFiles.

(** C18. What the generator writes, the gateways read: for a name of at most
    eight characters and an address and a mask in text form, it writes two
    files; a gateway that finds them next to its configuration reads the
    address, the mask and the public key from the first, and the whole private
    key from the second. *)
Theorem key_files_round_trip `{U : Setup} `{!MpiFiles U} {S : Type} (s : S)
    c g dir prog nm ip m name0 ip0 mask0 drbg k v w :
  ctr_drbg_init = (0, drbg) → rsa_gen_key drbg RSA_KEY_BITS EXPONENT = (0, k) → key_ok k →
  (∀ path, fs_create path = true) →
  Forall (λ b, b ≠ 0) nm → (length nm < MAX_NAME_SIZE - 1)%nat →
  pton ip [] None = Some v → (length ip < IP_TEXT_SIZE - 1)%nat →
  pton m [] None = Some w → (length m < IP_TEXT_SIZE - 1)%nat →
  cstr (cf_dir c) = Some dir → cstr (name g) = Some nm →
  (length dir + length nm + 6 < MAX_CONF_LINE)%nat →
  let len := Z.shiftr (mpi_msb (rsa_N k) + 7) 3 in
  rsa_check_privkey (k <| rsa_len := len |>) = 0 →
  ∃ files, gen_gate_config [prog; nm; ip; m] name0 ip0 mask0 = Some (0, files)
    ∧ ((∀ f content, (f, content) ∈ files → fs_read (dir ++ SLASH :: f) = inr content) →
       ∃ g', read_public_key c g s = Done (0, g') s
         ∧ baseIP g' = v ∧ mask g' = w
         ∧ rsa g' = rsa g <| rsa_N := rsa_N k |> <| rsa_E := rsa_E k |> <| rsa_len := len |>
         ∧ read_private_key c g' s = Done (0, g' <| rsa := k <| rsa_len := len |> |>) s).
Proof.
  intros Hd Hk Hko Hc Hn Hnl Hv Hil Hw Hml Hdir Hname Hlen len Hchk.
  destruct (pton_line _ _ Hv Hil) as (_ & _ & Hiz), (pton_line _ _ Hw Hml) as (_ & _ & Hmz).
  eexists. split; [by eapply gen_gate_config_run|]. intros Hfiles.
  pose proof (Hfiles _ _ (list_elem_of_here _ _)) as Hpub.
  pose proof (Hfiles _ _ (list_elem_of_further _ _ _ (list_elem_of_here _ _))) as Hpriv.
  pose proof (read_public_key_run c g dir nm ip m k v w s Hdir Hname Hlen Hpub Hko Hv Hw Hil Hml) as Hrun.
  match type of Hrun with _ = Done (_, ?g') _ => exists g' end.
  split; [exact Hrun|]. split_and!; [done..|].
  match type of Hrun with _ = Done (_, ?g') _ => set (g2 := g') in * end.
  exact (read_private_key_run c g2 dir nm k s Hdir Hname Hlen Hpriv Hko Hchk).
Qed.

(** A name of nine characters or more fills the generator's array without
    a terminator; unless the uninitialised last byte happens to be zero,
    building the file's name reads past the end of the array. *)
Theorem gen_long_name_overruns `{Setup} prog nm ip m name0 ip0 mask0 last drbg k :
  ctr_drbg_init = (0, drbg) → rsa_gen_key drbg RSA_KEY_BITS EXPONENT = (0, k) →
  Forall (λ b, b ≠ 0) nm → (MAX_NAME_SIZE - 1 ≤ length nm)%nat →
  drop (MAX_NAME_SIZE - 1) name0 = [last] → last ≠ 0 →
  gen_gate_config [prog; nm; ip; m] name0 ip0 mask0 = None.
Proof.
  intros Hd Hk Hn Hl Hlast Hne. unfold gen_gate_config. rewrite Hd. cbn beta iota.
  rewrite decide_False by lia. rewrite Hk. cbn beta iota. rewrite decide_False by lia.
  assert (cstr (strncpy name0 nm (MAX_NAME_SIZE - 1)) = None) as ->; [|done].
  unfold cstr, strncpy. rewrite (until_nul_no_nul nm) by done. rewrite length_take_le, Hlast by done.
  rewrite Nat.sub_diag, decide_False; [done|]. change (zeros 0 ++ [last]) with [last].
  rewrite elem_of_app, list_elem_of_singleton. intros [Hin|Hin]; [|congruence].
  assert (Forall (λ b, b ≠ 0) (take (MAX_NAME_SIZE - 1)%nat nm)) as Ht by (by apply Forall_take).
  rewrite Forall_forall in Ht. by apply (Ht 0).
Qed.

(** ** Evaluation *)

Lemma toy_line_run l rest : NL ∉ l → toy_line (l ++ NL :: rest) = (l, rest).
Proof.
  induction l as [|c l IH]; [done|]. intros [Hne Hl]%not_elem_of_cons. cbn.
  rewrite decide_False by congruence. by rewrite IH.
Qed.

Lemma toy_word_none cur w : 32 ∉ w → toy_word cur w = cur.
Proof.
  induction w as [|c w IH]; [done|]. intros [Hne Hw]%not_elem_of_cons. cbn.
  rewrite decide_False by congruence. by apply IH.
Qed.

Lemma toy_word_run cur l w : 32 ∉ w → toy_word cur (l ++ 32 :: w) = w.
Proof.
  intros Hw. revert cur. induction l as [|c l IH]; intros cur; cbn; [by apply toy_word_none|].
  case_decide; apply IH.
Qed.

Lemma toy_digits_chars x : Forall (λ c, 48 ≤ c ≤ 49) (toy_digits x).
Proof. destruct x as [|p|p]; [by repeat constructor| |by repeat constructor]. cbn. induction p; cbn; repeat constructor; done || lia. Qed.

Lemma toy_value_digits x : 0 ≤ x → toy_value (toy_digits x) = x.
Proof.
  destruct x as [|p|p]; [done| |done]. intros _. cbn [toy_digits].
  induction p as [p IH|p IH|]; cbn [toy_bits toy_value]; [| |done]; rewrite IH.
  - rewrite decide_True by done. lia.
  - rewrite decide_False by lia. lia.
Qed.

#[export] Instance toy_mpi_files : MpiFiles toy_setup.
Proof.
  split; [done|]. intros s x rest Hx Hs. cbn. unfold toy_write, label.
  assert (∀ c, c ∈ toy_digits x → 48 ≤ c ≤ 49) as Hd by (apply Forall_forall, toy_digits_chars).
  replace (((s ++ [32; 61; 32]) ++ toy_digits x ++ [NL]) ++ rest)
    with (((s ++ [32; 61]) ++ 32 :: toy_digits x) ++ NL :: rest)
    by (by rewrite <- !app_assoc; cbn; rewrite <- ?app_assoc).
  rewrite toy_line_run.
  - rewrite toy_word_run by (intros ?%Hd; lia). by rewrite toy_value_digits.
  - rewrite !not_elem_of_app, !not_elem_of_cons. split_and!; try done; try (by apply not_elem_of_nil).
    intros Hin%Hd. unfold NL in Hin. lia.
Qed.

Definition gate_alpha : arg_network_info :=
  new_arg_network_info <| name := strncpy (zeros MAX_NAME_SIZE) alpha (MAX_NAME_SIZE - 1) |>.
(** The configuration once its directory was found. *)
Definition toy_found : config_data :=
  toy_config (etc_arg ++ SLASH :: main_conf) <| cf_dir ::= (λ d, strncpy d etc_arg (MAX_CONF_LINE - 1)) |>.

Lemma key_files_round_trip_witness :
  ∃ files, gen_gate_config [[]; alpha; alpha_ip; alpha_mask] (zeros 10) (zeros 20) (zeros 20) = Some (0, files)
    ∧ ((∀ f content, (f, content) ∈ files → fs_read (etc_arg ++ SLASH :: f) = inr content) →
       ∃ g', read_public_key toy_found gate_alpha worldA = Done (0, g') worldA
         ∧ baseIP g' = [10; 1; 1; 0] ∧ mask g' = [255; 255; 255; 0]
         ∧ rsa g' = rsa gate_alpha <| rsa_N := 3233 |> <| rsa_E := 17 |> <| rsa_len := 2 |>
         ∧ read_private_key toy_found g' worldA
           = Done (0, g' <| rsa := toy_key <| rsa_len := 2 |> |>) worldA).
Proof.
  apply (key_files_round_trip worldA toy_found gate_alpha etc_arg [] alpha alpha_ip alpha_mask
    (zeros 10) (zeros 20) (zeros 20) tt toy_key [10; 1; 1; 0] [255; 255; 255; 0]); try done; by_decide.
Defined.

(** The disk of the evaluation holds these files. *)
Example toy_files :
  (∃ pub priv, gen_gate_config [[]; alpha; alpha_ip; alpha_mask] (zeros 10) (zeros 20) (zeros 20)
     = Some (0, [(alpha ++ dot_pub, pub); (alpha ++ dot_priv, priv)])
   ∧ fs_read (etc_arg ++ SLASH :: alpha ++ dot_pub) = inr pub
   ∧ fs_read (etc_arg ++ SLASH :: alpha ++ dot_priv) = inr priv).
Proof. eexists _, _. split_and!; vm_compute; reflexivity. Qed.

Lemma gen_long_name_overruns_witness :
  gen_gate_config [[]; long_name; alpha_ip; alpha_mask] (replicate 10 7) (zeros 20) (zeros 20) = None.
Proof.
  apply (@gen_long_name_overruns toy toy_setup [] long_name alpha_ip alpha_mask _ _ _ 7 tt toy_key); try done; by_decide.
Defined.
