(* ===== verification/HopperFacts.v ===== *)
(** * IP hopping (src/hopper.c, [generate_ip_corrected], [is_valid_ip])

    The generated address lies in the gateway's network, the validity check
    decides exactly "now or one hop ago", and what that accepts in time. *)

From S2P Require Import Prelude Words Settings Utility Crypto Packet Gate NatData World Net Layout Hopper ToyCrypto ToyWorld.

(** ** Mixing host bits into the base address *)

Lemma length_mix_ip ip m x : length (mix_ip ip m x) = length ip.
Proof. revert m x. induction ip as [|b ip IH]; intros [|m ms] [|x xs]; cbn; auto. Qed.

Lemma mix_ip_lookup ip m x i b mi xi :
  ip !! i = Some b → m !! i = Some mi → x !! i = Some xi →
  mix_ip ip m x !! i = Some (Z.lor b (Z.land (Z.lnot mi) xi)).
Proof.
  revert m x i. induction ip as [|b' ip IH]; intros [|m' ms] [|x' xs] [|i]; cbn; try done.
  - by intros [= ->] [= ->] [= ->].
  - apply IH.
Qed.

Lemma mix_land b m x : Z.land (Z.lor b (Z.land (Z.lnot m) x)) m = Z.land b m.
Proof.
  rewrite Z.land_lor_distr_l, (Z.land_comm (Z.lnot m)), <- Z.land_assoc.
  by rewrite (Z.land_comm (Z.lnot m)), Z.land_lnot_diag, Z.land_0_r, Z.lor_0_r.
Qed.

Lemma mask_cmp_mix len ip m x : mask_array_cmp len m ip (mix_ip ip m x) = 0.
Proof.
  apply mask_array_cmp_spec. intros i a b y Hi Ha Hb Hy.
  assert (i < length ip)%nat as Hil by by eapply lookup_lt_Some.
  destruct (x !! i) as [xi|] eqn:Hx.
  - rewrite (mix_ip_lookup _ _ _ _ _ _ _ Hb Ha Hx) in Hy. injection Hy as <-.
    by rewrite mix_land.
  - assert (mix_ip ip m x !! i = ip !! i) as Hm; [|congruence].
    clear Hi Ha Hb Hy Hil. revert m x i Hx. induction ip as [|b' ip IH]; intros [|m' ms] [|x' xs] [|i]; cbn; auto; done.
Qed.

Lemma land_below_pow2 a b k : 0 ≤ k → 0 ≤ a < 2 ^ k → 0 ≤ Z.land a b < 2 ^ k.
Proof.
  intros Hk Ha. rewrite <- (Z.mod_small a (2 ^ k)), <- Z.land_ones by done.
  rewrite <- Z.land_assoc, (Z.land_comm (Z.ones k)), Z.land_assoc, Z.land_ones by done.
  apply Z.mod_pos_bound. lia.
Qed.

(** What a lookup reads of a record. *)
Definition network_of `{PolarSSL} (g : arg_network_info) : list Z * list Z * option loc := (baseIP g, mask g, next g).

Section HopperFacts.
Context `{Hok : PolarSSL_ok} `{Env}.

Lemma ip_at_defined g now c :
  ∃ bits, ip_at g now c = Some (mix_ip (baseIP g) (mask g) (le_bytes 4 bits)) ∧ 0 ≤ bits < 2 ^ 31.
Proof.
  unfold ip_at. destruct (totp_defined (hopKey g) HOP_KEY_SIZE (hopInterval g) (hop_time g now c))
    as (bits & -> & Hb). eauto.
Qed.

Lemma ip_at_length g now c ip :
  gate_wf g → ip_at g now c = Some ip → length ip = ADDR_SIZE.
Proof.
  intros Hg. destruct (ip_at_defined g now c) as (bits & -> & _). intros [= <-].
  rewrite length_mix_ip. by apply wf_baseIP.
Qed.

Lemma ip_at_matches g now c ip : ip_at g now c = Some ip → gate_matches g ip = true.
Proof.
  destruct (ip_at_defined g now c) as (bits & -> & _). intros [= <-].
  unfold gate_matches. apply bool_decide_true, mask_cmp_mix.
Qed.

(** Whatever the time, the correction and the key, the generated address
    exists and belongs to the gateway's own network, so that [get_arg_network]
    attributes it to a gateway with that network. *)
Theorem generated_ip_in_network g now c :
  ∃ ip, ip_at g now c = Some ip ∧ gate_matches g ip = true.
Proof.
  destruct (ip_at_defined g now c) as (bits & Hip & _). eexists. split; [done|]. by eapply ip_at_matches.
Qed.

(** The one-time password has 31 bits and its top byte becomes the last
    octet, so with a zero base octet no address above .127 is ever used. *)
Theorem last_octet_below_128 g now c ip x :
  gate_wf g → baseIP g !! 3%nat = Some 0 → ip_at g now c = Some ip → ip !! 3%nat = Some x →
  0 ≤ x < 128.
Proof.
  intros Hg Hb Hip Hx. destruct (ip_at_defined g now c) as (bits & Hat & Hbits).
  rewrite Hat in Hip. apply (inj Some) in Hip. subst ip.
  destruct (lookup_lt_is_Some_2 (mask g) 3) as [m Hm]; [rewrite wf_mask by done; unfold ADDR_SIZE; lia|].
  set (b3 := bits / 256 / 256 / 256 mod 256).
  assert (le_bytes 4 bits !! 3%nat = Some b3) as Hbit by done.
  pose proof (mix_ip_lookup _ _ _ _ _ _ _ Hb Hm Hbit) as Hmix.
  assert (x = Z.lor 0 (Z.land (Z.lnot m) b3)) as -> by congruence.
  rewrite Z.lor_0_l, Z.land_comm.
  assert (0 ≤ b3 < 128) as Hb3.
  { unfold b3. rewrite !Z.div_div by lia. change (256 * (256 * 256)) with 16777216.
    assert (0 ≤ bits / 16777216 < 128)
      by (split; [apply Z.div_pos; lia | apply Z.div_lt_upper_bound; lia]).
    rewrite Z.mod_small; lia. }
  apply land_below_pow2 with (k := 7); [done | exact Hb3].
Qed.

(** ** The validity check *)

Lemma wp_bind_generate {B} l g c (k : list Z → prog B) Q w :
  w_gates w !! l = Some g →
  (∀ ip, ip_at g (env_clock (w_clock w)) c = Some ip → wp (k ip) Q (w <| w_clock ::= S |>)) →
  wp (generate_ip_corrected l c ≫= k) Q w.
Proof.
  intros Hl Hk. unfold generate_ip_corrected.
  destruct (ip_at_defined g (env_clock (w_clock w)) c) as (bits & Hip & _).
  apply wp_assoc, wp_bind_time, wp_assoc. eapply wp_bind_get; [done|].
  eapply wp_bind_lift; [done|]. by apply Hk.
Qed.

(** The address is the current one, or the one of a hop ago; the second
    computation happens at the next reading of the clock. *)
Definition valid_at (g : arg_network_info) (t0 t1 : timespec) (ip : list Z) : bool :=
  bool_decide (ip_at g t0 0 = Some ip) || bool_decide (ip_at g t1 (previous_hop g) = Some ip).

(** Nothing but the clock and the mutex is touched, and the mutex is free again. *)
Record only_clock (gate : loc) (w w' : world) : Prop := {
  oc_gates : w_gates w' = w_gates w;
  oc_info : w_gateInfo w' = w_gateInfo w;
  oc_sent : w_sent w' = w_sent w;
  oc_nat : w_nat w' = w_nat w;
  oc_clock : w_clock w' = S (w_clock w) ∨ w_clock w' = S (S (w_clock w)) }.

Lemma is_valid_ip_run gate g ip w :
  w_gates w !! gate = Some g → lock g = false →
  wp (is_valid_ip gate ip) (λ b w',
    b = valid_at g (env_clock (w_clock w)) (env_clock (S (w_clock w))) ip ∧ only_clock gate w w') w.
Proof.
  intros Hg Hlock. unfold is_valid_ip. eapply wp_bind_lock; [done..|].
  eapply wp_bind_generate; [apply set_gate_same|]. intros ip0 H0.
  change (ip_at (with_lock true g)) with (ip_at g) in H0. cbn [w_clock upd set_gate] in H0.
  assert (with_lock false (with_lock true g) = g) as Hun by (destruct g; cbn in *; by subst).
  assert (∀ w', w_gates w' = w_gates (set_gate gate (with_lock true g) w) →
    w_gates (set_gate gate g w') = w_gates w) as Hback.
  { intros w' Hw'. cbn. rewrite Hw'. cbn. rewrite insert_insert_eq. by apply insert_id. }
  unfold valid_at. rewrite H0.
  case_decide as Hip.
  - rewrite ret_bind. eapply wp_bind_unlock; [apply set_gate_same|]. rewrite Hun.
    apply wp_ret. rewrite bool_decide_true by by rewrite Hip. split; [done|].
    split; [by apply Hback|done..|by left].
  - apply wp_assoc. eapply wp_bind_get; [apply set_gate_same|].
    apply wp_assoc. eapply wp_bind_generate; [apply set_gate_same|]. intros ip1 H1.
    change (ip_at (with_lock true g)) with (ip_at g) in H1.
    change (previous_hop (with_lock true g)) with (previous_hop g) in H1.
    cbn [w_clock upd set_gate] in H1.
    rewrite ret_bind. eapply wp_bind_unlock; [apply set_gate_same|]. rewrite Hun.
    apply wp_ret. rewrite H1, (bool_decide_false (Some ip0 = Some ip)) by congruence. split.
    + cbn. apply bool_decide_ext. split; congruence.
    + split; [by apply Hback|done..|by right].
Qed.

(** ** How long an address is accepted *)

(** Milliseconds since the time base, and the number of the hop. *)
Definition elapsed (g : arg_network_info) (now : timespec) : Z := time_offset (timeBase g) now.
Definition hop_number (g : arg_network_info) (now : timespec) : Z := elapsed g now / hopInterval g.

(** Two records from which the same sequence of addresses is generated. *)
Record same_hops (g g' : arg_network_info) : Prop := {
  sh_key : hopKey g = hopKey g'; sh_interval : hopInterval g = hopInterval g';
  sh_base : baseIP g = baseIP g'; sh_mask : mask g = mask g' }.

Lemma ip_at_same g g' now now' c c' :
  same_hops g g' → 0 < hopInterval g →
  hop_time g now c / hopInterval g = hop_time g' now' c' / hopInterval g' →
  ip_at g now c = ip_at g' now' c'.
Proof.
  intros [Hk Hi Hb Hm] H0 He. unfold ip_at, totp. rewrite !decide_False by lia.
  by rewrite He, Hk, Hb, Hm.
Qed.

Lemma hop_time_now g now : 0 ≤ elapsed g now < 2 ^ 63 → hop_time g now 0 = elapsed g now.
Proof. intros. unfold hop_time. rewrite Z.add_0_r. apply u64_small. unfold elapsed in *. lia. Qed.

(** The correction is the hop before only as long as it fits an [int]. *)
Lemma previous_hop_value g :
  0 < hopInterval g < 2 ^ 32 →
  previous_hop g = if decide (hopInterval g ≤ 2 ^ 31) then - hopInterval g else 2 ^ 32 - hopInterval g.
Proof.
  intros Hi. unfold previous_hop, s32, u32.
  replace (- hopInterval g) with (2 ^ 32 - hopInterval g + -1 * 2 ^ 32) at 1 by lia.
  rewrite Z.mod_add, (Z.mod_small (2 ^ 32 - _)) by lia. case_decide.
  - replace (2 ^ 32 - hopInterval g + 2 ^ 31) with (2 ^ 31 - hopInterval g + 1 * 2 ^ 32) by lia.
    rewrite Z.mod_add, Z.mod_small; lia.
  - rewrite Z.mod_small; lia.
Qed.

Lemma hop_time_previous g now :
  0 < hopInterval g ≤ 2 ^ 31 → hopInterval g ≤ elapsed g now < 2 ^ 63 →
  hop_time g now (previous_hop g) = elapsed g now - hopInterval g.
Proof.
  intros Hi He. unfold hop_time, elapsed in *. rewrite previous_hop_value, decide_True, u64_small; lia.
Qed.

Lemma previous_hop_number g now :
  0 < hopInterval g ≤ 2 ^ 31 → hopInterval g ≤ elapsed g now < 2 ^ 63 →
  hop_time g now (previous_hop g) / hopInterval g = hop_number g now - 1.
Proof.
  intros Hi He. rewrite hop_time_previous by done. unfold hop_number.
  replace (elapsed g now - hopInterval g) with (elapsed g now + -1 * hopInterval g) by lia.
  rewrite Z.div_add by lia. lia.
Qed.

(** The receiver's clock is within a hop of the sender's: [g] is the sender's
    record at [t], [g'] the receiver's at [t0] and, a moment later, at [t1]. *)
Record timely (g g' : arg_network_info) (t t0 t1 : timespec) : Prop := {
  is_interval : 0 < hopInterval g ≤ 2 ^ 31;
  is_sent : 0 ≤ elapsed g t < 2 ^ 63;
  is_recv0 : 0 ≤ elapsed g' t0 < 2 ^ 63;
  is_recv1 : hopInterval g' ≤ elapsed g' t1 < 2 ^ 63;
  is_number : hop_number g' t0 = hop_number g t ∨ hop_number g' t1 = hop_number g t + 1 }.

(** So are their records: both hop alike. *)
Record in_step (g g' : arg_network_info) (t t0 t1 : timespec) : Prop := {
  is_hops : same_hops g g';
  is_timely : timely g g' t t0 t1 }.

Lemma in_step_valid g g' t t0 t1 ip :
  in_step g g' t t0 t1 → ip_at g t 0 = Some ip → valid_at g' t0 t1 ip = true.
Proof.
  intros [Hs [Hi He H0 H1 Hn]] Hip. pose proof Hs as [_ Hint _ _]. unfold valid_at.
  apply orb_true_iff. destruct Hn as [Hn|Hn]; [left|right]; apply bool_decide_eq_true;
    rewrite <- Hip; symmetry; apply ip_at_same; try done; try lia.
  - rewrite !hop_time_now by done. unfold hop_number in Hn. congruence.
  - rewrite hop_time_now by done. rewrite previous_hop_number by lia. rewrite Hn.
    unfold hop_number. lia.
Qed.

(** The [n]th address of a gateway. *)
Definition hop_address (g : arg_network_info) (n : Z) : option (list Z) :=
  bits ← hotp (hopKey g) HOP_KEY_SIZE n;
  Some (mix_ip (baseIP g) (mask g) (le_bytes 4 bits)).

Lemma ip_at_number g now c :
  0 < hopInterval g → ip_at g now c = hop_address g (hop_time g now c / hopInterval g).
Proof. intros Hi. unfold ip_at, totp, hop_address. by rewrite decide_False by lia. Qed.

(** C17. [is_valid_ip] always returns, with its mutex free and nothing changed
    but the clock. It accepts exactly two addresses of the gateway: the one
    whose number is the time since the time base in hop intervals, and a second
    one. That is the number before as long as the interval is at most 2^31 ms;
    beyond that -- the interval a gateway starts with is [UINT32_MAX] -- the
    negated interval does not fit the [int] parameter, and the second address
    is that of [2^32 - hopInterval] ms later. *)
Theorem is_valid_ip_exact gate g ip w :
  w_gates w !! gate = Some g → lock g = false →
  let t0 := time_offset (timeBase g) (env_clock (w_clock w)) in
  let t1 := time_offset (timeBase g) (env_clock (S (w_clock w))) in
  0 < hopInterval g < 2 ^ 32 → 0 ≤ t0 < 2 ^ 62 → 0 ≤ t1 < 2 ^ 62 → (hopInterval g ≤ 2 ^ 31 → hopInterval g ≤ t1) →
  ∃ b w', is_valid_ip gate ip w = Done b w' ∧ only_clock gate w w'
    ∧ (b = true ↔ hop_address g (t0 / hopInterval g) = Some ip
        ∨ hop_address g (if decide (hopInterval g ≤ 2 ^ 31) then t1 / hopInterval g - 1
                         else (t1 + (2 ^ 32 - hopInterval g)) / hopInterval g) = Some ip).
Proof.
  intros Hg Hl t0 t1 Hi H0 H1 Hlate. destruct (wp_elim _ _ _ (is_valid_ip_run gate g ip w Hg Hl)) as (b & w' & Hr & -> & Ho).
  do 2 eexists. split_and!; [done|done|]. unfold valid_at.
  rewrite orb_true_iff, !bool_decide_eq_true, !ip_at_number by lia.
  rewrite hop_time_now by (unfold elapsed; fold t0; lia). unfold elapsed. fold t0.
  case_decide as Hle.
  - rewrite previous_hop_number by (unfold elapsed; fold t1; lia). done.
  - unfold hop_time. fold t1. rewrite previous_hop_value, decide_False by lia. by rewrite u64_small by lia.
Qed.

(** C20. An address generated in one hop is accepted by a gateway with the same
    hopping data during that hop and the next, whatever the two time bases are. *)
Theorem address_accepted_for_two_hops gate g g' t ip w :
  w_gates w !! gate = Some g' → lock g' = false →
  ip_at g t 0 = Some ip →
  in_step g g' t (env_clock (w_clock w)) (env_clock (S (w_clock w))) →
  ∃ w', is_valid_ip gate ip w = Done true w'.
Proof.
  intros Hg Hl Hip Hs. destruct (wp_elim _ _ _ (is_valid_ip_run gate g' ip w Hg Hl)) as (b & w' & Hr & -> & _).
  exists w'. by rewrite (in_step_valid _ _ _ _ _ _ Hs Hip) in Hr.
Qed.
End HopperFacts.

(** ** Evaluation: gateway A's own record at address 1, hop 10 of 1000 ms *)

Lemma is_valid_ip_exact_witness :
  ∃ b w', is_valid_ip 1%positive [10; 1; 1; 0] worldA = Done b w' ∧ only_clock 1%positive worldA w'
    ∧ (b = true ↔ hop_address (gateA (Some 2%positive) None) 10 = Some [10; 1; 1; 0]
        ∨ hop_address (gateA (Some 2%positive) None) 9 = Some [10; 1; 1; 0]).
Proof.
  set (g := gateA (Some 2%positive) None).
  assert (time_offset (timeBase g) (env_clock (w_clock worldA)) = 10000) as H0 by (vm_compute; reflexivity).
  assert (time_offset (timeBase g) (env_clock (S (w_clock worldA))) = 10000) as H1 by (vm_compute; reflexivity).
  assert (hopInterval g = 1000) as Hi by (vm_compute; reflexivity).
  pose proof (is_valid_ip_exact 1%positive g [10; 1; 1; 0] worldA eq_refl eq_refl) as Hv.
  cbv zeta in Hv. rewrite H0, H1, Hi in Hv. apply Hv; lia.
Defined.

(** The address of 500 ms ago, in the hop before. *)
Definition earlier_ip : list Z :=
  Eval vm_compute in default [] (ip_at (gateA (Some 2%positive) None) (Timespec 99 500000000) 0).

Lemma address_accepted_for_two_hops_witness :
  ∃ w', is_valid_ip 1%positive earlier_ip worldA = Done true w'.
Proof.
  apply (address_accepted_for_two_hops 1%positive (gateA (Some 2%positive) None)
    (gateA (Some 2%positive) None) (Timespec 99 500000000)).
  - reflexivity.
  - reflexivity.
  - vm_compute. reflexivity.
  - split; [done|split; [vm_compute; intuition congruence..|right; vm_compute; reflexivity]].
Defined.

Lemma last_octet_below_128_witness : 0 ≤ earlier_ip !!! 3%nat < 128.
Proof.
  apply (last_octet_below_128 (gateA (Some 2%positive) None) (Timespec 99 500000000) 0 earlier_ip).
  - by apply toy_gate_wf.
  - reflexivity.
  - vm_compute. reflexivity.
  - vm_compute. reflexivity.
Defined.
