(* ===== verification/Message.v ===== *)
(** * Wire structures and message buffers (src/protocol.h, src/protocol.c)

    The payload structures as records of raw fields (a multi-byte field holds
    the value a native load yields, so values in network order still have to go
    through [ntohl]), their memory layout, and [argmsg] buffers. *)

From S2P Require Import Prelude Words Settings Crypto Packet Gate World.

Record arg_ping_data := PingData { requestID : Z; responseID : Z; timeOffset : Z }.
#[export] Instance arg_ping_data_eta : Eta arg_ping_data := λ d,
  PingData (requestID d) (responseID d) (timeOffset d).

Record arg_conn_data := ConnData {
  c_symKey : list Z; c_iv : list Z; c_hopKey : list Z; c_hopInterval : Z }.

Record arg_trust_data := TrustData {
  t_name : list Z; t_baseIP : list Z; t_mask : list Z; t_n : list Z; t_e : list Z }.

Definition ping_bytes (d : arg_ping_data) : list Z :=
  le_bytes 4 (requestID d) ++ le_bytes 4 (responseID d) ++ le_bytes 4 (timeOffset d).
Definition conn_bytes (d : arg_conn_data) : list Z :=
  c_symKey d ++ c_iv d ++ c_hopKey d ++ le_bytes 4 (c_hopInterval d).
Definition trust_bytes (d : arg_trust_data) : list Z :=
  t_name d ++ t_baseIP d ++ t_mask d ++ t_n d ++ t_e d.

Definition read_ping (buf : list Z) : option arg_ping_data :=
  a ← rd32 0 buf; b ← rd32 4 buf; c ← rd32 8 buf; Some (PingData a b c).
Definition read_conn (buf : list Z) : option arg_conn_data :=
  k ← rd 0 AES_KEY_SIZE buf; i ← rd 32 AES_BLOCK_SIZE buf; h ← rd 48 HOP_KEY_SIZE buf;
  n ← rd32 64 buf; Some (ConnData k i h n).
Definition read_trust (buf : list Z) : option arg_trust_data :=
  nm ← rd 0 MAX_NAME_SIZE buf; b ← rd 10 ADDR_SIZE buf; m ← rd 14 ADDR_SIZE buf;
  n ← rd 18 130 buf; e ← rd 148 10 buf; Some (TrustData nm b m n e).

(** [m_len] is the message's length; the buffer may be larger. *)
Record argmsg := ArgMsg { m_len : Z; m_data : list Z }.
#[export] Instance argmsg_eta : Eta argmsg := λ m, ArgMsg (m_len m) (m_data m).

Section Messages.
Context `{PolarSSL, Env}.

Definition create_arg_msg (len : Z) : prog (option argmsg) :=
  ok ← malloc_ok;
  if negb ok then mret None else
  ok ← malloc_ok;
  if negb ok then mret None else
  mret (Some (ArgMsg len (zeros (Z.to_nat len)))).
End Messages.

(** ** Layout *)

Lemma rd_app_l (n : nat) xs ys : length xs = n → rd 0 n (xs ++ ys) = Some xs.
Proof.
  intros <-. rewrite rd_defined; [|done|rewrite length_app; lia].
  by rewrite drop_0, take_app_length.
Qed.

Lemma rd_app_r (off off' : Z) n xs ys :
  0 ≤ off' → off = Z.of_nat (length xs) + off' → rd off n (xs ++ ys) = rd off' n ys.
Proof.
  intros H0 ->. unfold rd. rewrite length_app.
  destruct (decide (off' + Z.of_nat n ≤ Z.of_nat (length ys))).
  - rewrite !bool_decide_true by lia. rewrite drop_app_ge by lia.
    by replace (Z.to_nat (Z.of_nat (length xs) + off') - length xs)%nat with (Z.to_nat off') by lia.
  - by rewrite !bool_decide_false by lia.
Qed.

Lemma rd_all n xs : length xs = n → rd 0 n xs = Some xs.
Proof. intros. rewrite <- (app_nil_r xs) at 1. by apply rd_app_l. Qed.

(** Read the fields of a concatenation whose chunks have known lengths. *)
Ltac chunk_length x :=
  match x with
  | le_bytes ?n _ => constr:(n)
  | _ => match goal with H : length x = ?n |- _ => constr:(n) end
  end.
Ltac read_field :=
  match goal with
  | |- context [rd 0 ?n (?x ++ ?r)] =>
      rewrite (rd_app_l n x r) by (rewrite ?length_le_bytes; done)
  | |- context [rd ?off ?n (?x ++ ?r)] =>
      let l := chunk_length x in
      let o := eval vm_compute in (off - Z.of_nat l) in
      rewrite (rd_app_r off o n x r)
        by (rewrite ?length_le_bytes; repeat match goal with H : length _ = _ |- _ => rewrite H end;
            done)
  | |- context [rd 0 ?n ?x] =>
      rewrite (rd_all n x) by (rewrite ?length_le_bytes; done)
  end.
Ltac read_fields := repeat (read_field; cbn [mbind option_bind fmap option_fmap option_map]).

Lemma le_val_bytes_u32 z : 0 ≤ z < 2 ^ 32 → le_val (le_bytes 4 z) = z.
Proof. intros. rewrite le_val_bytes. by apply Z.mod_small. Qed.

Definition ping_wf (d : arg_ping_data) : Prop :=
  0 ≤ requestID d < 2 ^ 32 ∧ 0 ≤ responseID d < 2 ^ 32 ∧ 0 ≤ timeOffset d < 2 ^ 32.
Definition conn_wf (d : arg_conn_data) : Prop :=
  length (c_symKey d) = AES_KEY_SIZE ∧ length (c_iv d) = AES_BLOCK_SIZE
  ∧ length (c_hopKey d) = HOP_KEY_SIZE ∧ 0 ≤ c_hopInterval d < 2 ^ 32.
Definition trust_wf (d : arg_trust_data) : Prop :=
  length (t_name d) = MAX_NAME_SIZE ∧ length (t_baseIP d) = ADDR_SIZE
  ∧ length (t_mask d) = ADDR_SIZE ∧ length (t_n d) = 130%nat ∧ length (t_e d) = 10%nat.

Lemma read_ping_bytes d rest : ping_wf d → read_ping (ping_bytes d ++ rest) = Some d.
Proof.
  intros (? & ? & ?). destruct d as [a b c]. unfold read_ping, ping_bytes, rd32. cbn -[le_bytes Z.pow] in *.
  rewrite <- !app_assoc. read_fields.
  by rewrite !le_val_bytes_u32.
Qed.

Lemma read_conn_bytes d rest : conn_wf d → read_conn (conn_bytes d ++ rest) = Some d.
Proof.
  intros (Hk & Hi & Hh & Hn). destruct d as [k i h n].
  unfold read_conn, conn_bytes, rd32. cbn -[le_bytes Z.pow] in *.
  rewrite <- !app_assoc. read_fields.
  by rewrite le_val_bytes_u32.
Qed.

Lemma read_trust_bytes d rest : trust_wf d → read_trust (trust_bytes d ++ rest) = Some d.
Proof.
  intros (Hn & Hb & Hm & Hx & He). destruct d as [nm b m n e].
  unfold read_trust, trust_bytes. cbn in *.
  rewrite <- !app_assoc. by read_fields.
Qed.
