(* ===== verification/ArgPacket.v ===== *)
(** * ARG packets: building, signing, checking and decrypting
    (src/protocol.c, [create_arg_packet] and [process_arg_packet]) *)

From S2P Require Import Prelude Words Settings ArgError Utility Crypto Packet Gate World Net Hopper Message.

(** Offsets in [struct arghdr]. *)
Definition arg_type_off : Z := 1.
Definition arg_len_off : Z := 2.
Definition arg_seq_off : Z := 4.
Definition arg_sig_off : Z := 8.

(** The IV of one packet: the first bytes are XORed with those of the sequence
    number field. *)
Definition mix_nounce (ivec : list Z) (seq : Z) : list Z :=
  xor_bytes (take 4 ivec) (le_bytes 4 seq) ++ drop 4 ivec.

(** What the sequence number of a packet of a given type allows. *)
Inductive seq_verdict := SeqAdvance | SeqRecheck | SeqReject.
#[export] Instance seq_verdict_eq_dec : EqDecision seq_verdict.
Proof. solve_decision. Defined.

Definition seq_check (type seq inSeq : Z) : seq_verdict :=
  if decide (seq > inSeq ∨
      (seq < SEQ_NUM_WRAP_ALLOWANCE ∧ inSeq > UINT16_MAX - SEQ_NUM_WRAP_ALLOWANCE))
  then SeqAdvance
  else if decide (type = ARG_CONN_DATA_REQ_MSG ∨ type = ARG_CONN_DATA_RESP_MSG)
  then SeqRecheck else SeqReject.

Definition is_symmetric (type : Z) : bool :=
  bool_decide (type = ARG_WRAPPED_MSG ∨ type = ARG_TRUST_DATA_MSG).

Section ArgPacket.
Context `{PolarSSL, Env}.

(** The block loop both directions share: [cipher_update] on the blocks of
    [src] from [src_off], results stored in [dst] from [dst_off]; [olen_sum]
    accumulates in 16 bits. *)
Fixpoint cipher_loop (fuel : nat) (blockSize i len : Z) (src : list Z) (src_off : Z)
    (dst : list Z) (dst_off : Z) (c : cipher_context) (olen_sum : Z)
    : prog (cipher_context * list Z * Z) :=
  if decide (i < len) then
    match fuel with
    | O => stuck
    | S fuel =>
        let ilen := if decide (len - i > blockSize) then blockSize else len - i in
        d ← lift_opt (rd (src_off + i) (Z.to_nat ilen) src);
        let '(out, c) := cipher_update c d in
        dst ← lift_opt (wr (dst_off + i) out dst);
        cipher_loop fuel blockSize (i + blockSize) len src src_off dst dst_off c
          (u16 (olen_sum + Z.of_nat (length out)))
    end
  else mret (c, dst, olen_sum).

(** ** Building *)

(** The IP header, before the ARG header is located. *)
Definition fill_ip_header (local remote : loc) (p : packet_data) : prog packet_data :=
  ip ← lift_opt (p_ipv4 p);
  p ← store ip [Z.lor (Z.shiftl 4 4) 5] p;
  p ← store (ip + 8) [32] p;
  p ← store (ip + 1) [0] p;
  p ← store (ip + 9) [ARG_PROTO] p;
  saddr ← generate_ip_corrected local 0;
  p ← store (ip + 12) saddr p;
  daddr ← generate_ip_corrected remote 0;
  p ← store (ip + 16) daddr p;
  p ← store (ip + 4) (le_bytes 2 0) p;
  p ← store (ip + 6) (le_bytes 2 0) p;
  p ← store (ip + 2) (le_bytes 2 (htons (5 * 4))) p;
  store (ip + 10) (le_bytes 2 0) p.

Definition set_cipher (c : cipher_context) (g : arg_network_info) : arg_network_info :=
  g <| cipher := c |>.
Definition set_md (m : md_context) (g : arg_network_info) : arg_network_info := g <| md := m |>.

(** Symmetric branch: AES with the remote gateway's key and IV. *)
Definition encrypt_symmetric (remote : loc) (arg : Z) (msg : argmsg) (p : packet_data)
    : prog packet_data :=
  g ← gate_get remote;
  seq ← lift_opt (rd32 (arg + arg_seq_off) (p_data p));
  let c := cipher_reset (cipher g) (mix_nounce (iv g) seq) in
  unknown ← lift_opt (p_unknown_data p);
  '(c, d, olen) ← cipher_loop (Z.to_nat (m_len msg)) (cipher_get_block_size c) 0 (m_len msg)
      (m_data msg) 0 (p_data p) unknown c 0;
  gate_upd remote (set_cipher c);;
  store (arg + arg_len_off) (le_bytes 2 (htons (u16 (olen + ARG_HDR_LEN)))) (with_data p d).

(** RSA branch; [rsa_pkcs1_encrypt]'s result is not looked at. *)
Definition encrypt_rsa (local remote : loc) (arg : Z) (msg : argmsg) (p : packet_data)
    : prog packet_data :=
  g ← gate_get remote;
  p ← store (arg + arg_len_off) (le_bytes 2 (htons (u16 (u16 (rsa_len (rsa g)) + ARG_HDR_LEN)))) p;
  l ← gate_get local;
  m ← lift_opt (rd 0 (Z.to_nat (m_len msg)) (m_data msg));
  let '(_, ct, rng) := rsa_pkcs1_encrypt (rsa g) (ctr_drbg l) m in
  gate_upd local (λ l, l <| ctr_drbg := rng |>);;
  unknown ← lift_opt (p_unknown_data p);
  store unknown ct p.

Definition encrypt_body (local remote : loc) (type arg : Z) (msg : option argmsg)
    (p : packet_data) : prog (Z + packet_data) :=
  match msg with
  | None => inr <$> store (arg + arg_len_off) (le_bytes 2 (htons ARG_HDR_LEN)) p
  | Some msg =>
      g ← gate_get remote;
      if is_symmetric type then
        if negb (connected g) then mret (inl (- ARG_NOT_CONNECTED))
        else inr <$> encrypt_symmetric remote arg msg p
      else if decide (m_len msg > rsa_len (rsa g)) then mret (inl (- ARG_INTERNAL_ERROR))
      else inr <$> encrypt_rsa local remote arg msg p
  end.

(** HMAC with the local symmetric key, or signature with the local RSA key,
    over the packet from the ARG header on, stored in the signature field. *)
Definition sign_packet (local : loc) (type : Z) (p : packet_data) : prog (Z + packet_data) :=
  arg ← lift_opt (p_arg p);
  argLen ← lift_opt (rd16 (arg + arg_len_off) (p_data p));
  body ← load arg (Z.to_nat (ntohs argLen)) p;
  l ← gate_get local;
  if decide (type = ARG_WRAPPED_MSG) then
    let '(digest, m) :=
      md_hmac_finish (md_hmac_update (md_hmac_starts (md l) (symKey l)) body) in
    gate_upd local (set_md m);;
    inr <$> store (arg + arg_sig_off) digest p
  else
    let '(ret, sig) := rsa_pkcs1_sign (rsa l) (sha1 body) in
    if decide (ret ≠ 0) then mret (inl (- ARG_SIGNING_FAILED))
    else inr <$> store (arg + arg_sig_off) sig p.

(** Size of the buffer, computed in a [uint16_t]. *)
Definition full_len (msg : option argmsg) (rsalen : Z) : Z :=
  let fullLen := u16 (20 + ARG_HDR_LEN) in
  let fullLen := match msg with Some msg => u16 (fullLen + m_len msg) | None => fullLen end in
  u16 (fullLen + rsalen).

(** Result: the return value and [*packetOut]. *)
Definition create_arg_packet (local remote : loc) (type : Z) (msg : option argmsg)
    : prog (Z * option packet_data) :=
  l ← gate_get local;
  packet ← create_packet (full_len msg (rsa_len (rsa l)));
  match packet with
  | None => mret (- ENOMEM, None)
  | Some p =>
      p ← fill_ip_header local remote p;
      '(_, p) ← reparse p;
      arg ← lift_opt (p_arg p);
      p ← store arg [1] p;
      p ← store (arg + arg_type_off) (le_bytes 1 type) p;
      r ← gate_get remote;
      gate_upd remote (with_proto (λ q, q <| outSeqNum ::= (λ n, u32 (n + 1)) |>));;
      p ← store (arg + arg_seq_off) (le_bytes 4 (htonl (outSeqNum (proto r)))) p;
      e ← encrypt_body local remote type arg msg p;
      match e with
      | inl err => mret (err, None)
      | inr p =>
          ip ← lift_opt (p_ipv4 p);
          tot_len ← lift_opt (ip_tot_len ip (p_data p));
          argLen ← lift_opt (rd16 (arg + arg_len_off) (p_data p));
          let p := p <| p_len := ntohs tot_len + ntohs argLen |> in
          p ← store (ip + 2) (le_bytes 2 (htons (p_len p))) p;
          '(_, p) ← reparse p;
          s ← sign_packet local type p;
          match s with
          | inl err => mret (err, None)
          | inr p => mret (0, Some p)
          end
      end
  end.

Definition send_arg_packet (local remote : loc) (type : Z) (msg : option argmsg) : prog Z :=
  '(ret, packet) ← create_arg_packet local remote type msg;
  if decide (ret < 0) then mret ret else
  packet ← lift_opt packet;
  send_packet packet.

(** ** Checking and decrypting *)

(** Signature check on the duplicate: [inl] is the error to return. *)
Definition check_signature (remote : loc) (p newp : packet_data) (argLen : Z)
    : prog (Z + packet_data) :=
  arg ← lift_opt (p_arg newp);
  type ← lift_opt (rd8 (arg + arg_type_off) (p_data newp));
  newp ← store (arg + arg_sig_off) (zeros RSA_SIG_SIZE) newp;
  parg ← lift_opt (p_arg p);
  r ← gate_get remote;
  if decide (type = ARG_WRAPPED_MSG) then
    if negb (connected r) then mret (inl (- ARG_NOT_CONNECTED)) else
    body ← load arg (Z.to_nat argLen) newp;
    let '(digest, m) :=
      md_hmac_finish (md_hmac_update (md_hmac_starts (md r) (symKey r)) body) in
    gate_upd remote (set_md m);;
    newp ← store (arg + arg_sig_off) digest newp;
    mine ← load (arg + arg_sig_off) RSA_SIG_SIZE newp;
    theirs ← load (parg + arg_sig_off) RSA_SIG_SIZE p;
    mret (if decide (mine ≠ theirs) then inl (- ARG_SIG_CHECK_FAILED) else inr newp)
  else
    body ← load arg (Z.to_nat argLen) newp;
    sig ← load (parg + arg_sig_off) (Z.to_nat (rsa_len (rsa r))) p;
    mret (if decide (rsa_pkcs1_verify (rsa r) (sha1 body) sig ≠ 0)
          then inl (- ARG_SIG_CHECK_FAILED) else inr newp).

(** Symmetric branch: AES with the local key and IV. *)
Definition decrypt_symmetric (local : loc) (p newp : packet_data) (argLen : Z) (out : argmsg)
    : prog argmsg :=
  arg ← lift_opt (p_arg newp);
  l ← gate_get local;
  seq ← lift_opt (rd32 (arg + arg_seq_off) (p_data newp));
  let c := cipher_reset (cipher l) (mix_nounce (iv l) seq) in
  unknown ← lift_opt (p_unknown_data p);
  '(c, d, olen) ← cipher_loop (Z.to_nat argLen) (cipher_get_block_size c) 0
      (argLen - ARG_HDR_LEN) (p_data p) unknown (m_data out) 0 c 0;
  gate_upd local (set_cipher c);;
  mret (ArgMsg olen d).

(** RSA branch: [inl] is the error to return. *)
Definition decrypt_rsa (local : loc) (newp : packet_data) (out : argmsg) : prog (Z + argmsg) :=
  l ← gate_get local;
  unknown ← lift_opt (p_unknown_data newp);
  ct ← load unknown (Z.to_nat (rsa_len (rsa l))) newp;
  let '(ret, m) := rsa_pkcs1_decrypt (rsa l) ct (m_len out) in
  if decide (ret ≠ 0) then mret (inl (- ARG_DECRYPT_FAILED))
  else
    d ← lift_opt (wr 0 m (m_data out));
    mret (inr (ArgMsg (Z.of_nat (length m)) d)).

(** The message of a checked packet; [inr None] when it has no payload. *)
Definition decrypt_body (local : loc) (p newp : packet_data) (argLen : Z)
    : prog (Z + option argmsg) :=
  if decide (argLen > ARG_HDR_LEN) then
    out ← create_arg_msg argLen;
    match out with
    | None => mret (inl (- ENOMEM))
    | Some out =>
        arg ← lift_opt (p_arg newp);
        type ← lift_opt (rd8 (arg + arg_type_off) (p_data newp));
        if is_symmetric type
        then (λ m, inr (Some m)) <$> decrypt_symmetric local p newp argLen out
        else
          d ← decrypt_rsa local newp out;
          mret (match d with inl err => inl err | inr m => inr (Some m) end)
    end
  else mret (inr None).

Definition set_inSeqNum (n : Z) : arg_network_info → arg_network_info :=
  with_proto (λ q, q <| inSeqNum := n |>).

(** A connection packet with an old sequence number passes when its IV is
    new; the expected sequence number then restarts. *)
Definition recheck_seq (remote : loc) (msg : option argmsg) : prog Z :=
  match msg with
  | None => mret (- ARG_SEQ_BAD)
  | Some out =>
      newiv ← lift_opt (rd 32 AES_BLOCK_SIZE (m_data out));
      r ← gate_get remote;
      if decide (newiv = iv r) then mret (- ARG_SEQ_BAD)
      else gate_upd remote (set_inSeqNum 0);; mret 0
  end.

(** Result: the return value and [*msg] (the callers start it at NULL). *)
Definition process_arg_packet (local remote : loc) (p : packet_data)
    : prog (Z * option argmsg) :=
  parg ← lift_opt (p_arg p);
  seq ← lift_opt (rd32 (parg + arg_seq_off) (p_data p));
  type ← lift_opt (rd8 (parg + arg_type_off) (p_data p));
  r ← gate_get remote;
  let verdict := seq_check type (ntohl seq) (inSeqNum (proto r)) in
  if decide (verdict = SeqReject) then mret (- ARG_SEQ_BAD, None) else
  (if decide (verdict = SeqAdvance)
   then gate_upd remote (set_inSeqNum (ntohl seq)) else mret tt);;
  newp ← copy_packet p;
  match newp with
  | None => mret (- ENOMEM, None)
  | Some newp =>
      arg ← lift_opt (p_arg newp);
      rawLen ← lift_opt (rd16 (arg + arg_len_off) (p_data newp));
      let argLen := ntohs rawLen in
      s ← check_signature remote p newp argLen;
      match s with
      | inl err => mret (err, None)
      | inr newp =>
          d ← decrypt_body local p newp argLen;
          match d with
          | inl err => mret (err, None)
          | inr msg =>
              if decide (verdict = SeqRecheck)
              then ret ← recheck_seq remote msg; mret (ret, msg)
              else mret (0, msg)
          end
      end
  end.
End ArgPacket.
