(* ===== verification/CipherLoop.v ===== *)
(** * The block loop of the packet cipher (src/protocol.c)

    [create_arg_packet] and [process_arg_packet] feed a message to the cipher
    one block at a time; the result is the message XORed with the key stream. *)

From S2P Require Import Prelude Words Settings Utility Crypto Packet Gate World ArgPacket ToyCrypto ToyWorld.

(** ** Adjacent loads and stores *)

Lemma rd_split off n k buf bs :
  rd off (n + k) buf = Some bs →
  rd off n buf = Some (take n bs) ∧ rd (off + Z.of_nat n) k buf = Some (drop n bs).
Proof.
  intros (H0 & Hl & ->)%rd_Some. rewrite !rd_defined by lia. split; f_equal.
  - by rewrite take_take, Nat.min_l by lia.
  - rewrite skipn_firstn_comm, drop_drop. f_equal; [lia|]. f_equal. lia.
Qed.

Lemma wr_nil off buf : 0 ≤ off ≤ Z.of_nat (length buf) → wr off [] buf = Some buf.
Proof.
  intros. apply wr_Some. cbn. split_and!; [lia..|].
  by rewrite Nat.add_0_r, take_drop.
Qed.

(** ** XOR with a stream *)

Lemma length_xor xs ys : length (xor_bytes xs ys) = (length xs `min` length ys)%nat.
Proof. apply length_zip_with. Qed.

Lemma xor_app xs xs' ys ys' :
  length xs = length ys → xor_bytes (xs ++ xs') (ys ++ ys') = xor_bytes xs ys ++ xor_bytes xs' ys'.
Proof. apply zip_with_app. Qed.

Lemma xor_cancel xs ys : length xs = length ys → xor_bytes (xor_bytes xs ys) ys = xs.
Proof.
  unfold xor_bytes. revert ys. induction xs as [|x xs IH]; intros [|y ys]; cbn; try done.
  intros [= Hl]. rewrite IH by done. by rewrite Z.lxor_assoc, Z.lxor_nilpotent, Z.lxor_0_r.
Qed.

Lemma lxor_byte a b : is_byte a → is_byte b → is_byte (Z.lxor a b).
Proof.
  intros Ha Hb. assert (0 ≤ Z.lxor a b) by (apply Z.lxor_nonneg; lia).
  split; [done|]. destruct (decide (Z.lxor a b = 0)) as [->|]; [lia|].
  change 256 with (2 ^ 8). apply Z.log2_lt_pow2; [lia|].
  pose proof (Z.log2_lxor a b ltac:(lia) ltac:(lia)).
  assert (∀ x, is_byte x → Z.log2 x < 8) as Hlog.
  { intros x Hx. destruct (decide (x = 0)) as [->|]; [done|]. apply Z.log2_lt_pow2; lia. }
  pose proof (Hlog a Ha). pose proof (Hlog b Hb). lia.
Qed.

Lemma xor_bytes_ok xs ys : bytes_ok xs → bytes_ok ys → bytes_ok (xor_bytes xs ys).
Proof.
  unfold xor_bytes. intros Hx. revert ys. induction Hx as [|x xs Hx _ IH]; intros ys Hy; [constructor|].
  destruct Hy; cbn; constructor; auto using lxor_byte.
Qed.

Lemma wr_xor_nil off ys buf buf' : wr off (xor_bytes [] ys) buf = Some buf' → buf' = buf.
Proof.
  intros Hw. pose proof Hw as (? & ? & _)%wr_Some. cbn in *. rewrite wr_nil in Hw by lia. congruence.
Qed.

Section CipherLoop.
Context `{Hok : PolarSSL_ok} `{Env}.

(** [n] bytes of the stream for key [k] and IV [i], from position [p] on. *)
Definition stream (k i : list Z) (p n : nat) : list Z := keystream k i <$> seq p n.

Lemma length_stream k i p n : length (stream k i p n) = n.
Proof. unfold stream. by rewrite length_fmap, length_seq. Qed.

Lemma stream_app k i p n m : stream k i p (n + m) = stream k i p n ++ stream k i (p + n) m.
Proof. unfold stream. by rewrite seq_app, fmap_app. Qed.

Lemma stream_bytes k i p n : bytes_ok (stream k i p n).
Proof. apply Forall_fmap, Forall_true. intros x. apply keystream_byte. Qed.

Lemma u16_add_l a b : u16 (u16 a + b) = u16 (a + b).
Proof. unfold u16. by rewrite Zplus_mod_idemp_l. Qed.

Lemma cipher_loop_end fuel B len src soff dst doff c sum (w : world) i :
  len ≤ i → cipher_loop fuel B i len src soff dst doff c sum w = Done (c, dst, sum) w.
Proof. intros. destruct fuel; cbn [cipher_loop]; by rewrite decide_False by lia. Qed.

Lemma cipher_loop_step fuel B i len src soff dst doff c sum d dst1 (w : world) :
  i < len → rd (soff + i) (Z.to_nat (Z.min B (len - i))) src = Some d →
  wr (doff + i) (cipher_update c d).1 dst = Some dst1 →
  cipher_loop (S fuel) B i len src soff dst doff c sum w
  = cipher_loop fuel B (i + B) len src soff dst1 doff (cipher_update c d).2
      (u16 (sum + Z.of_nat (length (cipher_update c d).1))) w.
Proof.
  intros Hi Hr Hw. cbn [cipher_loop]. rewrite decide_True by done.
  assert ((if decide (len - i > B) then B else len - i) = Z.min B (len - i)) as ->
    by (case_decide; lia).
  rewrite (lift_bind _ _ _ Hr). destruct (cipher_update c d) as [out c1]. cbn in Hw.
  by rewrite (lift_bind _ _ _ Hw).
Qed.

(** The first block of a message and the rest of it. *)
Lemma xor_stream_split k iv pos n m data off dst dst' :
  length data = (n + m)%nat →
  wr off (xor_bytes data (stream k iv pos (n + m))) dst = Some dst' →
  ∃ dst1, wr off (xor_bytes (take n data) (stream k iv pos n)) dst = Some dst1
    ∧ wr (off + Z.of_nat n) (xor_bytes (drop n data) (stream k iv (pos + n) m)) dst1 = Some dst'.
Proof.
  intros Hl Hw. pose proof Hw as (H0 & Hb & _)%wr_Some.
  rewrite length_xor, length_stream in Hb.
  rewrite stream_app, <- (take_drop n data), xor_app in Hw
    by (rewrite length_stream, length_take; lia).
  set (xs := xor_bytes (take n data) _) in *. set (ys := xor_bytes (drop n data) _) in *.
  assert (length xs = n ∧ length ys = m) as [Hx Hy].
  { unfold xs, ys. rewrite !length_xor, !length_stream, length_take, length_drop. lia. }
  destruct (wr_defined off xs dst) as [d1 Hd1]; [lia..|].
  pose proof (wr_length _ _ _ _ Hd1).
  destruct (wr_defined (off + Z.of_nat n) ys d1) as [d2 Hd2]; [lia..|].
  exists d1. split; [done|]. rewrite <- Hx in Hd2. pose proof (wr_app _ _ _ _ _ _ Hd1 Hd2) as Ha.
  rewrite Hx in Hd2. congruence.
Qed.

(** What is left of a message of [len] bytes at [i], whatever comes before. *)
Lemma cipher_loop_run fuel k iv pos i len src soff dst doff c sum data dst' (w : world) :
  streaming c k iv pos → len - i ≤ Z.of_nat fuel → 0 ≤ sum < 2 ^ 16 → i ≤ len →
  rd (soff + i) (Z.to_nat (len - i)) src = Some data →
  wr (doff + i) (xor_bytes data (stream k iv pos (Z.to_nat (len - i)))) dst = Some dst' →
  ∃ c', cipher_loop fuel (Z.of_nat AES_BLOCK_SIZE) i len src soff dst doff c sum w
    = Done (c', dst', u16 (sum + (len - i))) w.
Proof.
  revert i pos c sum dst data.
  induction fuel as [|fuel IH]; intros i pos c sum dst data Hc Hf Hs Hi Hr Hw;
    pose proof (rd_length _ _ _ _ Hr) as Hdl.
  all: destruct (decide (i = len)) as [->|Hne];
    [rewrite Z.sub_diag in *; apply nil_length_inv in Hdl as ->; apply wr_xor_nil in Hw as ->;
     exists c; by rewrite cipher_loop_end, Z.add_0_r, u16_small by lia|try lia].
  set (n := Z.to_nat (Z.min (Z.of_nat AES_BLOCK_SIZE) (len - i))).
  set (m := (Z.to_nat (len - i) - n)%nat).
  assert (Z.to_nat (len - i) = n + m)%nat as Hnm by lia. rewrite Hnm in Hr, Hw, Hdl.
  destruct (rd_split _ _ _ _ _ Hr) as [Hr1 Hr2].
  destruct (xor_stream_split _ _ _ _ _ _ _ _ _ Hdl Hw) as (d1 & Hd1 & Hd2).
  assert (length (take n data) = n) as Hl1 by (rewrite length_take; lia).
  destruct (cipher_update_ok c k iv pos (take n data) Hc) as [Hout Hc'].
  rewrite Hl1 in Hout, Hc'. fold (stream k iv pos n) in Hout.
  rewrite (cipher_loop_step _ _ _ _ _ _ _ _ _ _ (take n data) d1) by first [done | lia | by rewrite Hout].
  rewrite Hout, length_xor, length_stream, Hl1, Nat.min_id.
  pose proof (u16_range (sum + Z.of_nat n)).
  destruct (decide (len - i ≤ Z.of_nat AES_BLOCK_SIZE)).
  - rewrite cipher_loop_end by lia. assert (m = 0)%nat as Hm by lia. rewrite Hm in Hd2, Hr2.
    pose proof (rd_length _ _ _ _ Hr2) as Hz. apply nil_length_inv in Hz. rewrite Hz in Hd2.
    apply wr_xor_nil in Hd2 as ->. eexists.
    by replace (sum + Z.of_nat n) with (sum + (len - i)) by lia.
  - assert (Z.of_nat n = Z.of_nat AES_BLOCK_SIZE) as Hn by lia.
    assert (m = Z.to_nat (len - (i + Z.of_nat AES_BLOCK_SIZE))) as Hm by lia.
    rewrite Hn, <- Z.add_assoc in Hr2, Hd2. rewrite Hm in Hr2, Hd2.
    edestruct (IH (i + Z.of_nat AES_BLOCK_SIZE)) as [c' ->];
      [exact Hc'|unfold AES_BLOCK_SIZE in *; lia|exact (u16_range (sum + Z.of_nat n))|lia|exact Hr2|exact Hd2|].
    exists c'. rewrite u16_add_l.
    by replace (sum + _ + _) with (sum + (len - i)) by lia.
Qed.

Lemma cipher_loop_whole fuel k iv c src soff dst doff len data dst' (w : world) :
  streaming c k iv 0 → 0 ≤ len < 2 ^ 16 → len ≤ Z.of_nat fuel →
  rd soff (Z.to_nat len) src = Some data →
  wr doff (xor_bytes data (stream k iv 0 (Z.to_nat len))) dst = Some dst' →
  ∃ c', cipher_loop fuel (cipher_get_block_size c) 0 len src soff dst doff c 0 w
    = Done (c', dst', len) w.
Proof.
  intros Hc Hl Hf Hr Hw. rewrite (cipher_block_ok _ _ (streaming_keyed _ _ _ _ Hc)).
  destruct (cipher_loop_run fuel k iv 0 0 len src soff dst doff c 0 data dst' w)
    as [c' Hrun]; rewrite ?Z.sub_0_r, ?Z.add_0_r; try done; [lia..|].
  exists c'. rewrite Hrun, Z.sub_0_r, Z.add_0_l. by rewrite u16_small.
Qed.

Lemma wp_bind_cipher_loop {B} fuel k iv c src soff dst doff len data dst' (f : _ → prog B) Q (w : world) :
  streaming c k iv 0 → 0 ≤ len < 2 ^ 16 → len ≤ Z.of_nat fuel →
  rd soff (Z.to_nat len) src = Some data →
  wr doff (xor_bytes data (stream k iv 0 (Z.to_nat len))) dst = Some dst' →
  (∀ c', wp (f (c', dst', len)) Q w) →
  wp (cipher_loop fuel (cipher_get_block_size c) 0 len src soff dst doff c 0 ≫= f) Q w.
Proof.
  intros Hc Hl Hfu Hr Hw Hf. destruct (cipher_loop_whole fuel k iv c src soff dst doff len data dst' w)
    as [c' Hrun]; [done..|]. apply wp_bind. unfold wp at 1. rewrite Hrun. apply Hf.
Qed.

(** What is too long for the buffer is written past its end. *)
Lemma cipher_loop_overflows fuel k iv pos i len src soff dst doff c sum (w : world) :
  streaming c k iv pos → 0 ≤ i < len → len - i ≤ Z.of_nat fuel →
  0 ≤ soff → soff + len ≤ Z.of_nat (length src) → 0 ≤ doff → Z.of_nat (length dst) < doff + len →
  cipher_loop fuel (Z.of_nat AES_BLOCK_SIZE) i len src soff dst doff c sum w = Fault.
Proof.
  intros Hc Hi Hf Hs0 Hs Hd0. revert i pos c sum dst Hc Hi Hf.
  induction fuel as [|fuel IH]; intros i pos c sum dst Hc Hi Hf Hd; [lia|].
  set (n := Z.to_nat (Z.min (Z.of_nat AES_BLOCK_SIZE) (len - i))).
  pose proof (rd_defined (soff + i) n src ltac:(lia) ltac:(lia)) as Hr. set (d := take n _) in Hr.
  pose proof (rd_length _ _ _ _ Hr) as Hl. destruct (cipher_update_ok c k iv pos d Hc) as [Hout Hc'].
  assert (length (cipher_update c d).1 = n) as Hol
    by (rewrite Hout, length_xor, length_fmap, length_seq; lia).
  destruct (wr (doff + i) (cipher_update c d).1 dst) as [dst1|] eqn:Hw.
  - rewrite (cipher_loop_step _ _ _ _ _ _ _ _ _ _ d dst1) by (done || lia).
    pose proof (wr_length _ _ _ _ Hw) as Hd1. apply wr_Some in Hw as (_ & Hb & _).
    eapply IH; [exact Hc'|unfold AES_BLOCK_SIZE in *; lia..].
  - cbn [cipher_loop]. rewrite decide_True by lia.
    assert ((if decide (len - i > Z.of_nat AES_BLOCK_SIZE) then Z.of_nat AES_BLOCK_SIZE else len - i)
      = Z.min (Z.of_nat AES_BLOCK_SIZE) (len - i)) as -> by (case_decide; lia).
    rewrite (lift_bind _ _ _ Hr). destruct (cipher_update c d) as [out c1]. cbn in Hw. by rewrite Hw.
Qed.

(** C19. Feeding the cipher block by block, with a short last block, gives the
    whole message XORed with one key stream: it returns for every fuel that is
    not below the length, writes
    nothing else, and the length it adds up wraps at 16 bits only. *)
Theorem cipher_loop_is_xor fuel k iv c src soff dst doff len data dst' (w : world) :
  streaming c k iv 0 → 0 ≤ len < 2 ^ 16 → len ≤ Z.of_nat fuel →
  rd soff (Z.to_nat len) src = Some data →
  wr doff (xor_bytes data (stream k iv 0 (Z.to_nat len))) dst = Some dst' →
  ∃ c', cipher_loop fuel (cipher_get_block_size c) 0 len src soff dst doff c 0 w
    = Done (c', dst', len) w.
Proof. apply cipher_loop_whole. Qed.
End CipherLoop.

(** A message of twenty bytes: one full block and a short one. *)
Definition twenty_bytes : list Z := Z.of_nat <$> seq 60 20.
Definition toy_stream : cipher_context := cipher_reset (cipher_setkey cipher_init [7; 9] 16) [3].

Lemma cipher_loop_is_xor_witness :
  ∃ c', @cipher_loop toy 20 (cipher_get_block_size toy_stream) 0 20 twenty_bytes 0 (zeros 30) 4 toy_stream 0 worldA
    = Done (c', zeros 4 ++ xor_bytes twenty_bytes (stream [7; 9] [3] 0 20) ++ zeros 6, 20) worldA.
Proof.
  apply (cipher_loop_is_xor 20 [7; 9] [3] toy_stream twenty_bytes 0 (zeros 30) 4 20 twenty_bytes);
    [split; [done|split; done] | lia | lia | reflexivity | vm_compute; reflexivity].
Defined.
