(* ===== verification/RoundTrip.v ===== *)
(** * What one gateway sends, another receives (src/protocol.c)

    The bytes [create_arg_packet] builds, and that [process_arg_packet] of the
    gateway that shares the keys gets the message back from them. *)

From S2P Require Import Prelude Words Settings ArgError Utility Crypto Packet PacketFacts Gate World Net Layout Hopper HopperFacts Message ArgPacket CipherLoop ToyCrypto ToyWorld.

(** ** The fields of an ARG datagram *)

Definition ip_chunks (tot : Z) (saddr daddr : list Z) : list (list Z) :=
  [[69]; [0]; le_bytes 2 (htons tot); [0; 0]; [0; 0]; [32]; [ARG_PROTO]; [0; 0]; saddr; daddr].

(** The ARG header, the encrypted message and what follows; the signature field
    is 128 bytes, of which an HMAC takes the first 32. *)
Definition arg_chunks (type alen seq : Z) (sig1 sig2 ct pad : list Z) : list (list Z) :=
  [[1]; le_bytes 1 type; le_bytes 2 (htons alen); le_bytes 4 (htonl seq); sig1; sig2; ct; pad].

Definition datagram (saddr daddr : list Z) (type alen seq : Z) (sig1 sig2 ct pad : list Z)
    : list (list Z) :=
  ip_chunks (20 + alen) saddr daddr ++ arg_chunks type alen seq sig1 sig2 ct pad.

Definition blank_ip : list (list Z) := zeros <$> [1; 1; 2; 2; 2; 1; 1; 2; 4; 4]%nat.
Definition blank_arg (n m : nat) : list (list Z) := zeros <$> [1; 1; 2; 4; 32; 96; n; m]%nat.

Lemma zeros_app n m : zeros (n + m) = zeros n ++ zeros m.
Proof. apply replicate_add. Qed.

Lemma concat_zeros ns : concat (zeros <$> ns) = zeros (sum_list ns).
Proof. induction ns as [|n ns IH]; [done|]. rewrite fmap_cons.
  change (zeros n ++ concat (zeros <$> ns) = zeros (n + sum_list ns)). by rewrite IH, zeros_app. Qed.

(** Store into chunk [i] of an explicitly chunked buffer. *)
Ltac do_store i :=
  eapply wp_bind_store;
  [cbn [p_data with_data upd]; eapply (wr_chunk i);
   [reflexivity | cbv [arg_type_off arg_len_off arg_seq_off arg_sig_off]; span_eq
    | by rewrite ?length_le_bytes]
  | cbn [insert list_insert]].

Ltac frame_eq :=
  unfold datagram, ip_chunks, arg_chunks; cbn [app];
  cbv [arg_type_off arg_len_off arg_seq_off arg_sig_off]; span_eq.

Section RoundTrip.
Context `{Hok : PolarSSL_ok} `{Env}.

Lemma wp_bind_ip {B} l g (k : list Z → prog B) Q w :
  w_gates w !! l = Some g → gate_wf g →
  (∀ ip, ip_at g (env_clock (w_clock w)) 0 = Some ip → length ip = ADDR_SIZE →
     wp (k ip) Q (w <| w_clock ::= S |>)) →
  wp (generate_ip_corrected l 0 ≫= k) Q w.
Proof.
  intros Hl Hg Hk. unfold generate_ip_corrected.
  destruct (ip_at_defined g (env_clock (w_clock w)) 0) as (bits & Hip & _).
  apply wp_assoc, wp_bind_time, wp_assoc. eapply wp_bind_get; [done|].
  eapply wp_bind_lift; [done|]. apply Hk; [done|]. by eapply ip_at_length.
Qed.

(** The addresses of a datagram built at [w]: each reading of the clock is the
    next one. *)
Definition stamped (gl gr : arg_network_info) (w : world) (saddr daddr : list Z) : Prop :=
  ip_at gl (env_clock (w_clock w)) 0 = Some saddr
  ∧ ip_at gr (env_clock (S (w_clock w))) 0 = Some daddr
  ∧ length saddr = ADDR_SIZE ∧ length daddr = ADDR_SIZE.

Lemma fill_ip_header_ok local remote gl gr p rest w Q :
  w_gates w !! local = Some gl → w_gates w !! remote = Some gr → gate_wf gl → gate_wf gr →
  p_ipv4 p = Some 0 → p_data p = concat (blank_ip ++ rest) →
  (∀ saddr daddr, stamped gl gr w saddr daddr →
    Q (with_data p (concat (ip_chunks 20 saddr daddr ++ rest)))
      (w <| w_clock ::= S |> <| w_clock ::= S |>)) →
  wp (fill_ip_header local remote p) Q w.
Proof.
  intros Hl Hr Hwl Hwr Hip Hd HQ. unfold fill_ip_header. rewrite Hip.
  eapply wp_bind_lift; [done|].
  eapply wp_bind_store; [rewrite Hd; eapply (wr_chunk 0); [reflexivity|done|done]|].
  cbn [insert list_insert blank_ip fmap list_fmap app].
  do_store 5%nat. do_store 1%nat. do_store 6%nat.
  eapply wp_bind_ip; [done..|]. intros saddr Hs Hsl. do_store 8%nat.
  eapply wp_bind_ip; [done..|]. intros daddr Hdr Hdl. do_store 9%nat.
  do_store 3%nat. do_store 4%nat. do_store 2%nat.
  apply wp_bind_right. do_store 7%nat. apply HQ. by split_and!.
Qed.

(** ** Building: up to the encryption *)

Hypothesis mallocs_ok : ∀ n, env_malloc n = true.

(** What [create_packet] returns: all zero bytes, of which the parser makes an
    IP header of version 0. *)
Definition blank_packet (len : Z) : packet_data :=
  Packet len 0 None (Some 0) None None None None None (Some 0) 0 (zeros (Z.to_nat len)).

Lemma parse_blank len :
  0 < len →
  parse_packet (Packet len 0 None None None None None None None None 0 (zeros (Z.to_nat len)))
  = Some (- ARG_PACKET_PARSE_ERROR, blank_packet len).
Proof.
  intros Hl. assert (rd8 0 (zeros (Z.to_nat len)) = Some 0) as H0.
  { unfold rd8. rewrite rd_defined by (unfold zeros; rewrite ?length_replicate; lia).
    destruct (Z.to_nat len) eqn:?; [lia|done]. }
  unfold parse_packet. set (p := Packet _ _ _ _ _ _ _ _ _ _ _ _).
  assert (parse_link (clear_pointers p) = Some (blank_packet len)) as ->.
  { unfold parse_link, ip_ihl. cbn -[rd8 zeros rd16 ntohs decide]. rewrite decide_False by done.
    by rewrite H0. }
  rewrite some_bind. cbn [p_ipv4 p_data blank_packet].
  assert (ip_version 0 (zeros (Z.to_nat len)) = Some 0) as -> by (unfold ip_version; by rewrite H0).
  by rewrite some_bind, decide_True.
Qed.

Lemma wp_bind_create {B} len (k : option packet_data → prog B) Q w :
  0 < len →
  wp (k (Some (blank_packet len))) Q (w <| w_malloc ::= S |> <| w_malloc ::= S |>) →
  wp (create_packet len ≫= k) Q w.
Proof.
  intros Hl Hk. unfold create_packet.
  apply wp_assoc, wp_bind_malloc. rewrite mallocs_ok. cbn [negb].
  rewrite decide_True by lia. apply wp_assoc, wp_bind_malloc. rewrite mallocs_ok. cbn [negb].
  apply wp_assoc. unfold reparse. by eapply wp_bind_lift; [apply parse_blank|].
Qed.

Lemma wp_bind_reparse {B} p tot saddr daddr rest (k : Z * packet_data → prog B) Q w :
  p_linkLayerLen p = 0 → p_data p = concat (ip_chunks tot saddr daddr ++ rest) →
  wp (k (0, arg_parsed 0 (u16 tot) (p_data p))) Q w → wp (reparse p ≫= k) Q w.
Proof.
  intros Hl Hd Hk. eapply wp_bind_lift; [|done].
  rewrite <- ntohs_htons. apply parse_arg_datagram; [done|done|..]; rewrite Hd; unfold rd8, rd16.
  - erewrite (rd_chunks 0 1) by done. done.
  - erewrite (rd_chunks 2 1) by done. cbn [take drop ip_chunks app concat].
    rewrite app_nil_r, some_fmap, le_val_bytes. f_equal. apply Z.mod_small, htons_range.
  - erewrite (rd_chunks 6 1) by done. done.
Qed.

(** The packet handed to the encryption, and the world at that point. *)
Definition header_packet (saddr daddr : list Z) (type seq : Z) (n m : nat) : packet_data :=
  arg_parsed 0 20 (concat (ip_chunks 20 saddr daddr
    ++ [[1]; le_bytes 1 type; zeros 2; le_bytes 4 (htonl seq); zeros 32; zeros 96; zeros n; zeros m])).
Definition header_world (remote : loc) (gr : arg_network_info) (w : world) : world :=
  set_gate remote (with_proto (λ q, q <| outSeqNum ::= (λ n, u32 (n + 1)) |>) gr)
    (w <| w_malloc ::= S |> <| w_malloc ::= S |> <| w_clock ::= S |> <| w_clock ::= S |>).

(** The rest of [create_arg_packet] once the message is encrypted. *)
Definition finish (local : loc) (type arg : Z) (e : Z + packet_data) : prog (Z * option packet_data) :=
  match e with
  | inl err => mret (err, None)
  | inr p =>
      ip ← lift_opt (p_ipv4 p);
      tot_len ← lift_opt (ip_tot_len ip (p_data p));
      argLen ← lift_opt (rd16 (arg + arg_len_off) (p_data p));
      let p := p <| p_len := ntohs tot_len + ntohs argLen |> in
      p ← store (ip + 2) (le_bytes 2 (htons (p_len p))) p;
      '(_, p) ← reparse p;
      s ← sign_packet local type p;
      match s with
      | inl err => mret (err, None)
      | inr p => mret (0, Some p)
      end
  end.

(** [create_arg_packet] up to the encryption, and from there on. *)
Definition start_packet (local remote : loc) (type : Z) (msg : option argmsg) : prog (option (Z * packet_data)) :=
  l ← gate_get local;
  packet ← create_packet (full_len msg (rsa_len (rsa l)));
  match packet with
  | None => mret None
  | Some p =>
      p ← fill_ip_header local remote p;
      '(_, p) ← reparse p;
      arg ← lift_opt (p_arg p);
      p ← store arg [1] p;
      p ← store (arg + arg_type_off) (le_bytes 1 type) p;
      r ← gate_get remote;
      gate_upd remote (with_proto (λ q, q <| outSeqNum ::= (λ n, u32 (n + 1)) |>));;
      p ← store (arg + arg_seq_off) (le_bytes 4 (htonl (outSeqNum (proto r)))) p;
      mret (Some (arg, p))
  end.
Definition seal_packet (local remote : loc) (type : Z) (msg : option argmsg) (o : option (Z * packet_data))
    : prog (Z * option packet_data) :=
  match o with
  | None => mret (- ENOMEM, None)
  | Some (arg, p) => e ← encrypt_body local remote type arg msg p; finish local type arg e
  end.

Lemma create_split local remote type msg w :
  create_arg_packet local remote type msg w = (start_packet local remote type msg ≫= seal_packet local remote type msg) w.
Proof.
  unfold create_arg_packet, start_packet. do 2 (rewrite bind_assoc; apply bind_ext; intros).
  case_match; [|done]. rewrite bind_assoc. apply bind_ext. intros. rewrite bind_assoc. apply bind_ext. intros [] ?.
  do 6 (rewrite bind_assoc; apply bind_ext; intros). done.
Qed.

Lemma start_packet_ok local remote gl gr type msg n m w :
  w_gates w !! local = Some gl → w_gates w !! remote = Some gr → gate_wf gl → gate_wf gr →
  full_len msg (rsa_len (rsa gl)) = 156 + Z.of_nat (n + m) →
  wp (start_packet local remote type msg) (λ o w', ∃ saddr daddr, stamped gl gr w saddr daddr
    ∧ o = Some (20, header_packet saddr daddr type (outSeqNum (proto gr)) n m) ∧ w' = header_world remote gr w) w.
Proof.
  intros Hl Hr Hwl Hwr Hlen. unfold start_packet.
  eapply wp_bind_get; [done|]. rewrite Hlen. apply wp_bind_create; [lia|].
  assert (zeros (Z.to_nat (156 + Z.of_nat (n + m))) = concat (blank_ip ++ blank_arg n m)) as Hz.
  { unfold blank_ip, blank_arg. rewrite <- fmap_app, concat_zeros. f_equal. cbn. lia. }
  apply wp_bind. eapply (fill_ip_header_ok _ _ gl gr _ (blank_arg n m)); [done..| |].
  { unfold blank_packet. cbn [p_data]. by rewrite Hz. }
  intros saddr daddr Hst. eapply wp_bind_reparse; [done|done|].
  cbn [p_data with_data upd]. rewrite u16_small by done. cbn [arg_parsed p_arg].
  eapply wp_bind_lift; [done|]. pose proof Hst as (Hs & Hd & Hsl & Hdl).
  change (0 + 20) with 20. unfold blank_arg.
  cbn [ip_chunks fmap list_fmap app].
  do_store 10%nat. do_store 11%nat.
  eapply wp_bind_get; [done|]. eapply wp_bind_upd; [done|].
  do_store 13%nat. apply wp_ret. by exists saddr, daddr.
Qed.

Lemma create_header local remote gl gr type msg n m w Q :
  w_gates w !! local = Some gl → w_gates w !! remote = Some gr → gate_wf gl → gate_wf gr →
  full_len msg (rsa_len (rsa gl)) = 156 + Z.of_nat (n + m) →
  (∀ saddr daddr, stamped gl gr w saddr daddr →
    wp (encrypt_body local remote type 20 msg (header_packet saddr daddr type (outSeqNum (proto gr)) n m)
        ≫= finish local type 20) Q (header_world remote gr w)) →
  wp (create_arg_packet local remote type msg) Q w.
Proof.
  intros Hl Hr Hwl Hwr Hlen HQ. unfold wp at 1. rewrite create_split.
  change (wp (start_packet local remote type msg ≫= seal_packet local remote type msg) Q w). apply wp_bind.
  eapply wp_mono; [by eapply start_packet_ok|]. intros o w' (saddr & daddr & Hst & -> & ->). by apply HQ.
Qed.

(** ** Encryption and signature with the shared keys *)

(** The ciphertext of the first [n] bytes of a message. *)
Definition cipher_text (k i : list Z) (seq : Z) (n : nat) (m : list Z) : list Z :=
  xor_bytes (take n m) (stream k (mix_nounce i (htonl seq)) 0 n).

Lemma length_cipher_text k i seq n m : (n ≤ length m)%nat → length (cipher_text k i seq n m) = n.
Proof. intros. unfold cipher_text. rewrite length_xor, length_stream, length_take. lia. Qed.

Lemma le_val_htonl z : le_val (le_bytes 4 (htonl z)) = htonl z.
Proof. rewrite le_val_bytes. apply Z.mod_small, htonl_range. Qed.
Lemma le_val_htons z : le_val (le_bytes 2 (htons z)) = htons z.
Proof. rewrite le_val_bytes. apply Z.mod_small, htons_range. Qed.

Lemma encrypt_symmetric_ok remote g k msg n m saddr daddr type seq w Q :
  w_gates w !! remote = Some g → keyed (cipher g) k →
  m_len msg = Z.of_nat n → (n ≤ length (m_data msg))%nat → 136 + Z.of_nat n < 2 ^ 16 →
  length saddr = ADDR_SIZE → length daddr = ADDR_SIZE →
  (∀ c', Q (with_data (header_packet saddr daddr type seq n m)
      (concat (ip_chunks 20 saddr daddr
         ++ [[1]; le_bytes 1 type; le_bytes 2 (htons (Z.of_nat n + 136)); le_bytes 4 (htonl seq);
             zeros 32; zeros 96; cipher_text k (iv g) seq n (m_data msg); zeros m])))
      (set_gate remote (set_cipher c' g) w)) →
  wp (encrypt_symmetric remote 20 msg (header_packet saddr daddr type seq n m)) Q w.
Proof.
  intros Hr Hk Hlen Hdata Hsize Hsl Hdl HQ. unfold encrypt_symmetric.
  eapply wp_bind_get; [done|].
  eapply wp_bind_lift.
  { unfold rd32. cbn [header_packet arg_parsed p_data ip_chunks app].
    erewrite (rd_chunks 13 1) by (cbv [arg_seq_off]; span_eq). cbn [take drop concat].
    by rewrite app_nil_r, some_fmap, le_val_htonl. }
  eapply wp_bind_lift; [done|].
  set (c := cipher_reset _ _). rewrite Hlen, Nat2Z.id.
  pose proof (length_cipher_text k (iv g) seq n (m_data msg) Hdata) as Hct.
  eapply wp_bind_cipher_loop with (data := take n (m_data msg));
    [by apply cipher_reset_ok|lia|lia|..].
  { rewrite Nat2Z.id. by rewrite rd_defined by lia. }
  { rewrite Nat2Z.id. cbn [header_packet arg_parsed p_data ip_chunks app].
    eapply (wr_chunk 16 _ _ _ (cipher_text k (iv g) seq n (m_data msg))); [reflexivity|span_eq|].
    unfold zeros. by rewrite length_replicate. }
  intros c'. eapply wp_bind_upd; [done|]. rewrite u16_small by (unfold ARG_HDR_LEN; lia).
  cbn [insert list_insert]. apply wp_bind_right.
  do_store 12%nat. apply HQ.
Qed.

Lemma encrypt_overflows local remote g k msg n room saddr daddr seq w :
  w_gates w !! remote = Some g → connected g = true → keyed (cipher g) k →
  m_len msg = Z.of_nat n → (n ≤ length (m_data msg))%nat → (room < n)%nat →
  length saddr = ADDR_SIZE → length daddr = ADDR_SIZE →
  encrypt_body local remote ARG_WRAPPED_MSG 20 (Some msg)
    (header_packet saddr daddr ARG_WRAPPED_MSG seq room 0) w = Fault.
Proof.
  intros Hr Hc Hk Hlen Hdata Hroom Hsl Hdl. unfold encrypt_body.
  rewrite (get_bind _ g) by done. change (is_symmetric ARG_WRAPPED_MSG) with true. rewrite Hc. cbn [negb].
  unfold fmap, proc_fmap. apply fault_bind. unfold encrypt_symmetric. rewrite (get_bind _ g) by done.
  assert (rd32 (20 + arg_seq_off) (p_data (header_packet saddr daddr ARG_WRAPPED_MSG seq room 0)) = Some (htonl seq)) as Hs.
  { unfold rd32. cbn [header_packet arg_parsed p_data ip_chunks app].
    erewrite (rd_chunks 13 1) by (cbv [arg_seq_off]; span_eq). cbn [take drop concat].
    by rewrite app_nil_r, some_fmap, le_val_htonl. }
  rewrite (lift_bind _ _ _ Hs). rewrite (lift_bind _ 156) by done.
  set (c := cipher_reset _ _). apply fault_bind.
  assert (streaming c k (mix_nounce (iv g) (htonl seq)) 0) as Hst by by apply cipher_reset_ok.
  rewrite (cipher_block_ok _ _ (streaming_keyed _ _ _ _ Hst)), Hlen, Nat2Z.id.
  eapply cipher_loop_overflows; [exact Hst|lia..|].
  cbn [header_packet arg_parsed p_data ip_chunks app concat].
  cbn [length]. repeat (rewrite length_app; cbn [length]).
  rewrite !length_le_bytes, Hsl, Hdl. unfold zeros. rewrite !length_replicate.
  change ADDR_SIZE with 4%nat. lia.
Qed.

(** What is authenticated: the ARG part with an empty signature field. *)
Definition signed_part (type alen seq : Z) (ct : list Z) : list Z :=
  concat [[1]; le_bytes 1 type; le_bytes 2 (htons alen); le_bytes 4 (htonl seq); zeros 128; ct].
Definition mac (key : list Z) (alen seq : Z) (ct : list Z) : list Z :=
  md_hmac key (signed_part ARG_WRAPPED_MSG alen seq ct).

Lemma length_mac key alen seq ct : length (mac key alen seq ct) = 32%nat.
Proof. apply md_hmac_length. Qed.

Lemma ip_tot_len_chunks tot saddr daddr rest :
  ip_tot_len 0 (concat (ip_chunks tot saddr daddr ++ rest)) = Some (htons tot).
Proof.
  unfold ip_tot_len, rd16. erewrite (rd_chunks 2 1) by done. cbn [take drop ip_chunks app concat].
  by rewrite app_nil_r, some_fmap, le_val_htons.
Qed.

(** The message is encrypted: the lengths are set, and the packet is signed. *)
Lemma finish_packet_run local type n saddr daddr seq m ct pad w Q :
  length ct = n → 156 + Z.of_nat n < 2 ^ 16 → length saddr = ADDR_SIZE → length daddr = ADDR_SIZE →
  let alen := Z.of_nat n + 136 in
  wp (sign_packet local type (arg_parsed 0 (20 + alen)
        (concat (datagram saddr daddr type alen seq (zeros 32) (zeros 96) ct pad)))
      ≫= λ s, match s with inl err => mret (err, None) | inr p => mret (0, Some p) end) Q w →
  wp (finish local type 20 (inr (with_data (header_packet saddr daddr type seq n m)
        (concat (ip_chunks 20 saddr daddr
         ++ [[1]; le_bytes 1 type; le_bytes 2 (htons alen); le_bytes 4 (htonl seq);
             zeros 32; zeros 96; ct; pad]))))) Q w.
Proof.
  intros Hct Hsize Hsl Hdl alen HQ. unfold finish.
  eapply wp_bind_lift; [done|]. cbn [p_data with_data upd].
  eapply wp_bind_lift; [apply ip_tot_len_chunks|].
  assert (∀ tot, rd16 (20 + arg_len_off) (concat (ip_chunks tot saddr daddr
         ++ [[1]; le_bytes 1 type; le_bytes 2 (htons alen); le_bytes 4 (htonl seq);
             zeros 32; zeros 96; ct; pad])) = Some (htons alen)) as Halen.
  { intros tot. unfold rd16. cbn [ip_chunks app].
    erewrite (rd_chunks 12 1) by (cbv [arg_len_off]; span_eq). cbn [take drop concat].
    by rewrite app_nil_r, some_fmap, le_val_htons. }
  eapply wp_bind_lift; [apply Halen|].
  rewrite !ntohs_htons, !u16_small by lia. cbn [p_len upd].
  eapply wp_bind_store.
  { cbn [p_data with_data upd ip_chunks app]. eapply (wr_chunk 2); [reflexivity|done|by rewrite !length_le_bytes]. }
  cbn [insert list_insert]. eapply wp_bind_reparse with (tot := 20 + alen); [done|done|].
  cbn [p_data with_data upd]. rewrite u16_small by lia. exact HQ.
Qed.

(** What is signed is read from the packet. *)
Lemma signing_body type saddr daddr seq ct pad :
  length saddr = ADDR_SIZE → length daddr = ADDR_SIZE →
  let alen := Z.of_nat (length ct) + 136 in 156 + Z.of_nat (length ct) < 2 ^ 16 →
  let p := arg_parsed 0 (20 + alen) (concat (datagram saddr daddr type alen seq (zeros 32) (zeros 96) ct pad)) in
  rd16 (20 + arg_len_off) (p_data p) = Some (htons alen)
  ∧ rd 20 (Z.to_nat (ntohs (htons alen))) (p_data p) = Some (signed_part type alen seq ct).
Proof.
  intros Hsl Hdl alen Hsize p. cbn [p arg_parsed p_data]. split.
  - unfold rd16. rewrite (rd_chunks 12 1) by frame_eq.
    unfold datagram, ip_chunks, arg_chunks. cbn [app take drop concat].
    by rewrite app_nil_r, some_fmap, le_val_htons.
  - rewrite ntohs_htons, u16_small by lia. rewrite (rd_chunks 10 7) by frame_eq.
    unfold datagram, ip_chunks, arg_chunks, signed_part. cbn [app take drop concat].
    change (zeros 128) with (zeros 32 ++ zeros 96). by rewrite <- !app_assoc.
Qed.

Lemma finish_hmac local g n saddr daddr seq m ct pad w Q :
  w_gates w !! local = Some g → length ct = n → 156 + Z.of_nat n < 2 ^ 16 →
  length saddr = ADDR_SIZE → length daddr = ADDR_SIZE →
  let alen := Z.of_nat n + 136 in
  (∀ md', Q (0, Some (arg_parsed 0 (20 + alen)
        (concat (datagram saddr daddr ARG_WRAPPED_MSG alen seq (mac (symKey g) alen seq ct) (zeros 96) ct pad))))
      (set_gate local (set_md md' g) w)) →
  wp (finish local ARG_WRAPPED_MSG 20 (inr (with_data (header_packet saddr daddr ARG_WRAPPED_MSG seq n m)
        (concat (ip_chunks 20 saddr daddr
         ++ [[1]; le_bytes 1 ARG_WRAPPED_MSG; le_bytes 2 (htons alen); le_bytes 4 (htonl seq);
             zeros 32; zeros 96; ct; pad]))))) Q w.
Proof.
  intros Hl Hct Hsize Hsl Hdl alen HQ. apply finish_packet_run; [done..|]. subst n.
  destruct (signing_body ARG_WRAPPED_MSG saddr daddr seq ct pad Hsl Hdl Hsize) as [Halen Hbody].
  apply wp_bind. unfold sign_packet. eapply wp_bind_lift; [done|].
  eapply wp_bind_lift; [exact Halen|]. eapply wp_bind_load; [exact Hbody|].
  eapply wp_bind_get; [done|]. rewrite decide_True by done.
  pose proof (md_hmac_ok (md g) (symKey g) (signed_part ARG_WRAPPED_MSG alen seq ct)) as Hmd.
  fold alen. destruct (md_hmac_finish _) as [h md']. cbn [fst] in Hmd.
  assert (length h = 32%nat) as Hh by (rewrite Hmd; apply md_hmac_length).
  eapply wp_bind_upd; [done|]. apply wp_fmap, wp_bind_right.
  eapply wp_bind_store.
  { cbn [arg_parsed p_data]. apply (wr_chunk 14 _ (zeros 32)); [done|frame_eq|done]. }
  specialize (HQ md'). unfold mac in HQ. rewrite <- Hmd in HQ. exact HQ.
Qed.

(** The whole of [create_arg_packet] for a wrapped message. *)
Lemma create_wrapped local remote gl gr k msg n w :
  local ≠ remote → w_gates w !! local = Some gl → w_gates w !! remote = Some gr →
  gate_wf gl → gate_wf gr → connected gr = true → keyed (cipher gr) k →
  m_len msg = Z.of_nat n → (n ≤ length (m_data msg))%nat →
  0 ≤ rsa_len (rsa gl) → 156 + Z.of_nat n + rsa_len (rsa gl) < 2 ^ 16 →
  wp (create_arg_packet local remote ARG_WRAPPED_MSG (Some msg)) (λ r w',
    ∃ saddr daddr md' c',
    let seq := outSeqNum (proto gr) in
    let alen := Z.of_nat n + 136 in
    let ct := cipher_text k (iv gr) seq n (m_data msg) in
    let gr' := set_cipher c' (with_proto (λ q, q <| outSeqNum ::= (λ n, u32 (n + 1)) |>) gr) in
    stamped gl gr w saddr daddr
    ∧ r = (0, Some (arg_parsed 0 (20 + alen) (concat (datagram saddr daddr ARG_WRAPPED_MSG alen seq
        (mac (symKey gl) alen seq ct) (zeros 96) ct (zeros (Z.to_nat (rsa_len (rsa gl))))))))
    ∧ w_gates w' = <[local := set_md md' gl]> (<[remote := gr']> (w_gates w))
    ∧ w_sent w' = w_sent w) w.
Proof.
  intros Hne Hl Hr Hwl Hwr Hc Hk Hlen Hdata Hrsa Hsize.
  eapply (create_header _ _ gl gr _ _ n (Z.to_nat (rsa_len (rsa gl)))); [done..| |].
  { unfold full_len, ARG_HDR_LEN. rewrite Hlen. change (u16 (20 + 136)) with 156.
    rewrite (u16_small (156 + _)), u16_small by lia. lia. }
  intros saddr daddr Hst. pose proof Hst as (_ & _ & Hsl & Hdl).
  apply wp_assoc. unfold encrypt_body.
  eapply wp_bind_get; [apply set_gate_same|].
  change (is_symmetric ARG_WRAPPED_MSG) with true. cbn [with_proto connected upd].
  rewrite Hc. cbn [negb]. apply wp_bind, wp_fmap.
  eapply encrypt_symmetric_ok; [apply set_gate_same|done|done|done|lia|done|done|].
  intros c'. eapply finish_hmac.
  - rewrite set_gate_ne by congruence. unfold header_world. by rewrite set_gate_ne by congruence.
  - by apply length_cipher_text.
  - lia.
  - done.
  - done.
  - intros md'. do 4 eexists. split_and!; [done| | |done].
    + cbn [iv with_proto upd]. done.
    + unfold header_world, set_gate. cbn [w_gates upd]. by rewrite insert_insert_eq.
Qed.

(** C33. The packet buffer's size is computed in 16 bits. A message that fits
    gives a packet; one that makes the size wrap around -- all of it there, and
    the headers fitting what is left -- is encrypted past the end of a buffer
    64 KiB too small. *)
Theorem oversized_message_overflows local remote gl gr k msg n w :
  local ≠ remote → w_gates w !! local = Some gl → w_gates w !! remote = Some gr →
  gate_wf gl → gate_wf gr → connected gr = true → keyed (cipher gr) k →
  m_len msg = Z.of_nat n → (n ≤ length (m_data msg))%nat → Z.of_nat n < 2 ^ 16 → 0 ≤ rsa_len (rsa gl) < 2 ^ 15 →
  let size := 156 + Z.of_nat n + rsa_len (rsa gl) in
  size < 2 ^ 16 ∨ 2 ^ 16 + 156 ≤ size →
  if decide (size < 2 ^ 16)
  then full_len (Some msg) (rsa_len (rsa gl)) = size
    ∧ ∃ p w', create_arg_packet local remote ARG_WRAPPED_MSG (Some msg) w = Done (0, Some p) w'
  else full_len (Some msg) (rsa_len (rsa gl)) = size - 2 ^ 16
    ∧ create_arg_packet local remote ARG_WRAPPED_MSG (Some msg) w = Fault.
Proof.
  intros Hne Hl Hr Hwl Hwr Hc Hk Hlen Hdata Hn Hrsa size Hsize.
  assert (full_len (Some msg) (rsa_len (rsa gl)) = u16 size) as Hfull.
  { unfold full_len, ARG_HDR_LEN. rewrite Hlen. change (u16 (20 + 136)) with 156. by rewrite u16_add_l. }
  rewrite Hfull. case_decide as Hfit.
  - rewrite u16_small by lia. split; [done|].
    pose proof (create_wrapped local remote gl gr k msg n w Hne Hl Hr Hwl Hwr Hc Hk Hlen Hdata ltac:(lia) Hfit) as Hw.
    apply wp_elim in Hw as (r & w' & Hrun & sa & da & md' & c' & _ & -> & _). by do 2 eexists.
  - assert (u16 size = size - 2 ^ 16) as Hu.
    { unfold u16. replace size with (size - 2 ^ 16 + 1 * 2 ^ 16) at 1 by lia. rewrite Z.mod_add, Z.mod_small; lia. }
    split; [done|]. set (room := Z.to_nat (size - 2 ^ 16 - 156)).
    destruct (wp_elim _ _ _ (start_packet_ok local remote gl gr ARG_WRAPPED_MSG (Some msg) room 0 w Hl Hr Hwl Hwr
      ltac:(lia))) as (o & w' & Hrun & saddr & daddr & (_ & _ & Hsl & Hdl) & -> & ->).
    rewrite create_split. unfold mbind at 1, proc_bind at 1. rewrite Hrun. cbn [seal_packet].
    eapply fault_bind, encrypt_overflows; [apply set_gate_same|exact Hc|exact Hk|exact Hlen|exact Hdata|lia|done..].
Qed.

(** ** Receiving *)

Definition link_ok (link : list Z) : Prop :=
  Z.of_nat (length link) = sizeof_ethhdr → ∃ h, rd16 12 link = Some h ∧ ntohs h = ETH_P_IP.

Lemma parse_frame p link tot saddr daddr rest :
  link_ok link → p_linkLayerLen p = Z.of_nat (length link) →
  p_data p = concat (link :: ip_chunks tot saddr daddr ++ rest) →
  parse_packet p = Some (0, arg_parsed (Z.of_nat (length link)) (u16 tot) (p_data p)).
Proof.
  intros Hlink Hl Hd. rewrite <- ntohs_htons. apply parse_arg_datagram; [done|..].
  - intros He. destruct (Hlink He) as (h & Hh & Hn). exists h. split; [|done].
    unfold rd16 in *. destruct (rd 12 2 link) as [bs|] eqn:Hr; [|done].
    rewrite Hd. cbn [concat]. by rewrite (rd_app _ _ _ _ _ Hr).
  - rewrite Hd. unfold rd8. erewrite (rd_chunks 1 1) by (cbn [ip_chunks app]; span_eq). done.
  - rewrite Hd. unfold rd16. erewrite (rd_chunks 3 1) by (cbn [ip_chunks app]; span_eq).
    cbn [take drop ip_chunks app concat].
    rewrite app_nil_r, some_fmap, le_val_htons. done.
  - rewrite Hd. unfold rd8. erewrite (rd_chunks 7 1) by (cbn [ip_chunks app]; span_eq). done.
Qed.

(** A received datagram: its parsed form, and what is known of its fields. *)
Definition frame (link saddr daddr : list Z) (type alen seq : Z) (sig1 sig2 ct pad : list Z)
    : packet_data :=
  arg_parsed (Z.of_nat (length link)) (20 + alen)
    (concat (link :: datagram saddr daddr type alen seq sig1 sig2 ct pad)).

Record fields_ok (link saddr daddr : list Z) (alen : Z) (ct : list Z) : Prop := {
  rcv_link : link_ok link;
  rcv_saddr : length saddr = ADDR_SIZE;
  rcv_daddr : length daddr = ADDR_SIZE;
  rcv_len : alen = Z.of_nat (length ct) + 136;
  rcv_size : 20 + alen < 2 ^ 16 }.

Section Receive.
Context (link saddr daddr : list Z) (type alen seq : Z) (ct : list Z).
Hypothesis Hrcv : fields_ok link saddr daddr alen ct.

Abbreviation frame' := (frame link saddr daddr type alen seq).
Abbreviation arg_at := (Z.of_nat (length link) + 20).

(** Field [i] of a frame. *)
Lemma frame_load i n bs sig1 sig2 pad off :
  let cs := datagram saddr daddr type alen seq sig1 sig2 ct pad in
  cs !! i = Some bs → off = Z.of_nat (length link) + span (take i cs) → length bs = n →
  rd off n (p_data (frame' sig1 sig2 ct pad)) = Some bs.
Proof.
  intros cs Hb -> <-. cbn [frame arg_parsed p_data]. fold cs.
  assert (take 1 (drop (S i) (link :: cs)) = [bs]) as Ht.
  { cbn [drop]. by rewrite (drop_S _ _ _ Hb). }
  rewrite (rd_chunks (S i) 1); rewrite ?Ht.
  - cbn [concat]. by rewrite app_nil_r.
  - cbn [take]. by rewrite span_cons.
  - by rewrite span_cons, span_nil, Z.add_0_r.
Qed.

Lemma frame_addrs sig1 sig2 pad :
  rd (Z.of_nat (length link) + 12) ADDR_SIZE (p_data (frame' sig1 sig2 ct pad)) = Some saddr
  ∧ rd (Z.of_nat (length link) + 16) ADDR_SIZE (p_data (frame' sig1 sig2 ct pad)) = Some daddr.
Proof.
  destruct Hrcv as [_ Hsl Hdl _ _].
  split; [apply (frame_load 8)|apply (frame_load 9)]; first [done | frame_eq].
Qed.

Lemma frame_type sig1 sig2 pad :
  0 ≤ type < 256 → rd8 (arg_at + arg_type_off) (p_data (frame' sig1 sig2 ct pad)) = Some type.
Proof.
  intros Ht. destruct Hrcv as [_ Hsl Hdl _ _]. unfold rd8.
  rewrite (frame_load 11 _ (le_bytes 1 type)) by first [done | frame_eq].
  rewrite some_fmap, le_val_bytes. f_equal. by apply Z.mod_small.
Qed.

Lemma frame_len sig1 sig2 pad :
  rd16 (arg_at + arg_len_off) (p_data (frame' sig1 sig2 ct pad)) = Some (htons alen).
Proof.
  destruct Hrcv as [_ Hsl Hdl _ _]. unfold rd16.
  rewrite (frame_load 12 _ (le_bytes 2 (htons alen))) by first [done | frame_eq].
  by rewrite some_fmap, le_val_htons.
Qed.

Lemma frame_seq sig1 sig2 pad :
  rd32 (arg_at + arg_seq_off) (p_data (frame' sig1 sig2 ct pad)) = Some (htonl seq).
Proof.
  destruct Hrcv as [_ Hsl Hdl _ _]. unfold rd32.
  rewrite (frame_load 13 _ (le_bytes 4 (htonl seq))) by first [done | frame_eq].
  by rewrite some_fmap, le_val_htonl.
Qed.

Lemma frame_body pad :
  rd arg_at (Z.to_nat alen) (p_data (frame' (zeros 32) (zeros 96) ct pad))
  = Some (signed_part type alen seq ct).
Proof.
  destruct Hrcv as [_ Hsl Hdl Hlen _]. cbn [frame arg_parsed p_data].
  rewrite (rd_chunks 11 7) by frame_eq.
  unfold datagram, ip_chunks, arg_chunks, signed_part. cbn [app take drop concat].
  change (zeros 128) with (zeros 32 ++ zeros 96). by rewrite <- !app_assoc.
Qed.

Lemma frame_sig sig1 sig2 pad :
  length sig1 = 32%nat → length sig2 = 96%nat →
  rd (arg_at + arg_sig_off) RSA_SIG_SIZE (p_data (frame' sig1 sig2 ct pad)) = Some (sig1 ++ sig2).
Proof.
  intros H1 H2. destruct Hrcv as [_ Hsl Hdl _ _]. cbn [frame arg_parsed p_data].
  rewrite (rd_chunks 15 2) by frame_eq.
  unfold datagram, ip_chunks, arg_chunks. cbn [app take drop concat]. by rewrite app_nil_r.
Qed.

Lemma frame_store_sig sig1 sig2 pad xs ys :
  length sig1 = 32%nat → length sig2 = 96%nat → length xs = 32%nat → length ys = 96%nat →
  wr (arg_at + arg_sig_off) (xs ++ ys) (p_data (frame' sig1 sig2 ct pad))
  = Some (p_data (frame' xs ys ct pad)).
Proof.
  intros H1 H2 H3 H4. destruct Hrcv as [_ Hsl Hdl _ _]. cbn [frame arg_parsed p_data].
  rewrite (wr_two 15 _ sig1 sig2); [done|done|done|frame_eq|congruence..].
Qed.

Lemma frame_store_mac sig1 sig2 pad h :
  length sig1 = 32%nat → length h = 32%nat →
  wr (arg_at + arg_sig_off) h (p_data (frame' sig1 sig2 ct pad))
  = Some (p_data (frame' h sig2 ct pad)).
Proof.
  intros H1 H2. destruct Hrcv as [_ Hsl Hdl _ _]. cbn [frame arg_parsed p_data].
  rewrite (wr_chunk 15 _ sig1); [done|done|frame_eq|congruence].
Qed.

Lemma wp_bind_copy {B} sig1 sig2 pad (k : option packet_data → prog B) Q w :
  length sig1 = 32%nat → length sig2 = 96%nat →
  wp (k (Some (frame' sig1 sig2 ct []))) Q (w <| w_malloc ::= S |> <| w_malloc ::= S |>) →
  wp (copy_packet (frame' sig1 sig2 ct pad) ≫= k) Q w.
Proof.
  intros Hs1 Hs2 Hk. destruct Hrcv as [Hlink Hsl Hdl Hlen Hsize].
  unfold copy_packet.
  apply wp_assoc, wp_bind_malloc. rewrite mallocs_ok. cbn [negb].
  apply wp_assoc, wp_bind_malloc. rewrite mallocs_ok. cbn [negb].
  apply wp_assoc. eapply wp_bind_load.
  { cbn [frame arg_parsed p_data p_len]. eapply (rd_chunks 0 18); [done|frame_eq]. }
  apply wp_assoc. eapply (wp_bind_lift _ (0, frame' sig1 sig2 ct [])); [|exact Hk].
  cbn [frame arg_parsed p_len p_linkLayerLen].
  erewrite (parse_frame _ link); [|done|done|
    cbn [p_data take drop]; unfold datagram, arg_chunks; cbn [ip_chunks app take]; reflexivity].
  rewrite u16_small by lia. cbn [p_data]. unfold frame. by do 3 f_equal.
Qed.

(** The check compares the whole signature field with the HMAC and 96 zeros. *)
Lemma check_hmac_any {B} r sig1 sig2 pad (k : Z + packet_data → prog B) Q remote w :
  type = ARG_WRAPPED_MSG → w_gates w !! remote = Some r → connected r = true →
  length sig1 = 32%nat → length sig2 = 96%nat →
  let h := mac (symKey r) alen seq ct in
  (∀ md', wp (k (if decide (h ++ zeros 96 ≠ sig1 ++ sig2) then inl (- ARG_SIG_CHECK_FAILED)
                 else inr (frame' h (zeros 96) ct []))) Q (set_gate remote (set_md md' r) w)) →
  wp (check_signature remote (frame' sig1 sig2 ct pad) (frame' sig1 sig2 ct []) alen ≫= k) Q w.
Proof.
  intros Ht Hr Hconn Hs1 Hs2 h Hk. pose proof (length_mac (symKey r) alen seq ct) as Hh. fold h in Hh.
  apply wp_bind. unfold check_signature. eapply wp_bind_lift; [done|].
  eapply wp_bind_lift; [apply frame_type; by rewrite Ht|].
  eapply wp_bind_store; [by apply (frame_store_sig _ _ _ (zeros 32) (zeros 96))|].
  eapply wp_bind_lift; [done|]. eapply wp_bind_get; [done|].
  rewrite decide_True, Hconn by done. cbn [negb].
  eapply wp_bind_load; [apply frame_body|].
  pose proof (md_hmac_ok (md r) (symKey r) (signed_part type alen seq ct)) as Hmd.
  destruct (md_hmac_finish _) as [h' md']. cbn [fst] in Hmd.
  assert (h' = h) as -> by (by rewrite Hmd, Ht).
  eapply wp_bind_upd; [done|].
  eapply wp_bind_store; [by apply frame_store_mac|].
  eapply wp_bind_load; [by apply frame_sig|]. eapply wp_bind_load; [by apply frame_sig|].
  apply Hk.
Qed.

Lemma check_hmac {B} r pad (k : Z + packet_data → prog B) Q remote w :
  type = ARG_WRAPPED_MSG → w_gates w !! remote = Some r → connected r = true →
  let h := mac (symKey r) alen seq ct in
  (∀ md', wp (k (inr (frame' h (zeros 96) ct []))) Q (set_gate remote (set_md md' r) w)) →
  wp (check_signature remote (frame' h (zeros 96) ct pad) (frame' h (zeros 96) ct []) alen ≫= k) Q w.
Proof.
  intros Ht Hr Hconn h Hk. apply (check_hmac_any r); [done..|apply length_mac|done|].
  intros md'. rewrite decide_False by (intros Hn; by apply Hn). apply Hk.
Qed.

(** The datagram as it travels, and the frame the receiver parses. *)
Lemma wire_rd sig1 sig2 pad :
  length sig1 = 32%nat → length sig2 = 96%nat →
  rd 0 (Z.to_nat (20 + alen)) (concat (datagram saddr daddr type alen seq sig1 sig2 ct pad))
  = Some (concat (datagram saddr daddr type alen seq sig1 sig2 ct [])).
Proof.
  intros Hs1 Hs2. destruct Hrcv as [_ Hsl Hdl Hlen _].
  rewrite (rd_chunks 0 17); [done|done|frame_eq].
Qed.

Lemma wire_bytes sig1 sig2 pad :
  length sig1 = 32%nat → length sig2 = 96%nat →
  take (Z.to_nat (20 + alen)) (concat (datagram saddr daddr type alen seq sig1 sig2 ct pad))
  = concat (datagram saddr daddr type alen seq sig1 sig2 ct []).
Proof.
  intros Hs1 Hs2. pose proof (wire_rd sig1 sig2 pad Hs1 Hs2) as (_ & _ & Hr)%rd_Some.
  change (Z.to_nat 0) with 0%nat in Hr. rewrite drop_0 in Hr. by rewrite <- Hr.
Qed.

Lemma wire_daddr sig1 sig2 pad :
  ip_daddr 0 (concat (datagram saddr daddr type alen seq sig1 sig2 ct pad)) = Some (le_val daddr).
Proof.
  destruct Hrcv as [_ Hsl Hdl _ _]. unfold ip_daddr, rd32.
  rewrite (rd_chunks 9 1) by frame_eq.
  unfold datagram, ip_chunks. cbn [app take drop concat]. by rewrite app_nil_r.
Qed.

Lemma wire_frame sig1 sig2 trailer :
  length sig1 = 32%nat → length sig2 = 96%nat →
  parse_packet (raw_packet (Z.of_nat (length link))
    (link ++ concat (datagram saddr daddr type alen seq sig1 sig2 ct []) ++ trailer))
  = Some (0, frame' sig1 sig2 ct trailer).
Proof.
  intros Hs1 Hs2. destruct Hrcv as [Hlink Hsl Hdl Hlen Hsize].
  assert (link ++ concat (datagram saddr daddr type alen seq sig1 sig2 ct []) ++ trailer
    = concat (link :: datagram saddr daddr type alen seq sig1 sig2 ct trailer)) as ->.
  { unfold datagram, arg_chunks. cbn [concat]. rewrite !concat_app, <- !app_assoc. cbn [concat].
    by rewrite <- !app_assoc, !app_nil_r, !app_nil_l. }
  erewrite (parse_frame _ link); [|done|done|unfold datagram; reflexivity].
  rewrite u16_small by lia. done.
Qed.

Lemma decrypt_ok {B} g k sig1 sig2 pad (f : Z + option argmsg → prog B) Q local w :
  is_symmetric type = true → 0 ≤ type < 256 → 0 < Z.of_nat (length ct) →
  w_gates w !! local = Some g → keyed (cipher g) k →
  length sig1 = 32%nat → length sig2 = 96%nat →
  let pt := xor_bytes ct (stream k (mix_nounce (iv g) (htonl seq)) 0 (length ct)) in
  (∀ c' rest, wp (f (inr (Some (ArgMsg (Z.of_nat (length ct)) (pt ++ rest))))) Q
     (set_gate local (set_cipher c' g) (w <| w_malloc ::= S |> <| w_malloc ::= S |>))) →
  wp (decrypt_body local (frame' sig1 sig2 ct pad) (frame' sig1 sig2 ct []) alen ≫= f) Q w.
Proof.
  intros Hsym Ht Hn Hl Hk Hs1 Hs2 pt HQ. pose proof Hrcv as [_ Hsl Hdl Hlen Hsize].
  apply wp_bind. unfold decrypt_body. rewrite decide_True by (unfold ARG_HDR_LEN; lia).
  unfold create_arg_msg. apply wp_assoc, wp_bind_malloc. rewrite mallocs_ok. cbn [negb].
  apply wp_assoc, wp_bind_malloc. rewrite mallocs_ok. cbn [negb].
  apply wp_bind, wp_ret. eapply wp_bind_lift; [done|].
  eapply wp_bind_lift; [by apply frame_type|]. rewrite Hsym. apply wp_fmap.
  unfold decrypt_symmetric. eapply wp_bind_lift; [done|]. eapply wp_bind_get; [done|].
  eapply wp_bind_lift; [by apply frame_seq|]. eapply wp_bind_lift; [done|].
  replace (alen - ARG_HDR_LEN) with (Z.of_nat (length ct)) by (unfold ARG_HDR_LEN; lia).
  assert (length pt = length ct) as Hpt by (unfold pt; rewrite length_xor, length_stream; lia).
  eapply (wp_bind_cipher_loop (Z.to_nat alen) k _ _ _ _ _ _ _ ct (pt ++ zeros 136));
    [by apply cipher_reset_ok|lia|lia|..].
  - rewrite Nat2Z.id. eapply (frame_load 16); [done| |done].
    frame_eq.
  - rewrite Nat2Z.id. fold pt. cbn [m_data].
    replace (Z.to_nat alen) with (length ct + 136)%nat by lia. rewrite zeros_app.
    apply wr_Some. rewrite !length_app. unfold zeros. rewrite !length_replicate. split_and!; [done|lia|].
    cbn. rewrite Hpt, drop_app_ge by (rewrite length_replicate; lia). rewrite length_replicate.
    by rewrite Nat.sub_diag, drop_0.
  - intros c'. eapply wp_bind_upd; [done|]. apply wp_ret, HQ.
Qed.

Lemma process_wrapped local remote gl gr k pad w :
  type = ARG_WRAPPED_MSG → 0 ≤ seq < 2 ^ 32 → 0 < Z.of_nat (length ct) →
  local ≠ remote → w_gates w !! local = Some gl → w_gates w !! remote = Some gr →
  connected gr = true → keyed (cipher gl) k →
  seq_check ARG_WRAPPED_MSG seq (inSeqNum (proto gr)) = SeqAdvance →
  let h := mac (symKey gr) alen seq ct in
  let pt := xor_bytes ct (stream k (mix_nounce (iv gl) (htonl seq)) 0 (length ct)) in
  wp (process_arg_packet local remote (frame' h (zeros 96) ct pad)) (λ r w',
    ∃ c' md' rest, r = (0, Some (ArgMsg (Z.of_nat (length ct)) (pt ++ rest)))
    ∧ w_gates w' = <[local := set_cipher c' gl]>
        (<[remote := set_md md' (set_inSeqNum seq gr)]> (w_gates w))
    ∧ w_sent w' = w_sent w) w.
Proof.
  intros Ht Hseq Hn Hne Hl Hr Hconn Hk Hv h pt. pose proof Hrcv as [_ _ _ Hlen Hsize].
  pose proof (length_mac (symKey gr) alen seq ct) as Hh. fold h in Hh.
  unfold process_arg_packet. eapply wp_bind_lift; [done|].
  eapply wp_bind_lift; [apply frame_seq|]. eapply wp_bind_lift; [apply frame_type; by rewrite Ht|].
  eapply wp_bind_get; [done|].
  rewrite ntohl_htonl, u32_small by done. 
  assert (seq_check type seq (inSeqNum (proto gr)) = SeqAdvance) as -> by by rewrite Ht.
  rewrite decide_False, decide_True by done.
  eapply wp_bind_upd; [done|]. apply wp_bind_copy; [done|done|].
  eapply wp_bind_lift; [done|]. eapply wp_bind_lift; [apply frame_len|].
  rewrite ntohs_htons, u16_small by lia.
  apply (check_hmac (set_inSeqNum seq gr)); [done|apply set_gate_same|done|].
  intros md'. eapply (decrypt_ok gl k); [by rewrite Ht|by rewrite Ht|done| |done|done|done|].
  { unfold set_gate. cbn [w_gates upd]. by rewrite !lookup_insert_ne by congruence. }
  intros c' rest. rewrite decide_False by done. apply wp_ret.
  exists c', md', rest. split_and!; [done| |done]. unfold set_gate. cbn [w_gates upd].
  by rewrite insert_insert_eq.
Qed.
End Receive.
End RoundTrip.

Section Reject.
Context `{Hok : PolarSSL_ok} `{Env}.

(** A sequence number that is not accepted: nothing else is looked at. *)
Lemma reject_run link saddr daddr alen seq ct local remote gr sig1 sig2 pad w :
  fields_ok link saddr daddr alen ct → 0 ≤ seq < 2 ^ 32 →
  w_gates w !! remote = Some gr →
  seq_check ARG_WRAPPED_MSG seq (inSeqNum (proto gr)) = SeqReject →
  process_arg_packet local remote (frame link saddr daddr ARG_WRAPPED_MSG alen seq sig1 sig2 ct pad) w = Done (- ARG_SEQ_BAD, None) w.
Proof.
  intros Hrcv Hseq Hr Hv.
  assert (wp (process_arg_packet local remote (frame link saddr daddr ARG_WRAPPED_MSG alen seq sig1 sig2 ct pad))
    (λ r w', r = (- ARG_SEQ_BAD, None) ∧ w' = w) w) as Hw.
  { unfold process_arg_packet. eapply wp_bind_lift; [done|].
    eapply wp_bind_lift; [by apply frame_seq|]. eapply wp_bind_lift; [by apply frame_type|].
    eapply wp_bind_get; [done|]. rewrite ntohl_htonl, u32_small, Hv by done.
    by rewrite decide_True. }
  apply wp_elim in Hw as (r & w' & -> & -> & ->). done.
Qed.

(** A sequence number is rejected once it has been recorded. *)
Lemma seq_check_same s : seq_check ARG_WRAPPED_MSG s s = SeqReject.
Proof.
  unfold seq_check, SEQ_NUM_WRAP_ALLOWANCE, UINT16_MAX. rewrite decide_False by lia. done.
Qed.

End Reject.

(** ** From one gateway to the other *)

(** Gateway A (its record [la], its record [ra] of B) and gateway B (its record
    [lb], its record [rb] of A) share their keys, and B accepts A's sequence
    number. *)
Record peers `{PolarSSL_ok} (la ra lb rb : arg_network_info) : Prop := {
  peers_la : gate_wf la; peers_ra : gate_wf ra;
  peers_connected : connected ra = true ∧ connected rb = true;
  peers_cipher : ∃ k, keyed (cipher ra) k ∧ keyed (cipher lb) k;
  peers_iv : iv ra = iv lb;
  peers_hmac : symKey la = symKey rb;
  peers_seq : 0 ≤ outSeqNum (proto ra) < 2 ^ 32
    ∧ seq_check ARG_WRAPPED_MSG (outSeqNum (proto ra)) (inSeqNum (proto rb)) = SeqAdvance }.

(** C7. A wrapped message survives the trip: what gateway A builds, framed with
    any link header and any trailing bytes, is parsed, authenticated and
    decrypted by gateway B into the message that A was given; A's next packet
    gets the next sequence number; delivered to B a second time the same packet
    is refused with [- ARG_SEQ_BAD] and changes nothing. *)
Theorem wrapped_round_trip `{Hok : PolarSSL_ok} (EA EB : Env)
    localA remoteA localB remoteB la ra lb rb (wA wB : world) msg n link trailer :
  (∀ i, @env_malloc EA i = true) → (∀ i, @env_malloc EB i = true) →
  w_gates wA !! localA = Some la → w_gates wA !! remoteA = Some ra → localA ≠ remoteA →
  w_gates wB !! localB = Some lb → w_gates wB !! remoteB = Some rb → localB ≠ remoteB →
  peers la ra lb rb →
  m_len msg = Z.of_nat n → (0 < n ≤ length (m_data msg))%nat →
  0 ≤ rsa_len (rsa la) → 156 + Z.of_nat n + rsa_len (rsa la) < 2 ^ 16 →
  link_ok link →
  ∃ p wA' q out wB' gA gB,
    @create_arg_packet _ EA localA remoteA ARG_WRAPPED_MSG (Some msg) wA = Done (0, Some p) wA'
    ∧ parse_packet (raw_packet (Z.of_nat (length link))
        (link ++ take (Z.to_nat (p_len p)) (p_data p) ++ trailer)) = Some (0, q)
    ∧ @process_arg_packet _ EB localB remoteB q wB = Done (0, Some out) wB'
    ∧ m_len out = m_len msg ∧ take n (m_data out) = take n (m_data msg)
    ∧ w_gates wA' !! remoteA = Some gA ∧ outSeqNum (proto gA) = u32 (outSeqNum (proto ra) + 1)
    ∧ w_gates wB' !! remoteB = Some gB ∧ inSeqNum (proto gB) = outSeqNum (proto ra)
    ∧ @process_arg_packet _ EB localB remoteB q wB' = Done (- ARG_SEQ_BAD, None) wB'.
Proof.
  intros HmA HmB HlA HrA HneA HlB HrB HneB [Hla Hra [HcA HcB] [k [HkA HkB]] Hiv Hhmac [Hseq Hv]]
    Hlen [Hn Hdata] Hrsa Hsize Hlink.
  pose proof (create_wrapped HmA localA remoteA la ra k msg n wA HneA HlA HrA Hla Hra HcA HkA Hlen
    Hdata Hrsa Hsize) as Hcr.
  apply wp_elim in Hcr as (rA & wA' & HrunA & saddr & daddr & mdA & cA & Hst & -> & HgA & _).
  set (seq := outSeqNum (proto ra)) in *. set (alen := Z.of_nat n + 136) in *.
  set (ct := cipher_text k (iv ra) seq n (m_data msg)) in *.
  assert (length ct = n) as Hct by by apply length_cipher_text.
  destruct Hst as (_ & _ & Hsl & Hdl).
  assert (fields_ok link saddr daddr alen ct) as Hf by (split; (done || unfold alen; lia)).
  pose proof (length_mac (symKey la) alen seq ct) as Hh. set (h := mac (symKey la) alen seq ct) in *.
  assert (h = mac (symKey rb) alen seq ct) as Hh' by (unfold h; by rewrite Hhmac).
  pose proof (process_wrapped HmB link saddr daddr ARG_WRAPPED_MSG alen seq ct Hf localB remoteB lb rb k
    trailer wB eq_refl Hseq ltac:(lia) HneB HlB HrB HcB HkB Hv) as Hpr.
  cbv zeta in Hpr. rewrite <- Hh', Hct in Hpr.
  apply wp_elim in Hpr as (rB & wB' & HrunB & cB & mdB & rest & -> & HgB & _).
  do 7 eexists. split_and!; [exact HrunA| |exact HrunB|..].
  - cbn [arg_parsed p_len p_data].
    replace (Z.to_nat (0 + (20 + alen))) with (Z.to_nat (20 + alen)) by lia.
    erewrite wire_bytes by done. by eapply wire_frame.
  - by rewrite Hlen.
  - cbn [m_data]. rewrite take_app_le, take_ge by (rewrite length_xor, length_stream; lia).
    unfold ct, cipher_text. rewrite Hiv. apply xor_cancel. rewrite length_take, length_stream. lia.
  - rewrite HgA, lookup_insert_ne by done. apply lookup_insert_eq.
  - done.
  - rewrite HgB, lookup_insert_ne by done. apply lookup_insert_eq.
  - done.
  - eapply reject_run; [exact Hf|done|rewrite HgB, lookup_insert_ne by done; apply lookup_insert_eq|]. apply seq_check_same.
Qed.

(** A's record [gateA] of itself and [gateB] of B, and the other way round at B;
    the message is [104; 105]; the frame has an Ethernet header and a trailer. *)
Definition eth_header : list Z := zeros 12 ++ [8; 0].

Lemma toy_peers : peers (gateA (Some 2%positive) None) (gateB None (Some 1%positive))
  (gateB (Some 2%positive) None) (gateA None (Some 1%positive)).
Proof.
  split; try (by apply toy_gate_wf); try done.
  - by eexists.
Defined.

Lemma wrapped_round_trip_witness :
  ∃ p wA' q out wB' gA gB,
    create_arg_packet 1%positive 2%positive ARG_WRAPPED_MSG (Some (ArgMsg 2 [104; 105])) worldA
      = Done (0, Some p) wA'
    ∧ parse_packet (raw_packet 14 (eth_header ++ take (Z.to_nat (p_len p)) (p_data p) ++ [1; 2; 3]))
      = Some (0, q)
    ∧ process_arg_packet 1%positive 2%positive q worldB = Done (0, Some out) wB'
    ∧ m_len out = 2 ∧ take 2 (m_data out) = [104; 105]
    ∧ w_gates wA' !! 2%positive = Some gA ∧ outSeqNum (proto gA) = 6
    ∧ w_gates wB' !! 2%positive = Some gB ∧ inSeqNum (proto gB) = 5
    ∧ process_arg_packet 1%positive 2%positive q wB' = Done (- ARG_SEQ_BAD, None) wB'.
Proof.
  apply (wrapped_round_trip toy_env toy_env 1%positive 2%positive 1%positive 2%positive
    (gateA (Some 2%positive) None) (gateB None (Some 1%positive))
    (gateB (Some 2%positive) None) (gateA None (Some 1%positive)) worldA worldB (ArgMsg 2 [104; 105]) 2 eth_header [1; 2; 3]); try done.
  - exact toy_peers.
  - cbn. lia.
  - intros _. by exists 8.
Defined.

(** 65472 bytes for B: 65756 bytes, in a buffer of 220. *)
Definition long_msg : argmsg := ArgMsg 65472 (zeros (Z.to_nat 65472)).

Lemma oversized_message_overflows_witness :
  full_len (Some long_msg) 128 = 220
  ∧ create_arg_packet 1%positive 2%positive ARG_WRAPPED_MSG (Some long_msg) worldA = Fault.
Proof.
  assert (Z.of_nat (Z.to_nat 65472) = 65472) as Hn by lia.
  assert (Z.to_nat 65472 ≤ length (m_data long_msg))%nat as Hd
    by (unfold long_msg, zeros; cbn [m_data]; by rewrite length_replicate).
  destruct (peers_cipher _ _ _ _ toy_peers) as (k & Hk & _).
  pose proof (oversized_message_overflows (λ _, eq_refl) 1%positive 2%positive
    (gateA (Some 2%positive) None) (gateB None (Some 1%positive)) k long_msg (Z.to_nat 65472) worldA
    ltac:(done) eq_refl eq_refl ltac:(by apply toy_gate_wf) ltac:(by apply toy_gate_wf) eq_refl) as Ho.
  change (rsa_len (rsa (gateA (Some 2%positive) None))) with 128 in Ho. cbv zeta in Ho. rewrite Hn in Ho.
  rewrite decide_False in Ho by lia. by apply Ho; [exact Hk|done|exact Hd|lia|lia|right; lia].
Defined.
