(* ===== verification/AdminTrip.v ===== *)
(** * Administrative messages from one gateway to the other (src/protocol.c)

    Pings and connection data are encrypted with the receiver's public key and
    signed with the sender's private key: what [create_arg_packet] builds for
    them, and that [process_arg_packet] gives the message back. *)

From S2P Require Import Prelude Words Settings ArgError Utility Crypto Packet PacketFacts Gate World Net Layout Hopper HopperFacts Message ArgPacket CipherLoop ToyCrypto ToyWorld RoundTrip.

(** The keys the program uses are as long as the signature field. *)
Abbreviation KEY_LEN := (Z.of_nat RSA_SIG_SIZE).

(** A message that fits under a key. *)
Record fits_key (msg : argmsg) (m : list Z) : Prop := {
  fk_len : m_len msg = Z.of_nat (length m);
  fk_data : ∃ rest, m_data msg = m ++ rest;
  fk_bytes : bytes_ok m;
  fk_size : Z.of_nat (length m) ≤ KEY_LEN - 11 }.

(** The two halves of a signature as the field stores them. *)
Abbreviation sig_lo s := (take 32 s).
Abbreviation sig_hi s := (drop 32 s).

Section AdminTrip.
Context `{Hok : PolarSSL_ok} `{Env}.
Hypothesis mallocs_ok : ∀ n, env_malloc n = true.

(** ** Sending *)

Lemma encrypt_rsa_run local remote gl gr msg m ct rng' saddr daddr type seq w Q :
  w_gates w !! local = Some gl → w_gates w !! remote = Some gr →
  fits_key msg m → rsa_len (rsa gr) = KEY_LEN →
  rsa_pkcs1_encrypt (rsa gr) (ctr_drbg gl) m = (0, ct, rng') → length ct = RSA_SIG_SIZE →
  length saddr = ADDR_SIZE → length daddr = ADDR_SIZE →
  let n := RSA_SIG_SIZE in
  Q (with_data (header_packet saddr daddr type seq n (length m))
      (concat (ip_chunks 20 saddr daddr
         ++ [[1]; le_bytes 1 type; le_bytes 2 (htons (Z.of_nat n + 136)); le_bytes 4 (htonl seq);
             zeros 32; zeros 96; ct; zeros (length m)])))
    (set_gate local (gl <| ctr_drbg := rng' |>) w) →
  wp (encrypt_rsa local remote 20 msg (header_packet saddr daddr type seq n (length m))) Q w.
Proof using Type.
  intros Hl Hr [Hlen [rest Hdata] _ _] Hk Henc Hct Hsl Hdl n HQ. unfold encrypt_rsa.
  eapply wp_bind_get; [done|]. rewrite Hk. change (u16 (u16 KEY_LEN + ARG_HDR_LEN)) with (Z.of_nat n + 136).
  unfold header_packet, arg_parsed, ip_chunks in *. cbn [app].
  do_store 12%nat.
  eapply wp_bind_get; [done|]. rewrite Hlen, Nat2Z.id, Hdata.
  eapply wp_bind_lift; [by apply rd_app_l|]. rewrite Henc.
  eapply wp_bind_upd; [done|]. eapply wp_bind_lift; [done|]. apply wp_bind_right.
  eapply wp_bind_store; [|cbn [insert list_insert]; exact HQ].
  cbn [p_data with_data upd]. eapply (wr_chunk 16); [reflexivity|span_eq|].
  unfold zeros. by rewrite length_replicate.
Qed.

(** The signature goes into the whole field. *)
Lemma finish_signed local type g saddr daddr seq m ct sig w Q :
  w_gates w !! local = Some g → type ≠ ARG_WRAPPED_MSG → length ct = RSA_SIG_SIZE →
  length saddr = ADDR_SIZE → length daddr = ADDR_SIZE →
  let n := RSA_SIG_SIZE in let alen := Z.of_nat n + 136 in
  rsa_pkcs1_sign (rsa g) (sha1 (signed_part type alen seq ct)) = (0, sig) → length sig = RSA_SIG_SIZE →
  Q (0, Some (arg_parsed 0 (20 + alen)
        (concat (datagram saddr daddr type alen seq (sig_lo sig) (sig_hi sig) ct (zeros m))))) w →
  wp (finish local type 20 (inr (with_data (header_packet saddr daddr type seq n m)
        (concat (ip_chunks 20 saddr daddr
         ++ [[1]; le_bytes 1 type; le_bytes 2 (htons alen); le_bytes 4 (htonl seq);
             zeros 32; zeros 96; ct; zeros m]))))) Q w.
Proof using Type.
  intros Hl Ht Hct Hsl Hdl n alen Hsig Hsl' HQ. apply finish_packet_run; [done..|].
  destruct (signing_body type saddr daddr seq ct (zeros m) Hsl Hdl) as [Halen Hbody]; [by rewrite Hct|].
  rewrite Hct in Halen, Hbody. fold n alen in Halen, Hbody.
  apply wp_bind. unfold sign_packet. eapply wp_bind_lift; [done|].
  eapply wp_bind_lift; [exact Halen|]. eapply wp_bind_load; [exact Hbody|].
  eapply wp_bind_get; [done|]. rewrite decide_False by done. rewrite Hsig.
  rewrite decide_False by lia. apply wp_fmap, wp_bind_right.
  eapply wp_bind_store; [|exact HQ].
  cbn [arg_parsed p_data]. rewrite <- (take_drop 32 sig) at 1.
  rewrite (wr_two 14 _ (zeros 32) (zeros 96)); [done|done|done|frame_eq|..];
    rewrite ?length_take, ?length_drop, Hsl'; done.
Qed.

(** The whole of [create_arg_packet] for a ping or connection data. *)
Lemma create_signed local remote gl gr type msg m ct rng' w :
  local ≠ remote → w_gates w !! local = Some gl → w_gates w !! remote = Some gr →
  gate_wf gl → gate_wf gr → is_symmetric type = false →
  fits_key msg m → rsa_len (rsa gl) = KEY_LEN → rsa_len (rsa gr) = KEY_LEN →
  rsa_pkcs1_encrypt (rsa gr) (ctr_drbg gl) m = (0, ct, rng') → length ct = RSA_SIG_SIZE →
  let seq := outSeqNum (proto gr) in let alen := KEY_LEN + 136 in
  ∀ sig, rsa_pkcs1_sign (rsa gl) (sha1 (signed_part type alen seq ct)) = (0, sig) →
  length sig = RSA_SIG_SIZE →
  wp (create_arg_packet local remote type (Some msg)) (λ r w',
    ∃ saddr daddr, stamped gl gr w saddr daddr
    ∧ r = (0, Some (arg_parsed 0 (20 + alen) (concat (datagram saddr daddr type alen seq
        (sig_lo sig) (sig_hi sig) ct (zeros (length m))))))
    ∧ w' = set_gate local (gl <| ctr_drbg := rng' |>) (header_world remote gr w)) w.
Proof using All.
  intros Hne Hl Hr Hwl Hwr Hsym Hfit Hkl Hkr Henc Hct seq alen sig Hsig Hsigl.
  eapply (create_header mallocs_ok _ _ gl gr _ _ RSA_SIG_SIZE (length m)); [done..| |].
  { destruct Hfit as [Hlen _ _ Hs]. unfold full_len, ARG_HDR_LEN. rewrite Hlen, Hkl.
    change (u16 (20 + 136)) with 156. unfold RSA_SIG_SIZE in *.
    rewrite (u16_small (156 + _)), u16_small by lia. lia. }
  intros saddr daddr Hst. pose proof Hst as (_ & _ & Hsl & Hdl).
  apply wp_assoc. unfold encrypt_body.
  eapply wp_bind_get; [apply set_gate_same|]. rewrite Hsym. cbn [with_proto rsa upd].
  rewrite decide_False by (rewrite (fk_len _ _ Hfit), Hkr; destruct Hfit; lia).
  apply wp_bind, wp_fmap.
  eapply (encrypt_rsa_run local remote gl _ msg m ct rng'); [|apply set_gate_same|done|done|done|done|done|done|].
  { unfold header_world. by rewrite set_gate_ne by congruence. }
  eapply (finish_signed local type (gl <| ctr_drbg := rng' |>)); [apply set_gate_same| |done|done|done|exact Hsig|done|].
  { intros ->. done. }
  exists saddr, daddr. split_and!; [done|done|done].
Qed.

(** ** Receiving *)

Section Receive.
Context (link saddr daddr : list Z) (type alen seq : Z) (ct sig : list Z).
Hypothesis Hrcv : fields_ok link saddr daddr alen ct.
Hypothesis Htype : 0 ≤ type < 256 ∧ is_symmetric type = false.
Hypothesis Hct : length ct = RSA_SIG_SIZE.
Hypothesis Hsig : length sig = RSA_SIG_SIZE.

Abbreviation signed_frame pad :=
  (frame link saddr daddr type alen seq (sig_lo sig) (sig_hi sig) ct pad).
Abbreviation bare_frame := (frame link saddr daddr type alen seq (zeros 32) (zeros 96) ct []).

Lemma length_lo : length (sig_lo sig) = 32%nat.
Proof using Hsig. by rewrite length_take, Hsig. Qed.
Lemma length_hi : length (sig_hi sig) = 96%nat.
Proof using Hsig. by rewrite length_drop, Hsig. Qed.

Lemma type_not_wrapped : type ≠ ARG_WRAPPED_MSG.
Proof using Htype. destruct Htype as [_ Hs]. by intros ->. Qed.

Lemma check_signed {B} r pad (k : Z + packet_data → prog B) Q remote w :
  w_gates w !! remote = Some r → rsa_len (rsa r) = KEY_LEN →
  rsa_pkcs1_verify (rsa r) (sha1 (signed_part type alen seq ct)) sig = 0 →
  wp (k (inr bare_frame)) Q w →
  wp (check_signature remote (signed_frame pad) (signed_frame []) alen ≫= k) Q w.
Proof using Hrcv Htype Hct Hsig.
  intros Hr Hkl Hver Hk. pose proof length_lo as Hlo. pose proof length_hi as Hhi.
  apply wp_bind. unfold check_signature. eapply wp_bind_lift; [done|].
  eapply wp_bind_lift; [eapply frame_type; [exact Hrcv|apply Htype]|].
  eapply wp_bind_store; [eapply (frame_store_sig _ _ _ _ _ _ _ Hrcv _ _ _ (zeros 32) (zeros 96)); done|].
  eapply wp_bind_lift; [done|]. eapply wp_bind_get; [done|].
  rewrite decide_False by apply type_not_wrapped.
  eapply wp_bind_load; [by eapply frame_body|].
  rewrite Hkl, Nat2Z.id. eapply wp_bind_load; [by eapply frame_sig|].
  rewrite take_drop, Hver. apply wp_ret. by rewrite decide_False by lia.
Qed.

Lemma decrypt_signed {B} g m pad (k : Z + option argmsg → prog B) Q local w :
  w_gates w !! local = Some g → rsa_len (rsa g) = KEY_LEN →
  rsa_pkcs1_decrypt (rsa g) ct alen = (0, m) → Z.of_nat (length m) ≤ KEY_LEN →
  (∀ rest, wp (k (inr (Some (ArgMsg (Z.of_nat (length m)) (m ++ rest))))) Q
     (w <| w_malloc ::= S |> <| w_malloc ::= S |>)) →
  wp (decrypt_body local (signed_frame pad) bare_frame alen ≫= k) Q w.
Proof using All.
  intros Hl Hkl Hdec Hm HQ. pose proof Hrcv as [_ Hsl Hdl Hlen Hsize]. destruct Htype as [Ht Hsym].
  apply wp_bind. unfold decrypt_body. rewrite decide_True by (unfold ARG_HDR_LEN, RSA_SIG_SIZE in *; lia).
  unfold create_arg_msg. apply wp_assoc, wp_bind_malloc. rewrite mallocs_ok. cbn [negb].
  apply wp_assoc, wp_bind_malloc. rewrite mallocs_ok. cbn [negb].
  apply wp_bind, wp_ret. eapply wp_bind_lift; [done|].
  eapply wp_bind_lift; [by eapply frame_type|]. rewrite Hsym.
  unfold decrypt_rsa. apply wp_assoc. eapply wp_bind_get; [done|].
  apply wp_assoc. eapply wp_bind_lift; [done|]. rewrite Hkl, Nat2Z.id.
  apply wp_assoc. eapply wp_bind_load.
  { rewrite <- Hct. eapply (frame_load _ _ _ _ _ _ _ 16); [done|frame_eq|done]. }
  cbn [m_len]. rewrite Hdec. rewrite decide_False by lia.
  apply wp_assoc. eapply wp_bind_lift.
  { cbn [m_data]. apply wr_Some. unfold zeros. rewrite length_replicate.
    split_and!; [done|unfold RSA_SIG_SIZE in *; lia|reflexivity]. }
  apply wp_ret. rewrite take_0, app_nil_l. apply HQ.
Qed.

(** The steps after the sequence number was looked at; what is left depends on
    the verdict. *)
Lemma process_signed local remote gl gr m pad v Q w :
  0 ≤ seq < 2 ^ 32 → local ≠ remote →
  w_gates w !! local = Some gl → w_gates w !! remote = Some gr →
  rsa_len (rsa gl) = KEY_LEN → rsa_len (rsa gr) = KEY_LEN →
  rsa_pkcs1_verify (rsa gr) (sha1 (signed_part type alen seq ct)) sig = 0 →
  rsa_pkcs1_decrypt (rsa gl) ct alen = (0, m) → Z.of_nat (length m) ≤ KEY_LEN →
  seq_check type seq (inSeqNum (proto gr)) = v → v ≠ SeqReject →
  (∀ rest w', w_gates w' = (if decide (v = SeqAdvance) then <[remote := set_inSeqNum seq gr]> (w_gates w) else w_gates w) →
    w_sent w' = w_sent w → w_clock w' = w_clock w → w_gateInfo w' = w_gateInfo w →
    w_random w' = w_random w →
    let out := ArgMsg (Z.of_nat (length m)) (m ++ rest) in
    wp (if decide (v = SeqRecheck) then ret ← recheck_seq remote (Some out); mret (ret, Some out)
        else mret (0, Some out)) Q w') →
  wp (process_arg_packet local remote (signed_frame pad)) Q w.
Proof using All.
  intros Hseq Hne Hl Hr Hkl Hkr Hver Hdec Hm Hv Hrej HQ. pose proof Hrcv as [_ _ _ Hlen Hsize].
  pose proof length_lo as Hlo. pose proof length_hi as Hhi.
  unfold process_arg_packet. eapply wp_bind_lift; [done|].
  eapply wp_bind_lift; [by eapply frame_seq|]. eapply wp_bind_lift; [eapply frame_type; [done|apply Htype]|].
  eapply wp_bind_get; [done|]. rewrite ntohl_htonl, u32_small by done. rewrite Hv.
  rewrite decide_False by done.
  assert (∃ w1, w_gates w1 = (if decide (v = SeqAdvance) then <[remote := set_inSeqNum seq gr]> (w_gates w) else w_gates w)
    ∧ w_sent w1 = w_sent w ∧ w_clock w1 = w_clock w ∧ w_gateInfo w1 = w_gateInfo w ∧ w_random w1 = w_random w
    ∧ ∀ (k : unit → prog (Z * option argmsg)), wp (k tt) Q w1 →
        wp ((if decide (v = SeqAdvance) then gate_upd remote (set_inSeqNum seq) else mret tt) ≫= k) Q w)
    as (w1 & E1 & E2 & E3 & E4 & E5 & Hstep).
  { destruct (decide (v = SeqAdvance)).
    - exists (set_gate remote (set_inSeqNum seq gr) w). split_and!; [done..|]. intros k Hk. by eapply wp_bind_upd.
    - exists w. by split_and!. }
  apply Hstep. apply wp_bind_copy with (link := link); [done|done|done|done|].
  eapply wp_bind_lift; [done|]. eapply wp_bind_lift; [by eapply frame_len|].
  rewrite ntohs_htons, u16_small by lia.
  assert (∃ gr', w_gates w1 !! remote = Some gr' ∧ rsa gr' = rsa gr) as (gr' & Hr' & Hrsa).
  { rewrite E1. destruct (decide (v = SeqAdvance)); [rewrite lookup_insert_eq|]; by eexists. }
  apply (check_signed gr'); [done|by rewrite Hrsa|by rewrite Hrsa|].
  eapply (decrypt_signed gl m); [|done|done|done|].
  { cbn [w_gates upd]. rewrite E1. destruct (decide (v = SeqAdvance)); [by rewrite lookup_insert_ne by congruence|done]. }
  intros rest. apply HQ; done.
Qed.
End Receive.
End AdminTrip.

(** ** What the receiver's keys make of a message *)

Abbreviation SEALED_LEN := (KEY_LEN + 136).

(** [ct] and [sig] carry the message [m]: [priv] is the receiver's key, [pub]
    the sender's key as the receiver knows it. *)
Record sealed `{PolarSSL} (priv pub : rsa_context) (type seq : Z) (m ct sig : list Z) : Prop := {
  sl_ct : length ct = RSA_SIG_SIZE;
  sl_sig : length sig = RSA_SIG_SIZE;
  sl_decrypt : rsa_pkcs1_decrypt priv ct SEALED_LEN = (0, m);
  sl_verify : rsa_pkcs1_verify pub (sha1 (signed_part type SEALED_LEN seq ct)) sig = 0;
  sl_size : Z.of_nat (length m) ≤ KEY_LEN }.

Lemma seal_ok `{PolarSSL_ok} pubR privR pubS privS rng type seq m :
  rsa_pair pubR privR → rsa_pair pubS privS → rsa_len privR = KEY_LEN → rsa_len privS = KEY_LEN →
  bytes_ok m → Z.of_nat (length m) ≤ KEY_LEN - 11 →
  ∃ ct rng' sig, rsa_pkcs1_encrypt pubR rng m = (0, ct, rng')
    ∧ rsa_pkcs1_sign privS (sha1 (signed_part type SEALED_LEN seq ct)) = (0, sig)
    ∧ sealed privR pubS type seq m ct sig.
Proof.
  intros HR HS HlR HlS Hm Hs. pose proof HR as (_ & _ & Hl & _).
  destruct (rsa_encrypt_ok pubR privR rng m HR Hm) as (ct & rng' & He & Hct & _ & Hd); [by rewrite Hl, HlR|].
  destruct (rsa_sign_ok pubS privS (sha1 (signed_part type SEALED_LEN seq ct)) HS (sha1_length _))
    as (sig & Hsg & Hsl & _ & Hv).
  exists ct, rng', sig. split_and!; [done|done|]. split; [lia|lia| |done|lia].
  apply Hd. unfold RSA_SIG_SIZE in *. lia.
Qed.
