(* ===== verification/Replay.v ===== *)
(** * Sequence numbers and forgeries (src/protocol.c, [process_arg_packet])

    What the receiver does with a packet that is replayed, forged, or out of
    the order of sequence numbers. *)

From S2P Require Import Prelude Words Settings ArgError Utility Crypto Packet PacketFacts Gate World Net ToyCrypto ToyWorld Layout Hopper HopperFacts Message ArgPacket CipherLoop RoundTrip.

Section Replay.
Context `{Hok : PolarSSL_ok} `{Env}.
Context (link saddr daddr : list Z) (alen seq : Z) (ct : list Z).
Hypothesis Hrcv : fields_ok link saddr daddr alen ct.
Hypothesis Hseq : 0 ≤ seq < 2 ^ 32.

Abbreviation wrapped sig1 sig2 pad :=
  (frame link saddr daddr ARG_WRAPPED_MSG alen seq sig1 sig2 ct pad).

Hypothesis mallocs_ok : ∀ i, env_malloc i = true.

(** A packet that is not signed with the shared key. *)
Lemma forged_run local remote gr sig1 sig2 pad w :
  w_gates w !! remote = Some gr → connected gr = true →
  length sig1 = 32%nat → length sig2 = 96%nat →
  sig1 ++ sig2 ≠ mac (symKey gr) alen seq ct ++ zeros 96 →
  seq_check ARG_WRAPPED_MSG seq (inSeqNum (proto gr)) = SeqAdvance →
  wp (process_arg_packet local remote (wrapped sig1 sig2 pad)) (λ r w',
    r = (- ARG_SIG_CHECK_FAILED, None)
    ∧ ∃ md', w_gates w' = <[remote := set_md md' (set_inSeqNum seq gr)]> (w_gates w)) w.
Proof.
  intros Hr Hconn Hs1 Hs2 Hbad Hv. pose proof Hrcv as [_ _ _ Hlen Hsize].
  unfold process_arg_packet. eapply wp_bind_lift; [done|].
  eapply wp_bind_lift; [by apply frame_seq|]. eapply wp_bind_lift; [by apply frame_type|].
  eapply wp_bind_get; [done|]. rewrite ntohl_htonl, u32_small, Hv by done.
  rewrite decide_False, decide_True by done.
  eapply wp_bind_upd; [done|]. eapply wp_bind_copy; [done..|].
  eapply wp_bind_lift; [done|]. eapply wp_bind_lift; [by apply frame_len|].
  rewrite ntohs_htons, u16_small by lia.
  eapply check_hmac_any with (r := set_inSeqNum seq gr); [exact Hrcv|done|apply set_gate_same|done..|].
  intros md'. change (symKey (set_inSeqNum seq gr)) with (symKey gr). rewrite decide_True by done.
  apply wp_ret. split; [done|]. exists md'. unfold set_gate. cbn [w_gates upd].
  by rewrite insert_insert_eq.
Qed.
End Replay.

Section Claims.
Context `{Hok : PolarSSL_ok} `{Env}.
Implicit Types w : world.

(** C9. Replay: right after a wrapped packet was accepted, the same packet,
    whatever bytes trail it, is rejected with [- ARG_SEQ_BAD], and rejecting it
    changes nothing. *)
Theorem replay_rejected link saddr daddr alen seq ct local remote gl gr k pad pad' w :
  (∀ i, env_malloc i = true) → fields_ok link saddr daddr alen ct → 0 ≤ seq < 2 ^ 32 →
  0 < Z.of_nat (length ct) → local ≠ remote →
  w_gates w !! local = Some gl → w_gates w !! remote = Some gr →
  connected gr = true → keyed (cipher gl) k →
  seq_check ARG_WRAPPED_MSG seq (inSeqNum (proto gr)) = SeqAdvance →
  let packet pad := frame link saddr daddr ARG_WRAPPED_MSG alen seq
    (mac (symKey gr) alen seq ct) (zeros 96) ct pad in
  ∃ msg w', process_arg_packet local remote (packet pad) w = Done (0, Some msg) w'
    ∧ process_arg_packet local remote (packet pad') w' = Done (- ARG_SEQ_BAD, None) w'.
Proof.
  intros Hm Hf Hseq Hn Hne Hl Hr Hconn Hk Hv packet.
  destruct (wp_elim _ _ _ (process_wrapped Hm link saddr daddr ARG_WRAPPED_MSG alen seq ct Hf local
    remote gl gr k pad w eq_refl Hseq Hn Hne Hl Hr Hconn Hk Hv))
    as (r & w' & Hrun & c' & md' & rest & -> & Hg & _).
  do 2 eexists. split; [exact Hrun|].
  eapply reject_run; [done|done|rewrite Hg, lookup_insert_ne by done; apply lookup_insert_eq|].
  apply seq_check_same.
Qed.

(** C28. Forgery: a wrapped packet whose signature field is anything but the HMAC
    under the shared key is rejected and nothing of it is decrypted.  But its
    sequence number has already been recorded: the next genuine packet with a
    smaller number is then rejected. *)
Theorem forged_rejected_but_recorded link saddr daddr alen seq ct local remote gr sig1 sig2 pad w
    seq' ct' alen' sig1' sig2' pad' :
  (∀ i, env_malloc i = true) →
  fields_ok link saddr daddr alen ct → 0 ≤ seq < 2 ^ 32 →
  fields_ok link saddr daddr alen' ct' → 0 ≤ seq' < 2 ^ 32 →
  w_gates w !! remote = Some gr → connected gr = true →
  length sig1 = 32%nat → length sig2 = 96%nat →
  sig1 ++ sig2 ≠ mac (symKey gr) alen seq ct ++ zeros 96 →
  seq_check ARG_WRAPPED_MSG seq (inSeqNum (proto gr)) = SeqAdvance →
  10 ≤ seq' ≤ seq →
  ∃ w', process_arg_packet local remote
      (frame link saddr daddr ARG_WRAPPED_MSG alen seq sig1 sig2 ct pad) w
      = Done (- ARG_SIG_CHECK_FAILED, None) w'
    ∧ process_arg_packet local remote
      (frame link saddr daddr ARG_WRAPPED_MSG alen' seq' sig1' sig2' ct' pad') w'
      = Done (- ARG_SEQ_BAD, None) w'.
Proof.
  intros Hm Hf Hseq Hf' Hseq' Hr Hconn Hs1 Hs2 Hbad Hv Hle.
  destruct (wp_elim _ _ _ (forged_run link saddr daddr alen seq ct Hf Hseq Hm local remote gr sig1 sig2
    pad w Hr Hconn Hs1 Hs2 Hbad Hv)) as (r & w' & Hrun & -> & md' & Hg).
  exists w'. split; [done|].
  eapply reject_run; [done|done|rewrite Hg; apply lookup_insert_eq|]. cbn.
  unfold seq_check, SEQ_NUM_WRAP_ALLOWANCE. rewrite decide_False by lia. done.
Qed.

(** C29. The wrap-around rule compares the 32-bit number with [UINT16_MAX]: once
    a gateway expects more than 65525, an old packet with a number below 10 is
    accepted again, and the expected number falls back to that number. *)
Theorem wrap_window_replays link saddr daddr alen seq ct local remote gl gr k pad w :
  (∀ i, env_malloc i = true) → fields_ok link saddr daddr alen ct → 0 ≤ seq < 10 →
  0 < Z.of_nat (length ct) → local ≠ remote →
  w_gates w !! local = Some gl → w_gates w !! remote = Some gr →
  connected gr = true → keyed (cipher gl) k →
  65525 < inSeqNum (proto gr) →
  ∃ msg w' g', process_arg_packet local remote (frame link saddr daddr ARG_WRAPPED_MSG alen seq
      (mac (symKey gr) alen seq ct) (zeros 96) ct pad) w = Done (0, Some msg) w'
    ∧ w_gates w' !! remote = Some g' ∧ inSeqNum (proto g') = seq.
Proof.
  intros Hm Hf Hseq Hn Hne Hl Hr Hconn Hk Hin.
  assert (seq_check ARG_WRAPPED_MSG seq (inSeqNum (proto gr)) = SeqAdvance) as Hv.
  { unfold seq_check, SEQ_NUM_WRAP_ALLOWANCE, UINT16_MAX. rewrite decide_True by lia. done. }
  destruct (wp_elim _ _ _ (process_wrapped Hm link saddr daddr ARG_WRAPPED_MSG alen seq ct Hf local
    remote gl gr k pad w eq_refl ltac:(lia) Hn Hne Hl Hr Hconn Hk Hv))
    as (r & w' & Hrun & c' & md' & rest & -> & Hg & _).
  do 3 eexists. split_and!; [exact Hrun|rewrite Hg, lookup_insert_ne by done; apply lookup_insert_eq|done].
Qed.
End Claims.

(** ** Evaluation at gateway B, whose record of A expects more than 4 *)

Definition old_packet (sig1 sig2 ct : list Z) (seq : Z) : packet_data :=
  frame [] [10; 1; 1; 1] [10; 2; 2; 1] ARG_WRAPPED_MSG (Z.of_nat (length ct) + 136) seq sig1 sig2 ct [].
Definition good_mac (seq : Z) (ct : list Z) : list Z :=
  mac (symKey (gateA None (Some 1%positive))) (Z.of_nat (length ct) + 136) seq ct.

Lemma toy_fields ct :
  Z.of_nat (length ct) < 1000 →
  fields_ok [] [10; 1; 1; 1] [10; 2; 2; 1] (Z.of_nat (length ct) + 136) ct.
Proof. intros. by split; try done; lia. Qed.

Lemma toy_keyed nxt prv : ∃ k, keyed (cipher (gateB nxt prv)) k.
Proof. by eexists. Qed.

Lemma replay_rejected_witness :
  ∃ msg w', process_arg_packet 1%positive 2%positive
      (old_packet (good_mac 7 [1; 2; 3]) (zeros 96) [1; 2; 3] 7) worldB = Done (0, Some msg) w'
    ∧ process_arg_packet 1%positive 2%positive
      (old_packet (good_mac 7 [1; 2; 3]) (zeros 96) [1; 2; 3] 7) w' = Done (- ARG_SEQ_BAD, None) w'.
Proof.
  destruct (toy_keyed (Some 2%positive) None) as [k Hk].
  unfold old_packet, good_mac.
  apply (replay_rejected [] [10; 1; 1; 1] [10; 2; 2; 1] (Z.of_nat (length [1; 2; 3]) + 136) 7 [1; 2; 3] 1%positive
    2%positive (gateB (Some 2%positive) None) (gateA None (Some 1%positive)) k [] [] worldB);
    try reflexivity; try done; try lia.
Defined.

Lemma forged_rejected_but_recorded_witness :
  ∃ w', process_arg_packet 1%positive 2%positive
      (old_packet (zeros 32) (zeros 96) [1; 2; 3] 4000000000) worldB = Done (- ARG_SIG_CHECK_FAILED, None) w'
    ∧ process_arg_packet 1%positive 2%positive
      (old_packet (good_mac 12 [5]) (zeros 96) [5] 12) w' = Done (- ARG_SEQ_BAD, None) w'.
Proof.
  unfold old_packet.
  apply (forged_rejected_but_recorded [] [10; 1; 1; 1] [10; 2; 2; 1] (Z.of_nat (length [1; 2; 3]) + 136) 4000000000
    [1; 2; 3] 1%positive 2%positive (gateA None (Some 1%positive)) (zeros 32) (zeros 96) [] worldB
    12 [5] (Z.of_nat (length [5]) + 136) (good_mac 12 [5]) (zeros 96) []).
  all: first [lia | by apply toy_fields | reflexivity | vm_compute; congruence].
Defined.

(** B's record of A after 70000 packets. *)
Definition late_gate : arg_network_info :=
  with_proto (λ q, q <| inSeqNum := 70000 |>) (gateA None (Some 1%positive)).
Definition late_world : world := set_gate 2%positive late_gate worldB.

Lemma wrap_window_replays_witness :
  ∃ msg w' g', process_arg_packet 1%positive 2%positive
      (old_packet (good_mac 5 [1; 2; 3]) (zeros 96) [1; 2; 3] 5) late_world = Done (0, Some msg) w'
    ∧ w_gates w' !! 2%positive = Some g' ∧ inSeqNum (proto g') = 5.
Proof.
  destruct (toy_keyed (Some 2%positive) None) as [k Hk].
  unfold old_packet, good_mac. 
  change (symKey (gateA None (Some 1%positive))) with (symKey late_gate).
  apply (wrap_window_replays [] [10; 1; 1; 1] [10; 2; 2; 1] (Z.of_nat (length [1; 2; 3]) + 136) 5 [1; 2; 3] 1%positive
    2%positive (gateB (Some 2%positive) None) late_gate k [] late_world);
    try reflexivity; try done; try lia.
Defined.
