(* ===== verification/Protocol.v ===== *)
(** * The gateway protocol (src/protocol.c)

    Pings and time synchronisation, exchange of connection data, trust data,
    wrapped traffic, and the actions the administration thread triggers.
    [local] and [remote] are addresses in the gateway heap and may be equal. *)

From S2P Require Import Prelude Words Settings ArgError Utility Crypto Packet Gate World Net Hopper Message ArgPacket.

Section Protocol.
Context `{PolarSSL, Env}.

Definition start_time_sync (local remote : loc) : prog unit := gate_upd remote (set_sendPing true).
Definition start_connection (local remote : loc) : prog unit :=
  gate_upd remote (set_sendConnData true).
Definition end_connection (local remote : loc) : prog unit := gate_upd remote disconnect.

(** ** Pings *)

Definition set_sentPingID (i : Z) : arg_network_info → arg_network_info :=
  with_proto (λ q, q <| sentPingID := i |>).
Definition set_pingSentTime (t : timespec) : arg_network_info → arg_network_info :=
  with_proto (λ q, q <| pingSentTime := t |>).

Definition send_arg_ping (local remote : loc) : prog Z :=
  msg ← create_arg_msg sizeof_ping_data;
  match msg with
  | None => mret (- ENOMEM)
  | Some msg =>
      mutex_lock remote;;
      id ← get_random_bytes 4;
      gate_upd remote (set_sentPingID (le_val id));;
      l ← gate_get local;
      off ← current_time_offset (timeBase l);
      let data := PingData (htonl (le_val id)) 0 (htonl (u32 off)) in
      now ← current_time;
      gate_upd remote (set_pingSentTime now);;
      ret ← send_arg_packet local remote ARG_PING_MSG (Some (msg <| m_data := ping_bytes data |>));
      mutex_unlock remote;;
      mret ret
  end.

(** The updates of an accepted ping response: [lat] is the latency of this
    exchange, [newBase] the time base it implies.  The weighted mean of the
    latencies is computed in [double] and truncated. *)
Definition accept_pong (lat : Z) (newBase : timespec) (g : arg_network_info) : arg_network_info :=
  let diff := s32 (time_offset (timeBase g) newBase) in
  let g := if decide (tv_sec (timeBase g) > 0)
           then g <| timeBase ::= (λ t, time_plus t (Z.quot diff 2)) |>
           else g <| timeBase := newBase |> in
  let old := latency (proto g) in
  let mean := if decide (old > 0) then Z.quot (old * 3 + lat) 4 else lat in
  let g := with_proto (λ q, q <| latency := mean |>) g in
  let diff := Z.abs (s32 (mean - lat)) in
  let g := if decide (diff > Z.quot mean 4) then set_sendPing true g else g in
  let g := with_proto (λ q, q <| timeBaseAvailable := true |>) g in
  if connDataAvailable (proto g) then g <| connected := true |> else g.

Definition handle_pong (remote : loc) (data : arg_ping_data) : prog unit :=
  r ← gate_get remote;
  if decide (responseID data ≠ 0 ∧ sentPingID (proto r) = ntohl (responseID data)) then
    off ← current_time_offset (pingSentTime (proto r));
    let lat := Z.quot off 2 in
    newBase ← current_time_plus (s32 (u32 (- ntohl (timeOffset data)) - lat));
    gate_upd remote (accept_pong lat newBase)
  else mret tt.

(** The reply to a ping: their ID back, our time offset.  The inner test of
    [responseID] comes after it was set to the non-zero [requestID]. *)
Definition reply_ping (local remote : loc) (msg : argmsg) (data : arg_ping_data) : prog Z :=
  let data := data <| responseID := requestID data |> in
  l ← gate_get local;
  off ← current_time_offset (timeBase l);
  let data := data <| timeOffset := htonl (u32 off) |> in
  data ← (if decide (responseID data = 0) then
            id ← get_random_bytes 4;
            gate_upd remote (set_sentPingID (le_val id));;
            mret (data <| requestID := htonl (le_val id) |>)
          else mret (data <| requestID := 0 |>));
  send_arg_packet local remote ARG_PING_MSG
    (Some (msg <| m_data ::= (λ d, ping_bytes data ++ drop 12 d) |>)).

Definition process_arg_ping (local remote : loc) (p : packet_data) : prog Z :=
  '(ret, msg) ← process_arg_packet local remote p;
  if decide (ret ≠ 0) then mret ret else
  msg ← lift_opt msg;
  if decide (m_len msg = sizeof_ping_data) then
    mutex_lock remote;;
    data ← lift_opt (read_ping (m_data msg));
    handle_pong remote data;;
    ret ← (if decide (requestID data ≠ 0) then reply_ping local remote msg data else mret 0);
    mutex_unlock remote;;
    mret ret
  else mret (- ARG_MSG_SIZE_BAD).

(** ** Connection data *)

Definition set_lastConnAttemptTime (t : timespec) : arg_network_info → arg_network_info :=
  with_proto (λ q, q <| lastConnAttemptTime := t |>).

Definition send_arg_conn_data (local remote : loc) (isResponse : bool) : prog Z :=
  msg ← create_arg_msg sizeof_conn_data;
  match msg with
  | None => mret (- ENOMEM)
  | Some msg =>
      mutex_lock local;;
      l ← gate_get local;
      let data := ConnData (symKey l) (iv l) (hopKey l) (htonl (hopInterval l)) in
      mutex_unlock local;;
      ret ← send_arg_packet local remote
        (if isResponse then ARG_CONN_DATA_RESP_MSG else ARG_CONN_DATA_REQ_MSG)
        (Some (msg <| m_data := conn_bytes data |>));
      mutex_lock remote;;
      (if decide (ret = 0)
       then now ← current_time; gate_upd remote (set_lastConnAttemptTime now)
       else mret tt);;
      mutex_unlock remote;;
      mret ret
  end.

(** The connection data of a peer is stored and its contexts are keyed. *)
Definition accept_conn_data (d : arg_conn_data) (now : timespec) (g : arg_network_info)
    : arg_network_info :=
  let g := g <| symKey := c_symKey d |> <| iv := c_iv d |> <| hopKey := c_hopKey d |>
             <| hopInterval := ntohl (c_hopInterval d) |> in
  let g := g <| cipher := cipher_setkey (cipher g) (symKey g) (Z.of_nat AES_KEY_SIZE * 8) |>
             <| md := md_hmac_starts (md g) (symKey g) |> <| lastDataUpdate := now |> in
  let g := with_proto (λ q, q <| connDataAvailable := true |>) g in
  if timeBaseAvailable (proto g) then g <| connected := true |> else g.

Definition ask_ping_and_trust (g : arg_network_info) : arg_network_info :=
  set_sendTrust true (set_sendPing true g).

Definition process_arg_conn_data_resp (local remote : loc) (p : packet_data) : prog Z :=
  '(ret, msg) ← process_arg_packet local remote p;
  if decide (ret ≠ 0) then mret ret else
  msg ← lift_opt msg;
  if decide (m_len msg = sizeof_conn_data) then
    mutex_lock remote;;
    data ← lift_opt (read_conn (m_data msg));
    now ← current_time;
    gate_upd remote (accept_conn_data data now);;
    mutex_unlock remote;;
    gate_upd remote ask_ping_and_trust;;
    mret 0
  else mret (- ARG_MSG_SIZE_BAD).

Definition process_arg_conn_data_req (local remote : loc) (p : packet_data) : prog Z :=
  ret ← process_arg_conn_data_resp local remote p;
  if decide (ret < 0) then mret ret else
  ret ← send_arg_conn_data local remote true;
  if decide (ret < 0) then mret ret else
  gate_upd remote ask_ping_and_trust;;
  mret ret.

(** ** Trust data *)

Definition send_arg_trust (local remote gate : loc) : prog Z :=
  msg ← create_arg_msg sizeof_trust_data;
  match msg with
  | None => mret (- ENOMEM)
  | Some msg =>
      g ← gate_get gate;
      let '(retN, n) := mpi_write_binary (rsa_N (rsa g)) 130 in
      if decide (retN ≠ 0) then mret (- ARG_CONFIG_BAD) else
      let '(retE, e) := mpi_write_binary (rsa_E (rsa g)) 10 in
      if decide (retE ≠ 0) then mret (- ARG_CONFIG_BAD) else
      let trust := TrustData (strncpy (zeros MAX_NAME_SIZE) (name g) (MAX_NAME_SIZE - 1))
                     (baseIP g) (mask g) n e in
      mutex_lock remote;;
      _ ← send_arg_packet local remote ARG_TRUST_DATA_MSG
            (Some (msg <| m_data := trust_bytes trust |>));
      mutex_unlock remote;;
      mret 0
  end.

Fixpoint send_trust_loop (fuel : nat) (local remote curr : loc) (ret : Z) : prog Z :=
  g ← gate_get curr;
  match next g with
  | None => mret ret
  | Some curr =>
      match fuel with
      | O => stuck
      | S fuel =>
          if decide (curr = local ∨ curr = remote)
          then send_trust_loop fuel local remote curr ret
          else
            r ← send_arg_trust local remote curr;
            send_trust_loop fuel local remote curr (if decide (r ≠ 0) then 1 else ret)
      end
  end.
Definition send_all_trust (local remote : loc) : prog Z :=
  gs ← gets w_gates;
  send_trust_loop (size gs) local remote local 0.

(** The new gateway's fields, once both key numbers were read. *)
Definition trusted_gate (t : arg_trust_data) (n e : Z) (g : arg_network_info) : arg_network_info :=
  g <| name := strncpy (name g) (t_name t) (MAX_NAME_SIZE - 1) |>
    <| baseIP := mask_array ADDR_SIZE (t_baseIP t) (t_mask t) |>
    <| mask := t_mask t |>
    <| rsa ::= (λ r, r <| rsa_N := n |> <| rsa_E := e |>
                       <| rsa_len := Z.shiftr (mpi_msb n + 7) 3 |>) |>.

(** "Hook it up": the new gateway becomes the second of the list.  The old
    second gateway's [prev] is not changed. *)
Definition hook_up (local newGate : loc) : prog unit :=
  mutex_lock local;;
  l ← gate_get local;
  gate_upd newGate (λ g, g <| next := next l |> <| prev := Some local |>);;
  gate_upd local (λ l, l <| next := Some newGate |>);;
  mutex_unlock local.

Definition process_arg_trust (local remote : loc) (p : packet_data) : prog Z :=
  '(ret, msg) ← process_arg_packet local remote p;
  if decide (ret < 0) then mret ret else
  msg ← lift_opt msg;
  if decide (m_len msg = sizeof_trust_data) then
    trust ← lift_opt (read_trust (m_data msg));
    gs ← gets w_gates;
    known ← find_network (size gs) (Some local) (t_baseIP trust);
    match known with
    | Some _ => mret 0
    | None =>
        newGate ← create_arg_network_info;
        newGate ← deref newGate;
        let '(retN, n) := mpi_read_binary (t_n trust) in
        if decide (retN ≠ 0)
        then _ ← remove_arg_network newGate; mret (- ARG_CONFIG_BAD) else
        let '(retE, e) := mpi_read_binary (t_e trust) in
        if decide (retE ≠ 0)
        then _ ← remove_arg_network newGate; mret (- ARG_CONFIG_BAD) else
        gate_upd newGate (trusted_gate trust n e);;
        hook_up local newGate;;
        start_connection local newGate;;
        mret 0
    end
  else mret (- ARG_MSG_SIZE_BAD).

(** ** Wrapped packets *)

(** When the packet cannot be built the function returns with [remote]'s
    mutex still held. *)
Definition send_arg_wrapped (local remote : loc) (p : packet_data) : prog Z :=
  mutex_lock remote;;
  r ← gate_get remote;
  if negb (connected r) then mutex_unlock remote;; mret (- ARG_NOT_CONNECTED) else
  let msg := ArgMsg (u16 (p_len p - p_linkLayerLen p))
               (drop (Z.to_nat (p_linkLayerLen p)) (p_data p)) in
  '(ret, newPacket) ← create_arg_packet local remote ARG_WRAPPED_MSG (Some msg);
  if decide (ret < 0) then mret ret else
  newPacket ← lift_opt newPacket;
  ret ← send_packet newPacket;
  mutex_unlock remote;;
  mret ret.

Definition process_arg_wrapped (local remote : loc) (p : packet_data) : prog Z :=
  mutex_lock remote;;
  r ← gate_get remote;
  if negb (connected r) then mutex_unlock remote;; mret (- ARG_NOT_CONNECTED) else
  '(ret, msg) ← process_arg_packet local remote p;
  if decide (ret ≠ 0) then mutex_unlock remote;; mret ret else
  msg ← lift_opt msg;
  newPacket ← create_packet (m_len msg);
  match newPacket with
  | None => mutex_unlock remote;; mret (- ENOMEM)
  | Some np =>
      d ← lift_opt (rd 0 (Z.to_nat (m_len msg)) (m_data msg));
      np ← store 0 d np;
      '(_, np) ← reparse np;
      ret ← send_packet np;
      mutex_unlock remote;;
      mret ret
  end.

(** ** Flow control *)

Definition do_next_protocol_action (local remote : loc) : prog Z :=
  r ← gate_get remote;
  ret ← (if sendPing (proto r) then
           off ← current_time_offset (pingSentTime (proto r));
           if decide (off > MIN_PING_TIME * 1000) then
             ret ← send_arg_ping local remote;
             (if decide (ret = 0) then gate_upd remote (set_sendPing false) else mret tt);;
             mret ret
           else mret 0
         else mret 0);
  r ← gate_get remote;
  ret ← (if sendConnData (proto r) then
           off ← current_time_offset (lastConnAttemptTime (proto r));
           if decide (off > CONNECT_WAIT_TIME * 1000) then
             ret ← send_arg_conn_data local remote false;
             (if decide (ret = 0) then gate_upd remote (set_sendConnData false) else mret tt);;
             mret ret
           else mret ret
         else mret ret);
  r ← gate_get remote;
  if sendTrust (proto r) && connected r then
    ret ← send_all_trust local remote;
    (if decide (ret = 0) then gate_upd remote (set_sendTrust false) else mret tt);;
    mret ret
  else mret ret.
End Protocol.
