(* ===== verification/ProtocolFacts.v ===== *)
(** * The protocol's state machine and its error paths (src/protocol.c)

    When a gateway counts as connected, what refusing to send or receive
    changes, the time base a ping response implies, and the message codecs. *)

From S2P Require Import Prelude Words Settings ArgError Utility Crypto Packet Gate World Net ToyCrypto ToyWorld Layout Hopper Message ArgPacket Protocol.

Section Connection.
Context `{PolarSSL}.

(** ** The life of a connection *)

(** The events that change whether a gateway is connected. *)
Inductive conn_event :=
  | EvPong (lat : Z) (newBase : timespec)
  | EvConnData (d : arg_conn_data) (now : timespec)
  | EvDisconnect.

Definition apply_event (e : conn_event) : arg_network_info → arg_network_info :=
  match e with
  | EvPong lat base => accept_pong lat base
  | EvConnData d now => accept_conn_data d now
  | EvDisconnect => disconnect
  end.

Definition is_pong (e : conn_event) : bool := match e with EvPong _ _ => true | _ => false end.
Definition is_conn_data (e : conn_event) : bool :=
  match e with EvConnData _ _ => true | _ => false end.

(** Newest event first: did [p] happen since the last disconnection? *)
Fixpoint since_disconnect (p : conn_event → bool) (tr : list conn_event) : bool :=
  match tr with
  | [] => false
  | EvDisconnect :: _ => false
  | e :: tr => p e || since_disconnect p tr
  end.

Definition run_events (tr : list conn_event) (g : arg_network_info) : arg_network_info :=
  foldr apply_event g tr.

Lemma accept_pong_flags lat base g :
  timeBaseAvailable (proto (accept_pong lat base g)) = true
  ∧ connDataAvailable (proto (accept_pong lat base g)) = connDataAvailable (proto g)
  ∧ connected (accept_pong lat base g) = connected g || connDataAvailable (proto g).
Proof.
  unfold accept_pong. repeat case_decide; cbn; destruct (connDataAvailable (proto g)) eqn:E; cbn;
    by rewrite ?E, ?orb_true_r, ?orb_false_r.
Qed.

Lemma accept_conn_flags d now g :
  connDataAvailable (proto (accept_conn_data d now g)) = true
  ∧ timeBaseAvailable (proto (accept_conn_data d now g)) = timeBaseAvailable (proto g)
  ∧ connected (accept_conn_data d now g) = connected g || timeBaseAvailable (proto g).
Proof.
  unfold accept_conn_data. cbn. destruct (timeBaseAvailable (proto g)) eqn:E; cbn;
    by rewrite ?E, ?orb_true_r, ?orb_false_r.
Qed.

Lemma events_flags tr g :
  connected g = false → connDataAvailable (proto g) = false → timeBaseAvailable (proto g) = false →
  let g' := run_events tr g in
  timeBaseAvailable (proto g') = since_disconnect is_pong tr
  ∧ connDataAvailable (proto g') = since_disconnect is_conn_data tr
  ∧ connected g' = since_disconnect is_pong tr && since_disconnect is_conn_data tr.
Proof.
  intros Hc Hd Ht. induction tr as [|e tr IH]; [done|]. cbv zeta in *.
  destruct IH as (It & Id & Ic). unfold run_events in *. cbn [foldr].
  set (g' := foldr apply_event g tr) in *.
  destruct e as [lat base|d now|]; cbn [apply_event since_disconnect is_pong is_conn_data orb].
  - destruct (accept_pong_flags lat base g') as (-> & -> & ->). rewrite Id, Ic.
    split_and!; [done..|]. by destruct (since_disconnect is_pong tr), (since_disconnect is_conn_data tr).
  - destruct (accept_conn_flags d now g') as (-> & -> & ->). rewrite It, Ic.
    split_and!; [done..|]. by destruct (since_disconnect is_pong tr), (since_disconnect is_conn_data tr).
  - done.
Qed.

(** Whatever order and however often ping responses, connection data and
    disconnections arrive, a gateway that starts unconnected is connected
    exactly when both a ping response and connection data came in since it was
    last disconnected. *)
Theorem connected_iff_both tr :
  connected (run_events tr new_arg_network_info)
  = since_disconnect is_pong tr && since_disconnect is_conn_data tr.
Proof. by apply events_flags. Qed.

(** ** The time base a ping response implies *)

(** A time base computed from an offset and a latency is that long ago. *)
Lemma new_base_offset now lat offset :
  0 ≤ lat < 2 ^ 30 → 0 ≤ offset < 2 ^ 30 →
  time_offset (time_plus now (s32 (u32 (- offset) - lat))) now = offset + lat.
Proof.
  intros Hl Ho. assert (s32 (u32 (- offset) - lat) = - (offset + lat)) as ->.
  { unfold s32, u32.
    assert ((- offset) mod 2 ^ 32 - lat + 2 ^ 31 = - (offset + lat) + 2 ^ 31 + - ((- offset) / 2 ^ 32) * 2 ^ 32)
      as -> by (pose proof (Z_div_mod_eq_full (- offset) (2 ^ 32)); lia).
    rewrite Z.mod_add, Z.mod_small; lia. }
  pose proof (time_offset_error (time_plus now (- (offset + lat))) now) as He.
  rewrite time_plus_nanos in He. lia.
Qed.

(** The first ping response sets the time base so that the remote clock is
    taken to be where it said it was, plus half the round trip: [offset] is the
    value in the response, [2 * lat] (or one more) the measured round trip. *)
Theorem first_pong_time_base g now lat offset :
  tv_sec (timeBase g) ≤ 0 → 0 ≤ lat < 2 ^ 30 → 0 ≤ offset < 2 ^ 30 →
  let newBase := time_plus now (s32 (u32 (- ntohl (htonl offset)) - lat)) in
  time_offset (timeBase (accept_pong lat newBase g)) now = offset + lat
  ∧ latency (proto (accept_pong lat newBase g))
    = (if decide (latency (proto g) > 0) then Z.quot (latency (proto g) * 3 + lat) 4 else lat).
Proof.
  intros Hb Hl Ho newBase.
  assert (timeBase (accept_pong lat newBase g) = newBase) as Htb.
  { unfold accept_pong. rewrite (decide_False (P := tv_sec (timeBase g) > 0)) by lia.
    by repeat case_decide; cbn; destruct (connDataAvailable (proto g)). }
  split.
  - rewrite Htb. unfold newBase. rewrite ntohl_htonl, (u32_small offset) by lia. by apply new_base_offset.
  - unfold accept_pong. rewrite (decide_False (P := tv_sec (timeBase g) > 0)) by lia.
    by repeat case_decide; cbn; destruct (connDataAvailable (proto g)).
Qed.
End Connection.

(** ** Refusing *)

Section Refusing.
Context `{PolarSSL, Env}.
Implicit Types w : world.

(** Taking and releasing a free mutex leaves the world as it was. *)
Lemma lock_unlock_id l g w :
  w_gates w !! l = Some g → lock g = false →
  set_gate l (with_lock false (with_lock true g)) (set_gate l (with_lock true g) w) = w.
Proof.
  intros Hl Hf. assert (with_lock false (with_lock true g) = g) as -> by (destruct g; cbn in *; by subst).
  unfold set_gate. destruct w. cbn in *. rewrite insert_insert_eq, insert_id by done. done.
Qed.

(** Without a connection nothing is wrapped and nothing is unwrapped: both
    directions report [- ARG_NOT_CONNECTED], release the mutex, and leave the
    whole state as it was, so nothing is sent and no sequence number is used. *)
Theorem refused_when_not_connected local remote g p w :
  w_gates w !! remote = Some g → lock g = false → connected g = false →
  send_arg_wrapped local remote p w = Done (- ARG_NOT_CONNECTED) w
  ∧ process_arg_wrapped local remote p w = Done (- ARG_NOT_CONNECTED) w.
Proof.
  intros Hg Hf Hc.
  assert (∀ m : prog Z, (mutex_lock remote;; r ← gate_get remote;
      if negb (connected r) then mutex_unlock remote;; mret (- ARG_NOT_CONNECTED) else m) w
    = Done (- ARG_NOT_CONNECTED) w) as Hrun.
  { intros m. assert (wp (mutex_lock remote;; r ← gate_get remote;
      if negb (connected r) then mutex_unlock remote;; mret (- ARG_NOT_CONNECTED) else m)
      (λ r w', r = - ARG_NOT_CONNECTED ∧ w' = w) w) as Hw.
    { eapply wp_bind_lock; [done..|]. eapply wp_bind_get; [apply set_gate_same|].
      change (connected (with_lock true g)) with (connected g). rewrite Hc. cbn [negb].
      eapply wp_bind_unlock; [apply set_gate_same|]. apply wp_ret.
      split; [done|]. by apply lock_unlock_id. }
    apply wp_elim in Hw as (r & w' & -> & -> & ->). done. }
  split; exact (Hrun _).
Qed.

(** C32. When the packet cannot be built (here: out of memory), the wrapping
    function returns the error with the remote gateway's mutex still held, and
    every later attempt to take it never returns. *)
Theorem wrap_failure_keeps_mutex local remote gl gr p w :
  w_gates w !! local = Some gl → w_gates w !! remote = Some gr → lock gr = false →
  connected gr = true → env_malloc (w_malloc w) = false →
  ∃ w', send_arg_wrapped local remote p w = Done (- ENOMEM) w'
    ∧ mutex_lock remote w' = Stuck ∧ ∀ q, send_arg_wrapped local remote q w' = Stuck.
Proof.
  intros Hl Hr Hf Hc Hm.
  assert (wp (send_arg_wrapped local remote p) (λ r w', r = - ENOMEM
    ∧ ∃ g, w_gates w' !! remote = Some g ∧ lock g = true) w) as Hw.
  { unfold send_arg_wrapped. eapply wp_bind_lock; [done..|].
    eapply wp_bind_get; [apply set_gate_same|].
    change (connected (with_lock true gr)) with (connected gr). rewrite Hc. cbn [negb].
    unfold create_arg_packet. apply wp_assoc.
    assert (∃ gl', w_gates (set_gate remote (with_lock true gr) w) !! local = Some gl') as [gl' Hl'].
    { destruct (decide (remote = local)) as [<-|Hne]; [rewrite set_gate_same|rewrite set_gate_ne by done]; eauto. }
    eapply wp_bind_get; [done|]. unfold create_packet. apply wp_assoc, wp_assoc, wp_bind_malloc.
    cbn [w_malloc set_gate upd]. rewrite Hm. cbn [negb].
    do 2 (rewrite ret_bind; cbn match). rewrite decide_True by done. apply wp_ret.
    split; [done|]. exists (with_lock true gr). split; [apply set_gate_same|done]. }
  apply wp_elim in Hw as (r & w' & Hrun & -> & g & Hg & Hk). exists w'.
  assert (mutex_lock remote w' = Stuck) as Hs.
  { unfold mutex_lock, mbind, proc_bind. by rewrite (gate_get_run _ _ _ Hg), Hk. }
  split_and!; [done|done|]. intros q. unfold send_arg_wrapped, mbind, proc_bind at 1. by rewrite Hs.
Qed.
End Refusing.

(** ** Message codecs *)

(** The three payload structures survive the wire: reading back the bytes
    of a structure whose fields have the sizes of the C types gives the
    structure, whatever follows it in the buffer. *)
Theorem payload_round_trip ping conn trust rest :
  ping_wf ping → conn_wf conn → trust_wf trust →
  read_ping (ping_bytes ping ++ rest) = Some ping
  ∧ read_conn (conn_bytes conn ++ rest) = Some conn
  ∧ read_trust (trust_bytes trust ++ rest) = Some trust
  ∧ Z.of_nat (length (ping_bytes ping)) = sizeof_ping_data
  ∧ Z.of_nat (length (conn_bytes conn)) = sizeof_conn_data
  ∧ Z.of_nat (length (trust_bytes trust)) = sizeof_trust_data.
Proof.
  intros Hp Hc Ht. split_and!.
  - by apply read_ping_bytes.
  - by apply read_conn_bytes.
  - by apply read_trust_bytes.
  - unfold ping_bytes. by rewrite !length_app, !length_le_bytes.
  - destruct Hc as (H1 & H2 & H3 & _). unfold conn_bytes. by rewrite !length_app, length_le_bytes, H1, H2, H3.
  - destruct Ht as (H1 & H2 & H3 & H4 & H5). unfold trust_bytes. by rewrite !length_app, H1, H2, H3, H4, H5.
Qed.

(** ** Evaluation *)

Lemma first_pong_time_base_witness :
  let g := @new_arg_network_info toy in
  let newBase := time_plus (Timespec 50 0) (s32 (u32 (- ntohl (htonl 1200)) - 30)) in
  time_offset (timeBase (accept_pong 30 newBase g)) (Timespec 50 0) = 1200 + 30
  ∧ latency (proto (accept_pong 30 newBase g))
    = (if decide (latency (proto g) > 0) then Z.quot (latency (proto g) * 3 + 30) 4 else 30).
Proof. apply (first_pong_time_base new_arg_network_info (Timespec 50 0) 30 1200); cbn; lia. Defined.

Definition quiet_world : world := set_gate 2%positive (disconnect (gateB None (Some 1%positive))) worldA.

Definition some_packet : packet_data :=
  Packet 40 0 None (Some 0) None None None None None None 0 (zeros 40).

Lemma refused_when_not_connected_witness :
  send_arg_wrapped 1%positive 2%positive some_packet quiet_world = Done (- ARG_NOT_CONNECTED) quiet_world
  ∧ process_arg_wrapped 1%positive 2%positive some_packet quiet_world
    = Done (- ARG_NOT_CONNECTED) quiet_world.
Proof.
  apply (refused_when_not_connected _ _ (disconnect (gateB None (Some 1%positive)))); reflexivity.
Defined.

(** An environment in which every allocation fails. *)
Definition no_memory : Env := {|
  env_clock _ := Timespec 100 0; env_random n := Z.of_nat n; env_malloc _ := false;
  env_sendto _ := 0; env_dies_locked := false; env_slack := 0 |}.

Lemma wrap_failure_keeps_mutex_witness :
  ∃ w', @send_arg_wrapped _ no_memory 1%positive 2%positive some_packet worldA = Done (- ENOMEM) w'
    ∧ mutex_lock 2%positive w' = Stuck
    ∧ ∀ q, @send_arg_wrapped _ no_memory 1%positive 2%positive q w' = Stuck.
Proof.
  apply (@wrap_failure_keeps_mutex _ no_memory 1%positive 2%positive
    (gateA (Some 2%positive) None) (gateB None (Some 1%positive))); reflexivity.
Defined.

Lemma payload_round_trip_witness :
  let ping := PingData 7 0 99 in
  let conn := ConnData (zeros AES_KEY_SIZE) (zeros AES_BLOCK_SIZE) (zeros HOP_KEY_SIZE) 1000 in
  let trust := TrustData (zeros MAX_NAME_SIZE) (zeros ADDR_SIZE) (zeros ADDR_SIZE) (zeros 130) (zeros 10) in
  read_ping (ping_bytes ping ++ [1]) = Some ping
  ∧ read_conn (conn_bytes conn ++ [1]) = Some conn
  ∧ read_trust (trust_bytes trust ++ [1]) = Some trust
  ∧ Z.of_nat (length (ping_bytes ping)) = sizeof_ping_data
  ∧ Z.of_nat (length (conn_bytes conn)) = sizeof_conn_data
  ∧ Z.of_nat (length (trust_bytes trust)) = sizeof_trust_data.
Proof. apply payload_round_trip; by vm_compute. Defined.
