(* ===== verification/Tunnel.v ===== *)
(** * The tunnel: [send_arg_wrapped] to [process_arg_wrapped] (src/protocol.c)

    A host's packet that one gateway wraps leaves the other gateway unchanged. *)

From S2P Require Import Prelude Words Settings ArgError Utility Crypto Packet PacketFacts Gate World Net Layout Hopper HopperFacts Message ArgPacket CipherLoop ToyCrypto ToyWorld RoundTrip Protocol.

(** A packet captured from a host: [inner] is the IP datagram after the link
    layer, which parses by itself and whose length field is right. *)
Record host_packet (p : packet_data) (inner : list Z) (dest : Z) : Prop := {
  host_link : 0 ≤ p_linkLayerLen p;
  host_len : p_len p = p_linkLayerLen p + Z.of_nat (length inner);
  host_data : take (length inner) (drop (Z.to_nat (p_linkLayerLen p)) (p_data p)) = inner;
  host_fits : p_len p ≤ Z.of_nat (length (p_data p));
  host_nonempty : 0 < Z.of_nat (length inner);
  host_parses : ∃ q, parse_packet (raw_packet 0 inner) = Some (0, q)
    ∧ p_ipv4 q = Some 0 ∧ p_linkLayerLen q = 0 ∧ p_data q = inner
    ∧ is_Some (get_dest_port q);
  host_tot_len : ip_tot_len 0 inner = Some (htons (Z.of_nat (length inner)));
  host_daddr : ip_daddr 0 inner = Some dest }.

Section Tunnel.
Context `{Hok : PolarSSL_ok} `{Env}.
Hypothesis mallocs_ok : ∀ i, env_malloc i = true.
Hypothesis sends_ok : ∀ i, 0 ≤ env_sendto i.

(** Sending puts the datagram on the wire as its length field says. *)
Lemma wp_bind_send {B} p ip bytes dest (k : Z → prog B) Q w :
  is_Some (get_dest_port p) → p_ipv4 p = Some ip → ip_daddr ip (p_data p) = Some dest →
  ip_tot_len ip (p_data p) = Some (htons (Z.of_nat (length bytes))) →
  Z.of_nat (length bytes) < 2 ^ 16 →
  rd (p_linkLayerLen p) (length bytes) (p_data p) = Some bytes →
  wp (k 0) Q (w <| w_sendto ::= S |> <| w_sent ::= (λ l, l ++ [OutIP dest bytes]) |>) →
  wp (send_packet p ≫= k) Q w.
Proof.
  intros [port Hport] Hip Hd Ht Hlen Hb Hk. apply wp_bind. unfold send_packet.
  eapply wp_bind_lift; [done|]. eapply wp_bind_lift; [done|]. eapply wp_bind_lift; [done|].
  eapply wp_bind_lift; [done|]. rewrite ntohs_htons, u16_small, Nat2Z.id by lia.
  eapply wp_bind_load; [done|]. apply wp_bind_sendto; [done|].
  apply wp_ret. by rewrite decide_False by (specialize (sends_ok (w_sendto w)); lia).
Qed.

(** ** The sending side *)

Lemma send_wrapped local remote gl gr k p inner dest w :
  local ≠ remote → w_gates w !! local = Some gl → w_gates w !! remote = Some gr →
  gate_wf gl → gate_wf gr → lock gr = false → connected gr = true → keyed (cipher gr) k →
  host_packet p inner dest →
  0 ≤ rsa_len (rsa gl) → 156 + Z.of_nat (length inner) + rsa_len (rsa gl) < 2 ^ 16 →
  wp (send_arg_wrapped local remote p) (λ r w',
    ∃ saddr daddr,
    let seq := outSeqNum (proto gr) in
    let alen := Z.of_nat (length inner) + 136 in
    let ct := cipher_text k (iv gr) seq (length inner) inner in
    r = 0 ∧ stamped gl gr w saddr daddr
    ∧ w_sent w' = w_sent w ++ [OutIP (le_val daddr) (concat (datagram saddr daddr ARG_WRAPPED_MSG
          alen seq (mac (symKey gl) alen seq ct) (zeros 96) ct []))]
    ∧ (∃ g, w_gates w' !! remote = Some g ∧ lock g = false)) w.
Proof.
  intros Hne Hl Hr Hwl Hwr Hlock Hconn Hk Hp Hrsa Hsize. unfold send_arg_wrapped.
  eapply wp_bind_lock; [done..|]. eapply wp_bind_get; [apply set_gate_same|]. 
  change (connected (with_lock true gr)) with (connected gr). rewrite Hconn. cbn [negb].
  destruct Hp as [Hll Hplen Hdata Hfits Hn _ _ _].
  assert (u16 (p_len p - p_linkLayerLen p) = Z.of_nat (length inner)) as ->
    by (rewrite u16_small; lia).
  set (msg := ArgMsg _ _).
  apply wp_bind. eapply wp_mono.
  { eapply (create_wrapped mallocs_ok local remote gl (with_lock true gr) k msg (length inner));
      [done| |apply set_gate_same|done| |done|done|done| |done|done].
    - by rewrite set_gate_ne.
    - destruct Hwr. by split.
    - cbn [msg m_data]. rewrite length_drop. lia. }
  cbv zeta. intros r w' (saddr & daddr & md' & c' & Hst & -> & Hg & Hsent).
  pose proof Hst as (_ & _ & Hsl & Hdl).
  assert (cipher_text k (iv gr) (outSeqNum (proto gr)) (length inner) (m_data msg)
    = cipher_text k (iv gr) (outSeqNum (proto gr)) (length inner) inner) as Hct.
  { unfold cipher_text. cbn [msg m_data]. by rewrite Hdata, firstn_all. }
  change (iv (with_lock true gr)) with (iv gr). change (proto (with_lock true gr)) with (proto gr).
  rewrite Hct. set (ct := cipher_text _ _ _ _ inner). set (h := mac _ _ _ _).
  rewrite decide_False by done. apply wp_bind_lift with (1 := eq_refl).
  assert (length ct = length inner) as Hctl by (apply length_cipher_text; lia).
  assert (length h = 32%nat) as Hh by apply length_mac.
  assert (fields_ok [] saddr daddr (Z.of_nat (length inner) + 136) ct) as Hf
    by (split; (done || lia)).
  pose proof (wire_rd [] saddr daddr ARG_WRAPPED_MSG _ (outSeqNum (proto gr)) ct Hf h (zeros 96)
    (zeros (Z.to_nat (rsa_len (rsa gl)))) Hh eq_refl) as Hrd.
  pose proof (rd_length _ _ _ _ Hrd) as Hlen.
  match type of Hrd with _ = Some ?b => set (bytes := b) in * end.
  eapply wp_bind_send with (bytes := bytes); [by eexists|done|by eapply wire_daddr| |lia|by rewrite Hlen|].
  { cbn [arg_parsed p_data]. unfold datagram. rewrite ip_tot_len_chunks. do 2 f_equal. lia. }
  eapply wp_bind_unlock; [cbn [w_gates upd]; rewrite Hg, lookup_insert_ne by done; apply lookup_insert_eq|].
  apply wp_ret. exists saddr, daddr. split_and!; [done|exact Hst| |].
  - cbn [set_gate w_sent upd]. by rewrite Hsent.
  - eexists. split; [apply set_gate_same|done].
Qed.

(** ** The receiving side *)

Lemma receive_wrapped local remote gl gr k link saddr daddr trailer inner dest p w :
  local ≠ remote → w_gates w !! local = Some gl → w_gates w !! remote = Some gr →
  lock gr = false → connected gr = true → keyed (cipher gl) k →
  host_packet p inner dest → ∀ seq, 0 ≤ seq < 2 ^ 32 →
  seq_check ARG_WRAPPED_MSG seq (inSeqNum (proto gr)) = SeqAdvance →
  let ct := cipher_text k (iv gl) seq (length inner) inner in
  let alen := Z.of_nat (length inner) + 136 in
  fields_ok link saddr daddr alen ct →
  wp (process_arg_wrapped local remote (frame link saddr daddr ARG_WRAPPED_MSG alen seq
        (mac (symKey gr) alen seq ct) (zeros 96) ct trailer)) (λ r w',
    r = 0 ∧ w_sent w' = w_sent w ++ [OutIP dest inner]
    ∧ (∃ g, w_gates w' !! remote = Some g ∧ lock g = false ∧ inSeqNum (proto g) = seq)) w.
Proof.
  intros Hne Hl Hr Hlock Hconn Hk Hp seq Hseq Hv ct alen Hf. unfold process_arg_wrapped.
  eapply wp_bind_lock; [done..|]. eapply wp_bind_get; [apply set_gate_same|].
  change (connected (with_lock true gr)) with (connected gr). rewrite Hconn. cbn [negb].
  assert (length ct = length inner) as Hctl by (apply length_cipher_text; lia).
  apply wp_bind. eapply wp_mono.
  { eapply (process_wrapped mallocs_ok link saddr daddr ARG_WRAPPED_MSG alen seq ct Hf local remote gl
      (with_lock true gr) k trailer); [done|done| |done| |apply set_gate_same|done|done|done].
    - destruct Hp. lia.
    - by rewrite set_gate_ne. }
  cbv zeta. intros r w' (c' & md' & rest & -> & Hg & Hsent).
  rewrite decide_False by (intros Hx; by apply Hx). apply wp_bind_lift with (1 := eq_refl).
  destruct Hp as [_ _ _ _ Hn (q & Hparse & Hip & Hll & Hd & Hport) Htot Hdest].
  apply wp_bind_create; [done|cbn [m_len]; lia|].
  cbn [m_len m_data]. rewrite Hctl, Nat2Z.id.
  assert (xor_bytes ct (stream k (mix_nounce (iv gl) (htonl seq)) 0 (length inner)) = inner) as Hx.
  { unfold ct, cipher_text. rewrite firstn_all. apply xor_cancel. by rewrite length_stream. }
  rewrite Hx. apply wp_bind_lift with (a := inner); [by apply rd_app_l|].
  eapply wp_bind_store.
  { cbn [blank_packet p_data]. apply wr_Some. rewrite !Nat2Z.id. unfold zeros. rewrite length_replicate.
    split_and!; [done|lia|]. cbn. rewrite drop_ge by (rewrite length_replicate; lia).
    rewrite app_nil_r. reflexivity. }
  apply wp_bind_lift with (a := (0, q)); [exact Hparse|].
  eapply wp_bind_send with (bytes := inner); [done|done|by rewrite Hd|by rewrite Hd| | |].
  { destruct Hf. lia. }
  { rewrite Hll, Hd. by apply rd_all. }
  eapply wp_bind_unlock; [cbn [w_gates upd]; rewrite Hg, lookup_insert_ne by done; apply lookup_insert_eq|].
  apply wp_ret. split_and!; [done| |].
  - cbn [set_gate w_sent upd]. by rewrite Hsent.
  - eexists. split_and!; [apply set_gate_same|done..].
Qed.
End Tunnel.

(** A sends one datagram; B, which receives it behind any link header and in
    front of any trailing bytes, sends the host's packet [inner] to [dest]. *)
Definition carried `{PolarSSL} (send : prog Z) (receive : packet_data → prog Z) (link trailer : list Z)
    (dest : Z) (inner : list Z) (wA wB wA' wB' : world) : Prop :=
  ∃ outer bytes q, send wA = Done 0 wA'
    ∧ w_sent wA' = w_sent wA ++ [OutIP outer bytes]
    ∧ parse_packet (raw_packet (Z.of_nat (length link)) (link ++ bytes ++ trailer)) = Some (0, q)
    ∧ receive q wB = Done 0 wB'
    ∧ w_sent wB' = w_sent wB ++ [OutIP dest inner].

Lemma tunnel_run `{Hok : PolarSSL_ok} (EA EB : Env)
    localA remoteA localB remoteB la ra lb rb (wA wB : world) p inner dest link trailer :
  (∀ i, @env_malloc EA i = true) → (∀ i, @env_malloc EB i = true) →
  (∀ i, 0 ≤ @env_sendto EA i) → (∀ i, 0 ≤ @env_sendto EB i) →
  w_gates wA !! localA = Some la → w_gates wA !! remoteA = Some ra → localA ≠ remoteA →
  w_gates wB !! localB = Some lb → w_gates wB !! remoteB = Some rb → localB ≠ remoteB →
  peers la ra lb rb → lock ra = false → lock rb = false →
  host_packet p inner dest →
  0 ≤ rsa_len (rsa la) → 156 + Z.of_nat (length inner) + rsa_len (rsa la) < 2 ^ 16 →
  link_ok link →
  ∃ wA' wB' ga gb,
    carried (@send_arg_wrapped _ EA localA remoteA p) (@process_arg_wrapped _ EB localB remoteB)
      link trailer dest inner wA wB wA' wB'
    ∧ w_gates wA' !! remoteA = Some ga ∧ lock ga = false
    ∧ w_gates wB' !! remoteB = Some gb ∧ lock gb = false
    ∧ inSeqNum (proto gb) = outSeqNum (proto ra).
Proof.
  intros HmA HmB HsA HsB HlA HrA HneA HlB HrB HneB
    [Hla Hra [HcA HcB] [k [HkA HkB]] Hiv Hhmac [Hseq Hv]] HkaA HkaB Hp Hrsa Hsize Hlink.
  pose proof (send_wrapped HmA HsA localA remoteA la ra k p inner dest wA HneA HlA HrA Hla Hra HkaA
    HcA HkA Hp Hrsa Hsize) as (rA & wA' & HrunA & saddr & daddr & -> & (_ & _ & Hsl & Hdl) & HsentA & ga & Hga & Hka)%wp_elim.
  rewrite Hhmac in HsentA.
  set (seq := outSeqNum (proto ra)) in *. set (ct := cipher_text _ _ _ _ _) in *.
  assert (length ct = length inner) as Hctl by (apply length_cipher_text; lia).
  assert (fields_ok link saddr daddr (Z.of_nat (length inner) + 136) ct) as Hf
    by (split; (done || lia)).
  pose proof (receive_wrapped HmB HsB localB remoteB lb rb k link saddr daddr trailer inner dest p wB
    HneB HlB HrB HkaB HcB HkB Hp seq Hseq Hv) as HwB.
  cbv zeta in HwB. rewrite <- Hiv in HwB. specialize (HwB Hf).
  apply wp_elim in HwB as (rB & wB' & HrunB & -> & HsentB & gb & Hgb & Hkb & HseqB).
  do 4 eexists. split_and!; [|done..]. do 3 eexists. split_and!; [exact HrunA|exact HsentA| |exact HrunB|exact HsentB].
  apply wire_frame; [exact Hf|apply length_mac|done].
Qed.

(** C5. The tunnel delivers: a host's packet that gateway A wraps goes onto the
    wire as one datagram, and gateway B, receiving it behind any link header and
    in front of any trailing bytes, sends exactly the host's packet on to its
    destination.  Both gateways release the mutex they took, and B has recorded
    the sequence number. *)
Theorem tunnel_delivers `{Hok : PolarSSL_ok} (EA EB : Env)
    localA remoteA localB remoteB la ra lb rb (wA wB : world) p inner dest link trailer :
  (∀ i, @env_malloc EA i = true) → (∀ i, @env_malloc EB i = true) →
  (∀ i, 0 ≤ @env_sendto EA i) → (∀ i, 0 ≤ @env_sendto EB i) →
  w_gates wA !! localA = Some la → w_gates wA !! remoteA = Some ra → localA ≠ remoteA →
  w_gates wB !! localB = Some lb → w_gates wB !! remoteB = Some rb → localB ≠ remoteB →
  peers la ra lb rb → lock ra = false → lock rb = false →
  host_packet p inner dest →
  0 ≤ rsa_len (rsa la) → 156 + Z.of_nat (length inner) + rsa_len (rsa la) < 2 ^ 16 →
  link_ok link →
  ∃ wA' outer bytes q wB' ga gb,
    @send_arg_wrapped _ EA localA remoteA p wA = Done 0 wA'
    ∧ w_sent wA' = w_sent wA ++ [OutIP outer bytes]
    ∧ parse_packet (raw_packet (Z.of_nat (length link)) (link ++ bytes ++ trailer)) = Some (0, q)
    ∧ @process_arg_wrapped _ EB localB remoteB q wB = Done 0 wB'
    ∧ w_sent wB' = w_sent wB ++ [OutIP dest inner]
    ∧ w_gates wA' !! remoteA = Some ga ∧ lock ga = false
    ∧ w_gates wB' !! remoteB = Some gb ∧ lock gb = false
    ∧ inSeqNum (proto gb) = outSeqNum (proto ra).
Proof.
  intros HmA HmB HsA HsB HlA HrA HneA HlB HrB HneB Hpe HkaA HkaB Hp Hrsa Hsize Hlink.
  destruct (tunnel_run EA EB localA remoteA localB remoteB la ra lb rb wA wB p inner dest link trailer HmA HmB HsA HsB
    HlA HrA HneA HlB HrB HneB Hpe HkaA HkaB Hp Hrsa Hsize Hlink)
    as (wA' & wB' & ga & gb & (outer & bytes & q & ? & ? & ? & ? & ?) & ? & ? & ? & ? & ?).
  do 7 eexists. split_and!; done.
Qed.

(** The packet [PacketFacts.udp_packet], wrapped by A and unwrapped by B. *)
Lemma udp_host_packet : host_packet udp_packet (p_data udp_packet) 3355551936.
Proof.
  split; try (by vm_compute); try reflexivity.
  exists udp_packet. split_and!; try reflexivity. by exists 53.
Defined.

Lemma tunnel_delivers_witness :
  ∃ wA' outer bytes q wB' ga gb,
    send_arg_wrapped 1%positive 2%positive udp_packet worldA = Done 0 wA'
    ∧ w_sent wA' = w_sent worldA ++ [OutIP outer bytes]
    ∧ parse_packet (raw_packet 14 (eth_header ++ bytes ++ [9; 9])) = Some (0, q)
    ∧ process_arg_wrapped 1%positive 2%positive q worldB = Done 0 wB'
    ∧ w_sent wB' = w_sent worldB ++ [OutIP 3355551936 (p_data udp_packet)]
    ∧ w_gates wA' !! 2%positive = Some ga ∧ lock ga = false
    ∧ w_gates wB' !! 2%positive = Some gb ∧ lock gb = false
    ∧ inSeqNum (proto gb) = 5.
Proof.
  apply (tunnel_delivers toy_env toy_env 1%positive 2%positive 1%positive 2%positive
    (gateA (Some 2%positive) None) (gateB None (Some 1%positive))
    (gateB (Some 2%positive) None) (gateA None (Some 1%positive)) worldA worldB
    udp_packet (p_data udp_packet) 3355551936 eth_header [9; 9]); try done.
  - exact toy_peers.
  - exact udp_host_packet.
  - intros _. by exists 8.
Defined.
