(* ===== verification/Handshake.v ===== *)
(** * Connecting two gateways (src/protocol.c)

    The exchange of connection data and the exchange of pings between two
    gateways that know each other's public keys, and that it leaves them in the
    state in which wrapped packets are delivered. *)

From S2P Require Import Prelude Words Settings ArgError Utility Crypto Packet PacketFacts Gate World Net Layout Hopper HopperFacts Message ArgPacket CipherLoop ToyCrypto ToyWorld RoundTrip AdminTrip Protocol ProtocolFacts Tunnel.

(** The next outgoing sequence number. *)
Abbreviation bump_seq := (with_proto (λ q, q <| outSeqNum ::= (λ n, u32 (n + 1)) |>)).

(** The datagram of a signed message. *)
Definition sealed_datagram (saddr daddr : list Z) (type seq : Z) (ct sig : list Z) : list Z :=
  concat (datagram saddr daddr type SEALED_LEN seq (sig_lo sig) (sig_hi sig) ct []).

Section Send.
Context `{Hok : PolarSSL_ok} `{Env}.
Context (mallocs_ok : ∀ i, env_malloc i = true) (sends_ok : ∀ i, 0 ≤ env_sendto i).

(** [priv] is the receiver's private key, [pub] our public key as it knows it. *)
Lemma send_signed local remote gl gr type msg m priv pub w :
  local ≠ remote → w_gates w !! local = Some gl → w_gates w !! remote = Some gr →
  gate_wf gl → gate_wf gr → is_symmetric type = false → fits_key msg m →
  rsa_pair (rsa gr) priv → rsa_pair pub (rsa gl) → rsa_len priv = KEY_LEN → rsa_len (rsa gl) = KEY_LEN →
  wp (send_arg_packet local remote type (Some msg)) (λ r w',
    ∃ saddr daddr ct sig rng', r = 0 ∧ stamped gl gr w saddr daddr
    ∧ sealed priv pub type (outSeqNum (proto gr)) m ct sig
    ∧ w_sent w' = w_sent w ++ [OutIP (le_val daddr) (sealed_datagram saddr daddr type (outSeqNum (proto gr)) ct sig)]
    ∧ w_gates w' = <[local := gl <| ctr_drbg := rng' |>]> (<[remote := bump_seq gr]> (w_gates w))
    ∧ w_gateInfo w' = w_gateInfo w ∧ w_clock w' = S (S (w_clock w))) w.
Proof using All.
  intros Hne Hl Hr Hwl Hwr Hsym Hfit HR HS HkR HkS.
  destruct (seal_ok (rsa gr) priv pub (rsa gl) (ctr_drbg gl) type (outSeqNum (proto gr)) m)
    as (ct & rng' & sig & He & Hsg & Hsl); [done..|by destruct Hfit|by destruct Hfit|].
  pose proof Hsl as [Hct Hsig _ _ _].
  unfold send_arg_packet. apply wp_bind. eapply wp_mono.
  { eapply (create_signed mallocs_ok local remote gl gr type msg m ct rng'); [done..| |done|done|exact Hsg|done].
    destruct HR as (_ & _ & -> & _). done. }
  cbv beta zeta. intros r w' (saddr & daddr & Hst & -> & ->). pose proof Hst as (_ & _ & Hsl1 & Hdl1).
  rewrite decide_False by lia. eapply wp_bind_lift; [done|].
  assert (fields_ok [] saddr daddr SEALED_LEN ct) as Hf.
  { split; [done|done|done| |done]. by rewrite Hct. }
  pose proof (wire_rd [] saddr daddr type SEALED_LEN (outSeqNum (proto gr)) ct Hf (sig_lo sig) (sig_hi sig)
    (zeros (length m)) ltac:(by apply length_lo) ltac:(by apply length_hi)) as Hrd.
  pose proof (rd_length _ _ _ _ Hrd) as Hlen. fold (sealed_datagram saddr daddr type (outSeqNum (proto gr)) ct sig) in Hrd, Hlen.
  set (bytes := sealed_datagram _ _ _ _ _ _) in *.
  apply wp_bind_right. eapply (wp_bind_send sends_ok) with (bytes := bytes);
    [by eexists|done|by eapply wire_daddr| | |by rewrite Hlen|].
  { cbn [arg_parsed p_data]. unfold datagram. rewrite ip_tot_len_chunks. do 2 f_equal. rewrite Hlen. by vm_compute. }
  { rewrite Hlen. by vm_compute. }
  apply wp_ret. exists saddr, daddr, ct, sig, rng'. split_and!; done.
Qed.
End Send.

(** ** What arrives *)

Section Receive.
Context `{Hok : PolarSSL_ok} `{Env}.
Context (mallocs_ok : ∀ i, env_malloc i = true).

(** Behind any link header and in front of any trailing bytes, a receiver's
    parser makes this of it. *)
Abbreviation sealed_frame link saddr daddr type seq ct sig trailer :=
  (frame link saddr daddr type SEALED_LEN seq (sig_lo sig) (sig_hi sig) ct trailer).

Lemma sealed_fields link saddr daddr priv pub type seq m ct sig :
  link_ok link → length saddr = ADDR_SIZE → length daddr = ADDR_SIZE →
  sealed priv pub type seq m ct sig → fields_ok link saddr daddr SEALED_LEN ct.
Proof. intros Hlink Hs Hd [Hct _ _ _ _]. split; [done|done|done| |done]. by rewrite Hct. Qed.

Lemma sealed_arrives link saddr daddr priv pub type seq m ct sig trailer :
  link_ok link → length saddr = ADDR_SIZE → length daddr = ADDR_SIZE →
  sealed priv pub type seq m ct sig →
  parse_packet (raw_packet (Z.of_nat (length link))
    (link ++ sealed_datagram saddr daddr type seq ct sig ++ trailer))
  = Some (0, sealed_frame link saddr daddr type seq ct sig trailer).
Proof.
  intros Hlink Hs Hd Hsl. pose proof Hsl as [_ Hsig _ _ _].
  apply wire_frame; [by eapply sealed_fields|by apply length_lo|by apply length_hi].
Qed.

(** A fresh message is opened; its sequence number is recorded. *)
Lemma open_sealed local remote gl gr link saddr daddr type seq m ct sig trailer w :
  link_ok link → length saddr = ADDR_SIZE → length daddr = ADDR_SIZE →
  sealed (rsa gl) (rsa gr) type seq m ct sig →
  0 ≤ type < 256 ∧ is_symmetric type = false → 0 ≤ seq < 2 ^ 32 → local ≠ remote →
  w_gates w !! local = Some gl → w_gates w !! remote = Some gr →
  rsa_len (rsa gl) = KEY_LEN → rsa_len (rsa gr) = KEY_LEN →
  inSeqNum (proto gr) < seq →
  wp (process_arg_packet local remote (sealed_frame link saddr daddr type seq ct sig trailer)) (λ r w',
    ∃ rest, r = (0, Some (ArgMsg (Z.of_nat (length m)) (m ++ rest)))
    ∧ w_gates w' = <[remote := set_inSeqNum seq gr]> (w_gates w)
    ∧ w_sent w' = w_sent w ∧ w_clock w' = w_clock w ∧ w_gateInfo w' = w_gateInfo w ∧ w_random w' = w_random w) w.
Proof using All.
  intros Hlink Hs Hd Hsl Ht Hseq Hne Hl Hr Hkl Hkr Hnew.
  pose proof (sealed_fields link _ _ _ _ _ _ _ _ _ Hlink Hs Hd Hsl) as Hf. pose proof Hsl as [Hct Hsig Hdec Hver Hm].
  eapply (process_signed mallocs_ok link saddr daddr type SEALED_LEN seq ct sig Hf Ht Hct Hsig local remote gl gr m);
    [done..| | |].
  - unfold seq_check. rewrite decide_True by lia. reflexivity.
  - done.
  - cbv zeta. intros rest w' Hg H1 H2 H3 H4. rewrite decide_True in Hg by done. rewrite decide_False by done.
    apply wp_ret. exists rest. by split_and!.
Qed.
End Receive.

(** ** Connection data *)

(** The gateway's own keys as it sends them. *)
Definition own_conn_data `{PolarSSL} (l : arg_network_info) : arg_conn_data :=
  ConnData (symKey l) (iv l) (hopKey l) (htonl (hopInterval l)).

(** A gateway's record of itself: sizes, and values that fit their fields. *)
Record own_ok `{PolarSSL} (l : arg_network_info) : Prop := {
  ow_wf : gate_wf l;
  ow_keys : bytes_ok (symKey l) ∧ bytes_ok (iv l) ∧ bytes_ok (hopKey l);
  ow_rsa : rsa_len (rsa l) = KEY_LEN;
  ow_lock : lock l = false }.

Lemma own_conn_wf `{PolarSSL} l : own_ok l → conn_wf (own_conn_data l).
Proof. intros [[Hs Hi Hh _ _ _] _ _ _]. split; [done|]. split; [done|]. split; [done|]. apply htonl_range. Qed.

Lemma length_conn_bytes d : conn_wf d → length (conn_bytes d) = 68%nat.
Proof. intros (H1 & H2 & H3 & _). unfold conn_bytes. by rewrite !length_app, length_le_bytes, H1, H2, H3. Qed.

Lemma rd_conn_iv d rest : conn_wf d → rd 32 AES_BLOCK_SIZE (conn_bytes d ++ rest) = Some (c_iv d).
Proof.
  intros (Hk & Hi & _ & _). destruct d as [k i h n]. unfold conn_bytes. cbn [c_symKey c_iv c_hopKey c_hopInterval] in *.
  rewrite <- !app_assoc. by read_fields.
Qed.

Lemma conn_message `{PolarSSL} l :
  own_ok l → fits_key (ArgMsg sizeof_conn_data (conn_bytes (own_conn_data l))) (conn_bytes (own_conn_data l)).
Proof.
  intros Hl. pose proof Hl as [[Hs Hi Hh _ _ _] (Bs & Bi & Bh) _ _].
  pose proof (length_conn_bytes _ (own_conn_wf l Hl)) as Hlen.
  split; rewrite ?Hlen; [done|exists []; by rewrite app_nil_r| |done]. unfold conn_bytes.
  repeat apply Forall_app_2; try done. apply le_bytes_ok.
Qed.

Lemma relock `{PolarSSL} g : lock g = false → with_lock false (with_lock true g) = g.
Proof. destruct g. cbn. by intros ->. Qed.

Lemma accept_conn_lock `{PolarSSL} d now b g :
  accept_conn_data d now (with_lock b g) = with_lock b (accept_conn_data d now g).
Proof. destruct g as [? ? ? [? ? ? ? [] ? ? ? ? ? ? ? ?]]; reflexivity. Qed.

Lemma accept_conn_unlock `{PolarSSL} d now g :
  lock g = false → with_lock false (accept_conn_data d now (with_lock true g)) = accept_conn_data d now g.
Proof.
  intros Hg. rewrite accept_conn_lock. apply relock. rewrite <- Hg.
  destruct g as [? ? ? [? ? ? ? [] ? ? ? ? ? ? ? ?]]; reflexivity.
Qed.

(** What storing a peer's data keeps, and what it sets. *)
Definition with_conn_data `{PolarSSL} (d : arg_conn_data) (t : timespec) (seq : Z) (g : arg_network_info)
    : arg_network_info :=
  ask_ping_and_trust (accept_conn_data d t (set_inSeqNum seq g)).

Lemma with_conn_keeps `{PolarSSL} d t seq g :
  let g' := with_conn_data d t seq g in
  rsa g' = rsa g ∧ lock g' = lock g ∧ baseIP g' = baseIP g ∧ mask g' = mask g ∧ name g' = name g
  ∧ timeBase g' = timeBase g
  ∧ outSeqNum (proto g') = outSeqNum (proto g) ∧ inSeqNum (proto g') = seq
  ∧ timeBaseAvailable (proto g') = timeBaseAvailable (proto g).
Proof. destruct g as [? ? ? [? ? ? ? [] ? ? ? ? ? ? ? ?]]; by split_and!. Qed.

Lemma with_conn_sets `{PolarSSL} d t seq g :
  let g' := with_conn_data d t seq g in
  symKey g' = c_symKey d ∧ iv g' = c_iv d ∧ hopKey g' = c_hopKey d ∧ hopInterval g' = ntohl (c_hopInterval d)
  ∧ cipher g' = cipher_setkey (cipher g) (c_symKey d) (Z.of_nat AES_KEY_SIZE * 8)
  ∧ connDataAvailable (proto g') = true
  ∧ connected g' = connected g || timeBaseAvailable (proto g).
Proof. destruct g as [? [] ? [? ? ? ? [] ? ? ? ? ? ? ? ?]]; by split_and!. Qed.

Lemma with_conn_wf `{PolarSSL} d t seq g : conn_wf d → gate_wf g → gate_wf (with_conn_data d t seq g).
Proof.
  intros (H1 & H2 & H3 & _) [_ _ _ Hb Hm Hn].
  destruct (with_conn_keeps d t seq g) as (_ & _ & Eb & Em & En & _).
  destruct (with_conn_sets d t seq g) as (E1 & E2 & E3 & _).
  split; congruence.
Qed.

Section Connect.
Context `{Hok : PolarSSL_ok} `{Env}.
Context (mallocs_ok : ∀ i, env_malloc i = true) (sends_ok : ∀ i, 0 ≤ env_sendto i).

Lemma send_conn_run local remote gl gr isResponse priv pub w :
  local ≠ remote → w_gates w !! local = Some gl → w_gates w !! remote = Some gr →
  own_ok gl → gate_wf gr → lock gr = false →
  rsa_pair (rsa gr) priv → rsa_pair pub (rsa gl) → rsa_len priv = KEY_LEN →
  wp (send_arg_conn_data local remote isResponse) (λ r w',
    ∃ saddr daddr ct sig rng' t, r = 0 ∧ length saddr = ADDR_SIZE ∧ length daddr = ADDR_SIZE
    ∧ gate_matches gl saddr = true ∧ w_gateInfo w' = w_gateInfo w
    ∧ let type := if isResponse then ARG_CONN_DATA_RESP_MSG else ARG_CONN_DATA_REQ_MSG in
      let seq := outSeqNum (proto gr) in
      sealed priv pub type seq (conn_bytes (own_conn_data gl)) ct sig
    ∧ w_sent w' = w_sent w ++ [OutIP (le_val daddr) (sealed_datagram saddr daddr type seq ct sig)]
    ∧ w_gates w' = <[remote := set_lastConnAttemptTime t (bump_seq gr)]>
        (<[local := gl <| ctr_drbg := rng' |>]> (w_gates w))) w.
Proof using All.
  intros Hne Hl Hr Hown Hwr Hlk HR HS HkR. pose proof Hown as [Hwl _ Hkl Hll].
  unfold send_arg_conn_data, create_arg_msg.
  apply wp_assoc, wp_bind_malloc. rewrite mallocs_ok. cbn [negb].
  apply wp_assoc, wp_bind_malloc. rewrite mallocs_ok. cbn [negb]. rewrite ret_bind.
  eapply wp_bind_lock; [exact Hl|done|]. eapply wp_bind_get; [apply set_gate_same|].
  eapply wp_bind_unlock; [apply set_gate_same|]. rewrite relock by done.
  change (ConnData _ _ _ _) with (own_conn_data gl).
  set (w1 := set_gate local gl _).
  assert (w_gates w1 = w_gates w) as Hw1 by (cbn; rewrite insert_insert_eq; by apply insert_id).
  assert (w_sent w1 = w_sent w ∧ w_gateInfo w1 = w_gateInfo w) as [Hw1s Hw1i] by done. clearbody w1.
  set (type := if isResponse then _ else _). set (seq := outSeqNum (proto gr)).
  apply wp_bind. eapply wp_mono.
  { apply (send_signed mallocs_ok sends_ok local remote gl gr type
      (ArgMsg sizeof_conn_data (conn_bytes (own_conn_data gl))) (conn_bytes (own_conn_data gl)) priv pub);
      rewrite ?Hw1; try done; [unfold type; by destruct isResponse|by apply conn_message]. }
  cbv beta. intros r w2 (saddr & daddr & ct & sig & rng' & -> & (Hip & _ & Hs & Hd) & Hsl & Hsent & Hg & Hi & _).
  assert (w_gates w2 !! remote = Some (bump_seq gr)) as Hr2
    by (rewrite Hg, lookup_insert_ne by done; apply lookup_insert_eq).
  eapply wp_bind_lock; [exact Hr2|done|]. rewrite decide_True by done.
  apply wp_assoc, wp_bind_time. set (t := env_clock _).
  eapply wp_bind_upd; [apply set_gate_same|]. eapply wp_bind_unlock; [apply set_gate_same|].
  apply wp_ret. exists saddr, daddr, ct, sig, rng', t.
  split_and!; [done|done|done|by eapply ip_at_matches|by rewrite <- Hw1i|done| |].
  - cbn [w_sent set_gate upd]. by rewrite Hsent, Hw1s.
  - unfold set_gate. cbn [w_gates upd]. rewrite Hg, Hw1, !insert_insert_eq.
    rewrite (insert_insert_ne _ local remote) by done. rewrite insert_insert_eq.
    exact (f_equal (λ x, <[remote := x]> _) (relock (set_lastConnAttemptTime t (bump_seq gr)) Hlk)).
Qed.

(** The answer of a peer, or its request: its keys are stored. *)
Lemma conn_resp_run local remote gl gr link saddr daddr type seq d ct sig trailer w :
  link_ok link → length saddr = ADDR_SIZE → length daddr = ADDR_SIZE →
  sealed (rsa gl) (rsa gr) type seq (conn_bytes d) ct sig → conn_wf d →
  0 ≤ type < 256 ∧ is_symmetric type = false → 0 ≤ seq < 2 ^ 32 → local ≠ remote →
  w_gates w !! local = Some gl → w_gates w !! remote = Some gr →
  rsa_len (rsa gl) = KEY_LEN → rsa_len (rsa gr) = KEY_LEN →
  inSeqNum (proto gr) < seq → lock gr = false →
  wp (process_arg_conn_data_resp local remote
        (frame link saddr daddr type SEALED_LEN seq (sig_lo sig) (sig_hi sig) ct trailer)) (λ r w',
    r = 0 ∧ ∃ t, w_gates w' = <[remote := with_conn_data d t seq gr]> (w_gates w)
    ∧ w_sent w' = w_sent w ∧ w_gateInfo w' = w_gateInfo w) w.
Proof using All.
  intros Hlink Hs Hd Hsl Hwf Ht Hseq Hne Hl Hr Hkl Hkr Hnew Hlk. unfold process_arg_conn_data_resp.
  apply wp_bind. eapply wp_mono; [by eapply (open_sealed mallocs_ok local remote gl gr)|].
  cbv beta. intros r w1 (rest & -> & Hg & Hsent & _ & Hi & _). rewrite decide_False by lia.
  eapply wp_bind_lift; [done|]. cbn [m_len m_data].
  rewrite (length_conn_bytes d Hwf), decide_True by done.
  eapply wp_bind_lock; [rewrite Hg; apply lookup_insert_eq|done|].
  eapply wp_bind_lift; [by apply read_conn_bytes|]. apply wp_bind_time. set (t := env_clock _).
  eapply wp_bind_upd; [apply set_gate_same|]. eapply wp_bind_unlock; [apply set_gate_same|].
  eapply wp_bind_upd; [apply set_gate_same|]. apply wp_ret. split; [done|]. exists t. split; [|by split].
  unfold set_gate. cbn [w_gates upd]. rewrite Hg, !insert_insert_eq.
  exact (f_equal (λ x, <[remote := ask_ping_and_trust x]> _) (accept_conn_unlock d t (set_inSeqNum seq gr) Hlk)).
Qed.

Lemma conn_req_run local remote gl gr link saddr daddr seq d ct sig trailer pub w :
  link_ok link → length saddr = ADDR_SIZE → length daddr = ADDR_SIZE →
  sealed (rsa gl) (rsa gr) ARG_CONN_DATA_REQ_MSG seq (conn_bytes d) ct sig → conn_wf d →
  0 ≤ seq < 2 ^ 32 → local ≠ remote →
  w_gates w !! local = Some gl → w_gates w !! remote = Some gr →
  own_ok gl → gate_wf gr → rsa_len (rsa gr) = KEY_LEN →
  inSeqNum (proto gr) < seq → lock gr = false →
  ∀ priv, rsa_pair (rsa gr) priv → rsa_pair pub (rsa gl) → rsa_len priv = KEY_LEN →
  wp (process_arg_conn_data_req local remote
        (frame link saddr daddr ARG_CONN_DATA_REQ_MSG SEALED_LEN seq (sig_lo sig) (sig_hi sig) ct trailer)) (λ r w',
    ∃ saddr daddr ct sig rng' t t', r = 0 ∧ length saddr = ADDR_SIZE ∧ length daddr = ADDR_SIZE
    ∧ gate_matches gl saddr = true ∧ w_gateInfo w' = w_gateInfo w
    ∧ let seq' := outSeqNum (proto gr) in
      sealed priv pub ARG_CONN_DATA_RESP_MSG seq' (conn_bytes (own_conn_data gl)) ct sig
    ∧ w_sent w' = w_sent w ++ [OutIP (le_val daddr) (sealed_datagram saddr daddr ARG_CONN_DATA_RESP_MSG seq' ct sig)]
    ∧ w_gates w' = <[remote := ask_ping_and_trust (set_lastConnAttemptTime t' (bump_seq (with_conn_data d t seq gr)))]>
        (<[local := gl <| ctr_drbg := rng' |>]> (w_gates w))) w.
Proof using All.
  intros Hlink Hs Hd Hsl Hwf Hseq Hne Hl Hr Hown Hwr Hkr Hnew Hlk priv HR HS Hkp.
  unfold process_arg_conn_data_req. apply wp_bind. eapply wp_mono.
  { eapply (conn_resp_run local remote gl gr link saddr daddr ARG_CONN_DATA_REQ_MSG); try done. apply Hown. }
  cbv beta. intros r w1 (-> & t & Hg & Hsent & Hi). rewrite decide_False by lia.
  destruct (with_conn_keeps d t seq gr) as (Ersa & Elock & _ & _ & _ & _ & Eout & _).
  set (gr1 := with_conn_data d t seq gr) in *. apply wp_bind. eapply wp_mono.
  { eapply (send_conn_run local remote gl gr1 true priv pub w1); rewrite ?Ersa, ?Elock; try done.
    - by rewrite Hg, lookup_insert_ne by done.
    - rewrite Hg. apply lookup_insert_eq.
    - by apply with_conn_wf. }
  cbv beta. intros r w2 (saddr' & daddr' & ct' & sig' & rng' & t' & -> & Hs' & Hd' & Hm' & Hi' & Hsl' & Hsent' & Hg').
  rewrite decide_False by lia. eapply wp_bind_upd; [rewrite Hg'; apply lookup_insert_eq|].
  apply wp_ret. rewrite Eout, Hsent in *. exists saddr', daddr', ct', sig', rng', t, t'.
  split_and!; [done|done|done|done|by rewrite <- Hi|done|done|]. unfold set_gate. cbn [w_gates upd]. rewrite Hg', Hg, insert_insert_eq.
  by rewrite (insert_insert_ne _ local remote), insert_insert_eq by done.
Qed.
End Connect.

(** ** Two gateways that know each other's public keys *)

(** [r], a record of the gateway [l], has its keys. *)
Record knows `{PolarSSL_ok} (r l : arg_network_info) : Prop := {
  kn_symKey : symKey r = symKey l;
  kn_iv : iv r = iv l;
  kn_hopKey : hopKey r = hopKey l;
  kn_hopInterval : hopInterval r = hopInterval l;
  kn_cipher : keyed (cipher r) (symKey l) }.

(** Before the exchange: gateway A has the records [la] of itself and [ra] of B,
    gateway B has [lb] and [rb]; the keys belong together and the next sequence
    numbers are fresh. *)
Record acquainted `{PolarSSL_ok} (la ra lb rb : arg_network_info) : Prop := {
  aq_la : own_ok la; aq_lb : own_ok lb;
  aq_ra : gate_wf ra; aq_rb : gate_wf rb;
  aq_locks : lock ra = false ∧ lock rb = false;
  aq_pairs : rsa_pair (rsa ra) (rsa lb) ∧ rsa_pair (rsa rb) (rsa la);
  aq_ciphers : keyed (cipher la) (symKey la) ∧ keyed (cipher lb) (symKey lb);
  aq_hops : 0 ≤ hopInterval la < 2 ^ 32 ∧ 0 ≤ hopInterval lb < 2 ^ 32;
  aq_seq_ab : 0 ≤ inSeqNum (proto rb) < outSeqNum (proto ra);
  aq_seq_ba : 0 ≤ inSeqNum (proto ra) < outSeqNum (proto rb);
  aq_seq_room : outSeqNum (proto ra) < 2 ^ 32 - 1 ∧ outSeqNum (proto rb) < 2 ^ 32 - 1 }.

Lemma with_conn_knows `{PolarSSL_ok} l t seq g :
  own_ok l → 0 ≤ hopInterval l < 2 ^ 32 → knows (with_conn_data (own_conn_data l) t seq g) l.
Proof.
  intros [[Hs _ _ _ _ _] _ _ _] Hh.
  destruct (with_conn_sets (own_conn_data l) t seq g) as (E1 & E2 & E3 & E4 & E5 & _).
  split; [done|done|done| |].
  - rewrite E4. cbn [own_conn_data c_hopInterval]. by rewrite ntohl_htonl, u32_small.
  - rewrite E5. apply cipher_setkey_ok. cbn [own_conn_data c_symKey]. rewrite Hs. unfold AES_KEY_SIZE. lia.
Qed.

(** Updates that only touch the protocol's bookkeeping. *)
Definition same_keys `{PolarSSL} (g g' : arg_network_info) : Prop :=
  symKey g' = symKey g ∧ iv g' = iv g ∧ hopKey g' = hopKey g ∧ hopInterval g' = hopInterval g
  ∧ cipher g' = cipher g.

Lemma knows_same `{PolarSSL_ok} r r' l l' : same_keys r r' → same_keys l l' → knows r l → knows r' l'.
Proof.
  intros (R1 & R2 & R3 & R4 & R5) (L1 & L2 & L3 & L4 & L5) [K1 K2 K3 K4 K5]. split; congruence.
Qed.

(** Keys on both sides, both connected, and fresh numbers: wrapped packets pass. *)
Lemma knows_peers `{PolarSSL_ok} la ra lb rb :
  gate_wf la → gate_wf ra → knows ra lb → knows rb la → keyed (cipher lb) (symKey lb) →
  connected ra = true → connected rb = true →
  0 ≤ outSeqNum (proto ra) < 2 ^ 32 → inSeqNum (proto rb) < outSeqNum (proto ra) → peers la ra lb rb.
Proof.
  intros Hla Hra [A1 A2 _ _ A5] [B1 _ _ _ _] Hc Hca Hcb Hseq Hnew. split; try done.
  - by exists (symKey lb).
  - split; [done|]. unfold seq_check. by rewrite decide_True by lia.
Qed.

(** What sending the own data does to the record of the peer. *)
Definition after_send `{PolarSSL} (t : timespec) (g : arg_network_info) : arg_network_info :=
  set_lastConnAttemptTime t (bump_seq g).

Lemma after_send_keeps `{PolarSSL} t g :
  let g' := ask_ping_and_trust (after_send t g) in
  same_keys g g' ∧ outSeqNum (proto g') = u32 (outSeqNum (proto g) + 1) ∧ inSeqNum (proto g') = inSeqNum (proto g)
  ∧ lock g' = lock g ∧ connected g' = connected g ∧ connDataAvailable (proto g') = connDataAvailable (proto g).
Proof. by split_and!. Qed.
Lemma after_send_wf `{PolarSSL} t g : gate_wf g → gate_wf (ask_ping_and_trust (after_send t g)).
Proof. intros []. by split. Qed.

(** Both records, once each side has the other's data. *)
Record exchanged `{PolarSSL_ok} (la ra lb rb la' ra' lb' rb' : arg_network_info) : Prop := {
  ex_knows : knows ra' lb' ∧ knows rb' la';
  ex_data : connDataAvailable (proto ra') = true ∧ connDataAvailable (proto rb') = true;
  ex_locks : lock la' = false ∧ lock ra' = false ∧ lock lb' = false ∧ lock rb' = false;
  ex_tunnel : timeBaseAvailable (proto ra) = true → timeBaseAvailable (proto rb) = true →
    peers la' ra' lb' rb' ∧ peers lb' rb' la' ra' }.

(** The records after the exchange, as the two functions leave them. *)
Lemma exchange_result `{PolarSSL_ok} la ra lb rb rngA rngB t0 t1 t2 t3 :
  acquainted la ra lb rb →
  let la' := la <| ctr_drbg := rngA |> in let lb' := lb <| ctr_drbg := rngB |> in
  let ra' := with_conn_data (own_conn_data lb) t3 (outSeqNum (proto rb)) (after_send t0 ra) in
  let rb' := ask_ping_and_trust (after_send t2
               (with_conn_data (own_conn_data la) t1 (outSeqNum (proto ra)) rb)) in
  exchanged la ra lb rb la' ra' lb' rb'.
Proof.
  intros [Hla Hlb Hra Hrb [Lra Lrb] _ [Ka Kb] [HhA HhB] Sab Sba [Rab Rba]] la' lb' ra' rb'.
  set (ra0 := after_send t0 ra) in *.
  set (rb1 := with_conn_data (own_conn_data la) t1 (outSeqNum (proto ra)) rb) in *.
  destruct (after_send_keeps t2 rb1) as (SB & OB' & IB' & LB' & CB' & DB').
  destruct (with_conn_keeps (own_conn_data lb) t3 (outSeqNum (proto rb)) ra0)
    as (_ & LA & _ & _ & _ & _ & OA & IA & TA).
  destruct (with_conn_sets (own_conn_data lb) t3 (outSeqNum (proto rb)) ra0) as (_ & _ & _ & _ & _ & CA & NA).
  destruct (with_conn_keeps (own_conn_data la) t1 (outSeqNum (proto ra)) rb)
    as (_ & LB & _ & _ & _ & _ & OB & IB & TB).
  destruct (with_conn_sets (own_conn_data la) t1 (outSeqNum (proto ra)) rb) as (_ & _ & _ & _ & _ & CB & NB).
  assert (same_keys la la' ∧ same_keys lb lb') as [Sa Sb] by (by split).
  assert (gate_wf la' ∧ gate_wf lb') as [Wla Wlb] by (destruct Hla as [[] _ _ _], Hlb as [[] _ _ _]; by split; split).
  assert (lock la' = false ∧ lock lb' = false) as [Lla Llb] by (split; [apply Hla|apply Hlb]).
  assert (gate_wf ra' ∧ knows ra' lb) as [Wra KA].
  { split; [apply with_conn_wf; [by apply own_conn_wf|destruct Hra; by split]|by apply with_conn_knows]. }
  assert (gate_wf rb1 ∧ knows rb1 la) as [Wrb KB].
  { split; [apply with_conn_wf; [by apply own_conn_wf|done]|by apply with_conn_knows]. }
  apply (after_send_wf t2) in Wrb.
  change (outSeqNum (proto ra0)) with (u32 (outSeqNum (proto ra) + 1)) in OA.
  change (lock ra0) with (lock ra) in LA. change (connected ra0) with (connected ra) in NA.
  change (timeBaseAvailable (proto ra0)) with (timeBaseAvailable (proto ra)) in NA.
  fold ra' in LA, OA, IA, TA, CA, NA, Wra, KA. fold rb1 in LB, OB, IB, TB, CB, NB.
  fold rb' in SB, OB', IB', LB', CB', DB', Wrb. rewrite ?OB, ?IB, ?LB, ?NB, ?CB in *. rewrite u32_small in OA, OB' by lia.
  assert (refl_keys : same_keys ra' ra') by (clearbody ra'; by split_and!).
  clearbody la' lb' ra' rb'.
  assert (keyed (cipher la') (symKey la')) as Kla by (destruct Sa as (-> & _ & _ & _ & ->); done).
  assert (keyed (cipher lb') (symKey lb')) as Klb by (destruct Sb as (-> & _ & _ & _ & ->); done).
  apply (knows_same _ ra' _ lb') in KA; [|done|done].
  apply (knows_same _ rb' _ la') in KB; [|done|done].
  split; [done|done|by split_and!; congruence|].
  intros HtA HtB. rewrite HtA, orb_true_r in NA. rewrite HtB, orb_true_r in CB'.
  split; apply knows_peers; try done; lia.
Qed.

(** A packet of a type that says it comes from an address of the network of [g]. *)
Definition sent_by `{PolarSSL} (g : arg_network_info) (type : Z) (q : packet_data) : Prop :=
  ∃ ip saddr arg, p_ipv4 q = Some ip ∧ rd (ip + 12) ADDR_SIZE (p_data q) = Some saddr
    ∧ length saddr = ADDR_SIZE ∧ gate_matches g saddr = true
    ∧ p_arg q = Some arg ∧ rd8 (arg + arg_type_off) (p_data q) = Some type.

(** The same gateway is at the head of the list, and every record has the
    network and the successor it had. *)
Definition same_nets `{PolarSSL} (w w' : world) : Prop :=
  w_gateInfo w' = w_gateInfo w ∧ network_of <$> w_gates w' = network_of <$> w_gates w.

Lemma nets_insert `{PolarSSL} (gs : gmap loc arg_network_info) l g g' :
  gs !! l = Some g → network_of g' = network_of g → network_of <$> <[l := g']> gs = network_of <$> gs.
Proof. intros Hg Hn. rewrite fmap_insert, Hn. apply insert_id. by rewrite lookup_fmap, Hg. Qed.

Lemma nets_insert2 `{PolarSSL} (w w' : world) l r gl gr gl' gr' :
  l ≠ r → w_gates w !! l = Some gl → w_gates w !! r = Some gr →
  network_of gl' = network_of gl → network_of gr' = network_of gr → w_gateInfo w' = w_gateInfo w →
  w_gates w' = <[r := gr']> (<[l := gl']> (w_gates w)) → same_nets w w'.
Proof.
  intros Hne Hl Hr El Er Hi Hg. split; [done|]. rewrite Hg.
  erewrite nets_insert; [by eapply nets_insert|by rewrite lookup_insert_ne|done].
Qed.

(** A question of A and B's answer to it: A's [ask] sends one datagram; B, which
    receives it behind any link header and in front of any trailing bytes,
    handles it with [serve] and sends one datagram; A handles that with
    [accept].  The datagrams are of types [type1] and [type2] and name addresses
    of their senders' networks. *)
Definition question `{PolarSSL} (la lb : arg_network_info) (type1 type2 : Z)
    (ask : prog Z) (serve accept : packet_data → prog Z)
    (link1 trailer1 link2 trailer2 : list Z) (wA wB wA1 wB1 wA2 : world) : Prop :=
  ∃ outer1 bytes1 q1 outer2 bytes2 q2,
    ask wA = Done 0 wA1
    ∧ w_sent wA1 = w_sent wA ++ [OutIP outer1 bytes1]
    ∧ parse_packet (raw_packet (Z.of_nat (length link1)) (link1 ++ bytes1 ++ trailer1)) = Some (0, q1)
    ∧ serve q1 wB = Done 0 wB1
    ∧ w_sent wB1 = w_sent wB ++ [OutIP outer2 bytes2]
    ∧ parse_packet (raw_packet (Z.of_nat (length link2)) (link2 ++ bytes2 ++ trailer2)) = Some (0, q2)
    ∧ accept q2 wA1 = Done 0 wA2
    ∧ sent_by la type1 q1 ∧ sent_by lb type2 q2
    ∧ same_nets wA wA1 ∧ same_nets wA wA2 ∧ same_nets wB wB1.

Lemma sealed_sent_by `{Hok : PolarSSL_ok} g link saddr daddr priv pub type seq m ct sig trailer :
  link_ok link → length saddr = ADDR_SIZE → length daddr = ADDR_SIZE → gate_matches g saddr = true →
  sealed priv pub type seq m ct sig → 0 ≤ type < 256 →
  sent_by g type (frame link saddr daddr type SEALED_LEN seq (sig_lo sig) (sig_hi sig) ct trailer).
Proof.
  intros Hlink Hs Hd Hm Hsl Ht. pose proof (sealed_fields link _ _ _ _ _ _ _ _ _ Hlink Hs Hd Hsl) as Hf.
  do 3 eexists. split_and!; [reflexivity|by eapply frame_addrs|done|done|reflexivity|by eapply frame_type].
Qed.

Lemma reseed_net `{PolarSSL} g rng : network_of (g <| ctr_drbg := rng |>) = network_of g.
Proof. reflexivity. Qed.
Lemma after_send_net `{PolarSSL} t g : network_of (after_send t g) = network_of g.
Proof. reflexivity. Qed.
Lemma ask_net `{PolarSSL} t g : network_of (ask_ping_and_trust (after_send t g)) = network_of g.
Proof. reflexivity. Qed.
Lemma with_conn_net `{PolarSSL} d t seq g : network_of (with_conn_data d t seq g) = network_of g.
Proof. destruct g as [? ? ? [? ? ? ? [] ? ? ? ? ? ? ? ?]]; reflexivity. Qed.
Lemma answered_net `{PolarSSL} d t t' seq g :
  network_of (ask_ping_and_trust (after_send t' (with_conn_data d t seq g))) = network_of g.
Proof. rewrite ask_net. apply with_conn_net. Qed.

(** The whole exchange, with the records it leaves. *)
Lemma connect_run `{Hok : PolarSSL_ok} (EA EB : Env)
    localA remoteA localB remoteB la ra lb rb (wA wB : world) link1 trailer1 link2 trailer2 :
  (∀ i, @env_malloc EA i = true) → (∀ i, @env_malloc EB i = true) →
  (∀ i, 0 ≤ @env_sendto EA i) → (∀ i, 0 ≤ @env_sendto EB i) →
  w_gates wA !! localA = Some la → w_gates wA !! remoteA = Some ra → localA ≠ remoteA →
  w_gates wB !! localB = Some lb → w_gates wB !! remoteB = Some rb → localB ≠ remoteB →
  acquainted la ra lb rb → link_ok link1 → link_ok link2 →
  ∃ wA1 wB1 wA2 rngA rngB t0 t1 t2 t3,
    question la lb ARG_CONN_DATA_REQ_MSG ARG_CONN_DATA_RESP_MSG
      (@send_arg_conn_data _ EA localA remoteA false) (@process_arg_conn_data_req _ EB localB remoteB)
      (@process_arg_conn_data_resp _ EA localA remoteA) link1 trailer1 link2 trailer2 wA wB wA1 wB1 wA2
    ∧ w_gates wA2 = <[remoteA := with_conn_data (own_conn_data lb) t3 (outSeqNum (proto rb)) (after_send t0 ra)]>
        (<[localA := la <| ctr_drbg := rngA |>]> (w_gates wA))
    ∧ w_gates wB1 = <[remoteB := ask_ping_and_trust (after_send t2
                          (with_conn_data (own_conn_data la) t1 (outSeqNum (proto ra)) rb))]>
        (<[localB := lb <| ctr_drbg := rngB |>]> (w_gates wB)).
Proof.
  intros HmA HmB HsA HsB HlA HrA HneA HlB HrB HneB Haq Hlink1 Hlink2.
  pose proof Haq as [Hla Hlb Hra Hrb [Lra Lrb] [PAB PBA] _ _ Sab Sba [Rab Rba]].
  pose proof Hla as [Wla _ KlA _]. pose proof Hlb as [Wlb _ KlB _].
  assert (rsa_len (rsa ra) = KEY_LEN ∧ rsa_len (rsa rb) = KEY_LEN) as [KrA KrB]
    by (destruct PAB as (_ & _ & -> & _), PBA as (_ & _ & -> & _); done).
  (* A asks *)
  pose proof (send_conn_run HmA HsA localA remoteA la ra false (rsa lb) (rsa rb) wA HneA HlA HrA Hla Hra Lra
    PAB PBA KlB) as (r1 & wA1 & Hrun1 & sa1 & da1 & ct1 & sg1 & rng1 & t0 & -> & Hs1 & Hd1 & Hm1 & Hi1 & Hsl1 & Hsent1 & Hg1)%wp_elim.
  (* B stores and answers *)
  pose proof (conn_req_run HmB HsB localB remoteB lb rb link1 sa1 da1 (outSeqNum (proto ra)) (own_conn_data la)
    ct1 sg1 trailer1 (rsa ra) wB Hlink1 Hs1 Hd1 Hsl1 (own_conn_wf _ Hla) ltac:(lia) HneB HlB HrB Hlb Hrb KrB
    ltac:(lia) Lrb (rsa la) PBA PAB KlA)
    as (r2 & wB1 & Hrun2 & sa2 & da2 & ct2 & sg2 & rng2 & t1 & t2 & -> & Hs2 & Hd2 & Hm2 & Hi2 & Hsl2 & Hsent2 & Hg2)%wp_elim.
  (* A stores *)
  set (la' := la <| ctr_drbg := rng1 |>) in *. set (ra0 := set_lastConnAttemptTime t0 (bump_seq ra)) in *.
  assert (w_gates wA1 !! localA = Some la') as HlA1
    by (rewrite Hg1, lookup_insert_ne by done; apply lookup_insert_eq).
  assert (w_gates wA1 !! remoteA = Some ra0) as HrA1 by (rewrite Hg1; apply lookup_insert_eq).
  pose proof (conn_resp_run HmA HsA localA remoteA la' ra0 link2 sa2 da2 ARG_CONN_DATA_RESP_MSG
    (outSeqNum (proto rb)) (own_conn_data lb) ct2 sg2 trailer2 wA1 Hlink2 Hs2 Hd2 Hsl2 (own_conn_wf _ Hlb)
    ltac:(done) ltac:(lia) HneA HlA1 HrA1 KlA KrA (proj2 Sba) Lra)
    as (r3 & wA2 & Hrun3 & -> & t3 & Hg3 & _ & Hi3)%wp_elim.
  assert (w_gates wA2 = <[remoteA := with_conn_data (own_conn_data lb) t3 (outSeqNum (proto rb)) ra0]>
    (<[localA := la']> (w_gates wA))) as Hg3' by (rewrite Hg3, Hg1; apply insert_insert_eq).
  exists wA1, wB1, wA2, rng1, rng2, t0, t1, t2, t3. split_and!; [|exact Hg3'|exact Hg2].
  do 6 eexists. split_and!; [exact Hrun1|exact Hsent1|by eapply sealed_arrives|exact Hrun2|exact Hsent2
    |by eapply sealed_arrives|exact Hrun3|by eapply sealed_sent_by|by eapply sealed_sent_by|..].
  - eapply nets_insert2; [exact HneA|exact HlA|exact HrA|apply reseed_net|apply (after_send_net t0)|exact Hi1|exact Hg1].
  - exact (nets_insert2 _ _ _ _ _ _ _ _ HneA HlA HrA (reseed_net la rng1)
      (eq_trans (with_conn_net _ _ _ ra0) (after_send_net t0 ra)) (eq_trans Hi3 Hi1) Hg3').
  - eapply nets_insert2; [exact HneB|exact HlB|exact HrB|apply reseed_net|apply answered_net|exact Hi2|exact Hg2].
Qed.

(** C6. Two gateways that know each other's public keys connect: A asks with
    its connection data; B, whatever link header and trailer the datagram
    arrives in, stores A's keys and answers with its own; A stores those.  Both
    end with the other's symmetric key, IV, hop key and hop interval and with
    every mutex free; and when both have the other's time base they are
    connected, and wrapped packets are delivered in both directions. *)
Theorem connection_established `{Hok : PolarSSL_ok} (EA EB : Env)
    localA remoteA localB remoteB la ra lb rb (wA wB : world) link1 trailer1 link2 trailer2 :
  (∀ i, @env_malloc EA i = true) → (∀ i, @env_malloc EB i = true) →
  (∀ i, 0 ≤ @env_sendto EA i) → (∀ i, 0 ≤ @env_sendto EB i) →
  w_gates wA !! localA = Some la → w_gates wA !! remoteA = Some ra → localA ≠ remoteA →
  w_gates wB !! localB = Some lb → w_gates wB !! remoteB = Some rb → localB ≠ remoteB →
  acquainted la ra lb rb → link_ok link1 → link_ok link2 →
  ∃ wA1 outer1 bytes1 q1 wB1 outer2 bytes2 q2 wA2 la' ra' lb' rb',
    @send_arg_conn_data _ EA localA remoteA false wA = Done 0 wA1
    ∧ w_sent wA1 = w_sent wA ++ [OutIP outer1 bytes1]
    ∧ parse_packet (raw_packet (Z.of_nat (length link1)) (link1 ++ bytes1 ++ trailer1)) = Some (0, q1)
    ∧ @process_arg_conn_data_req _ EB localB remoteB q1 wB = Done 0 wB1
    ∧ w_sent wB1 = w_sent wB ++ [OutIP outer2 bytes2]
    ∧ parse_packet (raw_packet (Z.of_nat (length link2)) (link2 ++ bytes2 ++ trailer2)) = Some (0, q2)
    ∧ @process_arg_conn_data_resp _ EA localA remoteA q2 wA1 = Done 0 wA2
    ∧ w_gates wA2 !! localA = Some la' ∧ w_gates wA2 !! remoteA = Some ra'
    ∧ w_gates wB1 !! localB = Some lb' ∧ w_gates wB1 !! remoteB = Some rb'
    ∧ exchanged la ra lb rb la' ra' lb' rb'.
Proof.
  intros HmA HmB HsA HsB HlA HrA HneA HlB HrB HneB Haq Hlink1 Hlink2.
  destruct (connect_run EA EB localA remoteA localB remoteB la ra lb rb wA wB link1 trailer1 link2 trailer2 HmA HmB
    HsA HsB HlA HrA HneA HlB HrB HneB Haq Hlink1 Hlink2)
    as (wA1 & wB1 & wA2 & rngA & rngB & t0 & t1 & t2 & t3 & (o1 & b1 & q1 & o2 & b2 & q2 & R1 & S1 & P1 & R2 & S2 & P2 & R3 & _)
      & HgA & HgB).
  pose proof (exchange_result la ra lb rb rngA rngB t0 t1 t2 t3 Haq) as Hex.
  do 13 eexists. split_and!; [exact R1|exact S1|exact P1|exact R2|exact S2|exact P2|exact R3|..|exact Hex].
  - rewrite HgA, lookup_insert_ne by done. apply lookup_insert_eq.
  - rewrite HgA. apply lookup_insert_eq.
  - rewrite HgB, lookup_insert_ne by done. apply lookup_insert_eq.
  - rewrite HgB. apply lookup_insert_eq.
Qed.

(** C26. A peer that restarted may rejoin: connection data with an old sequence
    number is accepted exactly when its IV is not the one on record.  Then its
    keys are stored and its numbers start at 0 again; otherwise nothing changes.
    Nothing but the IV is compared, so a recorded packet of any earlier session
    passes as well, and puts that session's keys back. *)
Theorem peer_rejoins `{Hok : PolarSSL_ok} `{Env} local remote gl gr link saddr daddr type seq d ct sig trailer
    (w : world) :
  (∀ i, env_malloc i = true) → link_ok link → length saddr = ADDR_SIZE → length daddr = ADDR_SIZE →
  sealed (rsa gl) (rsa gr) type seq (conn_bytes d) ct sig → conn_wf d →
  type = ARG_CONN_DATA_REQ_MSG ∨ type = ARG_CONN_DATA_RESP_MSG →
  0 ≤ seq < 2 ^ 32 → local ≠ remote →
  w_gates w !! local = Some gl → w_gates w !! remote = Some gr →
  rsa_len (rsa gl) = KEY_LEN → rsa_len (rsa gr) = KEY_LEN → lock gr = false →
  seq_check type seq (inSeqNum (proto gr)) = SeqRecheck →
  ∃ r w', process_arg_conn_data_resp local remote
      (frame link saddr daddr type SEALED_LEN seq (sig_lo sig) (sig_hi sig) ct trailer) w = Done r w'
    ∧ w_sent w' = w_sent w
    ∧ if decide (c_iv d = iv gr) then r = - ARG_SEQ_BAD ∧ w_gates w' = w_gates w
      else r = 0 ∧ ∃ t, w_gates w' = <[remote := with_conn_data d t 0 gr]> (w_gates w).
Proof.
  intros Hm Hlink Hs Hd Hsl Hwf Ht Hseq Hne Hl Hr Hkl Hkr Hlk Hv. apply wp_elim.
  pose proof (sealed_fields link _ _ _ _ _ _ _ _ _ Hlink Hs Hd Hsl) as Hf. pose proof Hsl as [Hct Hsig Hdec Hver Hsz].
  assert (0 ≤ type < 256 ∧ is_symmetric type = false) as Ht' by (by destruct Ht as [-> | ->]).
  unfold process_arg_conn_data_resp. apply wp_bind.
  eapply (process_signed Hm link saddr daddr type SEALED_LEN seq ct sig Hf Ht' Hct Hsig local remote gl gr
    (conn_bytes d) trailer SeqRecheck); [done..|].
  cbv zeta. intros rest w1 Hg H1 _ _ _. rewrite decide_False in Hg by done. rewrite decide_True by done.
  unfold recheck_seq. apply wp_assoc. eapply wp_bind_lift.
  { by apply rd_conn_iv. }
  apply wp_assoc. eapply wp_bind_get; [by rewrite Hg|].
  destruct (decide (c_iv d = iv gr)) as [He|He].
  { apply wp_bind, wp_ret, wp_ret. rewrite decide_True by done. apply wp_ret. by split_and!. }
  apply wp_assoc. eapply wp_bind_upd; [by rewrite Hg|]. apply wp_bind, wp_ret, wp_ret.
  rewrite decide_False by lia. eapply wp_bind_lift; [done|]. cbn [m_len m_data].
  rewrite (length_conn_bytes d Hwf), decide_True by done.
  eapply wp_bind_lock; [apply set_gate_same|done|].
  eapply wp_bind_lift; [by apply read_conn_bytes|]. apply wp_bind_time. set (t := env_clock _).
  eapply wp_bind_upd; [apply set_gate_same|]. eapply wp_bind_unlock; [apply set_gate_same|].
  eapply wp_bind_upd; [apply set_gate_same|]. apply wp_ret. split; [done|]. split; [done|]. exists t.
  unfold set_gate. cbn [w_gates upd]. rewrite Hg, !insert_insert_eq.
  exact (f_equal (λ x, <[remote := ask_ping_and_trust x]> _) (accept_conn_unlock d t (set_inSeqNum 0 gr) Hlk)).
Qed.

(** ** Evaluation: A and B know each other's public keys and time bases only *)

Definition stranger (g : @arg_network_info toy) : @arg_network_info toy :=
  g <| symKey := zeros AES_KEY_SIZE |> <| iv := zeros AES_BLOCK_SIZE |> <| hopKey := zeros HOP_KEY_SIZE |>
    <| hopInterval := UINT32_MAX |> <| cipher := @cipher_init toy |> <| connected := false |>
    <| proto ::= (λ p, p <| connDataAvailable := false |>) |>.
Definition strangersA : world :=
  set_gate 2%positive (stranger (gateB None (Some 1%positive))) worldA.
Definition strangersB : world :=
  set_gate 2%positive (stranger (gateA None (Some 1%positive))) worldB.

Lemma toy_own_ok key seed base nxt prv : length base = ADDR_SIZE → own_ok (toy_gate key seed base nxt prv).
Proof.
  intros Hb. split; [by apply toy_gate_wf| |done|done].
  split_and!; apply le_bytes_ok.
Qed.

Lemma stranger_wf key seed base nxt prv : length base = ADDR_SIZE → gate_wf (stranger (toy_gate key seed base nxt prv)).
Proof. intros. by split. Qed.

Lemma toy_acquainted : acquainted (gateA (Some 2%positive) None) (stranger (gateB None (Some 1%positive)))
  (gateB (Some 2%positive) None) (stranger (gateA None (Some 1%positive))).
Proof.
  split; try done; try (by apply toy_own_ok); try (by apply stranger_wf).
Qed.

Lemma connection_established_witness :
  ∃ wA1 outer1 bytes1 q1 wB1 outer2 bytes2 q2 wA2 la' ra' lb' rb',
    send_arg_conn_data 1%positive 2%positive false strangersA = Done 0 wA1
    ∧ w_sent wA1 = w_sent strangersA ++ [OutIP outer1 bytes1]
    ∧ parse_packet (raw_packet 14 (eth_header ++ bytes1 ++ [1; 2])) = Some (0, q1)
    ∧ process_arg_conn_data_req 1%positive 2%positive q1 strangersB = Done 0 wB1
    ∧ w_sent wB1 = w_sent strangersB ++ [OutIP outer2 bytes2]
    ∧ parse_packet (raw_packet 0 ([] ++ bytes2 ++ [])) = Some (0, q2)
    ∧ process_arg_conn_data_resp 1%positive 2%positive q2 wA1 = Done 0 wA2
    ∧ w_gates wA2 !! 1%positive = Some la' ∧ w_gates wA2 !! 2%positive = Some ra'
    ∧ w_gates wB1 !! 1%positive = Some lb' ∧ w_gates wB1 !! 2%positive = Some rb'
    ∧ exchanged (gateA (Some 2%positive) None) (stranger (gateB None (Some 1%positive)))
        (gateB (Some 2%positive) None) (stranger (gateA None (Some 1%positive))) la' ra' lb' rb'.
Proof.
  apply (connection_established toy_env toy_env 1%positive 2%positive 1%positive 2%positive
    (gateA (Some 2%positive) None) (stranger (gateB None (Some 1%positive)))
    (gateB (Some 2%positive) None) (stranger (gateA None (Some 1%positive))) strangersA strangersB
    eth_header [1; 2] [] []); try done.
  - exact toy_acquainted.
  - intros _. by exists 8.
Defined.

(** Data of an earlier session of A, with an old number, reaches B again. *)
Definition old_data : arg_conn_data :=
  ConnData (le_bytes AES_KEY_SIZE 99) (le_bytes AES_BLOCK_SIZE 5) (zeros HOP_KEY_SIZE) (htonl 500).
Definition old_ct : list Z := toy_pad 128 (conn_bytes old_data).
Definition old_sig : list Z :=
  toy_sig 128 (rsa_N (rsa (gateA None None)))
    (@sha1 toy (signed_part ARG_CONN_DATA_RESP_MSG SEALED_LEN 3 old_ct)).

Lemma peer_rejoins_witness :
  ∃ r w', process_arg_conn_data_resp 1%positive 2%positive
      (frame eth_header [10; 1; 1; 7] [10; 2; 2; 9] ARG_CONN_DATA_RESP_MSG SEALED_LEN 3
        (sig_lo old_sig) (sig_hi old_sig) old_ct []) worldB = Done r w'
    ∧ w_sent w' = w_sent worldB
    ∧ if decide (c_iv old_data = iv (gateA None (Some 1%positive)))
      then r = - ARG_SEQ_BAD ∧ w_gates w' = w_gates worldB
      else r = 0 ∧ ∃ t, w_gates w'
        = <[2%positive := with_conn_data old_data t 0 (gateA None (Some 1%positive))]> (w_gates worldB).
Proof.
  apply (peer_rejoins 1%positive 2%positive (gateB (Some 2%positive) None) (gateA None (Some 1%positive))
    eth_header [10; 1; 1; 7] [10; 2; 2; 9] ARG_CONN_DATA_RESP_MSG 3 old_data); try done.
  - intros _. by exists 8.
  - by right.
Defined.
