(* ===== verification/TimeSync.v ===== *)
(** * The exchange of pings (src/protocol.c)

    One gateway pings, the other answers, and the first computes the other's
    time base from the answer. *)

From S2P Require Import Prelude Words Settings ArgError Utility Crypto Packet PacketFacts Gate World Net Layout Hopper HopperFacts Message ArgPacket CipherLoop ToyCrypto ToyWorld RoundTrip AdminTrip Protocol ProtocolFacts Tunnel Handshake.

(** ** Messages *)

Lemma length_ping_bytes d : length (ping_bytes d) = 12%nat.
Proof. unfold ping_bytes. by rewrite !length_app, !length_le_bytes. Qed.

Lemma ping_message d rest : fits_key (ArgMsg sizeof_ping_data (ping_bytes d ++ rest)) (ping_bytes d).
Proof.
  split; rewrite ?length_ping_bytes; [done|by exists rest| |done].
  unfold ping_bytes. repeat apply Forall_app_2; apply le_bytes_ok.
Qed.

(** ** Updates under the mutex *)

(** The three stages of [accept_pong]: time base, latency, flags. *)
Definition pong_time `{PolarSSL} (newBase : timespec) (g : arg_network_info) : arg_network_info :=
  if decide (tv_sec (timeBase g) > 0)
  then g <| timeBase ::= (λ t, time_plus t (Z.quot (s32 (time_offset (timeBase g) newBase)) 2)) |>
  else g <| timeBase := newBase |>.
Definition mean_latency (old lat : Z) : Z := if decide (old > 0) then Z.quot (old * 3 + lat) 4 else lat.
Definition pong_latency `{PolarSSL} (lat : Z) (g : arg_network_info) : arg_network_info :=
  let mean := mean_latency (latency (proto g)) lat in
  let g := with_proto (λ q, q <| latency := mean |>) g in
  if decide (Z.abs (s32 (mean - lat)) > Z.quot mean 4) then set_sendPing true g else g.
Definition pong_flags `{PolarSSL} (g : arg_network_info) : arg_network_info :=
  let g := with_proto (λ q, q <| timeBaseAvailable := true |>) g in
  if connDataAvailable (proto g) then g <| connected := true |> else g.

Lemma accept_pong_stages `{PolarSSL} lat base g :
  accept_pong lat base g = pong_flags (pong_latency lat (pong_time base g)).
Proof. reflexivity. Qed.

(** What a pong does to the time base, to the running mean of the latency, and
    whether another ping is asked for. *)
Definition new_time_base (old newBase : timespec) : timespec :=
  if decide (tv_sec old > 0) then time_plus old (Z.quot (s32 (time_offset old newBase)) 2) else newBase.

Lemma accept_pong_values `{PolarSSL} lat base g :
  let mean := mean_latency (latency (proto g)) lat in
  timeBase (accept_pong lat base g) = new_time_base (timeBase g) base
  ∧ latency (proto (accept_pong lat base g)) = mean
  ∧ sendPing (proto (accept_pong lat base g))
    = sendPing (proto g) || bool_decide (Z.abs (s32 (mean - lat)) > Z.quot mean 4).
Proof.
  intros mean. rewrite accept_pong_stages.
  assert (∀ g', timeBase (pong_flags g') = timeBase g' ∧ latency (proto (pong_flags g')) = latency (proto g')
    ∧ sendPing (proto (pong_flags g')) = sendPing (proto g')) as Hflags.
  { intros g'. unfold pong_flags. by destruct (connDataAvailable _). }
  destruct (Hflags (pong_latency lat (pong_time base g))) as (-> & -> & ->). clear Hflags.
  assert (timeBase (pong_time base g) = new_time_base (timeBase g) base ∧ latency (proto (pong_time base g)) = latency (proto g)
    ∧ sendPing (proto (pong_time base g)) = sendPing (proto g)) as (H1 & H2 & H3)
    by (unfold pong_time, new_time_base; by destruct (decide _)).
  revert H1 H2 H3. generalize (pong_time base g). intros g' <- H2 <-. unfold pong_latency. rewrite H2.
  fold (mean_latency (latency (proto g)) lat). fold mean. destruct (decide _) as [Hd|Hd].
  - rewrite bool_decide_eq_true_2, orb_true_r by done. by split_and!.
  - rewrite bool_decide_eq_false_2, orb_false_r by done. by split_and!.
Qed.

(** What they keep. *)
Record pong_keeps `{PolarSSL} (g g' : arg_network_info) : Prop := {
  pk_keys : same_keys g g'; pk_net : network_of g' = network_of g;
  pk_rsa : rsa g' = rsa g; pk_lock : lock g' = lock g;
  pk_out : outSeqNum (proto g') = outSeqNum (proto g);
  pk_in : inSeqNum (proto g') = inSeqNum (proto g);
  pk_data : connDataAvailable (proto g') = connDataAvailable (proto g) }.

Lemma pong_keeps_trans `{PolarSSL} g1 g2 g3 : pong_keeps g1 g2 → pong_keeps g2 g3 → pong_keeps g1 g3.
Proof.
  intros [(? & ? & ? & ? & ?) ? ? ? ? ? ?] [(? & ? & ? & ? & ?) ? ? ? ? ? ?].
  split; [split_and!|..]; congruence.
Qed.

Lemma pong_time_keeps `{PolarSSL} base g : pong_keeps g (pong_time base g).
Proof. unfold pong_time. destruct (decide _); by split. Qed.
Lemma pong_latency_keeps `{PolarSSL} lat g : pong_keeps g (pong_latency lat g).
Proof. unfold pong_latency. destruct (decide _); by split. Qed.
Lemma pong_flags_keeps `{PolarSSL} g : pong_keeps g (pong_flags g).
Proof.
  unfold pong_flags. change (connDataAvailable (proto (with_proto _ g))) with (connDataAvailable (proto g)).
  destruct (connDataAvailable (proto g)) eqn:E; by split.
Qed.
Lemma accept_pong_keeps `{PolarSSL} lat base g : pong_keeps g (accept_pong lat base g).
Proof.
  rewrite accept_pong_stages. eapply pong_keeps_trans; [apply pong_time_keeps|].
  eapply pong_keeps_trans; [apply pong_latency_keeps|]. apply pong_flags_keeps.
Qed.

Lemma accept_pong_lock `{PolarSSL} lat base b g :
  accept_pong lat base (with_lock b g) = with_lock b (accept_pong lat base g).
Proof.
  rewrite !accept_pong_stages.
  assert (pong_time base (with_lock b g) = with_lock b (pong_time base g)) as ->.
  { unfold pong_time. change (timeBase (with_lock b g)) with (timeBase g). by destruct (decide _). }
  assert (∀ g, pong_latency lat (with_lock b g) = with_lock b (pong_latency lat g)) as ->.
  { intros g'. unfold pong_latency. change (latency (proto (with_lock b g'))) with (latency (proto g')).
    by destruct (decide _). }
  generalize (pong_latency lat (pong_time base g)). intros g'. unfold pong_flags.
  change (connDataAvailable (proto (with_proto _ (with_lock b g')))) with (connDataAvailable (proto g')).
  change (connDataAvailable (proto (with_proto _ g'))) with (connDataAvailable (proto g')).
  by destruct (connDataAvailable (proto g')).
Qed.

Lemma accept_pong_unlock `{PolarSSL} lat base g :
  lock g = false → with_lock false (accept_pong lat base (with_lock true g)) = accept_pong lat base g.
Proof.
  intros Hg. rewrite accept_pong_lock. apply relock. by rewrite (pk_lock _ _ (accept_pong_keeps lat base g)).
Qed.

(** ** Sending a ping *)

(** The ID a gateway draws for its next ping. *)
Definition ping_id `{PolarSSL, Env} (w : world) : Z := le_val ((λ k, u8 (env_random k)) <$> seq (w_random w) 4).

Lemma ping_id_range `{PolarSSL, Env} w : 0 ≤ ping_id w < 2 ^ 32.
Proof.
  unfold ping_id. change (2 ^ 32) with (2 ^ (8 * Z.of_nat 4)).
  rewrite <- (length_seq 4 (w_random w)), <- (length_fmap (λ k, u8 (env_random k))).
  apply le_val_range, Forall_fmap, Forall_true. intros k. apply u8_range.
Qed.

(** The record of the peer after a ping was sent to it. *)
Definition pinged `{PolarSSL} (id : Z) (t : timespec) (g : arg_network_info) : arg_network_info :=
  bump_seq (set_pingSentTime t (set_sentPingID id g)).

Lemma pinged_keeps `{PolarSSL} id t g :
  same_keys g (pinged id t g) ∧ rsa (pinged id t g) = rsa g ∧ lock (pinged id t g) = lock g
  ∧ inSeqNum (proto (pinged id t g)) = inSeqNum (proto g)
  ∧ outSeqNum (proto (pinged id t g)) = u32 (outSeqNum (proto g) + 1)
  ∧ sentPingID (proto (pinged id t g)) = id ∧ pingSentTime (proto (pinged id t g)) = t.
Proof. by split_and!. Qed.

Lemma pinged_net `{PolarSSL} id t g : network_of (pinged id t g) = network_of g.
Proof. reflexivity. Qed.
Lemma seq_net `{PolarSSL} seq id t g : network_of (set_inSeqNum seq (pinged id t g)) = network_of g.
Proof. reflexivity. Qed.
Lemma replied_net `{PolarSSL} seq g : network_of (bump_seq (set_inSeqNum seq g)) = network_of g.
Proof. reflexivity. Qed.

Lemma pinged_wf `{PolarSSL} id t b g : gate_wf g → gate_wf (with_lock b (set_pingSentTime t (set_sentPingID id g))).
Proof. intros []. by split. Qed.

Lemma relock_after_reply `{PolarSSL} seq g :
  lock g = false →
  with_lock false (bump_seq (with_lock true (set_inSeqNum seq g))) = bump_seq (set_inSeqNum seq g).
Proof. destruct g. cbn. by intros ->. Qed.

Section Ping.
Context `{Hok : PolarSSL_ok} `{Env}.
Context (mallocs_ok : ∀ i, env_malloc i = true) (sends_ok : ∀ i, 0 ≤ env_sendto i).

Lemma wp_bind_offset {B} begin (k : Z → prog B) Q w :
  wp (k (time_offset begin (env_clock (w_clock w)))) Q (w <| w_clock ::= S |>) →
  wp (current_time_offset begin ≫= k) Q w.
Proof using Type. intros Hk. by apply wp_bind. Qed.

Lemma wp_bind_ping_id {B} (k : list Z → prog B) Q w :
  (∀ bs, le_val bs = ping_id w → wp (k bs) Q (w <| w_random ::= (λ k, k + 4)%nat |>)) →
  wp (get_random_bytes 4 ≫= k) Q w.
Proof using Type. intros Hk. apply wp_bind. unfold get_random_bytes, wp. by apply Hk. Qed.

Lemma send_ping_run local remote gl gr priv pub w :
  local ≠ remote → w_gates w !! local = Some gl → w_gates w !! remote = Some gr →
  own_ok gl → gate_wf gr → lock gr = false →
  rsa_pair (rsa gr) priv → rsa_pair pub (rsa gl) → rsa_len priv = KEY_LEN →
  let off := time_offset (timeBase gl) (env_clock (w_clock w)) in
  let sent := env_clock (S (w_clock w)) in
  let data := PingData (htonl (ping_id w)) 0 (htonl (u32 off)) in
  wp (send_arg_ping local remote) (λ r w',
    ∃ saddr daddr ct sig rng', r = 0 ∧ length saddr = ADDR_SIZE ∧ length daddr = ADDR_SIZE
    ∧ gate_matches gl saddr = true ∧ w_gateInfo w' = w_gateInfo w
    ∧ sealed priv pub ARG_PING_MSG (outSeqNum (proto gr)) (ping_bytes data) ct sig
    ∧ w_sent w' = w_sent w ++ [OutIP (le_val daddr) (sealed_datagram saddr daddr ARG_PING_MSG (outSeqNum (proto gr)) ct sig)]
    ∧ w_gates w' = <[remote := pinged (ping_id w) sent gr]> (<[local := gl <| ctr_drbg := rng' |>]> (w_gates w))
    ∧ w_clock w' = (w_clock w + 4)%nat) w.
Proof using All.
  intros Hne Hl Hr Hown Hwr Hlk HR HS HkR off sent data. pose proof Hown as [Hwl _ Hkl Hll].
  unfold send_arg_ping, create_arg_msg.
  apply wp_assoc, wp_bind_malloc. rewrite mallocs_ok. cbn [negb].
  apply wp_assoc, wp_bind_malloc. rewrite mallocs_ok. cbn [negb]. rewrite ret_bind.
  eapply wp_bind_lock; [exact Hr|done|]. apply wp_bind_ping_id. intros bs Hid.
  change (ping_id _) with (ping_id w) in Hid.
  eapply wp_bind_upd; [apply set_gate_same|]. rewrite Hid.
  eapply wp_bind_get; [rewrite set_gate_ne by done; cbn; rewrite lookup_insert_ne by done; exact Hl|].
  apply wp_bind_offset, wp_bind_time. eapply wp_bind_upd; [apply set_gate_same|].
  cbn [w_clock set_gate upd]. fold off. fold data.
  change (set_pingSentTime (env_clock (S (w_clock w))) (set_sentPingID (ping_id w) (with_lock true gr)))
    with (with_lock true (set_pingSentTime sent (set_sentPingID (ping_id w) gr))).
  set (g1 := with_lock true (set_pingSentTime sent (set_sentPingID (ping_id w) gr))).
  set (w1 := set_gate remote g1 _).
  assert (w_gates w1 = <[remote := g1]> (w_gates w)) as Hw1 by (cbn; by rewrite !insert_insert_eq).
  assert (w_sent w1 = w_sent w ∧ w_clock w1 = S (S (w_clock w)) ∧ w_gateInfo w1 = w_gateInfo w) as (Es & Ec & Ei) by done.
  clearbody w1.
  apply wp_bind. eapply wp_mono.
  { apply (send_signed mallocs_ok sends_ok local remote gl g1 ARG_PING_MSG _ (ping_bytes data) priv pub);
      rewrite ?Hw1; try done.
    - by rewrite lookup_insert_ne.
    - apply lookup_insert_eq.
    - by apply pinged_wf.
    - rewrite <- (app_nil_r (ping_bytes data)) at 1. apply ping_message. }
  cbv beta. intros r w2 (saddr & daddr & ct & sig & rng' & -> & (Hip & _ & Hs & Hd) & Hsl & Hsent & Hg & Hi & Hc).
  eapply wp_bind_unlock; [rewrite Hg, lookup_insert_ne by done; apply lookup_insert_eq|].
  apply wp_ret. exists saddr, daddr, ct, sig, rng'.
  split_and!; [done|done|done|by eapply ip_at_matches|by rewrite <- Ei|done| | |].
  - by rewrite <- Es.
  - unfold set_gate. cbn [w_gates upd]. rewrite Hg, Hw1.
    rewrite (insert_insert_ne _ local remote), !insert_insert_eq by done.
    rewrite (insert_insert_ne _ local remote), !insert_insert_eq by done.
    exact (f_equal (λ x, <[remote := x]> _) (relock (pinged (ping_id w) sent gr) Hlk)).
  - cbn [w_clock set_gate upd]. rewrite Hc, Ec. lia.
Qed.

(** ** Answering it *)

Lemma reply_ping_run local remote gl gr link saddr daddr seq id off0 ct sig trailer priv pub w :
  link_ok link → length saddr = ADDR_SIZE → length daddr = ADDR_SIZE →
  sealed (rsa gl) (rsa gr) ARG_PING_MSG seq (ping_bytes (PingData (htonl id) 0 off0)) ct sig →
  0 < id < 2 ^ 32 → 0 ≤ off0 < 2 ^ 32 → 0 ≤ seq < 2 ^ 32 → local ≠ remote →
  w_gates w !! local = Some gl → w_gates w !! remote = Some gr →
  own_ok gl → gate_wf gr → rsa_len (rsa gr) = KEY_LEN → inSeqNum (proto gr) < seq → lock gr = false →
  rsa_pair (rsa gr) priv → rsa_pair pub (rsa gl) → rsa_len priv = KEY_LEN →
  let data := PingData 0 (htonl id) (htonl (u32 (time_offset (timeBase gl) (env_clock (w_clock w))))) in
  wp (process_arg_ping local remote
        (frame link saddr daddr ARG_PING_MSG SEALED_LEN seq (sig_lo sig) (sig_hi sig) ct trailer)) (λ r w',
    ∃ saddr daddr ct sig rng', r = 0 ∧ length saddr = ADDR_SIZE ∧ length daddr = ADDR_SIZE
    ∧ gate_matches gl saddr = true ∧ w_gateInfo w' = w_gateInfo w
    ∧ sealed priv pub ARG_PING_MSG (outSeqNum (proto gr)) (ping_bytes data) ct sig
    ∧ w_sent w' = w_sent w ++ [OutIP (le_val daddr) (sealed_datagram saddr daddr ARG_PING_MSG (outSeqNum (proto gr)) ct sig)]
    ∧ w_gates w' = <[remote := bump_seq (set_inSeqNum seq gr)]> (<[local := gl <| ctr_drbg := rng' |>]> (w_gates w))) w.
Proof using All.
  intros Hlink Hs Hd Hsl Hid Hoff Hseq Hne Hl Hr Hown Hwr Hkr Hnew Hlk HR HS HkR data.
  pose proof Hown as [Hwl _ Hkl Hll]. set (req := PingData (htonl id) 0 off0) in *.
  assert (ping_wf req) as Hwf by (split; [apply htonl_range|]; by split).
  unfold process_arg_ping. apply wp_bind. eapply wp_mono; [by eapply (open_sealed mallocs_ok local remote gl gr)|].
  cbv beta. intros r w1 (rest & -> & Hg & Hsent & Hc & Hi & _). rewrite decide_False by lia.
  eapply wp_bind_lift; [done|]. cbn [m_len m_data]. rewrite length_ping_bytes, decide_True by done.
  eapply wp_bind_lock; [rewrite Hg; apply lookup_insert_eq|done|].
  eapply wp_bind_lift; [by apply read_ping_bytes|]. unfold handle_pong. apply wp_assoc.
  eapply wp_bind_get; [apply set_gate_same|]. rewrite (decide_False (P := responseID req ≠ 0 ∧ _)) by (intros [Hn _]; by apply Hn). rewrite ret_bind.
  assert (htonl id ≠ 0) as Hnz by (intros Hz%(proj1 (htonl_zero_iff id ltac:(lia))); lia).
  rewrite decide_True by done. unfold reply_ping. apply wp_assoc.
  eapply wp_bind_get; [rewrite set_gate_ne, Hg, lookup_insert_ne by done; exact Hl|].
  apply wp_assoc, wp_bind_offset. cbn [requestID responseID timeOffset req upd w_clock set_gate].
  rewrite decide_False by done. rewrite ret_bind. rewrite Hc. fold data.
  set (g1 := with_lock true (set_inSeqNum seq gr)). match goal with |- wp _ _ ?v => set (w2 := v) end.
  assert (w_gates w2 = <[remote := g1]> (w_gates w)) as Hw2 by (cbn; by rewrite Hg, insert_insert_eq).
  assert (w_sent w2 = w_sent w ∧ w_gateInfo w2 = w_gateInfo w) as [Es Ei] by done. clearbody w2. apply wp_bind. eapply wp_mono.
  { apply (send_signed mallocs_ok sends_ok local remote gl g1 ARG_PING_MSG _ (ping_bytes data) priv pub);
      rewrite ?Hw2; try done.
    - by rewrite lookup_insert_ne.
    - apply lookup_insert_eq.
    - destruct Hwr. by split.
    - cbn [m_len m_data upd]. rewrite <- (length_ping_bytes req), drop_app_length. apply ping_message. }
  cbv beta. intros r w3 (saddr' & daddr' & ct' & sig' & rng' & -> & (Hip' & _ & Hs' & Hd') & Hsl' & Hsent' & Hg' & Hi' & _).
  eapply wp_bind_unlock; [rewrite Hg', lookup_insert_ne by done; apply lookup_insert_eq|].
  apply wp_ret. exists saddr', daddr', ct', sig', rng'.
  split_and!; [done|done|done|by eapply ip_at_matches|by rewrite <- Ei|done| |].
  - by rewrite <- Es.
  - unfold set_gate. cbn [w_gates upd]. rewrite Hg', Hw2.
    rewrite (insert_insert_ne _ local remote), !insert_insert_eq by done.
    rewrite (insert_insert_ne _ local remote), !insert_insert_eq by done.
    exact (f_equal (λ x, <[remote := x]> _) (relock_after_reply seq gr Hlk)).
Qed.

(** ** The answer comes back *)

Lemma pong_run local remote gl gr link saddr daddr seq off ct sig trailer w :
  link_ok link → length saddr = ADDR_SIZE → length daddr = ADDR_SIZE →
  sealed (rsa gl) (rsa gr) ARG_PING_MSG seq (ping_bytes (PingData 0 (htonl (sentPingID (proto gr))) (htonl off))) ct sig →
  0 < sentPingID (proto gr) < 2 ^ 32 → 0 ≤ seq < 2 ^ 32 → local ≠ remote →
  w_gates w !! local = Some gl → w_gates w !! remote = Some gr →
  rsa_len (rsa gl) = KEY_LEN → rsa_len (rsa gr) = KEY_LEN → inSeqNum (proto gr) < seq → lock gr = false →
  let lat := Z.quot (time_offset (pingSentTime (proto gr)) (env_clock (w_clock w))) 2 in
  let base := time_plus (env_clock (S (w_clock w))) (s32 (u32 (- ntohl (htonl off)) - lat)) in
  wp (process_arg_ping local remote
        (frame link saddr daddr ARG_PING_MSG SEALED_LEN seq (sig_lo sig) (sig_hi sig) ct trailer)) (λ r w',
    r = 0 ∧ w_sent w' = w_sent w ∧ w_gateInfo w' = w_gateInfo w
    ∧ w_gates w' = <[remote := accept_pong lat base (set_inSeqNum seq gr)]> (w_gates w)) w.
Proof using All.
  intros Hlink Hs Hd Hsl Hid Hseq Hne Hl Hr Hkl Hkr Hnew Hlk lat base.
  set (ans := PingData 0 _ _) in *.
  assert (ping_wf ans) as Hwf by (split; [done|]; split; apply htonl_range).
  unfold process_arg_ping. apply wp_bind. eapply wp_mono; [by eapply (open_sealed mallocs_ok local remote gl gr)|].
  cbv beta. intros r w1 (rest & -> & Hg & Hsent & Hc & Hi & _). rewrite decide_False by lia.
  eapply wp_bind_lift; [done|]. cbn [m_len m_data]. rewrite length_ping_bytes, decide_True by done.
  eapply wp_bind_lock; [rewrite Hg; apply lookup_insert_eq|done|].
  eapply wp_bind_lift; [by apply read_ping_bytes|]. unfold handle_pong. apply wp_assoc.
  eapply wp_bind_get; [apply set_gate_same|]. rewrite (decide_True (P := responseID ans ≠ 0 ∧ _)).
  2: { cbn [ans responseID]. split; [intros Hz%(proj1 (htonl_zero_iff (sentPingID (proto gr)) ltac:(lia))); lia|].
       rewrite ntohl_htonl, u32_small by lia. done. }
  apply wp_assoc, wp_bind_offset. apply wp_assoc. unfold current_time_plus. apply wp_assoc, wp_bind_time.
  rewrite ret_bind. cbn [w_clock set_gate upd]. rewrite Hc.
  change (pingSentTime (proto (with_lock true (set_inSeqNum seq gr)))) with (pingSentTime (proto gr)).
  fold lat. change (timeOffset ans) with (htonl off). fold base.
  eapply wp_bind_upd; [apply set_gate_same|]. rewrite decide_False by (intros Hz; by apply Hz). rewrite ret_bind.
  eapply wp_bind_unlock; [apply set_gate_same|]. apply wp_ret. split; [done|]. split; [done|]. split; [done|].
  unfold set_gate. cbn [w_gates upd]. rewrite Hg, !insert_insert_eq.
  exact (f_equal (λ x, <[remote := x]> _) (accept_pong_unlock lat base (set_inSeqNum seq gr) Hlk)).
Qed.
(** An answer to another ping than the last: only its sequence number counts. *)
Lemma stray_run local remote gl gr link saddr daddr seq id off ct sig trailer w :
  link_ok link → length saddr = ADDR_SIZE → length daddr = ADDR_SIZE →
  sealed (rsa gl) (rsa gr) ARG_PING_MSG seq (ping_bytes (PingData 0 (htonl id) (htonl off))) ct sig →
  0 ≤ id < 2 ^ 32 → id ≠ sentPingID (proto gr) → 0 ≤ seq < 2 ^ 32 → local ≠ remote →
  w_gates w !! local = Some gl → w_gates w !! remote = Some gr →
  rsa_len (rsa gl) = KEY_LEN → rsa_len (rsa gr) = KEY_LEN → inSeqNum (proto gr) < seq → lock gr = false →
  wp (process_arg_ping local remote
        (frame link saddr daddr ARG_PING_MSG SEALED_LEN seq (sig_lo sig) (sig_hi sig) ct trailer)) (λ r w',
    r = 0 ∧ w_gates w' = <[remote := set_inSeqNum seq gr]> (w_gates w)) w.
Proof using All.
  intros Hlink Hs Hd Hsl Hid Hne' Hseq Hne Hl Hr Hkl Hkr Hnew Hlk.
  set (ans := PingData 0 _ _) in *.
  assert (ping_wf ans) as Hwf by (split; [done|]; split; apply htonl_range).
  unfold process_arg_ping. apply wp_bind. eapply wp_mono; [by eapply (open_sealed mallocs_ok local remote gl gr)|].
  cbv beta. intros r w1 (rest & -> & Hg & Hsent & Hc & Hi & _). rewrite decide_False by lia.
  eapply wp_bind_lift; [done|]. cbn [m_len m_data]. rewrite length_ping_bytes, decide_True by done.
  eapply wp_bind_lock; [rewrite Hg; apply lookup_insert_eq|done|].
  eapply wp_bind_lift; [by apply read_ping_bytes|]. unfold handle_pong. apply wp_assoc.
  eapply wp_bind_get; [apply set_gate_same|]. rewrite (decide_False (P := responseID ans ≠ 0 ∧ _)).
  2: { intros [_ E]. cbn [ans responseID] in E. rewrite ntohl_htonl, u32_small in E by done. by apply Hne'. }
  rewrite ret_bind, decide_False by (intros Hz; by apply Hz). rewrite ret_bind.
  eapply wp_bind_unlock; [apply set_gate_same|]. apply wp_ret. split; [done|].
  unfold set_gate. cbn [w_gates upd]. rewrite Hg, !insert_insert_eq.
  f_equal. by apply relock.
Qed.
End Ping.

(** The whole exchange, with the records it leaves. *)
Lemma ping_run `{Hok : PolarSSL_ok} (EA EB : Env)
    localA remoteA localB remoteB la ra lb rb (wA wB : world) link1 trailer1 link2 trailer2 :
  (∀ i, @env_malloc EA i = true) → (∀ i, @env_malloc EB i = true) →
  (∀ i, 0 ≤ @env_sendto EA i) → (∀ i, 0 ≤ @env_sendto EB i) →
  w_gates wA !! localA = Some la → w_gates wA !! remoteA = Some ra → localA ≠ remoteA →
  w_gates wB !! localB = Some lb → w_gates wB !! remoteB = Some rb → localB ≠ remoteB →
  acquainted la ra lb rb → link_ok link1 → link_ok link2 → @ping_id _ EA wA ≠ 0 →
  let clockA i := @env_clock EA (w_clock wA + i)%nat in
  let offset := time_offset (timeBase lb) (@env_clock EB (w_clock wB)) in
  let lat := Z.quot (time_offset (clockA 1%nat) (clockA 4%nat)) 2 in
  let base := time_plus (clockA 5%nat) (s32 (u32 (- u32 (u32 offset)) - lat)) in
  ∃ wA1 wB1 wA2 rngA rngB,
    question la lb ARG_PING_MSG ARG_PING_MSG (@send_arg_ping _ EA localA remoteA) (@process_arg_ping _ EB localB remoteB)
      (@process_arg_ping _ EA localA remoteA) link1 trailer1 link2 trailer2 wA wB wA1 wB1 wA2
    ∧ w_sent wA2 = w_sent wA1
    ∧ w_gates wA2 = <[remoteA := accept_pong lat base
                        (set_inSeqNum (outSeqNum (proto rb)) (pinged (@ping_id _ EA wA) (clockA 1%nat) ra))]>
        (<[localA := la <| ctr_drbg := rngA |>]> (w_gates wA))
    ∧ w_gates wB1 = <[remoteB := bump_seq (set_inSeqNum (outSeqNum (proto ra)) rb)]>
        (<[localB := lb <| ctr_drbg := rngB |>]> (w_gates wB))
    ∧ (∀ o b q r1 id, w_sent wB1 = w_sent wB ++ [OutIP o b] →
         parse_packet (raw_packet (Z.of_nat (length link2)) (link2 ++ b ++ trailer2)) = Some (0, q) →
         w_gates wA1 !! remoteA = Some r1 → id ≠ @ping_id _ EA wA →
         ∃ wA3, @process_arg_ping _ EA localA remoteA q (set_gate remoteA (set_sentPingID id r1) wA1) = Done 0 wA3
           ∧ w_gates wA3 !! remoteA = Some (set_inSeqNum (outSeqNum (proto rb)) (set_sentPingID id r1))).
Proof.
  intros HmA HmB HsA HsB HlA HrA HneA HlB HrB HneB Haq Hlink1 Hlink2 Hid clockA offset lat base0.
  pose proof Haq as [Hla Hlb Hra Hrb [Lra Lrb] [PAB PBA] _ _ Sab Sba [Rab Rba]].
  pose proof Hla as [_ _ KlA _]. pose proof Hlb as [_ _ KlB _].
  assert (rsa_len (rsa ra) = KEY_LEN ∧ rsa_len (rsa rb) = KEY_LEN) as [KrA KrB]
    by (destruct PAB as (_ & _ & -> & _), PBA as (_ & _ & -> & _); done).
  pose proof (@ping_id_range _ EA wA) as Hrange.
  pose proof (send_ping_run HmA HsA localA remoteA la ra (rsa lb) (rsa rb) wA HneA HlA HrA Hla Hra Lra
    PAB PBA KlB) as (r1 & wA1 & Hrun1 & sa1 & da1 & ct1 & sg1 & rng1 & -> & Hs1 & Hd1 & Hm1 & Hi1 & Hsl1 & Hsent1 & Hg1 & Hc1)%wp_elim.
  pose proof (reply_ping_run HmB HsB localB remoteB lb rb link1 sa1 da1 (outSeqNum (proto ra)) (@ping_id _ EA wA) _
    ct1 sg1 trailer1 (rsa la) (rsa ra) wB Hlink1 Hs1 Hd1 Hsl1 ltac:(lia) ltac:(apply htonl_range) ltac:(lia)
    HneB HlB HrB Hlb Hrb KrB ltac:(lia) Lrb PBA PAB KlA)
    as (r2 & wB1 & Hrun2 & sa2 & da2 & ct2 & sg2 & rng2 & -> & Hs2 & Hd2 & Hm2 & Hi2 & Hsl2 & Hsent2 & Hg2)%wp_elim.
  set (la0 := la <| ctr_drbg := rng1 |>) in *.
  set (ra0 := pinged (@ping_id _ EA wA) (@env_clock EA (S (w_clock wA))) ra) in *.
  assert (w_gates wA1 !! localA = Some la0) as HlA1
    by (rewrite Hg1, lookup_insert_ne by done; apply lookup_insert_eq).
  assert (w_gates wA1 !! remoteA = Some ra0) as HrA1 by (rewrite Hg1; apply lookup_insert_eq).
  pose proof (pong_run HmA HsA localA remoteA la0 ra0 link2 sa2 da2 (outSeqNum (proto rb)) (u32 offset)
    ct2 sg2 trailer2 wA1 Hlink2 Hs2 Hd2 Hsl2 ltac:(change (sentPingID (proto ra0)) with (@ping_id _ EA wA); lia)
    ltac:(lia) HneA HlA1 HrA1 KlA KrA (proj2 Sba) Lra) as (r3 & wA2 & Hrun3 & -> & Hsent3 & Hi3 & Hg3)%wp_elim.
  change (pingSentTime (proto ra0)) with (@env_clock EA (S (w_clock wA))) in Hg3.
  rewrite Hc1 in Hg3.
  assert (clockA 1%nat = @env_clock EA (S (w_clock wA))) as E1 by (unfold clockA; f_equal; lia).
  rewrite <- E1 in Hg3. change (@env_clock EA (w_clock wA + 4)%nat) with (clockA 4%nat) in Hg3. fold lat in Hg3.
  assert (clockA 5%nat = @env_clock EA (S (w_clock wA + 4))) as E5 by (unfold clockA; f_equal; lia).
  rewrite <- E5, ntohl_htonl in Hg3. fold base0 in Hg3.
  rewrite E1 in *. set (ra2 := accept_pong lat base0 (set_inSeqNum (outSeqNum (proto rb)) ra0)) in *.
  assert (w_gates wA2 = <[remoteA := ra2]> (<[localA := la0]> (w_gates wA))) as Hg3'
    by (rewrite Hg3, Hg1; apply insert_insert_eq).
  exists wA1, wB1, wA2, rng1, rng2. split_and!; [|done|exact Hg3'|exact Hg2|].
  2: { intros o b q r1 id Hob Hq Hr1 Hne1. rewrite HrA1 in Hr1. injection Hr1 as <-.
    rewrite Hsent2 in Hob. apply app_inv_head in Hob. injection Hob as <- <-.
    rewrite (sealed_arrives link2 sa2 da2 _ _ _ _ _ _ _ trailer2 Hlink2 Hs2 Hd2 Hsl2) in Hq. injection Hq as <-.
    destruct (wp_elim _ _ _ (stray_run HmA HsA localA remoteA la0 (set_sentPingID id ra0) link2 sa2 da2
      (outSeqNum (proto rb)) (@ping_id _ EA wA) (u32 offset) ct2 sg2 trailer2 (set_gate remoteA (set_sentPingID id ra0) wA1)
      Hlink2 Hs2 Hd2 Hsl2 ltac:(lia) ltac:(done) ltac:(lia) HneA
      ltac:(unfold set_gate; cbn [w_gates upd]; by rewrite lookup_insert_ne) (set_gate_same _ _ _) KlA KrA (proj2 Sba) Lra))
      as (r3' & wA3 & Hrun3' & -> & Hg3''). exists wA3. split; [exact Hrun3'|]. rewrite Hg3''. apply lookup_insert_eq. }
  do 6 eexists. split_and!; [exact Hrun1|exact Hsent1|by eapply sealed_arrives|exact Hrun2|exact Hsent2
    |by eapply sealed_arrives|exact Hrun3|by eapply sealed_sent_by|by eapply sealed_sent_by|..].
  - exact (nets_insert2 _ _ _ _ _ _ _ _ HneA HlA HrA (reseed_net la rng1) (pinged_net _ _ ra) Hi1 Hg1).
  - exact (nets_insert2 _ _ _ _ _ _ _ _ HneA HlA HrA (reseed_net la rng1)
      (eq_trans (pk_net _ _ (accept_pong_keeps lat base0 _)) (seq_net _ _ _ ra)) (eq_trans Hi3 Hi1) Hg3').
  - exact (nets_insert2 _ _ _ _ _ _ _ _ HneB HlB HrB (reseed_net lb rng2) (replied_net _ rb) Hi2 Hg2).
Qed.

(** C8. The exchange of pings: A's ping reaches B, B answers at once, and the
    answer reaches A, each datagram behind any link header and in front of any
    trailing bytes.  A then has B's time base, and counts as connected if it
    has B's connection data too.  The measured time base is B's reported offset
    plus half of the time between sending the ping and handling the answer; it
    replaces the one A had, or moves that one half of the way.  The latency goes
    into the running mean, and another ping is asked for when it is off the mean
    by more than a quarter.  No mutex stays locked and no key changes.  If A has
    sent another ping in the meantime the answer is not believed: only its
    sequence number is recorded. *)
Theorem ping_exchange `{Hok : PolarSSL_ok} (EA EB : Env)
    localA remoteA localB remoteB la ra lb rb (wA wB : world) link1 trailer1 link2 trailer2 :
  (∀ i, @env_malloc EA i = true) → (∀ i, @env_malloc EB i = true) →
  (∀ i, 0 ≤ @env_sendto EA i) → (∀ i, 0 ≤ @env_sendto EB i) →
  w_gates wA !! localA = Some la → w_gates wA !! remoteA = Some ra → localA ≠ remoteA →
  w_gates wB !! localB = Some lb → w_gates wB !! remoteB = Some rb → localB ≠ remoteB →
  acquainted la ra lb rb → link_ok link1 → link_ok link2 → @ping_id _ EA wA ≠ 0 →
  let clockA i := @env_clock EA (w_clock wA + i)%nat in
  let offset := time_offset (timeBase lb) (@env_clock EB (w_clock wB)) in
  let lat := Z.quot (time_offset (clockA 1%nat) (clockA 4%nat)) 2 in
  let measured := time_plus (clockA 5%nat) (s32 (u32 (- u32 (u32 offset)) - lat)) in
  let mean := mean_latency (latency (proto ra)) lat in
  ∃ wA1 outer1 bytes1 q1 wB1 outer2 bytes2 q2 wA2 ra' rb',
    @send_arg_ping _ EA localA remoteA wA = Done 0 wA1
    ∧ w_sent wA1 = w_sent wA ++ [OutIP outer1 bytes1]
    ∧ parse_packet (raw_packet (Z.of_nat (length link1)) (link1 ++ bytes1 ++ trailer1)) = Some (0, q1)
    ∧ @process_arg_ping _ EB localB remoteB q1 wB = Done 0 wB1
    ∧ w_sent wB1 = w_sent wB ++ [OutIP outer2 bytes2]
    ∧ parse_packet (raw_packet (Z.of_nat (length link2)) (link2 ++ bytes2 ++ trailer2)) = Some (0, q2)
    ∧ @process_arg_ping _ EA localA remoteA q2 wA1 = Done 0 wA2 ∧ w_sent wA2 = w_sent wA1
    ∧ w_gates wA2 !! remoteA = Some ra' ∧ w_gates wB1 !! remoteB = Some rb'
    ∧ timeBaseAvailable (proto ra') = true
    ∧ connected ra' = connected ra || connDataAvailable (proto ra)
    ∧ same_keys ra ra' ∧ same_keys rb rb' ∧ lock ra' = false ∧ lock rb' = false
    ∧ timeBase ra' = new_time_base (timeBase ra) measured
    ∧ (0 ≤ lat < 2 ^ 30 → 0 ≤ offset < 2 ^ 30 → time_offset measured (clockA 5%nat) = offset + lat)
    ∧ latency (proto ra') = mean
    ∧ sendPing (proto ra') = sendPing (proto ra) || bool_decide (Z.abs (s32 (mean - lat)) > Z.quot mean 4)
    ∧ ∀ r1 id, w_gates wA1 !! remoteA = Some r1 → id ≠ @ping_id _ EA wA →
        ∃ wA3, @process_arg_ping _ EA localA remoteA q2 (set_gate remoteA (set_sentPingID id r1) wA1) = Done 0 wA3
          ∧ w_gates wA3 !! remoteA = Some (set_inSeqNum (outSeqNum (proto rb)) (set_sentPingID id r1)).
Proof.
  intros HmA HmB HsA HsB HlA HrA HneA HlB HrB HneB Haq Hlink1 Hlink2 Hid clockA offset lat measured mean.
  destruct (ping_run EA EB localA remoteA localB remoteB la ra lb rb wA wB link1 trailer1 link2 trailer2 HmA HmB
    HsA HsB HlA HrA HneA HlB HrB HneB Haq Hlink1 Hlink2 Hid)
    as (wA1 & wB1 & wA2 & rngA & rngB & (o1 & b1 & q1 & o2 & b2 & q2 & R1 & S1 & P1 & R2 & S2 & P2 & R3 & _) & S3 & HgA & HgB & Hstray).
  change (@env_clock EA (w_clock wA + 1)%nat) with (clockA 1%nat) in HgA.
  change (@env_clock EA (w_clock wA + 4)%nat) with (clockA 4%nat) in HgA.
  change (@env_clock EA (w_clock wA + 5)%nat) with (clockA 5%nat) in HgA. fold offset in HgA. fold lat in HgA.
  fold measured in HgA.
  set (ra1 := set_inSeqNum (outSeqNum (proto rb)) (pinged (@ping_id _ EA wA) (clockA 1%nat) ra)) in *.
  destruct (accept_pong_flags lat measured ra1) as (F1 & _ & F3). destruct (accept_pong_values lat measured ra1) as (V1 & V2 & V3).
  destruct (accept_pong_keeps lat measured ra1) as [Kk _ _ Kl _ _ _]. pose proof (proj1 (aq_locks _ _ _ _ Haq)) as Lra.
  do 9 eexists. exists (accept_pong lat measured ra1). eexists.
  split_and!; [exact R1|exact S1|exact P1|exact R2|exact S2|exact P2|exact R3|exact S3
    |rewrite HgA; apply lookup_insert_eq|rewrite HgB; apply lookup_insert_eq|exact F1|exact F3|exact Kk|by split_and!
    |by rewrite Kl|exact (proj2 (aq_locks _ _ _ _ Haq))|exact V1| |exact V2|exact V3|].
  - intros Hlat Hoff. unfold measured. rewrite !(u32_small offset) by lia. by apply new_base_offset.
  - intros r1 id Hr1 Hne. by apply (Hstray o2 b2 q2 r1 id S2 P2 Hr1 Hne).
Qed.

(** ** Evaluation: A has B's connection data, pings, and is connected *)

Definition untimed (g : @arg_network_info toy) : @arg_network_info toy :=
  g <| connected := false |> <| timeBase := time_zero |> <| proto ::= (λ p, p <| timeBaseAvailable := false |>) |>.
Definition untimedA : world :=
  set_gate 2%positive (untimed (gateB None (Some 1%positive))) worldA.
Lemma untimed_acquainted : acquainted (gateA (Some 2%positive) None) (untimed (gateB None (Some 1%positive)))
  (gateB (Some 2%positive) None) (gateA None (Some 1%positive)).
Proof.
  assert (∀ key seed base nxt prv, length base = ADDR_SIZE → gate_wf (untimed (toy_gate key seed base nxt prv))) as Hu.
  { intros. by split; cbn; rewrite ?length_le_bytes. }
  split; try done; try (by apply toy_own_ok); try (by apply toy_gate_wf); try (by apply Hu).
Qed.

Lemma ping_exchange_witness :
  let clockA i := env_clock (w_clock untimedA + i)%nat in
  let offset := time_offset (timeBase (gateB (Some 2%positive) None)) (env_clock (w_clock worldB)) in
  let lat := Z.quot (time_offset (clockA 1%nat) (clockA 4%nat)) 2 in
  let measured := time_plus (clockA 5%nat) (s32 (u32 (- u32 (u32 offset)) - lat)) in
  ∃ wA1 outer1 bytes1 q1 wB1 outer2 bytes2 q2 wA2 ra' rb',
    send_arg_ping 1%positive 2%positive untimedA = Done 0 wA1
    ∧ w_sent wA1 = w_sent untimedA ++ [OutIP outer1 bytes1]
    ∧ parse_packet (raw_packet 14 (eth_header ++ bytes1 ++ [1; 2])) = Some (0, q1)
    ∧ process_arg_ping 1%positive 2%positive q1 worldB = Done 0 wB1
    ∧ w_sent wB1 = w_sent worldB ++ [OutIP outer2 bytes2]
    ∧ parse_packet (raw_packet 0 ([] ++ bytes2 ++ [])) = Some (0, q2)
    ∧ process_arg_ping 1%positive 2%positive q2 wA1 = Done 0 wA2 ∧ w_sent wA2 = w_sent wA1
    ∧ w_gates wA2 !! 2%positive = Some ra' ∧ w_gates wB1 !! 2%positive = Some rb'
    ∧ timeBaseAvailable (proto ra') = true
    ∧ connected ra' = false || true
    ∧ same_keys (untimed (gateB None (Some 1%positive))) ra' ∧ same_keys (gateA None (Some 1%positive)) rb'
    ∧ lock ra' = false ∧ lock rb' = false
    ∧ timeBase ra' = new_time_base time_zero measured
    ∧ (0 ≤ lat < 2 ^ 30 → 0 ≤ offset < 2 ^ 30 → time_offset measured (clockA 5%nat) = offset + lat)
    ∧ latency (proto ra') = lat
    ∧ sendPing (proto ra') = false || bool_decide (Z.abs (s32 (lat - lat)) > Z.quot lat 4)
    ∧ ∀ r1 id, w_gates wA1 !! 2%positive = Some r1 → id ≠ ping_id untimedA →
        ∃ wA3, process_arg_ping 1%positive 2%positive q2 (set_gate 2%positive (set_sentPingID id r1) wA1) = Done 0 wA3
          ∧ w_gates wA3 !! 2%positive = Some (set_inSeqNum 5 (set_sentPingID id r1)).
Proof.
  apply (ping_exchange toy_env toy_env 1%positive 2%positive 1%positive 2%positive
    (gateA (Some 2%positive) None) (untimed (gateB None (Some 1%positive)))
    (gateB (Some 2%positive) None) (gateA None (Some 1%positive)) untimedA worldB
    eth_header [1; 2] [] []); try done.
  - exact untimed_acquainted.
  - intros _. by exists 8.
Defined.
