(* ===== verification/Nat.v ===== *)
(** * Network address translation (src/nat.c)

    Buckets are keyed by the outside host, entries hang off a bucket in a
    doubly linked list.  Both live in heaps; [natTable] is a uthash table. *)

From S2P Require Import Prelude Words Settings ArgError Utility Crypto Packet Gate Uthash NatData World Net Hopper.

(** [create_nat_bucket_key]: the address as an [int], XORed with the port. *)
Definition create_nat_bucket_key (ip : list Z) (port : Z) : Z := s32 (Z.lxor (le_val ip) port).

Section Nat.
Context `{PolarSSL, Env}.

(** ** Access to the NAT state *)

Definition nat_modify (f : nat_state → nat_state) : prog unit :=
  modify (λ w : world, w <| w_nat ::= f |>).
Definition entry_get (l : loc) : prog nat_entry :=
  n ← gets w_nat; lift_opt (n_entries n !! l).
Definition entry_upd (l : loc) (f : nat_entry → nat_entry) : prog unit :=
  e ← entry_get l; nat_modify (λ n, n <| n_entries ::= (λ h, <[l := f e]> h) |>).
Definition bucket_get (l : loc) : prog nat_entry_bucket :=
  n ← gets w_nat; lift_opt (n_buckets n !! l).
Definition bucket_upd (l : loc) (f : nat_entry_bucket → nat_entry_bucket) : prog unit :=
  b ← bucket_get l; nat_modify (λ n, n <| n_buckets ::= (λ h, <[l := f b]> h) |>).

Definition nat_lock : prog unit :=
  n ← gets w_nat;
  if natTableLock n then stuck else nat_modify (λ n, n <| natTableLock := true |>).
Definition nat_unlock : prog unit := nat_modify (λ n, n <| natTableLock := false |>).

(** ** Creating *)

(** A macro of uthash; its allocations are among those of the process. *)
Definition uthash {A} (m : (nat → Z → bool) → proc nat A) : prog A := λ w,
  match m (λ i _, env_malloc i) (w_malloc w) with
  | Done a n => Done a (w <| w_malloc := n |>)
  | Fault => Fault
  | Stuck => Stuck
  | Exited => Exited
  end.

Definition create_nat_bucket (extip : list Z) (extport key : Z) : prog (option loc) :=
  ok ← malloc_ok;
  if negb ok then mret None else
  n ← gets w_nat;
  let l := fresh_loc (n_buckets n) in
  nat_modify (λ n, n <| n_buckets ::= (λ h, <[l := NatBucket key extip extport None]> h) |>);;
  t ← uthash (λ malloc, HASH_ADD_INT malloc (natTable n) key l);
  nat_modify (λ n, n <| natTable := t |>);;
  mret (Some l).

(** Insertion at the head of the bucket's list. *)
Definition link_head (e bucket : loc) : prog unit :=
  b ← bucket_get bucket;
  let oldHead := b_first b in
  bucket_upd bucket (λ b, b <| b_first := Some e |>);;
  entry_upd e (λ x, x <| e_next := oldHead |>);;
  (match oldHead with
   | None => mret tt
   | Some o => entry_upd o (λ x, x <| e_prev := Some e |>)
   end);;
  entry_upd e (λ x, x <| e_bucket := Some bucket |> <| e_prev := None |>).

Definition create_nat_entry (saddr : list Z) (sport protocol : Z) (bucket : loc)
    : prog (option loc) :=
  ok ← malloc_ok;
  if negb ok then mret None else
  ip ← current_ip;
  n ← gets w_nat;
  let l := fresh_loc (n_entries n) in
  nat_modify (λ n, n <| n_entries ::= (λ h,
    <[l := NatEntry saddr sport ip sport protocol (Timespec 0 0) None None None]> h) |>);;
  link_head l bucket;;
  mret (Some l).

Definition update_nat_entry_time (e : loc) : prog unit :=
  now ← current_time; entry_upd e (λ x, x <| lastUsed := now |>).

(** ** Searching a bucket's list; a walk longer than the heap never ends *)

Fixpoint find_entry (fuel : nat) (test : nat_entry → bool) (e : option loc) : prog (option loc) :=
  match e with
  | None => mret None
  | Some l =>
      match fuel with
      | O => stuck
      | S fuel =>
          x ← entry_get l;
          if test x then mret (Some l) else find_entry fuel test (e_next x)
      end
  end.
Definition search (test : nat_entry → bool) (bucket : loc) : prog (option loc) :=
  b ← bucket_get bucket;
  n ← gets w_nat;
  find_entry (size (n_entries n)) test (b_first b).

Definition inbound_test (protocol port : Z) (daddr : list Z) (e : nat_entry) : bool :=
  bool_decide (protocol = e_proto e ∧ port = gatePort e ∧ daddr = gateIP e).
Definition outbound_test (protocol port : Z) (saddr : list Z) (e : nat_entry) : bool :=
  bool_decide (protocol = e_proto e ∧ port = intPort e ∧ saddr = intIP e).

(** ** Rewriting *)

Definition rewrite_dest (e : nat_entry) (p : packet_data) : prog packet_data :=
  ip ← lift_opt (p_ipv4 p);
  p ← store (ip + 16) (intIP e) p;
  p ← lift_opt (set_dest_port p (intPort e));
  p ← lift_opt (udp_csum env_slack p);
  lift_opt (tcp_csum env_slack p).
Definition rewrite_source (e : nat_entry) (p : packet_data) : prog packet_data :=
  ip ← lift_opt (p_ipv4 p);
  p ← store (ip + 12) (gateIP e) p;
  p ← lift_opt (set_source_port p (gatePort e));
  p ← lift_opt (udp_csum env_slack p);
  lift_opt (tcp_csum env_slack p).

(** Copy, rewrite and send; the return value of both rewriting functions. *)
Definition send_rewritten (rewrite : nat_entry → packet_data → prog packet_data) (e : loc)
    (p : packet_data) : prog Z :=
  newPacket ← copy_packet p;
  match newPacket with
  | None => mret (- ENOMEM)
  | Some np =>
      x ← entry_get e;
      np ← rewrite x np;
      ret ← send_packet np;
      mret (if decide (ret < 0) then ret else 0)
  end.

Definition do_nat_inbound_rewrite (p : packet_data) : prog Z :=
  ip ← lift_opt (p_ipv4 p);
  nat_lock;;
  saddr ← load (ip + 12) ADDR_SIZE p;
  sport ← lift_opt (get_source_port p);
  n ← gets w_nat;
  match HASH_FIND_INT (natTable n) (create_nat_bucket_key saddr sport) with
  | None => nat_unlock;; mret (- ARG_BUCKET_NOT_FOUND)
  | Some bucket =>
      port ← lift_opt (get_dest_port p);
      protocol ← lift_opt (ip_protocol ip (p_data p));
      daddr ← load (ip + 16) ADDR_SIZE p;
      e ← search (inbound_test protocol port daddr) bucket;
      match e with
      | None => nat_unlock;; mret (- ARG_ENTRY_NOT_FOUND)
      | Some e =>
          update_nat_entry_time e;;
          nat_unlock;;
          send_rewritten rewrite_dest e p
      end
  end.

Definition do_nat_outbound_rewrite (p : packet_data) : prog Z :=
  ip ← lift_opt (p_ipv4 p);
  nat_lock;;
  daddr ← load (ip + 16) ADDR_SIZE p;
  dport ← lift_opt (get_dest_port p);
  n ← gets w_nat;
  let key := create_nat_bucket_key daddr dport in
  bucket ← (match HASH_FIND_INT (natTable n) key with
            | Some b => mret (Some b)
            | None => create_nat_bucket daddr dport key
            end);
  match bucket with
  | None => nat_unlock;; mret (- ENOMEM)
  | Some bucket =>
      port ← lift_opt (get_source_port p);
      protocol ← lift_opt (ip_protocol ip (p_data p));
      saddr ← load (ip + 12) ADDR_SIZE p;
      e ← search (outbound_test protocol port saddr) bucket;
      e ← (match e with
           | Some e => mret (Some e)
           | None => create_nat_entry saddr port protocol bucket
           end);
      match e with
      | None => nat_unlock;; mret (- ENOMEM)
      | Some e =>
          update_nat_entry_time e;;
          nat_unlock;;
          send_rewritten rewrite_source e p
      end
  end.

(** ** Removing *)

Definition entry_upd_opt (p : option loc) (f : nat_entry → nat_entry) : prog unit :=
  match p with None => mret tt | Some l => entry_upd l f end.

Definition remove_nat_entry (l : loc) : prog (option loc) :=
  e ← entry_get l;
  let nxt := e_next e in
  entry_upd_opt (e_prev e) (λ x, x <| e_next := e_next e |>);;
  entry_upd_opt (e_next e) (λ x, x <| e_prev := e_prev e |>);;
  (match e_bucket e with
   | None => mret tt
   | Some bl =>
       b ← bucket_get bl;
       if decide (b_first b = Some l)
       then bucket_upd bl (λ b, b <| b_first := e_next e |>) else mret tt
   end);;
  nat_modify (λ n, n <| n_entries ::= delete l |>);;
  mret nxt.

Fixpoint remove_entries (fuel : nat) (e : option loc) : prog unit :=
  match e with
  | None => mret tt
  | Some l =>
      match fuel with
      | O => stuck
      | S fuel => nxt ← remove_nat_entry l; remove_entries fuel nxt
      end
  end.

Definition remove_nat_bucket (l : loc) : prog (option loc) :=
  n ← gets w_nat;
  let nxt := hh_next (natTable n) l in
  b ← bucket_get l;
  remove_entries (size (n_entries n)) (b_first b);;
  nat_modify (λ n, n <| natTable ::= (λ t, HASH_DEL t l) |> <| n_buckets ::= delete l |>);;
  mret nxt.

Fixpoint empty_loop (fuel : nat) (b : option loc) : prog unit :=
  match b with
  | None => mret tt
  | Some l =>
      match fuel with
      | O => stuck
      | S fuel => nxt ← remove_nat_bucket l; empty_loop fuel nxt
      end
  end.
Definition empty_nat_table : prog unit :=
  n ← gets w_nat;
  nat_lock;;
  empty_loop (length (hash_order (natTable n))) (hash_head (natTable n));;
  nat_unlock.

Definition nat_expired (now : timespec) (e : nat_entry) : bool :=
  bool_decide (time_offset (lastUsed e) now > NAT_CLEAN_TIME * 1000).

Fixpoint clean_entries (fuel : nat) (now : timespec) (e : option loc) : prog unit :=
  match e with
  | None => mret tt
  | Some l =>
      match fuel with
      | O => stuck
      | S fuel =>
          x ← entry_get l;
          if nat_expired now x
          then nxt ← remove_nat_entry l; clean_entries fuel now nxt
          else clean_entries fuel now (e_next x)
      end
  end.

Fixpoint clean_buckets (fuel : nat) (now : timespec) (b : option loc) : prog unit :=
  match b with
  | None => mret tt
  | Some l =>
      match fuel with
      | O => stuck
      | S fuel =>
          x ← bucket_get l;
          n ← gets w_nat;
          clean_entries (size (n_entries n)) now (b_first x);;
          x ← bucket_get l;
          nxt ← (match b_first x with
                 | None => remove_nat_bucket l
                 | Some _ => n ← gets w_nat; mret (hh_next (natTable n) l)
                 end);
          clean_buckets fuel now nxt
      end
  end.
Definition clean_nat_table : prog unit :=
  n ← gets w_nat;
  now ← current_time;
  nat_lock;;
  clean_buckets (length (hash_order (natTable n))) now (hash_head (natTable n));;
  nat_unlock.
End Nat.
