(* ===== verification/Tables.v ===== *)
(** * The printed tables (src/hopper.c, src/nat.c)

    The lines that [print_associated_networks] and [print_nat_table] give to
    the log, in order, each as its formatted text.  The walks are as in the
    other functions on the list and the table; the age of a NAT entry is taken
    from the clock when its line is printed. *)

From stdpp Require Import strings.
From S2P Require Import Prelude Words Settings ArgError CString Text Utility Crypto Packet Gate Uthash NatData World Nat.

Section Tables.
Context `{PolarSSL, Env}.

(** ** Gateways *)

(** [latency] is a [long] printed with [%i]: its low 32 bits. *)
Definition print_network (network : arg_network_info) : prog (list Z) :=
  name ← lift_opt (cstr (name network));
  mret (str "  " ++ name ++ str " (" ++ inet_ntop (baseIP network) ++ str ", " ++ inet_ntop (mask network)
        ++ str "): " ++ (if connected network then str "connected" else str "disconnected")
        ++ str ", latency " ++ dec (s32 (latency (proto network))) ++ [NL]).

Fixpoint print_networks (fuel : nat) (curr : option loc) : prog (list (list Z)) :=
  match curr with
  | None => mret []
  | Some l =>
      match fuel with
      | O => stuck
      | S fuel =>
          g ← gate_get l;
          line ← print_network g;
          lines ← print_networks fuel (next g);
          mret (line :: lines)
      end
  end.
Definition print_associated_networks : prog (list (list Z)) :=
  curr ← gateInfo;
  match curr with
  | None => mret [str "No associated gateways" ++ [NL]]
  | Some l =>
      g ← gate_get l;
      gs ← gets w_gates;
      lines ← print_networks (size gs) (next g);
      mret ((str "Associated gateways:" ++ [NL]) :: lines)
  end.

(** ** The NAT table *)

Definition print_nat_bucket (bucket : nat_entry_bucket) : list Z :=
  str " Bucket: k:" ++ dec (b_key bucket) ++ str " e:" ++ inet_ntop (extIP bucket) ++ str ":" ++ dec (extPort bucket)
  ++ [NL].

(** The line of an entry that is [age] ms old. *)
Definition entry_line (entry : nat_entry) (age : Z) : list Z :=
  str "  Entry: i:" ++ inet_ntop (intIP entry) ++ str ":" ++ dec (intPort entry) ++ str " g:"
  ++ inet_ntop (gateIP entry) ++ str ":" ++ dec (gatePort entry) ++ str " (lu " ++ dec age ++ str " ms ago)" ++ [NL].
Definition print_nat_entry (entry : nat_entry) : prog (list Z) :=
  age ← current_time_offset (lastUsed entry); mret (entry_line entry age).

Fixpoint print_entries (fuel : nat) (e : option loc) : prog (list (list Z)) :=
  match e with
  | None => mret []
  | Some l =>
      match fuel with
      | O => stuck
      | S fuel =>
          x ← entry_get l;
          line ← print_nat_entry x;
          lines ← print_entries fuel (e_next x);
          mret (line :: lines)
      end
  end.
Fixpoint print_buckets (fuel : nat) (b : option loc) : prog (list (list Z)) :=
  match b with
  | None => mret []
  | Some l =>
      match fuel with
      | O => stuck
      | S fuel =>
          x ← bucket_get l;
          n ← gets w_nat;
          es ← print_entries (size (n_entries n)) (b_first x);
          lines ← print_buckets fuel (hh_next (natTable n) l);
          mret (print_nat_bucket x :: es ++ lines)
      end
  end.
Definition print_nat_table : prog (list (list Z)) :=
  n ← gets w_nat;
  let b := hash_head (natTable n) in
  let title := (if b then str "NAT Table:" else str "NAT Table empty") ++ [NL] in
  lines ← print_buckets (length (hash_order (natTable n))) b;
  mret (title :: lines).
End Tables.
