(* ===== verification/NatFacts.v ===== *)
(** * The NAT table's structure

    [nat_ok n abs]: the state [n] of src/nat.c consists of the buckets [abs], in
    the order in which they were added, each with its doubly linked list of
    entries.  The operations on entries and buckets keep it; cleaning the table
    terminates and removes exactly the expired entries. *)

From S2P Require Import Prelude Linked Words Settings ArgError Utility Crypto Packet Gate Uthash UthashFacts NatData World Net Layout Hopper Nat.

(** ** Doubly linked lists of entries *)

(** The segment [es] from [p] up to [nxt], in the bucket [bl]; [prv] is what
    comes before it. *)
Abbreviation eseg h bl prv p es nxt := (dseg e_next e_prev (λ e, e_bucket e = Some bl) h prv p es nxt).
Abbreviation elist h bl p es := (eseg h bl None p es None).

(** ** What an operation on one bucket changes *)

(** An entry without its links: the connection it stands for. *)
Definition erase_links (e : nat_entry) : nat_entry :=
  e <| e_bucket := None |> <| e_next := None |> <| e_prev := None |>.

(** The list of bucket [bl] went from [es] to [es']: dropped entries are freed,
    kept ones still stand for the same connections, and nothing else changed. *)
Record change (bl : loc) (es es' : list loc) (n n' : nat_state) : Prop := {
  ch_table : natTable n' = natTable n;
  ch_lock : natTableLock n' = natTableLock n;
  ch_bucket : ∃ b first, n_buckets n !! bl = Some b
    ∧ n_buckets n' = <[bl := b <| b_first := first |>]> (n_buckets n)
    ∧ elist (n_entries n') bl first es';
  ch_gone l : l ∈ es → l ∉ es' → n_entries n' !! l = None;
  ch_kept l : l ∈ es → l ∈ es' → erase_links <$> n_entries n' !! l = erase_links <$> n_entries n !! l;
  ch_other l : l ∉ es → l ∉ es' → n_entries n' !! l = n_entries n !! l }.

Lemma change_refl bl b es n :
  n_buckets n !! bl = Some b → elist (n_entries n) bl (b_first b) es → change bl es es n n.
Proof.
  intros Hb Hes. split; try done. exists b, (b_first b). split_and!; [done| |done].
  symmetry. apply insert_id. rewrite Hb. by destruct b.
Qed.

Lemma change_trans bl es1 es2 es3 n1 n2 n3 :
  (∀ l, l ∈ es3 → l ∈ es2) → (∀ l, l ∈ es2 → l ∈ es1) →
  change bl es1 es2 n1 n2 → change bl es2 es3 n2 n3 → change bl es1 es3 n1 n3.
Proof.
  intros H32 H21 [Ht1 Hk1 (b & first & Hb & Hbs & _) Hg1 Hkept1 Ho1]
    [Ht2 Hk2 (b' & first' & Hb' & Hbs' & Hl) Hg2 Hkept2 Ho2].
  split; [congruence | congruence | | | |].
  - exists b, first'. split_and!; [done | | done].
    rewrite Hbs, lookup_insert_eq in Hb'. simplify_eq. rewrite Hbs', Hbs, insert_insert_eq. done.
  - intros l H1 H3. destruct (decide (l ∈ es2)); [by apply Hg2|]. rewrite Ho2 by done. by apply Hg1.
  - intros l H1 H3. rewrite Hkept2, Hkept1; auto.
  - intros l H1 H3. rewrite Ho2, Ho1; auto.
Qed.

(** ** Steps on the NAT state *)

Section Steps.
Context `{PolarSSL, Env}.
Implicit Types w : world.

Definition set_nat (n : nat_state) (w : world) : world := w <| w_nat := n |>.
Definition alter_entries (f : gmap loc nat_entry → gmap loc nat_entry) (n : nat_state) : nat_state :=
  n <| n_entries ::= f |>.
Definition set_bucket (l : loc) (b : nat_entry_bucket) (n : nat_state) : nat_state :=
  n <| n_buckets ::= (λ h, <[l := b]> h) |>.

Lemma set_nat_same w : set_nat (w_nat w) w = w.
Proof. by destruct w. Qed.

Lemma wp_bind_entry_get {B} l e (k : nat_entry → proc world B) Q w :
  n_entries (w_nat w) !! l = Some e → wp (k e) Q w → wp (entry_get l ≫= k) Q w.
Proof. intros Hl Hk. unfold entry_get. apply wp_bind. unfold wp, mbind, proc_bind, gets. by rewrite Hl. Qed.

Lemma wp_bind_bucket_get {B} l b (k : nat_entry_bucket → proc world B) Q w :
  n_buckets (w_nat w) !! l = Some b → wp (k b) Q w → wp (bucket_get l ≫= k) Q w.
Proof. intros Hl Hk. unfold bucket_get. apply wp_bind. unfold wp, mbind, proc_bind, gets. by rewrite Hl. Qed.

Lemma wp_bind_entry_upd {B} l e f (k : unit → proc world B) Q w :
  n_entries (w_nat w) !! l = Some e →
  wp (k tt) Q (set_nat (alter_entries (alter f l) (w_nat w)) w) → wp (entry_upd l f ≫= k) Q w.
Proof.
  intros Hl Hk. unfold entry_upd. apply wp_assoc. eapply wp_bind_entry_get; [done|].
  unfold alter_entries in Hk. cbn in Hk. by rewrite (alter_as_insert _ _ _ _ Hl) in Hk.
Qed.

Lemma wp_bind_bucket_upd {B} l b f (k : unit → proc world B) Q w :
  n_buckets (w_nat w) !! l = Some b →
  wp (k tt) Q (set_nat (set_bucket l (f b) (w_nat w)) w) → wp (bucket_upd l f ≫= k) Q w.
Proof.
  intros Hl Hk. unfold bucket_upd. apply wp_assoc. by eapply wp_bind_bucket_get.
Qed.

Lemma wp_bind_entry_upd_opt {B} p f (k : unit → proc world B) Q w :
  (∀ l, p = Some l → is_Some (n_entries (w_nat w) !! l)) →
  wp (k tt) Q (set_nat (alter_entries (opt_alter f p) (w_nat w)) w) → wp (entry_upd_opt p f ≫= k) Q w.
Proof.
  intros Hp Hk. destruct p as [l|].
  - destruct (Hp l eq_refl) as [e He]. by eapply wp_bind_entry_upd.
  - cbn in Hk. unfold alter_entries, set_nat in Hk. cbn in Hk. by destruct w as [? ? [] ? ? ? ? ?].
Qed.

Lemma wp_bind_nat_lock {B} (k : unit → proc world B) Q w :
  natTableLock (w_nat w) = false →
  wp (k tt) Q (set_nat (w_nat w <| natTableLock := true |>) w) → wp (nat_lock ≫= k) Q w.
Proof. intros Hl Hk. unfold nat_lock. apply wp_assoc, wp_bind_gets. rewrite Hl. done. Qed.

(** ** Removing an entry *)

(** The heap of entries after [l], between [a] and [b], was taken out. *)
Definition taken_out (l : loc) (a b : option loc) (h : gmap loc nat_entry) : gmap loc nat_entry :=
  delete l (opt_alter (λ x, x <| e_prev := a |>) b (opt_alter (λ x, x <| e_next := b |>) a h)).

Lemma taken_out_list h bl p pre l post e :
  NoDup (pre ++ l :: post) → h !! l = Some e →
  eseg h bl None p pre (Some l) → eseg h bl (Some l) (e_next e) post None →
  elist (taken_out l (last pre) (hd_error post) h) bl
    (match pre with [] => hd_error post | _ => p end) (pre ++ post).
Proof.
  intros Hnd He H1 H2. pose proof (hd_error_dseg H2) as Hn.
  eapply dseg_agree; [|eapply (bridged_list (λ a x, x <| e_next := a |>) (λ a x, x <| e_prev := a |>));
    [done..|exact Hnd|exact He|exact H1|exact H2]].
  intros x Hx. apply lookup_delete_ne. intros <-.
  apply NoDup_app in Hnd as (_ & Hd & [Hl _]%NoDup_cons). apply elem_of_app in Hx as [Hx|Hx]; [|done].
  apply (Hd l Hx). by left.
Qed.

Lemma taken_out_change bl b pre l post e n :
  n_buckets n !! bl = Some b → elist (n_entries n) bl (b_first b) (pre ++ l :: post) →
  NoDup (pre ++ l :: post) → n_entries n !! l = Some e →
  eseg (n_entries n) bl None (b_first b) pre (Some l) →
  eseg (n_entries n) bl (Some l) (e_next e) post None →
  change bl (pre ++ l :: post) (pre ++ post) n
    (set_bucket bl (b <| b_first := match pre with [] => hd_error post | _ => b_first b end |>) n
       <| n_entries := taken_out l (last pre) (hd_error post) (n_entries n) |>).
Proof.
  intros Hb Hes Hnd He H1 H2. pose proof (taken_out_list _ _ _ _ _ _ _ Hnd He H1 H2) as Hout.
  pose proof Hnd as (Hpre & Hd & [Hl Hpost]%NoDup_cons)%NoDup_app.
  split; cbn; try done.
  - by exists b, (match pre with [] => hd_error post | _ => b_first b end).
  - intros x Hx Hnx. assert (x = l) as -> by set_solver. apply lookup_delete_eq.
  - intros x Hx Hx'. unfold taken_out. rewrite lookup_delete_ne.
    + by rewrite !opt_alter_fmap by done.
    + intros <-. apply elem_of_app in Hx' as [Hx'|Hx']; [|done]. apply (Hd l Hx'). by left.
  - intros x Hx _. unfold taken_out. rewrite lookup_delete_ne by set_solver.
    rewrite !opt_alter_ne; [done|..]; intros Hy; apply Hx, elem_of_app;
      [left; by apply last_elem | right; right; by apply hd_elem].
Qed.

Lemma remove_entry_run bl b pre l post w :
  n_buckets (w_nat w) !! bl = Some b →
  elist (n_entries (w_nat w)) bl (b_first b) (pre ++ l :: post) →
  NoDup (pre ++ l :: post) →
  wp (remove_nat_entry l) (λ r w', r = hd_error post ∧
    ∃ n', w' = set_nat n' w ∧ change bl (pre ++ l :: post) (pre ++ post) (w_nat w) n') w.
Proof.
  intros Hb Hes Hnd. pose proof Hes as (m & H1 & -> & e & He & Hprev & Hbk & H2)%dseg_app.
  pose proof (hd_error_dseg H2) as Hnext.
  assert (e_prev e = last pre) as Hlast by (rewrite Hprev; unfold last_or; by destruct (last pre)).
  pose proof Hnd as (Hpre & Hd & [Hl Hpost]%NoDup_cons)%NoDup_app.
  set (n := w_nat w) in *. set (h := n_entries n) in *.
  unfold remove_nat_entry. eapply wp_bind_entry_get; [done|]. rewrite Hlast, Hnext.
  apply wp_bind_entry_upd_opt.
  { intros x Hx. eapply dseg_lookup; [exact Hes|]. apply elem_of_app. left. by apply last_elem. }
  apply wp_bind_entry_upd_opt.
  { intros x Hx. cbn. rewrite opt_alter_ne.
    - eapply dseg_lookup; [exact H2|]. by apply hd_elem.
    - intros Hy. apply (Hd x); [by apply last_elem | right; by apply hd_elem]. }
  rewrite Hbk. apply wp_assoc. eapply wp_bind_bucket_get; [exact Hb|].
  pose proof (taken_out_change _ _ _ _ _ _ _ Hb Hes Hnd He H1 H2) as Hch.
  pose proof (dseg_head H1) as Hf. destruct pre as [|y pre].
  - rewrite Hf, decide_True by done.
    eapply wp_bind_bucket_upd; [exact Hb|]. apply wp_bind. unfold nat_modify, modify, wp at 1. cbn.
    split; [done|]. eexists. split; [reflexivity|]. exact Hch.
  - rewrite Hf, decide_False by (intros [= ->]; apply (Hd l); by left).
    apply wp_bind. unfold nat_modify, modify, wp at 1. cbn.
    split; [done|]. eexists. split; [reflexivity|]. unfold set_bucket in Hch. cbn in Hch.
    rewrite insert_id in Hch by (rewrite Hb; by destruct b). exact Hch.
Qed.

(** ** Removing several entries of a bucket *)

(** The entry at [l] is there and was used recently enough. *)
Definition live (now : timespec) (n : nat_state) (l : loc) : bool :=
  from_option (λ e, negb (nat_expired now e)) false (erase_links <$> n_entries n !! l).

Lemma change_elist bl es es' n n' :
  change bl es es' n n' →
  ∃ b, n_buckets n' !! bl = Some b ∧ elist (n_entries n') bl (b_first b) es'.
Proof.
  intros [_ _ (b & first & _ & Hbs & Hl) _ _ _]. eexists. rewrite Hbs, lookup_insert_eq. by split.
Qed.

Lemma live_filter now bl es es' (xs : list loc) n n' :
  change bl es es' n n' → (∀ x, x ∈ xs → x ∈ es ∧ x ∈ es') →
  filter (λ l, live now n' l = true) xs = filter (λ l, live now n l = true) xs.
Proof.
  intros Hch Hxs. apply list_filter_iff'. apply Forall_forall. intros x Hx. unfold live.
  destruct (Hxs x Hx). by rewrite (ch_kept _ _ _ _ _ Hch x).
Qed.

Lemma clean_entries_run now bl fuel b pre rest w :
  n_buckets (w_nat w) !! bl = Some b →
  elist (n_entries (w_nat w)) bl (b_first b) (pre ++ rest) →
  NoDup (pre ++ rest) → (length rest ≤ fuel)%nat →
  wp (clean_entries fuel now (hd_error rest)) (λ _ w', ∃ n', w' = set_nat n' w ∧
    change bl (pre ++ rest) (pre ++ filter (λ l, live now (w_nat w) l = true) rest) (w_nat w) n') w.
Proof.
  revert b pre rest w. induction fuel as [|fuel IH]; intros b pre [|l rest] w Hb Hes Hnd Hfu;
    try (cbn in Hfu; lia);
    try (exists (w_nat w); rewrite set_nat_same; split; [done|]; by eapply change_refl).
  pose proof Hes as (m & _ & -> & e & He & _)%dseg_app. cbn [clean_entries hd_error].
  eapply wp_bind_entry_get; [exact He|].
  assert (live now (w_nat w) l = negb (nat_expired now e)) as Hlive
    by (unfold live; by rewrite He).
  destruct (nat_expired now e); cbn in Hlive.
  - apply wp_bind. eapply wp_mono; [by eapply remove_entry_run|].
    intros r w1 (-> & n1 & -> & Hch). destruct (change_elist _ _ _ _ _ Hch) as (b1 & Hb1 & Hl1).
    assert (NoDup (pre ++ rest)) as Hnd1
      by (eapply sublist_NoDup; [exact Hnd|]; apply sublist_app; [done | by constructor]).
    eapply wp_mono; [by apply (IH b1 pre rest (set_nat n1 w)); [..|cbn in Hfu; lia]|].
    intros _ w2 (n2 & -> & Hch2). exists n2. split; [done|].
    rewrite filter_cons_False by (by rewrite Hlive).
    cbn [set_nat w_nat upd] in Hch2.
    rewrite (live_filter now _ _ _ rest _ _ Hch) in Hch2 by set_solver.
    eapply change_trans; [..|exact Hch|exact Hch2]; intros x.
    + rewrite !elem_of_app. intros [?|[_ ?]%list_elem_of_filter]; auto.
    + rewrite !elem_of_app, elem_of_cons. tauto.
  - eapply wp_mono.
    + rewrite (hd_error_dseg (dseg_rest Hes He)). apply (IH b (pre ++ [l]) rest w); [done|..].
      * by rewrite <- app_assoc.
      * by rewrite <- app_assoc.
      * cbn in Hfu. lia.
    + intros _ w2 (n2 & -> & Hch2). exists n2. split; [done|].
      rewrite filter_cons_True by done. by rewrite <- !app_assoc in Hch2.
Qed.

Lemma remove_entries_run bl fuel b es w :
  n_buckets (w_nat w) !! bl = Some b → elist (n_entries (w_nat w)) bl (b_first b) es →
  NoDup es → (length es ≤ fuel)%nat →
  wp (remove_entries fuel (hd_error es)) (λ _ w', ∃ n', w' = set_nat n' w ∧
    change bl es [] (w_nat w) n') w.
Proof.
  revert b es w. induction fuel as [|fuel IH]; intros b [|l es] w Hb Hes Hnd Hfu;
    try (cbn in Hfu; lia);
    try (exists (w_nat w); rewrite set_nat_same; split; [done|]; by eapply change_refl).
  cbn [remove_entries hd_error]. apply wp_bind.
  eapply wp_mono; [by apply (remove_entry_run bl b [] l es)|].
  intros r w1 (-> & n1 & -> & Hch). destruct (change_elist _ _ _ _ _ Hch) as (b1 & Hb1 & Hl1).
  apply NoDup_cons in Hnd as [_ Hnd].
  eapply wp_mono; [by apply (IH b1 es (set_nat n1 w)); [..|cbn in Hfu; lia]|].
  intros _ w2 (n2 & -> & Hch2). exists n2. split; [done|].
  eapply change_trans; [..|exact Hch|exact Hch2]; [set_solver | intros x; cbn; by right].
Qed.
End Steps.
