(* ===== verification/NatClean.v ===== *)
(** * Cleaning and emptying the NAT table

    [nat_ok]: the whole table as a list of buckets with their entries.
    [clean_nat_table] terminates and keeps exactly the entries that are not
    expired; [empty_nat_table] frees everything. *)

From S2P Require Import Prelude Linked Words Settings ArgError Utility Crypto Packet Gate Uthash UthashFacts NatData World Net ToyCrypto ToyWorld Layout Hopper Nat NatFacts.

(** A bucket: its key, its address and its entries, newest first. *)
Record conns := Conns { cn_key : Z; cn_bucket : loc; cn_entries : list loc }.
#[export] Instance conns_eta : Eta conns := λ c, Conns (cn_key c) (cn_bucket c) (cn_entries c).

Definition cn_item (c : conns) : Z * loc := (cn_key c, cn_bucket c).
Definition all_entries (abs : list conns) : list loc := mjoin (cn_entries <$> abs).

Definition bucket_ok (n : nat_state) (c : conns) : Prop :=
  ∃ b, n_buckets n !! cn_bucket c = Some b ∧ b_key b = cn_key c
     ∧ elist (n_entries n) (cn_bucket c) (b_first b) (cn_entries c).

(** The NAT state consists of the buckets [abs], oldest first, and nothing else
    is allocated. *)
Record nat_ok (n : nat_state) (abs : list conns) : Prop := {
  no_table : models (natTable n) (cn_item <$> abs);
  no_buckets : Forall (bucket_ok n) abs;
  no_disjoint : NoDup (all_entries abs);
  no_entries l : is_Some (n_entries n !! l) → l ∈ all_entries abs;
  no_heap l : is_Some (n_buckets n !! l) ↔ l ∈ cn_bucket <$> abs }.

Lemma nat_ok_init : nat_ok nat_init [].
Proof.
  split; [apply models_nil | constructor | constructor | by intros l [x Hx] |].
  intros l. split; [by intros [x Hx] | intros Hl; by apply elem_of_nil in Hl].
Qed.

Lemma cn_items_elts abs : (cn_item <$> abs).*2 = cn_bucket <$> abs.
Proof. by rewrite <- list_fmap_compose. Qed.
Lemma cn_items_keys abs : (cn_item <$> abs).*1 = cn_key <$> abs.
Proof. by rewrite <- list_fmap_compose. Qed.

Lemma all_entries_mid pre c post :
  all_entries (pre ++ c :: post) = all_entries pre ++ cn_entries c ++ all_entries post.
Proof. unfold all_entries. by rewrite fmap_app, join_app. Qed.

Lemma elem_of_all c abs l : c ∈ abs → l ∈ cn_entries c → l ∈ all_entries abs.
Proof. intros Hc Hl. apply list_elem_of_join. eauto using list_elem_of_fmap_2. Qed.

Lemma nat_ok_order n abs : nat_ok n abs → hash_order (natTable n) = cn_bucket <$> abs.
Proof. intros [Ht _ _ _ _]. by rewrite (models_order _ _ Ht), cn_items_elts. Qed.

Lemma nat_ok_nodup n abs : nat_ok n abs → NoDup (cn_bucket <$> abs).
Proof. intros [Ht _ _ _ _]. rewrite <- cn_items_elts. apply Ht. Qed.

Lemma nat_ok_bucket n pre c post : nat_ok n (pre ++ c :: post) → bucket_ok n c.
Proof. intros [_ Hb _ _ _]. rewrite Forall_app, Forall_cons in Hb. tauto. Qed.

Lemma nat_ok_entries_nodup n pre c post : nat_ok n (pre ++ c :: post) → NoDup (cn_entries c).
Proof.
  intros [_ _ Hd _ _]. rewrite all_entries_mid in Hd.
  apply NoDup_app in Hd as (_ & _ & Hd). by apply NoDup_app in Hd as [? _].
Qed.

Lemma nat_ok_fuel n pre c post : nat_ok n (pre ++ c :: post) → (length (cn_entries c) ≤ size (n_entries n))%nat.
Proof.
  intros Hn. apply path_fuel; [by eapply nat_ok_entries_nodup|].
  destruct (nat_ok_bucket _ _ _ _ Hn) as (b & _ & _ & Hl). intros l Hin. by eapply dseg_lookup.
Qed.

(** Buckets that an operation on another one leaves alone. *)
Lemma bucket_ok_change n n' bl es es' c :
  change bl es es' n n' → cn_bucket c ≠ bl →
  (∀ l, l ∈ cn_entries c → l ∉ es ∧ l ∉ es') → bucket_ok n c → bucket_ok n' c.
Proof.
  intros Hch Hne Hdis (b & Hb & Hk & Hl). exists b. split_and!; [|done|].
  - destruct (ch_bucket _ _ _ _ _ Hch) as (? & ? & _ & -> & _). by rewrite lookup_insert_ne.
  - eapply dseg_agree; [|done]. intros l Hin. destruct (Hdis l Hin). by apply (ch_other _ _ _ _ _ Hch).
Qed.

(** The entries of the other buckets are neither the old nor the new ones. *)
Lemma nat_ok_elsewhere n pre c post (es' : list loc) c' l :
  nat_ok n (pre ++ c :: post) →
  (∀ l, l ∈ es' → l ∈ cn_entries c ∨ n_entries n !! l = None) →
  c' ∈ pre ∨ c' ∈ post → l ∈ cn_entries c' → l ∉ cn_entries c ∧ l ∉ es'.
Proof.
  intros Hn Hes Hc' Hin. assert (l ∉ cn_entries c) as Hc.
  { destruct Hn as [_ _ Hdis _ _]. rewrite all_entries_mid in Hdis.
    apply NoDup_app in Hdis as (_ & H1 & (_ & H2 & _)%NoDup_app). intros Hlc. destruct Hc' as [Hp|Hp].
    - apply (H1 l); [by eapply elem_of_all|]. apply elem_of_app. by left.
    - apply (H2 l Hlc). by eapply elem_of_all. }
  split; [done|]. intros [?|Hnone]%Hes; [done|].
  destruct Hn as [_ Hb _ _ _]. rewrite Forall_app, Forall_cons, !Forall_forall in Hb.
  destruct Hb as (Hpre & _ & Hpost).
  assert (bucket_ok n c') as (b & _ & _ & Hl) by (destruct Hc'; auto).
  destruct (dseg_lookup Hl Hin). congruence.
Qed.

(** A change of one bucket's list is a change of that list in the table. *)
Section Change.
Context (n n' : nat_state) (pre post : list conns) (c : conns) (es' : list loc).
Context (Hn : nat_ok n (pre ++ c :: post)) (Hch : change (cn_bucket c) (cn_entries c) es' n n').
Context (Hnd : NoDup es') (Hes : ∀ l, l ∈ es' → l ∈ cn_entries c ∨ n_entries n !! l = None).

Lemma change_buckets : Forall (bucket_ok n') (pre ++ (c <| cn_entries := es' |>) :: post).
Proof using All.
  pose proof (nat_ok_nodup _ _ Hn) as Hbs. rewrite fmap_app, fmap_cons in Hbs.
  apply NoDup_app in Hbs as (_ & Hbs1 & [Hbs2 _]%NoDup_cons).
  pose proof (no_buckets _ _ Hn) as Hbok. rewrite Forall_app, Forall_cons, !Forall_forall in Hbok.
  destruct Hbok as (Hpre & (b & Hb & Hk & _) & Hpost).
  assert (∀ c', c' ∈ pre ∨ c' ∈ post → bucket_ok n c' → bucket_ok n' c') as Hother.
  { intros c' Hc' Hok. eapply bucket_ok_change; [exact Hch| | |done].
    - intros Heq. destruct Hc' as [Hc'|Hc'].
      + apply (Hbs1 (cn_bucket c')); [by apply list_elem_of_fmap_2|]. rewrite Heq. by left.
      + apply Hbs2. rewrite <- Heq. by apply list_elem_of_fmap_2.
    - intros l Hin. by eapply nat_ok_elsewhere. }
  apply Forall_app. split; [|apply Forall_cons; split]; rewrite ?Forall_forall; auto.
  destruct (ch_bucket _ _ _ _ _ Hch) as (b' & first & Hb' & Hbs' & Hl'). simplify_eq.
  eexists. cbn. rewrite Hbs', lookup_insert_eq. split_and!; [done..|exact Hl'].
Qed.

Lemma change_disjoint : NoDup (all_entries (pre ++ (c <| cn_entries := es' |>) :: post)).
Proof using All.
  assert (∀ xs l, (∀ c', c' ∈ xs → c' ∈ pre ∨ c' ∈ post) → l ∈ all_entries xs → l ∉ es') as Hfresh.
  { intros xs l Hxs (es & Hx & (c' & -> & Hc')%list_elem_of_fmap)%list_elem_of_join.
    by eapply (nat_ok_elsewhere n pre c post es' c' l Hn Hes (Hxs _ Hc')). }
  pose proof (no_disjoint _ _ Hn) as Hdis. rewrite all_entries_mid in Hdis |- *. cbn.
  apply NoDup_app in Hdis as (Hd1 & Hd2 & (Hd3 & Hd4 & Hd5)%NoDup_app).
  apply NoDup_app. split_and!; [done| |apply NoDup_app; split_and!; [done| |done]].
  - intros l Hlp [Hle|Hlq]%elem_of_app; [by apply (Hfresh pre l); auto|].
    apply (Hd2 l Hlp), elem_of_app. by right.
  - intros l Hle Hlq. apply (Hfresh post l); auto.
Qed.

Lemma nat_ok_change : nat_ok n' (pre ++ (c <| cn_entries := es' |>) :: post).
Proof using All.
  split; [|apply change_buckets|apply change_disjoint| |].
  - pose proof (no_table _ _ Hn) as Ht. rewrite (ch_table _ _ _ _ _ Hch).
    rewrite fmap_app, fmap_cons in *. exact Ht.
  - intros l Hs. rewrite all_entries_mid, !elem_of_app. cbn.
    pose proof (no_entries _ _ Hn l) as Hent. rewrite all_entries_mid, !elem_of_app in Hent.
    destruct (decide (l ∈ es')); [tauto|]. destruct (decide (l ∈ cn_entries c)).
    + rewrite (ch_gone _ _ _ _ _ Hch l) in Hs by done. by destruct Hs.
    + rewrite (ch_other _ _ _ _ _ Hch l) in Hs by done. apply Hent in Hs. tauto.
  - intros l. pose proof (no_heap _ _ Hn l) as Hheap.
    destruct (ch_bucket _ _ _ _ _ Hch) as (b' & first & Hb' & -> & _).
    rewrite fmap_app, fmap_cons in Hheap |- *. cbn. rewrite <- Hheap.
    destruct (decide (cn_bucket c = l)) as [<-|Hne].
    + rewrite lookup_insert_eq, Hb'. split; intros _; by eexists.
    + by rewrite lookup_insert_ne.
Qed.
End Change.

(** ** Removing a bucket *)

Section Clean.
Context `{PolarSSL, Env}.
Implicit Types w : world.

Lemma next_in_mid xs x ys : x ∉ xs → next_in (xs ++ x :: ys) x = hd_error ys.
Proof.
  induction xs as [|y xs IH]; cbn; [by rewrite decide_True|].
  intros [Hne Hx]%not_elem_of_cons. rewrite decide_False by done. by apply IH.
Qed.

Lemma hh_next_mid n pre c post :
  nat_ok n (pre ++ c :: post) →
  hh_next (natTable n) (cn_bucket c) = hd_error (cn_bucket <$> post).
Proof.
  intros Hn. unfold hh_next. rewrite (nat_ok_order _ _ Hn), fmap_app, fmap_cons.
  apply next_in_mid. pose proof (nat_ok_nodup _ _ Hn) as Hnd. rewrite fmap_app, fmap_cons in Hnd.
  apply NoDup_app in Hnd as (_ & Hd & _). intros Hx. apply (Hd _ Hx). by left.
Qed.

(** Kept buckets and entries are the same up to links. *)
Record shrinks (n n' : nat_state) : Prop := {
  sh_lock : natTableLock n' = natTableLock n;
  sh_entries l : is_Some (n_entries n' !! l) →
    erase_links <$> n_entries n' !! l = erase_links <$> n_entries n !! l;
  sh_buckets l b' : n_buckets n' !! l = Some b' →
    ∃ b, n_buckets n !! l = Some b ∧ b_key b' = b_key b ∧ extIP b' = extIP b ∧ extPort b' = extPort b }.

#[global] Instance shrinks_preorder : PreOrder shrinks.
Proof.
  split; [intros n; split; eauto|]. intros n1 n2 n3 [Hl1 He1 Hb1] [Hl2 He2 Hb2]. split; [congruence| |].
  - intros l Hl. rewrite <- He1; [by apply He2|]. specialize (He2 l Hl).
    destruct (n_entries n2 !! l); [by eexists|]. destruct Hl as [x Hx]. by rewrite Hx in He2.
  - intros l b3 (b2 & Hl2' & ? & ? & ?)%Hb2. destruct (Hb1 l b2 Hl2') as (b1 & ? & ? & ? & ?).
    exists b1. split_and!; [done | congruence..].
Qed.

Lemma change_shrinks bl es es' n n' :
  (∀ l, l ∈ es' → l ∈ es) → change bl es es' n n' → shrinks n n'.
Proof.
  intros Hsub [_ Hl (b & first & Hb & Hbs & _) Hg Hk Ho]. split; [done| |].
  - intros l Hs. destruct (decide (l ∈ es)); [|rewrite Ho; auto].
    destruct (decide (l ∈ es')); [by apply Hk|]. rewrite Hg in Hs by done. by destruct Hs.
  - intros l b'. rewrite Hbs. intros [(<- & <-)|(Hne & Hb')]%lookup_insert_Some; eauto.
Qed.

(** The table without a bucket whose list is empty. *)
Lemma nat_ok_drop n pre c post :
  nat_ok n (pre ++ c :: post) → cn_entries c = [] →
  nat_ok (n <| natTable ::= (λ t, HASH_DEL t (cn_bucket c)) |> <| n_buckets ::= delete (cn_bucket c) |>)
    (pre ++ post).
Proof.
  intros Hn He. pose proof (nat_ok_nodup _ _ Hn) as Hbs. rewrite fmap_app, fmap_cons in Hbs.
  pose proof Hbs as (_ & Hbs1 & [Hbs2 _]%NoDup_cons)%NoDup_app.
  assert (∀ x, x ∈ pre ++ post → cn_bucket x ≠ cn_bucket c) as Hne.
  { intros x [Hx|Hx]%elem_of_app Heq.
    - apply (Hbs1 (cn_bucket x)); [by apply list_elem_of_fmap_2|]. rewrite Heq. by left.
    - apply Hbs2. rewrite <- Heq. by apply list_elem_of_fmap_2. }
  destruct Hn as [Ht Hb Hd Hent Hheap]. rewrite all_entries_mid, He in *. cbn in *.
  assert (all_entries (pre ++ post) = all_entries pre ++ all_entries post) as Hall
    by (unfold all_entries; by rewrite fmap_app, join_app).
  split; cbn; rewrite ?Hall; [| |done|done|].
  - eapply models_del in Ht.
    2: { rewrite cn_items_elts, fmap_app. apply elem_of_app. right. by left. }
    assert (cn_item <$> pre ++ post = without (cn_bucket c) (cn_item <$> pre ++ c :: post)) as ->; [|done].
    unfold without. rewrite !fmap_app, fmap_cons, filter_app, filter_cons_False by (cbn; tauto).
    rewrite !filter_all; [done|..]; apply Forall_fmap, Forall_forall; intros x Hx; apply Hne, elem_of_app; auto.
  - rewrite Forall_app, Forall_cons in Hb. destruct Hb as (Hpre & _ & Hpost).
    apply Forall_forall. intros x Hx. assert (bucket_ok n x) as (b & Hbx & Hk & Hl).
    { rewrite Forall_forall in Hpre, Hpost. apply elem_of_app in Hx as [?|?]; auto. }
    exists b. cbn. rewrite lookup_delete_ne by (apply not_eq_sym; by apply Hne). done.
  - intros l. rewrite lookup_delete_is_Some, Hheap. rewrite !fmap_app, fmap_cons, !elem_of_app, elem_of_cons.
    split; [naive_solver|]. intros Hl. split; [|tauto]. intros <-.
    apply elem_of_app in Hl. rewrite <- fmap_app in Hl.
    apply list_elem_of_fmap in Hl as (x & Heq & Hx). by apply (Hne x).
Qed.

Lemma nat_ok_hd n pre c post b :
  nat_ok n (pre ++ c :: post) → n_buckets n !! cn_bucket c = Some b →
  b_first b = hd_error (cn_entries c).
Proof.
  intros (b' & Hb' & _ & Hl)%nat_ok_bucket Hb. simplify_eq. by eapply hd_error_dseg.
Qed.

Lemma remove_bucket_run pre c post w :
  nat_ok (w_nat w) (pre ++ c :: post) →
  wp (remove_nat_bucket (cn_bucket c)) (λ r w', r = hd_error (cn_bucket <$> post) ∧
    ∃ n', w' = set_nat n' w ∧ nat_ok n' (pre ++ post) ∧ shrinks (w_nat w) n') w.
Proof.
  intros Hn. pose proof (nat_ok_bucket _ _ _ _ Hn) as (b & Hb & _ & Hl).
  unfold remove_nat_bucket. apply wp_bind_gets. eapply wp_bind_bucket_get; [exact Hb|].
  apply wp_bind. rewrite (nat_ok_hd _ _ _ _ _ Hn Hb).
  eapply wp_mono; [eapply (remove_entries_run (cn_bucket c)); [done|done|
    by eapply nat_ok_entries_nodup | by eapply nat_ok_fuel]|].
  intros _ w1 (n1 & -> & Hch). apply wp_bind. unfold nat_modify, modify, wp at 1.
  apply wp_ret. split; [by eapply hh_next_mid|]. eexists. split; [reflexivity|].
  pose proof (nat_ok_change _ _ _ _ _ [] Hn Hch (NoDup_nil_2) ltac:(set_solver)) as Hn1.
  split; [by apply (nat_ok_drop _ _ _ _ Hn1)|].
  etrans; [eapply change_shrinks; [|exact Hch]; set_solver|]. cbn. split; [done..|].
  cbn. intros l b' [_ Hb']%lookup_delete_Some. by exists b'.
Qed.

(** What is left of the table when expired entries and empty buckets go. *)
Definition keep_live (now : timespec) (n : nat_state) (c : conns) : conns :=
  c <| cn_entries ::= filter (λ l, live now n l = true) |>.
Definition cleaned (now : timespec) (n : nat_state) (abs : list conns) : list conns :=
  filter (λ c, cn_entries c ≠ []) (keep_live now n <$> abs).

Lemma shrinks_live now n n' l :
  shrinks n n' → is_Some (n_entries n' !! l) → live now n' l = live now n l.
Proof. intros Hsh Hl. unfold live. by rewrite (sh_entries _ _ Hsh). Qed.

Lemma cleaned_shrinks now n n' pre rest :
  shrinks n n' → nat_ok n' (pre ++ rest) → cleaned now n' rest = cleaned now n rest.
Proof.
  intros Hsh [_ Hb _ _ _]. unfold cleaned. f_equal. apply list_fmap_ext. intros i c Hc.
  unfold keep_live. cbn. f_equal. apply list_filter_iff', Forall_forall. intros l Hl.
  rewrite (shrinks_live now n n' l); [done..|].
  apply list_elem_of_lookup_2 in Hc. rewrite Forall_app, !Forall_forall in Hb.
  destruct Hb as [_ Hb]. destruct (Hb c Hc) as (b & _ & _ & Hs). by eapply dseg_lookup.
Qed.

Lemma clean_buckets_run now fuel pre rest w :
  nat_ok (w_nat w) (pre ++ rest) → (length rest ≤ fuel)%nat →
  wp (clean_buckets fuel now (hd_error (cn_bucket <$> rest))) (λ _ w', ∃ n', w' = set_nat n' w ∧
    nat_ok n' (pre ++ cleaned now (w_nat w) rest) ∧ shrinks (w_nat w) n') w.
Proof.
  revert pre rest w. induction fuel as [|fuel IH]; intros pre [|c rest] w Hn Hfu;
    try (cbn in Hfu; lia);
    try (exists (w_nat w); rewrite set_nat_same; by split_and!).
  pose proof (nat_ok_bucket _ _ _ _ Hn) as (b & Hb & _ & Hl). cbn [clean_buckets fmap list_fmap hd_error].
  eapply wp_bind_bucket_get; [exact Hb|]. apply wp_bind_gets, wp_bind.
  rewrite (nat_ok_hd _ _ _ _ _ Hn Hb).
  eapply wp_mono; [eapply (clean_entries_run now (cn_bucket c) _ _ []); [done|done|
    by eapply nat_ok_entries_nodup | by eapply nat_ok_fuel]|].
  intros _ w1 (n1 & -> & Hch). cbn [app] in Hch.
  set (es := filter (λ l, live now (w_nat w) l = true) (cn_entries c)) in *.
  assert (∀ l, l ∈ es → l ∈ cn_entries c) as Hsub by (intros l [_ ?]%list_elem_of_filter; done).
  pose proof (nat_ok_change _ _ _ _ _ es Hn Hch
    (NoDup_filter _ _ (nat_ok_entries_nodup _ _ _ _ Hn)) ltac:(auto)) as Hn1.
  pose proof (change_shrinks _ _ _ _ _ Hsub Hch) as Hsh1.
  pose proof (nat_ok_bucket _ _ _ _ Hn1) as (b1 & Hb1 & _ & _).
  eapply wp_bind_bucket_get; [exact Hb1|]. rewrite (nat_ok_hd _ _ _ _ _ Hn1 Hb1). cbn [cn_entries upd].
  assert (cleaned now (w_nat w) (c :: rest)
    = (if decide (es = []) then [] else [c <| cn_entries := es |>]) ++ cleaned now (w_nat w) rest) as ->.
  { unfold cleaned at 1. rewrite fmap_cons. case_decide as He.
    - rewrite filter_cons_False; [done|]. cbn. fold es. naive_solver.
    - by rewrite filter_cons_True. }
  clearbody es. destruct es as [|l es]; cbn [hd_error].
  - pose proof (remove_bucket_run pre (c <| cn_entries := [] |>) rest (set_nat n1 w) Hn1) as Hrm.
    cbn [cn_bucket upd] in Hrm. apply wp_bind. eapply wp_mono; [exact Hrm|].
    intros r w2 (-> & n2 & -> & Hn2 & Hsh2).
    eapply wp_mono; [apply (IH pre rest (set_nat n2 (set_nat n1 w))); [exact Hn2 | cbn in Hfu; lia]|].
    intros _ w3 (n3 & -> & Hn3 & Hsh3). exists n3. split; [done|]. rewrite decide_True by done.
    cbn [set_nat w_nat upd] in *.
    rewrite (cleaned_shrinks now (w_nat w) n2 pre rest) in Hn3; [|by etrans | done].
    split; [done|]. etrans; [exact Hsh1|]. by etrans.
  - apply wp_assoc, wp_bind_gets. rewrite ret_bind.
    pose proof (hh_next_mid _ _ _ _ Hn1) as Hnx. cbn [cn_bucket upd] in Hnx.
    cbn [set_nat w_nat upd]. rewrite Hnx. rewrite cons_middle, app_assoc in Hn1.
    eapply wp_mono; [apply (IH (pre ++ [c <| cn_entries := l :: es |>]) rest (set_nat n1 w));
      [exact Hn1 | cbn in Hfu; lia]|].
    intros _ w3 (n3 & -> & Hn3 & Hsh3). exists n3. split; [done|].
    cbn [set_nat w_nat upd] in *. rewrite decide_False by done.
    rewrite (cleaned_shrinks now (w_nat w) n1 _ rest) in Hn3 by done.
    rewrite <- app_assoc in Hn3. split; [done|]. by etrans.
Qed.

Lemma empty_loop_run fuel abs w :
  nat_ok (w_nat w) abs → (length abs ≤ fuel)%nat →
  wp (empty_loop fuel (hd_error (cn_bucket <$> abs))) (λ _ w', ∃ n', w' = set_nat n' w ∧ nat_ok n' []) w.
Proof.
  revert abs w. induction fuel as [|fuel IH]; intros [|c abs] w Hn Hfu;
    try (cbn in Hfu; lia); try (exists (w_nat w); by rewrite set_nat_same).
  cbn [empty_loop fmap list_fmap hd_error]. apply wp_bind.
  eapply wp_mono; [exact (remove_bucket_run [] c abs w Hn)|].
  intros r w1 (-> & n1 & -> & Hn1 & _).
  eapply wp_mono; [apply (IH abs (set_nat n1 w)); [exact Hn1 | cbn in Hfu; lia]|].
  intros _ w2 (n2 & -> & Hn2). by exists n2.
Qed.

Lemma locked_ok n abs b : nat_ok n abs → nat_ok (n <| natTableLock := b |>) abs.
Proof. by intros [? ? ? ? ?]. Qed.

Lemma nat_ok_hash_head n abs : nat_ok n abs → hash_head (natTable n) = hd_error (cn_bucket <$> abs).
Proof. intros Hn. unfold hash_head. by rewrite (nat_ok_order _ _ Hn). Qed.

Lemma clean_table_run abs w :
  nat_ok (w_nat w) abs → natTableLock (w_nat w) = false →
  wp clean_nat_table (λ _ w', ∃ n', w' = set_nat n' (w <| w_clock ::= S |>) ∧
    nat_ok n' (cleaned (env_clock (w_clock w)) (w_nat w) abs) ∧ natTableLock n' = false ∧
    ∀ l, is_Some (n_entries n' !! l) →
      erase_links <$> n_entries n' !! l = erase_links <$> n_entries (w_nat w) !! l) w.
Proof.
  intros Hn Hl. unfold clean_nat_table. apply wp_bind_gets, wp_bind_time.
  apply wp_bind_nat_lock; [done|]. rewrite (nat_ok_order _ _ Hn), (nat_ok_hash_head _ _ Hn), length_fmap.
  apply wp_bind. eapply wp_mono.
  { apply (clean_buckets_run _ _ [] abs); [by apply locked_ok | done]. }
  intros _ w1 (n1 & -> & Hn1 & [_ Hsh _]). unfold nat_unlock, nat_modify, modify, wp.
  eexists. split; [reflexivity|]. split; [by apply locked_ok|]. by split.
Qed.

Lemma live_True now n l e :
  n_entries n !! l = Some e → live now n l = negb (nat_expired now e).
Proof. intros He. unfold live. by rewrite He. Qed.

Lemma elem_of_cleaned now n abs l :
  l ∈ all_entries (cleaned now n abs) ↔ l ∈ all_entries abs ∧ live now n l = true.
Proof.
  unfold all_entries, cleaned. rewrite !list_elem_of_join. split.
  - intros (es & Hl & (c & -> & [_ (c' & -> & Hc')%list_elem_of_fmap]%list_elem_of_filter)%list_elem_of_fmap).
    cbn in Hl. apply list_elem_of_filter in Hl as [Hlive Hl]. split; [|done].
    exists (cn_entries c'). split; [done|]. by apply list_elem_of_fmap_2.
  - intros ((es & Hl & (c & -> & Hc)%list_elem_of_fmap) & Hlive).
    exists (cn_entries (keep_live now n c)).
    assert (l ∈ cn_entries (keep_live now n c)) as Hk by (cbn; by apply list_elem_of_filter).
    split; [done|]. apply list_elem_of_fmap_2, list_elem_of_filter. split.
    + intros Hnil. rewrite Hnil in Hk. by apply elem_of_nil in Hk.
    + by apply list_elem_of_fmap_2.
Qed.

Lemma nat_ok_entry n abs l : nat_ok n abs → l ∈ all_entries abs → is_Some (n_entries n !! l).
Proof.
  intros [_ Hb _ _ _] (es & Hl & (c & -> & Hc)%list_elem_of_fmap)%list_elem_of_join.
  rewrite Forall_forall in Hb. destruct (Hb c Hc) as (b & _ & _ & Hs). by eapply dseg_lookup.
Qed.

(** C15. Cleaning the NAT table always ends, with the lock free and a well-formed
    table: it keeps every entry whose last use is at most [NAT_CLEAN_TIME]
    (20) seconds ago, in the order of its bucket and still standing for the same
    connection; it frees every other entry, and every bucket that is left
    without entries.  That is what the code does, and not what src/settings.h
    promises: there an inactive connection is removed after [NAT_OLD_CONN_TIME]
    (120) seconds, a constant that no code uses. *)
Theorem clean_keeps_live abs w :
  nat_ok (w_nat w) abs → natTableLock (w_nat w) = false →
  let now := env_clock (w_clock w) in
  ∃ n', clean_nat_table w = Done tt (set_nat n' (w <| w_clock ::= S |>))
    ∧ natTableLock n' = false
    ∧ nat_ok n' (cleaned now (w_nat w) abs)
    ∧ ∀ l e, n_entries (w_nat w) !! l = Some e →
        (time_offset (lastUsed e) now > NAT_CLEAN_TIME * 1000 → n_entries n' !! l = None)
        ∧ (time_offset (lastUsed e) now ≤ NAT_CLEAN_TIME * 1000 →
             erase_links <$> n_entries n' !! l = Some (erase_links e)).
Proof.
  intros Hn Hl now. destruct (wp_elim _ _ _ (clean_table_run abs w Hn Hl))
    as ([] & w' & Hrun & n' & -> & Hn' & Hlock & Hsh).
  exists n'. split_and!; [done..|]. intros l e He.
  assert (l ∈ all_entries abs) as Hin by (apply (no_entries _ _ Hn); by eexists).
  pose proof (elem_of_cleaned now (w_nat w) abs l) as Hc. rewrite (live_True _ _ _ _ He) in Hc.
  unfold nat_expired in Hc. case_bool_decide; split; intros ?; try lia.
  - destruct (n_entries n' !! l) eqn:Hl'; [|done]. cbn in Hc.
    assert (l ∈ all_entries (cleaned now (w_nat w) abs)) as [_ ?]%Hc; [|done].
    apply (no_entries _ _ Hn'). by eexists.
  - rewrite Hsh, He; [done|]. apply (nat_ok_entry _ _ _ Hn'). by apply Hc.
Qed.

(** Emptying the NAT table always ends and frees every bucket and every
    entry: the table is NULL again and nothing is left in the heaps. *)
Theorem empty_frees_all abs w :
  nat_ok (w_nat w) abs → natTableLock (w_nat w) = false →
  empty_nat_table w = Done tt (set_nat nat_init w).
Proof.
  intros Hn Hl. enough (wp empty_nat_table (λ _ w', w' = set_nat nat_init w) w) as He.
  { by destruct (wp_elim _ _ _ He) as ([] & w' & -> & ->). }
  unfold empty_nat_table. apply wp_bind_gets, wp_bind_nat_lock; [done|].
  rewrite (nat_ok_order _ _ Hn), (nat_ok_hash_head _ _ Hn), length_fmap. apply wp_bind.
  eapply wp_mono; [apply (empty_loop_run _ abs); [by apply locked_ok | done]|].
  intros _ w1 (n1 & -> & [Ht _ _ Hent Hheap]). unfold nat_unlock, nat_modify, modify, wp. cbn.
  assert (n_entries n1 = ∅) as He.
  { apply map_empty. intros l. apply eq_None_not_Some. intros Hs%Hent. by apply elem_of_nil in Hs. }
  assert (n_buckets n1 = ∅) as Hb.
  { apply map_empty. intros l. apply eq_None_not_Some. intros Hs%Hheap. by apply elem_of_nil in Hs. }
  assert (natTable n1 = None) as Htbl.
  { destruct Ht as [Ht _ _]. destruct (natTable n1); [by destruct Ht as (_ & _ & []) | done]. }
  unfold set_nat, nat_init. cbn. by rewrite He, Hb, Htbl.
Qed.
End Clean.

(** ** A table with an old and a recent connection to one host and an old one
    to another *)

Definition sample_entry (host port last : Z) (bucket nxt prv : option loc) : nat_entry :=
  NatEntry [192; 168; 0; host] port [10; 1; 1; 5] port 17 (Timespec last 0) bucket nxt prv.
Definition sample_history : list hash_op := [OpAdd 77 1; OpAdd 88 2]%positive.
Definition sample_table : option ut_table :=
  match run_ops small_machine None sample_history 0%nat with Done t _ => t | _ => None end.
Definition sample_nat : nat_state :=
  NatState sample_table
    {[1%positive := NatBucket 77 [8; 8; 8; 8] 53 (Some 1%positive);
      2%positive := NatBucket 88 [9; 9; 9; 9] 80 (Some 3%positive)]}
    {[1%positive := sample_entry 7 1000 70 (Some 1%positive) (Some 2%positive) None;
      2%positive := sample_entry 8 2000 95 (Some 1%positive) None (Some 1%positive);
      3%positive := sample_entry 7 3000 60 (Some 2%positive) None None]}
    false.
Definition sample_abs : list conns :=
  [Conns 77 1 [1%positive; 2%positive]; Conns 88 2 [3%positive]].

Lemma elem_of_two {A B} `{EqDecision A, Countable A} (m : gmap A B) k : is_Some (m !! k) → k ∈ (map_to_list m).*1.
Proof.
  intros [x Hx]. apply list_elem_of_fmap. exists (k, x). split; [done|]. by apply elem_of_map_to_list.
Qed.

Lemma sample_ok : nat_ok sample_nat sample_abs.
Proof.
  split.
  - assert (match run_ops small_machine None sample_history 0%nat with Done _ _ => true | _ => false end = true) as Hr
      by by vm_compute.
    change (models sample_table (foldl spec_op [] sample_history)). unfold sample_table.
    destruct (run_ops _ _ _ _) eqn:E; [|done..]. by eapply (run_ops_done small_machine), E; [apply models_nil|].
  - repeat constructor; eexists; (split; [reflexivity|]; split; [reflexivity|]);
      repeat (split; [reflexivity|]; eexists; split; [reflexivity|]; split_and!; [reflexivity..|]); reflexivity.
  - by_decide.
  - intros l Hl%elem_of_two. vm_compute in Hl. vm_compute. set_solver.
  - intros l. split.
    + intros Hl%elem_of_two. vm_compute in Hl. vm_compute. set_solver.
    + intros [->|[->|[]%elem_of_nil]%elem_of_cons]%elem_of_cons; by eexists.
Qed.

(** The recent connection stays, alone in its bucket; the rest is freed. *)
Lemma clean_keeps_live_witness :
  ∃ n', @clean_nat_table toy toy_env (set_nat sample_nat worldA)
      = Done tt (set_nat n' (set_nat sample_nat worldA <| w_clock ::= S |>))
    ∧ n_entries n' !! 1%positive = None
    ∧ is_Some (n_entries n' !! 2%positive)
    ∧ hash_order (natTable n') = [1%positive].
Proof.
  destruct (clean_keeps_live sample_abs (set_nat sample_nat worldA) sample_ok eq_refl)
    as (n' & Hrun & _ & Hok & He).
  exists n'. split; [exact Hrun|]. split; [by apply (proj1 (He 1%positive _ eq_refl))|]. split.
  - assert (H2 := proj2 (He 2%positive _ eq_refl) ltac:(by vm_compute)).
    destruct (n_entries n' !! 2%positive); [by eexists|]. by vm_compute in H2.
  - rewrite (nat_ok_order _ _ Hok). by vm_compute.
Defined.

Lemma empty_frees_all_witness :
  @empty_nat_table toy (set_nat sample_nat worldA) = Done tt (set_nat nat_init (set_nat sample_nat worldA)).
Proof. apply (empty_frees_all sample_abs); [apply sample_ok | reflexivity]. Defined.
