(* ===== verification/NatTable.v ===== *)
(** * Searching the NAT table and adding to it (src/nat.c)

    Finding a bucket by its key, finding an entry in a bucket, creating either,
    and noting that an entry was used: each in terms of [nat_ok]. *)

From S2P Require Import Prelude Linked Words Settings ArgError Utility Crypto Packet Gate Uthash UthashFacts NatData World Net Layout HopperFacts Hopper Nat NatFacts NatClean.

(** ** Finding a bucket *)

Lemma find_bucket n pre c post :
  nat_ok n (pre ++ c :: post) → HASH_FIND_INT (natTable n) (cn_key c) = Some (cn_bucket c).
Proof.
  intros [Ht _ _ _ _]. rewrite (models_find _ _ _ Ht). apply elem_of_list_to_map; [apply Ht|].
  apply (list_elem_of_fmap_2 cn_item), elem_of_app. right. by left.
Qed.

Lemma find_no_bucket n abs key :
  nat_ok n abs → key ∉ cn_key <$> abs → HASH_FIND_INT (natTable n) key = None.
Proof.
  intros [Ht _ _ _ _] Hkey. rewrite (models_find _ _ _ Ht). apply not_elem_of_list_to_map_1.
  by rewrite cn_items_keys.
Qed.

(** A key's bucket splits the table, or there is none. *)
Lemma bucket_cases (abs : list conns) key :
  (∃ pre c post, abs = pre ++ c :: post ∧ cn_key c = key) ∨ key ∉ cn_key <$> abs.
Proof.
  destruct (decide (key ∈ cn_key <$> abs)) as [Hin|]; [left|by right].
  apply list_elem_of_fmap in Hin as (c & -> & Hc).
  apply list_elem_of_split in Hc as (pre & post & ->). by exists pre, c, post.
Qed.

(** ** Creating a bucket *)

Definition new_bucket (extip : list Z) (extport key : Z) (t : option ut_table) (n : nat_state) : nat_state :=
  let l := fresh_loc (n_buckets n) in
  n <| n_buckets ::= (λ h, <[l := NatBucket key extip extport None]> h) |> <| natTable := t |>.

Lemma new_bucket_elt n abs : nat_ok n abs → fresh_loc (n_buckets n) ∉ cn_bucket <$> abs.
Proof. intros [_ _ _ _ Hheap]. rewrite <- Hheap, fresh_loc_None. by intros [x Hx]. Qed.

Lemma nat_ok_new_bucket n abs extip extport key t :
  nat_ok n abs → key ∉ cn_key <$> abs →
  models t ((cn_item <$> abs) ++ [(key, fresh_loc (n_buckets n))]) →
  nat_ok (new_bucket extip extport key t n) (abs ++ [Conns key (fresh_loc (n_buckets n)) []]).
Proof.
  intros Hok Hkey Ht'. pose proof (new_bucket_elt n abs Hok) as Hl. destruct Hok as [Ht Hb Hd Hent Hheap].
  set (l := fresh_loc (n_buckets n)) in *.
  assert (all_entries (abs ++ [Conns key l []]) = all_entries abs) as Hall
    by (unfold all_entries; rewrite fmap_app, join_app; cbn; by rewrite app_nil_r).
  unfold new_bucket. fold l. split; cbn; rewrite ?Hall; [| |done|done|].
  - by rewrite fmap_app.
  - apply Forall_app. split.
    + rewrite Forall_forall in Hb |- *. intros c Hc. destruct (Hb c Hc) as (b & Hbl & Hk & Hs).
      exists b. cbn. rewrite lookup_insert_ne; [done|]. intros ->. by apply Hl, list_elem_of_fmap_2.
    + constructor; [|constructor]. eexists. cbn. rewrite lookup_insert_eq. by split_and!.
  - intros l'. rewrite lookup_insert_is_Some, Hheap, fmap_app, elem_of_app. cbn.
    rewrite list_elem_of_singleton. destruct (decide (l = l')); naive_solver.
Qed.

(** Adding the bucket to the table: it is added, or the process ends for want
    of memory; undefined with an array of 2^31 buckets, or 2^32 - 1 buckets in
    use. *)
Definition nat_room (n : nat_state) (abs : list conns) : Prop :=
  table_log2 (natTable n) ≤ 30 ∧ Z.of_nat (length abs) + 1 < 2 ^ 32.

Lemma add_bucket malloc n abs key i :
  nat_ok n abs → key ∉ cn_key <$> abs →
  match HASH_ADD_INT malloc (natTable n) key (fresh_loc (n_buckets n)) i with
  | Done t _ => models t ((cn_item <$> abs) ++ [(key, fresh_loc (n_buckets n))])
  | Fault => ¬ nat_room n abs
  | Stuck => False
  | Exited => ∃ i size, malloc i size = false
  end.
Proof.
  intros Hok Hkey. pose proof (new_bucket_elt n abs Hok) as Hl.
  pose proof (models_add malloc _ _ key (fresh_loc (n_buckets n)) i (no_table _ _ Hok)) as Hadd.
  rewrite cn_items_keys, cn_items_elts in Hadd. specialize (Hadd Hkey Hl).
  destruct (HASH_ADD_INT _ _ _ _ _) as [t j| | |]; [by destruct Hadd| |done..].
  intros [H1 H2]. rewrite length_fmap in Hadd. destruct Hadd as [|Hz]; [lia|]. rewrite u32_small in Hz by lia. lia.
Qed.

(** ** Finding an entry *)

Definition matching (n : nat_state) (test : nat_entry → bool) (l : loc) : bool :=
  from_option test false (n_entries n !! l).
Definition first_entry (n : nat_state) (test : nat_entry → bool) (es : list loc) : option loc :=
  hd_error (filter (λ l, matching n test l = true) es).

Lemma first_entry_Some n test es e :
  first_entry n test es = Some e →
  e ∈ es ∧ ∃ x, n_entries n !! e = Some x ∧ test x = true.
Proof.
  intros He%hd_elem. apply list_elem_of_filter in He as [Hm He]. split; [done|].
  unfold matching in Hm. destruct (n_entries n !! e) as [x|]; [by exists x|done].
Qed.

Lemma first_entry_None n test es x e :
  first_entry n test es = None → e ∈ es → n_entries n !! e = Some x → test x = false.
Proof.
  unfold first_entry. intros Hf He Hx. destruct (test x) eqn:Ht; [|done].
  assert (e ∈ filter (λ l, matching n test l = true) es) as Hin
    by (apply list_elem_of_filter; split; [unfold matching; by rewrite Hx | done]).
  destruct (filter _ es); [by apply elem_of_nil in Hin | done].
Qed.

Lemma find_entry_run `{PolarSSL} fuel test bl prv p es (w : world) :
  eseg (n_entries (w_nat w)) bl prv p es None → (length es ≤ fuel)%nat →
  find_entry fuel test p w = Done (first_entry (w_nat w) test es) w.
Proof.
  revert prv p es. induction fuel as [|fuel IH]; intros prv p [|l es] Hs Hfu;
    try (cbn in Hfu; lia); try (cbn in Hs; by subst).
  destruct Hs as (-> & e & He & _ & _ & Hs). cbn [find_entry].
  unfold entry_get, gets, lift_opt, mbind, proc_bind. rewrite He. cbn.
  unfold first_entry. destruct (test e) eqn:Ht.
  - rewrite filter_cons_True; [done|]. unfold matching. by rewrite He.
  - rewrite filter_cons_False by (unfold matching; by rewrite He; cbn; rewrite Ht).
    apply (IH _ _ _ Hs). cbn in Hfu. lia.
Qed.

Section Steps.
Context `{PolarSSL, Env}.
Implicit Types w : world.

Lemma wp_bind_search {B} test pre c post (k : option loc → proc world B) Q w :
  nat_ok (w_nat w) (pre ++ c :: post) →
  wp (k (first_entry (w_nat w) test (cn_entries c))) Q w →
  wp (search test (cn_bucket c) ≫= k) Q w.
Proof.
  intros Hn Hk. destruct (nat_ok_bucket _ _ _ _ Hn) as (b & Hb & _ & Hs).
  unfold search. apply wp_assoc. eapply wp_bind_bucket_get; [exact Hb|]. apply wp_assoc, wp_bind_gets.
  apply wp_bind. unfold wp at 1.
  by rewrite (find_entry_run _ _ _ _ _ _ _ Hs (nat_ok_fuel _ _ _ _ Hn)).
Qed.

(** ** Using an entry *)

Definition touch (now : timespec) (e : loc) (n : nat_state) : nat_state :=
  alter_entries (alter (λ x, x <| lastUsed := now |>) e) n.

Lemma eseg_touch now e h bl prv p es nxt :
  eseg h bl prv p es nxt → eseg (alter (λ x, x <| lastUsed := now |>) e h) bl prv p es nxt.
Proof.
  revert prv p. induction es as [|l es IH]; intros prv p; [done|].
  intros (-> & x & Hx & Hp & Hb & Hs). split; [done|]. destruct (decide (e = l)) as [->|Hne].
  - exists (x <| lastUsed := now |>). rewrite lookup_alter_eq, Hx. split_and!; [done..|]. by apply IH.
  - exists x. rewrite lookup_alter_ne by done. split_and!; [done..|]. by apply IH.
Qed.

Lemma nat_ok_touch now e n abs : nat_ok n abs → nat_ok (touch now e n) abs.
Proof.
  intros [Ht Hb Hd Hent Hheap]. split; cbn; [done| |done| |done].
  - rewrite Forall_forall in Hb |- *. intros c Hc. destruct (Hb c Hc) as (b & Hbl & Hk & Hs).
    exists b. split_and!; [done..|]. by apply eseg_touch.
  - intros l. rewrite lookup_alter_is_Some. apply Hent.
Qed.

Lemma wp_bind_touch {B} e x (k : unit → prog B) Q w :
  n_entries (w_nat w) !! e = Some x →
  wp (k tt) Q (set_nat (touch (env_clock (w_clock w)) e (w_nat w)) (w <| w_clock ::= S |>)) →
  wp (update_nat_entry_time e ≫= k) Q w.
Proof.
  intros He Hk. unfold update_nat_entry_time. apply wp_assoc, wp_bind_time. by eapply wp_bind_entry_upd.
Qed.

(** ** Creating an entry *)

(** The heap after the fresh entry [e0] at [l] became the head of [bl]'s list. *)
Definition headed_by (l bl : loc) (e0 : nat_entry) (old : option loc) (h : gmap loc nat_entry)
    : gmap loc nat_entry :=
  alter (λ x, x <| e_bucket := Some bl |> <| e_prev := None |>) l
    (opt_alter (λ x, x <| e_prev := Some l |>) old
      (alter (λ x, x <| e_next := old |>) l (<[l := e0]> h))).

Lemma headed_by_head l bl e0 old h :
  old ≠ Some l →
  headed_by l bl e0 old h !! l
  = Some (e0 <| e_next := old |> <| e_bucket := Some bl |> <| e_prev := None |>).
Proof.
  intros Hne. unfold headed_by.
  rewrite lookup_alter_eq, opt_alter_ne, lookup_alter_eq, lookup_insert_eq by done. done.
Qed.

Lemma headed_by_other l bl e0 old h x :
  x ≠ l → headed_by l bl e0 old h !! x = opt_alter (λ y, y <| e_prev := Some l |>) old h !! x.
Proof.
  intros Hne. unfold headed_by. rewrite lookup_alter_ne by done.
  destruct (decide (old = Some x)) as [->|Ho]; cbn.
  - by rewrite !lookup_alter_eq, lookup_alter_ne, lookup_insert_ne by done.
  - by rewrite !opt_alter_ne, lookup_alter_ne, lookup_insert_ne by done.
Qed.

Lemma headed_by_list l bl e0 old h es :
  NoDup es → l ∉ es → elist h bl old es → elist (headed_by l bl e0 old h) bl (Some l) (l :: es).
Proof.
  intros Hnd Hl Hs. pose proof (hd_error_dseg Hs) as Hold.
  assert (old ≠ Some l) as Hne by (rewrite Hold; by intros ?%hd_elem).
  split; [done|]. eexists. split; [by apply headed_by_head|]. split_and!; [done..|]. cbn [e_next upd].
  eapply dseg_agree.
  { intros x Hx. apply headed_by_other. by intros ->. }
  destruct (decide (es = [])) as [->|Hes]; [done|]. by eapply dseg_relink_start.
Qed.

Lemma headed_by_change l bl b e0 n es :
  n_buckets n !! bl = Some b → elist (n_entries n) bl (b_first b) es → NoDup es →
  n_entries n !! l = None →
  change bl es (l :: es) n
    (set_bucket bl (b <| b_first := Some l |>) n
       <| n_entries := headed_by l bl e0 (b_first b) (n_entries n) |>).
Proof.
  intros Hb Hs Hnd Hl.
  assert (l ∉ es) as Hnin by (intros Hin; destruct (dseg_lookup Hs Hin); congruence).
  split; cbn; try done.
  - exists b, (Some l). split_and!; [done..|]. by apply headed_by_list.
  - set_solver.
  - intros x Hx _. rewrite headed_by_other by (by intros ->). by apply opt_alter_fmap.
  - intros x Hx [Hne Hnx]%not_elem_of_cons. rewrite headed_by_other by done.
    apply opt_alter_ne. rewrite (hd_error_dseg Hs). by intros ?%hd_elem.
Qed.

Lemma wp_bind_link_head {B} l bl b e0 n es (k : unit → proc world B) Q w :
  n_buckets n !! bl = Some b → elist (n_entries n) bl (b_first b) es → NoDup es →
  n_entries n !! l = None → w_nat w = n <| n_entries ::= (λ h, <[l := e0]> h) |> →
  wp (k tt) Q (set_nat (set_bucket bl (b <| b_first := Some l |>) n
       <| n_entries := headed_by l bl e0 (b_first b) (n_entries n) |>) w) →
  wp (link_head l bl ≫= k) Q w.
Proof.
  intros Hb Hs Hnd Hl Hw Hk.
  assert (b_first b ≠ Some l) as Hne.
  { rewrite (hd_error_dseg Hs). intros Hin%hd_elem.
    destruct (dseg_lookup Hs Hin). congruence. }
  unfold link_head. apply wp_assoc. eapply wp_bind_bucket_get; [by rewrite Hw|].
  apply wp_assoc. eapply wp_bind_bucket_upd; [by rewrite Hw|].
  apply wp_assoc. eapply wp_bind_entry_upd; [cbn; rewrite Hw; cbn; apply lookup_insert_eq|].
  assert ((match b_first b with
           | None => mret tt
           | Some o => entry_upd o (λ x, x <| e_prev := Some l |>)
           end : proc world unit) = entry_upd_opt (b_first b) (λ x, x <| e_prev := Some l |>)) as ->
    by (by destruct (b_first b)).
  apply wp_assoc, wp_bind_entry_upd_opt.
  { intros x Hx. cbn. rewrite Hw. cbn. rewrite lookup_alter_ne, lookup_insert_ne by congruence.
    eapply dseg_lookup; [exact Hs|]. apply hd_elem. by rewrite <- (hd_error_dseg Hs). }
  eapply wp_bind_entry_upd.
  { cbn. rewrite Hw. cbn. rewrite opt_alter_ne, lookup_alter_eq, lookup_insert_eq by done. done. }
  cbn in Hk |- *. rewrite Hw. exact Hk.
Qed.

(** ** The gateway's current address *)

Lemma wp_bind_current_ip `{!PolarSSL_ok _} {B} gl g (k : list Z → prog B) Q w :
  w_gateInfo w = Some gl → w_gates w !! gl = Some g → w_ipLock w = false →
  (∀ ip, ip_at g (env_clock (w_clock w)) 0 = Some ip → wp (k ip) Q (w <| w_clock ::= S |>)) →
  wp (current_ip ≫= k) Q w.
Proof.
  intros Hgi Hg Hl Hk. unfold current_ip, ipLock_lock. apply wp_assoc, wp_assoc, wp_bind_gets.
  rewrite Hl. apply wp_bind. unfold modify, wp at 1.
  apply wp_assoc. unfold gateInfo. apply wp_bind_gets. cbn [w_gateInfo upd].
  unfold deref. apply wp_assoc. eapply wp_bind_lift; [exact Hgi|].
  apply wp_assoc. eapply wp_bind_generate; [exact Hg|]. intros ip Hip.
  apply wp_assoc, wp_bind. unfold ipLock_unlock, modify, wp at 1. rewrite ret_bind.
  specialize (Hk ip Hip). destruct w; cbn in *. by subst.
Qed.
End Steps.
