(* ===== verification/TablesFacts.v ===== *)
(** * The printed tables: facts

    Printing comes to an end, changes nothing and shows exactly the gateways of
    the list, and exactly the buckets and entries of the NAT table. *)

From stdpp Require Import strings.
From S2P Require Import Prelude Linked Words Settings ArgError CString Text Utility Crypto Packet Gate Uthash UthashFacts NatData World Net Layout Hopper Nat Tables NatFacts NatClean NatTable ToyCrypto ToyWorld.

Section TablesFacts.
Context `{PolarSSL, Env}.
Implicit Types w : world.

(** ** The NAT table *)

(** [k] readings of the clock later. *)
Definition later (k : nat) (w : world) : world := w <| w_clock ::= (λ c, c + k)%nat |>.

Lemma later_0 w : later 0 w = w.
Proof. destruct w. unfold later. cbn. by rewrite Nat.add_0_r. Qed.
Lemma later_later j k w : later k (later j w) = later (j + k) w.
Proof. destruct w. unfold later. cbn. by rewrite Nat.add_assoc. Qed.

(** The lines of the entries [es] when the clock is at its [k]th reading. *)
Fixpoint entry_lines (n : nat_state) (k : nat) (es : list loc) : list (list Z) :=
  match es with
  | [] => []
  | l :: es =>
      from_option (λ x, [entry_line x (time_offset (lastUsed x) (env_clock k))]) [] (n_entries n !! l)
      ++ entry_lines n (S k) es
  end.
Fixpoint bucket_lines (n : nat_state) (k : nat) (abs : list conns) : list (list Z) :=
  match abs with
  | [] => []
  | c :: abs =>
      from_option (λ b, [print_nat_bucket b]) [] (n_buckets n !! cn_bucket c)
      ++ entry_lines n k (cn_entries c) ++ bucket_lines n (k + length (cn_entries c)) abs
  end.

Lemma print_entries_run fuel bl prv p es w :
  eseg (n_entries (w_nat w)) bl prv p es None → (length es ≤ fuel)%nat →
  print_entries fuel p w = Done (entry_lines (w_nat w) (w_clock w) es) (later (length es) w).
Proof.
  revert prv p es w. induction fuel as [|fuel IH]; intros prv p [|l es] w Hs Hfu;
    try (cbn in Hfu; lia); try (cbn in Hs; subst; cbn [print_entries entry_lines length]; by rewrite later_0).
  destruct Hs as (-> & x & Hx & _ & _ & Hs). cbn [print_entries entry_lines].
  unfold entry_get, gets, lift_opt, mbind, proc_bind. rewrite Hx.
  cbn [mret proc_ret from_option]. unfold print_nat_entry, current_time_offset, current_time, mbind, proc_bind.
  cbn [mret proc_ret].
  assert (w <| w_clock ::= S |> = later 1 w) as -> by (destruct w; unfold later; cbn; by rewrite Nat.add_1_r).
  rewrite (IH _ _ _ (later 1 w) Hs) by (cbn in Hfu; lia). rewrite later_later.
  unfold later at 1 2. cbn [w_nat w_clock upd]. by rewrite Nat.add_1_r.
Qed.

Lemma print_buckets_run fuel pre rest w :
  nat_ok (w_nat w) (pre ++ rest) → (length rest ≤ fuel)%nat →
  print_buckets fuel (hd_error (cn_bucket <$> rest)) w
  = Done (bucket_lines (w_nat w) (w_clock w) rest) (later (length (all_entries rest)) w).
Proof.
  revert pre rest w. induction fuel as [|fuel IH]; intros pre [|c rest] w Hn Hfu;
    try (cbn in Hfu; lia);
    try (cbn [fmap list_fmap hd_error print_buckets bucket_lines]; by rewrite later_0).
  destruct (nat_ok_bucket _ _ _ _ Hn) as (b & Hb & _ & Hs).
  cbn [fmap list_fmap hd_error print_buckets bucket_lines].
  unfold bucket_get, gets, lift_opt, mbind, proc_bind. rewrite Hb. cbn [mret proc_ret from_option].
  rewrite (print_entries_run _ _ _ _ _ _ Hs (nat_ok_fuel _ _ _ _ Hn)).
  rewrite (hh_next_mid _ _ _ _ Hn). rewrite cons_middle, app_assoc in Hn.
  rewrite (IH (pre ++ [c]) rest (later (length (cn_entries c)) w) Hn) by (cbn in Hfu; lia).
  rewrite later_later. unfold all_entries. rewrite fmap_cons. cbn [mjoin list_join]. by rewrite length_app.
Qed.

(** The NAT table is printed as it is: a title, and for each bucket, oldest
    first, its line and those of its entries, newest first; nothing but the
    clock is touched. *)
Lemma nat_table_printed abs w :
  nat_ok (w_nat w) abs →
  print_nat_table w = Done
    ((match abs with [] => str "NAT Table empty" | _ => str "NAT Table:" end ++ [NL])
       :: bucket_lines (w_nat w) (w_clock w) abs) (later (length (all_entries abs)) w).
Proof.
  intros Hn. unfold print_nat_table, gets, mbind at 1, proc_bind at 1.
  rewrite (nat_ok_order _ _ Hn), (nat_ok_hash_head _ _ Hn), length_fmap.
  unfold mbind, proc_bind. rewrite (print_buckets_run _ [] abs w Hn (le_n _)). by destruct abs.
Qed.
End TablesFacts.
