(* ===== verification/Rewrite.v ===== *)
(** * Rewriting a packet (src/nat.c, src/packet.c)

    Copying a packet, replacing an address and a port, recomputing the checksum
    and sending it: what both NAT directions do once they know the entry. *)

From S2P Require Import Prelude Words Settings ArgError Utility Crypto Packet PacketFacts Checksum Gate Uthash NatData World Net Layout HopperFacts Tunnel Hopper Nat NatFacts.

(** The packet without trailing bytes, as [copy_packet] copies it. *)
Definition trim (p : packet_data) : packet_data :=
  with_data p (take (Z.to_nat (p_len p)) (p_data p)).

(** A parsed TCP or UDP packet: [ip] and [start] are the offsets of its IP and
    transport headers, [off] that of its checksum, [len] its segment's length. *)
Record nat_packet (p : packet_data) (ip start off len : Z) : Prop := {
  np_fits : csum_fits (trim p) ip start off len;
  np_parse : parse_packet (trim p) = Some (0, trim p);
  np_len : 0 ≤ p_len p ≤ Z.of_nat (length (p_data p));
  np_link : p_linkLayerLen p = ip;
  np_tot : ∃ tl, ip_tot_len ip (p_data (trim p)) = Some tl ∧ ip + ntohs tl = p_len p }.

Lemma np_ipv4 p ip start off len : nat_packet p ip start off len → p_ipv4 p = Some ip.
Proof. intros [Hf _ _ _ _]. by destruct (csum_layout_parts _ _ _ _ _ (fits_layout _ _ _ _ _ Hf)). Qed.

Lemma np_trim_len p ip start off len :
  nat_packet p ip start off len → Z.of_nat (length (p_data (trim p))) = p_len p.
Proof. intros [_ _ Hl _ _]. cbn. rewrite length_take. lia. Qed.

(** The transport header, and where the ports are. *)
Lemma np_trans p ip start off len :
  nat_packet p ip start off len →
  (p_tcp p = Some start ∨ (p_tcp p = None ∧ p_udp p = Some start))
  ∧ start + 6 ≤ off ∧ off + 2 ≤ start + len ∧ start + len ≤ p_len p ∧ 0 ≤ ip ∧ ip + 20 ≤ start.
Proof.
  intros Hn. pose proof (np_trim_len _ _ _ _ _ Hn) as Htl. destruct Hn as [[Hb Hlay Hip Hf Hl Hbuf] _ Hlen _ _].
  destruct (csum_layout_parts _ _ _ _ _ Hlay) as (_ & _ & Hc). rewrite Htl in Hbuf.
  split; [destruct Hc as [(? & _)|(? & ? & _)]; tauto|].
  destruct Hc as [(_ & -> & _)|(_ & _ & -> & _)]; lia.
Qed.

(** A read in the trimmed packet is a read in the packet. *)
Lemma rd_trim p off n bs :
  rd off n (p_data (trim p)) = Some bs → rd off n (p_data p) = Some bs.
Proof.
  intros Hr. cbn in Hr. rewrite <- (take_drop (Z.to_nat (p_len p)) (p_data p)). by apply rd_app.
Qed.

Lemma rd_trim_eq p off n :
  0 ≤ off → off + Z.of_nat n ≤ p_len p → p_len p ≤ Z.of_nat (length (p_data p)) →
  rd off n (p_data p) = rd off n (p_data (trim p)).
Proof.
  intros. rewrite (rd_defined _ _ (p_data (trim p))) by (cbn; rewrite ?length_take; lia).
  apply rd_trim. apply rd_defined; cbn; rewrite ?length_take; lia.
Qed.

(** ** Stores that keep the layout *)

(** A store that leaves the first twelve bytes of the IP header and the length
    field of a UDP header alone keeps the packet's layout. *)
Lemma csum_fits_store p ip start off len o bs d :
  csum_fits p ip start off len → bytes_ok bs → wr o bs (p_data p) = Some d →
  ip + 12 ≤ o → (o + Z.of_nat (length bs) ≤ start + 4 ∨ start + 6 ≤ o) →
  csum_fits (with_data p d) ip start off len.
Proof.
  intros Hfits Hbs Hw Ho Hdis. pose proof (wr_length _ _ _ _ Hw) as Hl.
  destruct Hfits as [Hb Hlay [Hip Hst] Hf Hlen Hbuf].
  assert (∀ x n, x + Z.of_nat n ≤ ip + 12 → rd x n d = rd x n (p_data p)) as H1
    by (intros; apply (rd_wr_ne _ _ _ _ _ _ Hw); lia).
  assert (rd (start + 4) 2 d = rd (start + 4) 2 (p_data p)) as H2
    by (apply (rd_wr_ne _ _ _ _ _ _ Hw); lia).
  split; cbn -[csum_layout]; [exact (wr_bytes_ok _ _ _ _ Hb Hbs Hw)| |lia..].
  destruct (csum_layout_parts _ _ _ _ _ Hlay) as (Hip4 & _ & Hc).
  unfold csum_layout in *. cbn. rewrite Hip4 in *.
  destruct Hc as [(Ht & -> & _)|(Ht & Hu & -> & _)]; [|rewrite Hu in *]; rewrite Ht in *;
    unfold ip_tot_len, ip_ihl, rd16, rd8 in *; by rewrite ?H1, ?H2 by lia.
Qed.

(** Both checksum calls together, whichever of them does the work. *)
Lemma csum_calls slack p ip start off len :
  is_byte slack → csum_fits p ip start off len →
  ∃ d, (udp_csum slack p ≫= tcp_csum slack) = Some (with_data p d)
    ∧ checksum_valid ip start len d ∧ length d = length (p_data p)
    ∧ (∀ i : nat, ¬ (off ≤ Z.of_nat i < off + 2) → d !! i = p_data p !! i).
Proof.
  intros Hs Hfits. destruct (csum_run _ _ _ _ _ _ Hs Hfits) as (z & d & Hz & Hd & Hrun).
  destruct (csum_fits_ranges _ _ _ _ _ Hfits) as (? & ? & k & Hk).
  pose proof (csum_fits_stored _ _ _ _ _ _ _ _ Hfits Hz Hd) as Hfits2.
  destruct (csum_run _ _ _ _ _ _ Hs Hfits2) as (z2 & d2 & Hz2 & Hd2 & Hrun2). cbn in Hz2.
  assert (z2 = z) as ->.
  { assert (wr16 off 0 d = Some z) as E; [|congruence].
    apply (wr_restore _ _ _ _ _ Hd). apply (rd_wr_same _ (le_bytes 2 0) _ _ Hz). }
  assert (d2 = d) as -> by congruence.
  exists d. destruct Hfits as [Hb _ [Hip Hst] Hf Hlen Hbuf].
  pose proof (wr_length _ _ _ _ Hz). pose proof (wr_length _ _ _ _ Hd). split_and!.
  - unfold udp_csum, tcp_csum. destruct (p_udp p); [|by rewrite some_bind].
    rewrite Hrun, some_bind. exact Hrun2.
  - subst off. apply (checksum_store_valid ip start k len z d); [|done|done|split; [lia|done]|lia|by eapply rd16_zeroed|done].
    eapply wr_bytes_ok; [done|apply le_bytes_ok|done].
  - congruence.
  - intros i Hi. rewrite (wr_lookup _ _ _ _ _ Hd), (wr_lookup _ _ _ _ _ Hz).
    by rewrite !bool_decide_false.
Qed.

(** ** The rewritten datagram *)

(** [d] is the trimmed packet [p] with the address [addr] at [ao], the port
    [port] at [po], a checksum that verifies, and every other byte unchanged. *)
Record rewritten (p : packet_data) (ip start off len ao : Z) (addr : list Z) (po port : Z)
    (d : list Z) : Prop := {
  rw_length : Z.of_nat (length d) = p_len p;
  rw_addr : rd ao ADDR_SIZE d = Some addr;
  rw_port : ntohs <$> rd16 po d = Some (u16 port);
  rw_sum : checksum_valid ip start len d;
  rw_rest (i : nat) : Z.of_nat i < p_len p →
    ¬ (ao ≤ Z.of_nat i < ao + 4) → ¬ (po ≤ Z.of_nat i < po + 2) → ¬ (off ≤ Z.of_nat i < off + 2) →
    d !! i = p_data p !! i }.

(** One store of an address, one of a port, and the checksum. *)
Lemma rewrite_bytes slack p ip start off len ao addr po port :
  is_byte slack → nat_packet p ip start off len → length addr = ADDR_SIZE → bytes_ok addr →
  ip + 12 ≤ ao → ao + 4 ≤ ip + 20 → start ≤ po → po + 2 ≤ start + 4 →
  ∃ d1 d2 d, wr ao addr (p_data (trim p)) = Some d1
    ∧ wr16 po (htons port) d1 = Some d2
    ∧ (udp_csum slack (with_data p d2) ≫= tcp_csum slack) = Some (with_data p d)
    ∧ rewritten p ip start off len ao addr po port d.
Proof.
  intros Hs Hn Hal Hab Hao Hao' Hpo Hpo'. destruct (np_trans _ _ _ _ _ Hn) as (_ & Hoff & Hoff' & Hbuf & Hip & Hst).
  pose proof (np_trim_len _ _ _ _ _ Hn) as Hlen. pose proof (np_fits _ _ _ _ _ Hn) as Hf.
  change ADDR_SIZE with 4%nat in *.
  destruct (wr_defined ao addr (p_data (trim p))) as [d1 H1]; [lia|rewrite Hal; lia|].
  pose proof (wr_length _ _ _ _ H1) as Hl1.
  destruct (wr16_defined po (htons port) d1) as [d2 H2]; [lia..|].
  pose proof (wr16_length _ _ _ _ H2) as Hl2.
  pose proof (csum_fits_store _ _ _ _ _ _ _ _ Hf Hab H1 ltac:(lia) ltac:(left; rewrite Hal; lia)) as Hf1.
  pose proof (csum_fits_store _ _ _ _ _ _ _ _ Hf1 (le_bytes_ok 2 _) H2 ltac:(lia)
    ltac:(left; rewrite length_le_bytes; lia)) as Hf2. cbn [with_data upd p_data] in Hf2.
  destruct (csum_calls slack _ _ _ _ _ Hs Hf2) as (d & Hrun & Hv & Hl & Ho). cbn in Hl, Ho.
  exists d1, d2, d. split_and!; [done|done|exact Hrun|]. split.
  - lia.
  - change ADDR_SIZE with 4%nat. rewrite (rd_agree _ _ d d2) by (lia || (intros; apply Ho; lia)).
    rewrite (rd_wr16_ne _ _ _ _ _ _ H2) by lia. rewrite <- Hal. by apply (rd_wr_same _ _ _ _ H1).
  - unfold rd16. rewrite (rd_agree _ _ d d2) by (lia || (intros; apply Ho; lia)).
    fold (rd16 po d2). rewrite (rd16_wr16_same _ _ _ _ H2), some_fmap. by rewrite ntohs_u16_htons.
  - exact Hv.
  - intros i Hi Ha Hp Hc. rewrite Ho by done.
    rewrite (wr_lookup _ _ _ _ _ H2), (wr_lookup _ _ _ _ _ H1), length_le_bytes, Hal.
    rewrite !bool_decide_false by lia. cbn. apply lookup_take_lt. lia.
Qed.

(** ** Sending it *)

(** The state after one packet more was sent, with nothing else changed but the
    input consumed. *)
Record sent_one `{PolarSSL} (o : output) (w w' : world) : Prop := {
  so_nat : w_nat w' = w_nat w;
  so_gates : w_gates w' = w_gates w;
  so_info : w_gateInfo w' = w_gateInfo w;
  so_ipLock : w_ipLock w' = w_ipLock w;
  so_sent : w_sent w' = w_sent w ++ [o] }.

Section Sending.
Context `{PolarSSL, Env}.
Hypothesis mallocs_ok : ∀ i, env_malloc i = true.
Hypothesis sends_ok : ∀ i, 0 ≤ env_sendto i.
Hypothesis slack_ok : is_byte env_slack.

Lemma wp_bind_copied {B} p ip start off len (k : option packet_data → prog B) Q w :
  nat_packet p ip start off len →
  wp (k (Some (trim p))) Q (w <| w_malloc ::= S |> <| w_malloc ::= S |>) →
  wp (copy_packet p ≫= k) Q w.
Proof.
  intros Hn Hk. unfold copy_packet. apply wp_assoc, wp_bind_malloc. rewrite mallocs_ok. cbn [negb].
  apply wp_assoc, wp_bind_malloc. rewrite mallocs_ok. cbn [negb].
  apply wp_assoc. eapply wp_bind_load.
  { apply rd_defined; [done|]. pose proof (np_len _ _ _ _ _ Hn). lia. }
  apply wp_assoc. unfold reparse.
  pose proof (np_parse _ _ _ _ _ Hn) as Hp.
  eapply wp_bind_lift; [exact Hp|]. exact Hk.
Qed.

(** [d] is sent as the datagram it holds. *)
Lemma wp_bind_send_data {B} p ip start off len d dest (k : Z → prog B) Q w :
  nat_packet p ip start off len → Z.of_nat (length d) = p_len p →
  rd (ip + 16) ADDR_SIZE d = Some dest →
  rd (ip + 2) 2 d = rd (ip + 2) 2 (p_data (trim p)) →
  wp (k 0) Q (w <| w_sendto ::= S |>
    <| w_sent ::= (λ l, l ++ [OutIP (le_val dest) (drop (Z.to_nat ip) d)]) |>) →
  wp (send_packet (with_data (trim p) d) ≫= k) Q w.
Proof.
  intros Hn Hl Hdest Htot Hk. destruct (np_trans _ _ _ _ _ Hn) as (Htr & Hoff & Hoff' & Hbuf & Hip & Hst).
  destruct (np_tot _ _ _ _ _ Hn) as (tl & Htl & Hsum).
  assert (Z.of_nat (length (drop (Z.to_nat ip) d)) = ntohs tl) as Hlen by (rewrite length_drop; lia).
  assert (0 ≤ tl < 2 ^ 16) as Htlr.
  { pose proof Htl as (bs & Hr & ->)%fmap_Some. pose proof (rd_length _ _ _ _ Hr) as Hbl.
    apply (rd_bytes_ok _ _ _ _ (fits_bytes _ _ _ _ _ (np_fits _ _ _ _ _ Hn))) in Hr.
    pose proof (le_val_range bs Hr) as Hv. by rewrite Hbl in Hv. }
  eapply (wp_bind_send sends_ok _ ip (drop (Z.to_nat ip) d)).
  - unfold get_dest_port. cbn [with_data upd p_tcp p_udp p_data trim].
    destruct (rd16_defined (start + 2) d) as [v Hv]; [lia..|].
    destruct Htr as [->|[-> ->]]; rewrite Hv; by eexists.
  - exact (np_ipv4 _ _ _ _ _ Hn).
  - unfold ip_daddr, rd32. cbn [with_data upd p_data]. change ADDR_SIZE with 4%nat in Hdest. by rewrite Hdest.
  - unfold ip_tot_len, rd16 in *. cbn [with_data upd p_data]. rewrite Htot, Htl, Hlen, htons_ntohs.
    by rewrite u16_small.
  - rewrite Hlen. apply htons_range.
  - cbn [with_data upd p_linkLayerLen p_data trim]. rewrite (np_link _ _ _ _ _ Hn).
    rewrite rd_defined by (rewrite ?length_drop; lia). by rewrite take_ge by lia.
  - exact Hk.
Qed.

Lemma sent_one_intro o w n m :
  sent_one o w (w <| w_malloc := m |> <| w_sendto := n |> <| w_sent ::= (λ l, l ++ [o]) |>).
Proof. by split. Qed.

(** What the two calls of the checksum and the setters do, in order. *)
Lemma wp_bind_csums {B} p d d' (k : packet_data → prog B) Q w :
  (udp_csum env_slack (with_data p d) ≫= tcp_csum env_slack) = Some (with_data p d') →
  wp (k (with_data p d')) Q w →
  wp ((q ← lift_opt (udp_csum env_slack (with_data p d)); lift_opt (tcp_csum env_slack q)) ≫= k) Q w.
Proof.
  intros (q & Hu & Ht)%bind_Some Hk. apply wp_assoc. eapply wp_bind_lift; [exact Hu|].
  by eapply wp_bind_lift.
Qed.

Lemma rewrite_source_run p ip start off len x :
  nat_packet p ip start off len → length (gateIP x) = ADDR_SIZE → bytes_ok (gateIP x) →
  ∃ d, (∀ w, rewrite_source x (trim p) w = Done (with_data (trim p) d) w)
    ∧ rewritten p ip start off len (ip + 12) (gateIP x) start (gatePort x) d.
Proof.
  intros Hn Hl Hb. destruct (np_trans _ _ _ _ _ Hn) as (Htr & _ & _ & _ & Hip & Hst).
  destruct (rewrite_bytes env_slack p ip start off len (ip + 12) (gateIP x) start (gatePort x))
    as (d1 & d2 & d & H1 & H2 & H3 & Hr); [done..|lia|lia|lia|lia|].
  exists d. split; [|done]. intros w. apply bind_Some in H3 as (q & Hu & Ht).
  enough (wp (rewrite_source x (trim p)) (λ q w', q = with_data (trim p) d ∧ w' = w) w) as Hw
    by (by destruct (wp_elim _ _ _ Hw) as (? & ? & -> & -> & ->)).
  unfold rewrite_source. eapply wp_bind_lift; [exact (np_ipv4 _ _ _ _ _ Hn)|].
  eapply wp_bind_store; [exact H1|]. eapply wp_bind_lift.
  { unfold set_source_port. cbn [with_data upd p_tcp p_udp p_data trim].
    destruct Htr as [->|[-> ->]]; by rewrite H2. }
  eapply wp_bind_lift; [exact Hu|]. cbn beta. unfold lift_opt. by rewrite Ht.
Qed.

Lemma rewrite_dest_run p ip start off len x :
  nat_packet p ip start off len → length (intIP x) = ADDR_SIZE → bytes_ok (intIP x) →
  ∃ d, (∀ w, rewrite_dest x (trim p) w = Done (with_data (trim p) d) w)
    ∧ rewritten p ip start off len (ip + 16) (intIP x) (start + 2) (intPort x) d.
Proof.
  intros Hn Hl Hb. destruct (np_trans _ _ _ _ _ Hn) as (Htr & _ & _ & _ & Hip & Hst).
  destruct (rewrite_bytes env_slack p ip start off len (ip + 16) (intIP x) (start + 2) (intPort x))
    as (d1 & d2 & d & H1 & H2 & H3 & Hr); [done..|lia|lia|lia|lia|].
  exists d. split; [|done]. intros w. apply bind_Some in H3 as (q & Hu & Ht).
  enough (wp (rewrite_dest x (trim p)) (λ q w', q = with_data (trim p) d ∧ w' = w) w) as Hw
    by (by destruct (wp_elim _ _ _ Hw) as (? & ? & -> & -> & ->)).
  unfold rewrite_dest. eapply wp_bind_lift; [exact (np_ipv4 _ _ _ _ _ Hn)|].
  eapply wp_bind_store; [exact H1|]. eapply wp_bind_lift.
  { unfold set_dest_port. cbn [with_data upd p_tcp p_udp p_data trim].
    destruct Htr as [->|[-> ->]]; by rewrite H2. }
  eapply wp_bind_lift; [exact Hu|]. cbn beta. unfold lift_opt. by rewrite Ht.
Qed.

Lemma rewritten_tot p ip start off len ao addr po port d :
  nat_packet p ip start off len → rewritten p ip start off len ao addr po port d →
  ip + 12 ≤ ao → start ≤ po → rd (ip + 2) 2 d = rd (ip + 2) 2 (p_data (trim p)).
Proof.
  intros Hn [Hl _ _ _ Hr] Hao Hpo. destruct (np_trans _ _ _ _ _ Hn) as (_ & Hoff & Hoff' & Hbuf & Hip & Hst).
  pose proof (np_trim_len _ _ _ _ _ Hn) as Htl.
  apply rd_agree; [lia|]. intros i Hi. rewrite Hr by lia. symmetry. apply lookup_take_lt. lia.
Qed.

(** The outcome of a whole rewriting, given what the rewriting function does. *)
Lemma send_rewritten_run rewrite e x p ip start off len d dest w :
  nat_packet p ip start off len → n_entries (w_nat w) !! e = Some x →
  (∀ w, rewrite x (trim p) w = Done (with_data (trim p) d) w) →
  Z.of_nat (length d) = p_len p → rd (ip + 16) ADDR_SIZE d = Some dest →
  rd (ip + 2) 2 d = rd (ip + 2) 2 (p_data (trim p)) →
  wp (send_rewritten rewrite e p) (λ r w',
    r = 0 ∧ sent_one (OutIP (le_val dest) (drop (Z.to_nat ip) d)) w w') w.
Proof.
  intros Hn He Hrw Hl Hdest Htot. unfold send_rewritten. eapply wp_bind_copied; [done|].
  eapply wp_bind_entry_get; [exact He|]. apply wp_bind. unfold wp at 1. rewrite Hrw.
  eapply wp_bind_send_data; [done..|]. apply wp_ret. rewrite decide_False by lia.
  split; [done|]. by split.
Qed.
End Sending.
