(* ===== verification/NatRoundTrip.v ===== *)
(** * A connection through the NAT (src/nat.c)

    What [do_nat_outbound_rewrite] and [do_nat_inbound_rewrite] do with a parsed
    packet, on every branch, and that the reply to a rewritten packet reaches
    the inside host. *)

From S2P Require Import Prelude Linked Words Settings ArgError Utility Crypto Packet PacketFacts Checksum Gate Uthash UthashFacts NatData World ToyCrypto Net Layout HopperFacts Tunnel Hopper Nat ToyWorld NatFacts NatClean NatTable Rewrite.

(** The addresses, ports and protocol of a packet, as both directions read them. *)
Record addressed (p : packet_data) (ip : Z) (saddr daddr : list Z) (sport dport protocol : Z)
    : Prop := {
  ad_saddr : rd (ip + 12) ADDR_SIZE (p_data p) = Some saddr;
  ad_daddr : rd (ip + 16) ADDR_SIZE (p_data p) = Some daddr;
  ad_sport : get_source_port p = Some sport;
  ad_dport : get_dest_port p = Some dport;
  ad_proto : ip_protocol ip (p_data p) = Some protocol }.

(** An entry as [create_nat_entry] fills it in. *)
Record entry_wf (x : nat_entry) : Prop := {
  ew_int : length (intIP x) = ADDR_SIZE ∧ bytes_ok (intIP x);
  ew_gate : length (gateIP x) = ADDR_SIZE ∧ bytes_ok (gateIP x);
  ew_port : gatePort x = intPort x }.

(** Its connection: what [erase_links] and [lastUsed] leave. *)
Definition same_conn (x y : nat_entry) : Prop :=
  intIP x = intIP y ∧ intPort x = intPort y ∧ gateIP x = gateIP y ∧ gatePort x = gatePort y
  ∧ e_proto x = e_proto y.

Lemma erase_same_conn x y : erase_links x = erase_links y → same_conn x y.
Proof. destruct x, y. cbn. intros [=]. by subst. Qed.

Lemma same_conn_wf x y : same_conn x y → entry_wf y → entry_wf x.
Proof. intros (E1 & E2 & E3 & E4 & _) [? ? ?]. split; by rewrite ?E1, ?E2, ?E3, ?E4. Qed.

Definition entries_wf (n : nat_state) : Prop := ∀ l x, n_entries n !! l = Some x → entry_wf x.

(** The rest of the state is as before. *)
Record aside `{PolarSSL} (w w' : world) : Prop := {
  as_gates : w_gates w' = w_gates w;
  as_info : w_gateInfo w' = w_gateInfo w;
  as_ipLock : w_ipLock w' = w_ipLock w;
  as_sent : w_sent w' = w_sent w;
  as_lock : natTableLock (w_nat w') = natTableLock (w_nat w) }.

(** ** Reading a packet *)

Section Reading.
Context (p : packet_data) (ip start off len : Z) (Hn : nat_packet p ip start off len).

Lemma np_bytes : bytes_ok (p_data (trim p)).
Proof using Hn. exact (fits_bytes _ _ _ _ _ (np_fits _ _ _ _ _ Hn)). Qed.

Lemma np_rd_bytes o n bs :
  0 ≤ o → o + Z.of_nat n ≤ p_len p → rd o n (p_data p) = Some bs → bytes_ok bs ∧ length bs = n.
Proof using Hn.
  intros Ho Hl Hr. pose proof (np_len _ _ _ _ _ Hn) as Hlen. rewrite rd_trim_eq in Hr by lia. split.
  - by apply (rd_bytes_ok _ _ _ _ np_bytes Hr).
  - by apply (rd_length _ _ _ _ Hr).
Qed.

Lemma np_port o v :
  0 ≤ o → o + 2 ≤ p_len p → ntohs <$> rd16 o (p_data p) = Some v → u16 v = v.
Proof using Hn.
  intros Ho Hl (z & (bs & Hr & ->)%fmap_Some & ->)%fmap_Some.
  apply np_rd_bytes in Hr as [Hb Hbl]; [|lia..]. apply u16_small.
  destruct bs as [|a [|b [|]]]; try done. inversion Hb as [|? ? Ha Hb']. inversion Hb'; subst.
  rewrite ntohs_pair by done. lia.
Qed.

Context (saddr daddr : list Z) (sport dport protocol : Z).
Context (Ha : addressed p ip saddr daddr sport dport protocol).

Lemma ad_saddr_ok : length saddr = ADDR_SIZE ∧ bytes_ok saddr.
Proof using Hn Ha.
  destruct (np_trans _ _ _ _ _ Hn) as (_ & ? & ? & ? & ? & ?).
  edestruct (np_rd_bytes (ip + 12) ADDR_SIZE saddr) as [? ?]; [| |exact (ad_saddr _ _ _ _ _ _ _ Ha)|done];
    change ADDR_SIZE with 4%nat; lia.
Qed.

Lemma ad_daddr_ok : length daddr = ADDR_SIZE ∧ bytes_ok daddr.
Proof using Hn Ha.
  destruct (np_trans _ _ _ _ _ Hn) as (_ & ? & ? & ? & ? & ?).
  edestruct (np_rd_bytes (ip + 16) ADDR_SIZE daddr) as [? ?]; [| |exact (ad_daddr _ _ _ _ _ _ _ Ha)|done];
    change ADDR_SIZE with 4%nat; lia.
Qed.

Lemma ad_sport_ok : u16 sport = sport.
Proof using Hn Ha.
  destruct (np_trans _ _ _ _ _ Hn) as (Htr & ? & ? & ? & ? & ?).
  apply (np_port start); [lia..|]. pose proof (ad_sport _ _ _ _ _ _ _ Ha) as Hs.
  unfold get_source_port in Hs. destruct Htr as [E|[E E']]; rewrite E in Hs; [done|]. by rewrite E' in Hs.
Qed.
End Reading.

(** What a rewriting left alone reads as before. *)
Lemma rewritten_rd p ip start off len ao addr po port d o n :
  nat_packet p ip start off len → rewritten p ip start off len ao addr po port d →
  0 ≤ o → o + Z.of_nat n ≤ start → start ≤ po → (o + Z.of_nat n ≤ ao ∨ ao + 4 ≤ o) →
  rd o n d = rd o n (p_data p).
Proof.
  intros Hn Hrw Ho Hs Hpo Hdis. destruct (np_trans _ _ _ _ _ Hn) as (_ & Hoff & Hoff' & Hbuf & Hip & Hst).
  pose proof (np_trim_len _ _ _ _ _ Hn) as Htl. pose proof (np_len _ _ _ _ _ Hn) as Hlen.
  rewrite (rd_trim_eq p) by lia. destruct Hrw as [Hl _ _ _ Hr]. apply rd_agree; [lia|].
  intros i Hi. rewrite Hr by lia. symmetry. apply lookup_take_lt. lia.
Qed.

(** ** Inbound *)

Section Directions.
Context `{PolarSSL, Env}.
Implicit Types w : world.

Lemma wp_bind_nat_unlock {B} (k : unit → prog B) Q w :
  wp (k tt) Q (set_nat (w_nat w <| natTableLock := false |>) w) → wp (nat_unlock ≫= k) Q w.
Proof. intros Hk. by apply wp_bind. Qed.

(** Taking the lock and giving it back. *)
Definition locked (w : world) : world := set_nat (w_nat w <| natTableLock := true |>) w.

Lemma unlock_locked w :
  natTableLock (w_nat w) = false →
  set_nat (w_nat (locked w) <| natTableLock := false |>) (locked w) = w.
Proof. destruct w as [? ? [] ? ? ? ? ?]. cbn. by intros ->. Qed.

Section Inbound.
Context (p : packet_data) (ip : Z) (saddr daddr : list Z) (sport dport protocol : Z).
Context (Hip : p_ipv4 p = Some ip) (Ha : addressed p ip saddr daddr sport dport protocol).

(** Where the packet's bucket or entry is missing, it is refused. *)
Lemma inbound_no_bucket abs w :
  nat_ok (w_nat w) abs → natTableLock (w_nat w) = false →
  create_nat_bucket_key saddr sport ∉ cn_key <$> abs →
  do_nat_inbound_rewrite p w = Done (- ARG_BUCKET_NOT_FOUND) w.
Proof using Hip Ha.
  intros Hn Hl Hk. enough (wp (do_nat_inbound_rewrite p) (λ r w', r = - ARG_BUCKET_NOT_FOUND ∧ w' = w) w)
    as Hw by (by destruct (wp_elim _ _ _ Hw) as (? & ? & -> & -> & ->)).
  unfold do_nat_inbound_rewrite. eapply wp_bind_lift; [exact Hip|]. apply wp_bind_nat_lock; [done|].
  eapply wp_bind_load; [exact (ad_saddr _ _ _ _ _ _ _ Ha)|].
  eapply wp_bind_lift; [exact (ad_sport _ _ _ _ _ _ _ Ha)|]. apply wp_bind_gets.
  cbn [set_nat w_nat upd natTable]. rewrite (find_no_bucket _ _ _ Hn Hk).
  apply wp_bind_nat_unlock, wp_ret. split; [done|]. by apply unlock_locked.
Qed.

(** Up to the entry's search, when there is a bucket. *)
Lemma wp_inbound pre c post Q w :
  nat_ok (w_nat w) (pre ++ c :: post) → natTableLock (w_nat w) = false →
  cn_key c = create_nat_bucket_key saddr sport →
  (∀ w', w' = locked w →
    wp (match first_entry (w_nat w) (inbound_test protocol dport daddr) (cn_entries c) with
        | None => nat_unlock;; mret (- ARG_ENTRY_NOT_FOUND)
        | Some e => update_nat_entry_time e;; nat_unlock;; send_rewritten rewrite_dest e p
        end) Q w') →
  wp (do_nat_inbound_rewrite p) Q w.
Proof using Hip Ha.
  intros Hn Hl Hk Hc. unfold do_nat_inbound_rewrite. eapply wp_bind_lift; [exact Hip|].
  apply wp_bind_nat_lock; [done|].
  eapply wp_bind_load; [exact (ad_saddr _ _ _ _ _ _ _ Ha)|].
  eapply wp_bind_lift; [exact (ad_sport _ _ _ _ _ _ _ Ha)|]. apply wp_bind_gets.
  cbn [set_nat w_nat upd natTable]. rewrite <- Hk, (find_bucket _ _ _ _ Hn).
  eapply wp_bind_lift; [exact (ad_dport _ _ _ _ _ _ _ Ha)|].
  eapply wp_bind_lift; [exact (ad_proto _ _ _ _ _ _ _ Ha)|].
  eapply wp_bind_load; [exact (ad_daddr _ _ _ _ _ _ _ Ha)|].
  eapply (wp_bind_search _ pre c post); [by apply locked_ok|]. by apply Hc.
Qed.

Lemma inbound_no_entry pre c post w :
  nat_ok (w_nat w) (pre ++ c :: post) → natTableLock (w_nat w) = false →
  cn_key c = create_nat_bucket_key saddr sport →
  first_entry (w_nat w) (inbound_test protocol dport daddr) (cn_entries c) = None →
  do_nat_inbound_rewrite p w = Done (- ARG_ENTRY_NOT_FOUND) w.
Proof using Hip Ha.
  intros Hn Hl Hk Hf. enough (wp (do_nat_inbound_rewrite p) (λ r w', r = - ARG_ENTRY_NOT_FOUND ∧ w' = w) w)
    as Hw by (by destruct (wp_elim _ _ _ Hw) as (? & ? & -> & -> & ->)).
  apply (wp_inbound pre c post); [done..|]. intros w' ->. rewrite Hf.
  apply wp_bind_nat_unlock, wp_ret. split; [done|]. by apply unlock_locked.
Qed.
End Inbound.

Hypothesis mallocs_ok : ∀ i, env_malloc i = true.
Hypothesis sends_ok : ∀ i, 0 ≤ env_sendto i.
Hypothesis slack_ok : is_byte env_slack.

(** The state after the entry [e] was used and one datagram sent. *)
Definition used_and_sent (e : loc) (o : output) (w w' : world) : Prop :=
  sent_one o (set_nat (touch (env_clock (w_clock w)) e (w_nat w)) w) w'.

Lemma wp_use rewrite e x p ip start off len d dest w0 w :
  nat_packet p ip start off len → natTableLock (w_nat w0) = false →
  n_entries (w_nat w0) !! e = Some x →
  (∀ w t, rewrite (x <| lastUsed := t |>) (trim p) w = Done (with_data (trim p) d) w) →
  Z.of_nat (length d) = p_len p → rd (ip + 16) ADDR_SIZE d = Some dest →
  rd (ip + 2) 2 d = rd (ip + 2) 2 (p_data (trim p)) →
  w = locked w0 →
  wp (update_nat_entry_time e;; nat_unlock;; send_rewritten rewrite e p) (λ r w',
    r = 0 ∧ used_and_sent e (OutIP (le_val dest) (drop (Z.to_nat ip) d)) w0 w') w.
Proof using All.
  intros Hn Hl He Hrw Hlen Hdest Htot ->. eapply wp_bind_touch; [exact He|].
  apply wp_bind_nat_unlock. set (now := env_clock _).
  eapply wp_mono.
  - eapply (send_rewritten_run mallocs_ok sends_ok rewrite e); [exact Hn| |intros; by apply (Hrw _ now)|done..].
    cbn. by rewrite lookup_alter_eq, He.
  - intros r w' [-> [H1 H2 H3 H4 H5]]. split; [done|]. cbn in *. split; cbn; try done.
    rewrite H1. destruct (w_nat w0); cbn in *. by subst.
Qed.

Lemma nat_inbound_run p ip start off len saddr daddr sport dport protocol pre c post e x w :
  nat_packet p ip start off len → addressed p ip saddr daddr sport dport protocol →
  nat_ok (w_nat w) (pre ++ c :: post) → natTableLock (w_nat w) = false →
  cn_key c = create_nat_bucket_key saddr sport →
  first_entry (w_nat w) (inbound_test protocol dport daddr) (cn_entries c) = Some e →
  n_entries (w_nat w) !! e = Some x → entry_wf x →
  wp (do_nat_inbound_rewrite p) (λ r w', r = 0 ∧ ∃ d,
    used_and_sent e (OutIP (le_val (intIP x)) (drop (Z.to_nat ip) d)) w w'
    ∧ rewritten p ip start off len (ip + 16) (intIP x) (start + 2) (intPort x) d) w.
Proof using All.
  intros Hn Ha Hok Hl Hk Hf He Hx. destruct Hx as [[Hil Hib] _ _].
  destruct (rewrite_dest_run slack_ok p ip start off len x Hn Hil Hib) as (d & Hrw & Hd).
  eapply (wp_inbound p ip); [exact (np_ipv4 _ _ _ _ _ Hn)|exact Ha|exact Hok|done|done|].
  intros w' ->. rewrite Hf. eapply wp_mono.
  - eapply (wp_use rewrite_dest e x p ip start off len d (intIP x) w); [done..| | | | |done].
    + intros w1 t. apply Hrw.
    + apply Hd.
    + apply Hd.
    + eapply rewritten_tot; [done|exact Hd|lia|lia].
  - intros r w' [-> Hs]. split; [done|]. by exists d.
Qed.

(** ** Outbound: the bucket *)

Lemma wp_bind_bucket {B} abs extip extport key (k : option loc → prog B) Q w :
  nat_ok (w_nat w) abs → nat_room (w_nat w) abs →
  (∀ pre c post w', nat_ok (w_nat w') (pre ++ c :: post) → cn_key c = key →
     (c ∈ abs ∨ cn_entries c = [] ∧ key ∉ cn_key <$> abs) → n_entries (w_nat w') = n_entries (w_nat w) → aside w w' →
     w_clock w' = w_clock w → wp (k (Some (cn_bucket c))) Q w') →
  wp ((match HASH_FIND_INT (natTable (w_nat w)) key with
       | Some b => mret (Some b)
       | None => create_nat_bucket extip extport key
       end) ≫= k) Q w.
Proof using mallocs_ok.
  intros Hok Hroom Hk. destruct (bucket_cases abs key) as [(pre & c & post & -> & <-)|Hnin].
  - rewrite (find_bucket _ _ _ _ Hok). rewrite ret_bind. eapply Hk; [done|done| |done..].
    left. apply elem_of_app. right. by left.
  - rewrite (find_no_bucket _ _ _ Hok Hnin). unfold create_nat_bucket. apply wp_assoc, wp_bind_malloc.
    rewrite mallocs_ok. cbn [negb]. apply wp_assoc, wp_bind_gets, wp_assoc, wp_bind.
    unfold nat_modify, modify, wp at 1. apply wp_assoc, wp_bind. unfold uthash, wp at 1. cbn [w_nat w_malloc upd].
    pose proof (add_bucket (λ i _, env_malloc i) (w_nat w) abs key (S (w_malloc w)) Hok Hnin) as Hadd.
    destruct (HASH_ADD_INT _ _ _ _ _) as [t j| | |]; [|done|done|].
    2: { destruct Hadd as (i & size & Hi). by rewrite mallocs_ok in Hi. }
    pose proof (nat_ok_new_bucket (w_nat w) abs extip extport key t Hok Hnin Hadd) as Hok'.
    apply wp_assoc, wp_bind. unfold wp at 1. rewrite ret_bind.
    refine (Hk abs (Conns key (fresh_loc (n_buckets (w_nat w))) []) [] _ _ _ _ _ _ _); [exact Hok'|done|right; by split|done..].
Qed.

(** ** Outbound: the entry *)

(** The entries [es] are those of [c] as far as their connections go, and [e]. *)
Definition grown (c : conns) (e : loc) (es : list loc) (n n' : nat_state) : Prop :=
  ∀ l y, l ∈ es → n_entries n' !! l = Some y →
    l = e ∨ ∃ y0, l ∈ cn_entries c ∧ n_entries n !! l = Some y0 ∧ same_conn y y0.

(** The entries that were there stay, for the same connections. *)
Definition kept (n n' : nat_state) : Prop :=
  ∀ l y, n_entries n !! l = Some y → ∃ y', n_entries n' !! l = Some y' ∧ same_conn y' y.

Lemma kept_same n n' : n_entries n' = n_entries n → kept n n'.
Proof. unfold kept. intros -> l y Hy. by exists y. Qed.

Lemma kept_headed l bl e0 old n n' :
  n_entries n !! l = None → n_entries n' = headed_by l bl e0 old (n_entries n) → kept n n'.
Proof.
  unfold kept. intros Hl -> x y Hy. rewrite headed_by_other by congruence. destruct (decide (old = Some x)) as [->|Hne].
  - cbn. rewrite lookup_alter_eq, Hy. by eexists.
  - rewrite opt_alter_ne by done. by exists y.
Qed.

Lemma grown_same c e n : grown c e (cn_entries c) n n.
Proof. intros l y Hl Hy. right. by exists y. Qed.

Lemma change_grown bl c l n n' :
  change bl (cn_entries c) (l :: cn_entries c) n n' → grown c l (l :: cn_entries c) n n'.
Proof.
  intros Hch y x [->|Hy]%elem_of_cons Hx; [by left|right].
  pose proof (ch_kept _ _ _ _ _ Hch y Hy ltac:(by right)) as Hk. rewrite Hx in Hk. cbn in Hk.
  symmetry in Hk. apply fmap_Some in Hk as (x0 & Hx0 & Heq). exists x0. split_and!; [done..|].
  by apply erase_same_conn.
Qed.

Lemma bytes_ok_mix_ip ip m x : bytes_ok ip → bytes_ok x → bytes_ok (mix_ip ip m x).
Proof.
  intros Hip. revert m x. induction Hip as [|b ip Hb Hip IH]; intros [|m' ms] [|x' xs] Hx; cbn; auto;
    try (by constructor).
  inversion Hx; subst. constructor; [|by apply IH].
  assert (0 ≤ Z.land (Z.lnot m') x' < 2 ^ 8) as Hl
    by (rewrite Z.land_comm; apply land_below_pow2; lia).
  pose proof (proj2 (Z.lor_nonneg b (Z.land (Z.lnot m') x'))) as Hn.
  split; [apply Hn; lia|]. destruct (decide (Z.lor b (Z.land (Z.lnot m') x') = 0)); [lia|].
  apply (Z.log2_lt_pow2 _ 8); [lia|]. rewrite Z.log2_lor by lia.
  apply Z.max_lub_lt; (destruct (decide (b = 0)) as [->|]; [|]);
    try (destruct (decide (Z.land (Z.lnot m') x' = 0)) as [->|]); cbn; try lia;
    try (apply Z.log2_lt_pow2; lia).
Qed.

Context `{!PolarSSL_ok _}.

Lemma ip_at_bytes g now c addr : bytes_ok (baseIP g) → ip_at g now c = Some addr → bytes_ok addr.
Proof.
  intros Hb. destruct (ip_at_defined g now c) as (bits & -> & _). intros <-%(inj Some).
  apply bytes_ok_mix_ip; [done | apply le_bytes_ok].
Qed.

(** The gateway can compute its own address. *)
Record own_address (w : world) : Prop := {
  oa_gate : ∃ gl g, w_gateInfo w = Some gl ∧ w_gates w !! gl = Some g ∧ gate_wf g ∧ bytes_ok (baseIP g);
  oa_lock : w_ipLock w = false }.

Lemma entries_wf_headed l bl e0 old h :
  old ≠ Some l → entry_wf e0 → map_Forall (λ _, entry_wf) h →
  map_Forall (λ _, entry_wf) (headed_by l bl e0 old h).
Proof.
  intros Hne He0 Hh y x. destruct (decide (y = l)) as [->|Hyl].
  - rewrite headed_by_head by done. intros [= <-]. by apply (same_conn_wf _ e0).
  - rewrite headed_by_other by done. destruct (decide (old = Some y)) as [->|Ho].
    + cbn. rewrite lookup_alter_eq. intros (x0 & Hx0 & ->)%fmap_Some.
      apply (same_conn_wf _ x0); [done|by eapply Hh].
    + rewrite opt_alter_ne by done. apply Hh.
Qed.

(** The entry [e] was there before, or there was none for the connection and it
    was put in front of the others, with the gateway's address at the time. *)
Definition current_address (w : world) (addr : list Z) : Prop :=
  ∃ gl g, w_gateInfo w = Some gl ∧ w_gates w !! gl = Some g ∧ ip_at g (env_clock (w_clock w)) 0 = Some addr.
Definition origin (c : conns) (saddr : list Z) (port protocol : Z) (e : loc) (es : list loc) (x : nat_entry) w : Prop :=
  (es = cn_entries c ∧ ∃ y, e ∈ cn_entries c ∧ n_entries (w_nat w) !! e = Some y ∧ same_conn x y)
  ∨ (es = e :: cn_entries c ∧ current_address w (gateIP x)
     ∧ first_entry (w_nat w) (outbound_test protocol port saddr) (cn_entries c) = None).

Lemma current_address_unique w a b : current_address w a → current_address w b → a = b.
Proof. intros (? & ? & ? & ? & ?) (? & ? & ? & ? & ?). congruence. Qed.

Section Entry.
Context (pre post : list conns) (c : conns) (saddr : list Z) (port protocol : Z).
Context (Hs : length saddr = ADDR_SIZE ∧ bytes_ok saddr).

(** The state after the entry [e] of the connection was found or made. *)
Definition has_entry (e : loc) (w w' : world) : Prop :=
  ∃ es x, origin c saddr port protocol e es x w ∧ nat_ok (w_nat w') (pre ++ (c <| cn_entries := es |>) :: post) ∧ e ∈ es
    ∧ n_entries (w_nat w') !! e = Some x
    ∧ e_proto x = protocol ∧ intPort x = port ∧ intIP x = saddr
    ∧ grown c e es (w_nat w) (w_nat w') ∧ kept (w_nat w) (w_nat w') ∧ aside w w' ∧ entries_wf (w_nat w').

Lemma wp_bind_create_entry {B} (k : option loc → prog B) Q w :
  nat_ok (w_nat w) (pre ++ c :: post) → entries_wf (w_nat w) → own_address w →
  first_entry (w_nat w) (outbound_test protocol port saddr) (cn_entries c) = None →
  (∀ w' e, has_entry e w w' → wp (k (Some e)) Q w') →
  wp (create_nat_entry saddr port protocol (cn_bucket c) ≫= k) Q w.
Proof using mallocs_ok PolarSSL_ok0 Hs.
  intros Hok Hwf [(gl & g & Hgi & Hg & Hgwf & Hbase) Hlock] Hno Hk.
  unfold create_nat_entry. apply wp_assoc, wp_bind_malloc. rewrite mallocs_ok. cbn [negb].
  apply wp_assoc. eapply wp_bind_current_ip; [exact Hgi|exact Hg|exact Hlock|]. intros addr Hip.
  apply wp_assoc, wp_bind_gets, wp_assoc, wp_bind. unfold nat_modify, modify, wp at 1.
  destruct (nat_ok_bucket _ _ _ _ Hok) as (b & Hb & _ & Hes).
  pose proof (nat_ok_entries_nodup _ _ _ _ Hok) as Hnd.
  cbn [w_nat upd w_clock w_malloc]. set (n := w_nat w) in *. set (l := fresh_loc (n_entries n)) in *.
  pose proof (fresh_loc_None (n_entries n)) as Hl. fold l in Hl.
  set (e0 := NatEntry saddr port addr port protocol (Timespec 0 0) None None None).
  assert (entry_wf e0) as He0
    by (split; [done| |done]; split; [by eapply ip_at_length | by eapply ip_at_bytes]).
  apply wp_assoc. eapply (wp_bind_link_head l (cn_bucket c) b e0 n (cn_entries c)); [done..|].
  pose proof (headed_by_change l (cn_bucket c) b e0 n (cn_entries c) Hb Hes Hnd Hl) as Hch.
  assert (l ∉ cn_entries c) as Hnin
    by (intros Hin; destruct (dseg_lookup Hes Hin); congruence).
  assert (b_first b ≠ Some l) as Hne by (rewrite (hd_error_dseg Hes); by intros ?%hd_elem).
  rewrite ret_bind. apply Hk.
  exists (l :: cn_entries c), (e0 <| e_next := b_first b |> <| e_bucket := Some (cn_bucket c) |> <| e_prev := None |>).
  split_and!.
  - right. split; [done|]. split; [|done]. exists gl, g. split_and!; [done..|exact Hip].
  - apply (nat_ok_change _ _ _ _ _ _ Hok Hch); [by constructor|]. intros y [->|?]%elem_of_cons; auto.
  - by left.
  - by apply headed_by_head.
  - done.
  - done.
  - done.
  - by apply (change_grown (cn_bucket c)).
  - by eapply kept_headed.
  - done.
  - by apply entries_wf_headed.
Qed.

Lemma wp_bind_entry {B} (k : option loc → prog B) Q w :
  nat_ok (w_nat w) (pre ++ c :: post) → entries_wf (w_nat w) → own_address w →
  (∀ w' e, has_entry e w w' → wp (k (Some e)) Q w') →
  wp ((match first_entry (w_nat w) (outbound_test protocol port saddr) (cn_entries c) with
       | Some e => mret (Some e)
       | None => create_nat_entry saddr port protocol (cn_bucket c)
       end) ≫= k) Q w.
Proof using mallocs_ok PolarSSL_ok0 Hs.
  intros Hok Hwf Hown Hk. destruct (first_entry _ _ _) as [e|] eqn:Hf; [|by apply wp_bind_create_entry].
  apply first_entry_Some in Hf as (He & x & Hx & (-> & -> & ->)%bool_decide_eq_true).
  rewrite ret_bind. apply Hk. exists (cn_entries c), x.
  split_and!; try done; [left; split; [done|]; by exists x|by destruct c|apply grown_same|by apply kept_same].
Qed.
End Entry.

(** ** Outbound: the whole call *)

(** The table holds the entry [x] at [e] for the connection in the bucket [key]
    of [abs']; the bucket's other entries were there before. *)
Record connection (abs : list conns) (key : Z) (saddr : list Z) (sport protocol : Z)
    (n n' : nat_state) (c : conns) (e : loc) (x : nat_entry) : Prop := {
  cx_table : ∃ pre post, nat_ok n' (pre ++ c :: post);
  cx_free : natTableLock n' = false;
  cx_key : cn_key c = key;
  cx_entry : e ∈ cn_entries c ∧ n_entries n' !! e = Some x;
  cx_conn : e_proto x = protocol ∧ intPort x = sport ∧ intIP x = saddr;
  cx_wf : entries_wf n';
  cx_old l y : l ∈ cn_entries c → n_entries n' !! l = Some y → l = e ∨
    ∃ c0 y0, c0 ∈ abs ∧ cn_key c0 = key ∧ l ∈ cn_entries c0 ∧ n_entries n !! l = Some y0
           ∧ same_conn y y0 }.

(** Where the entry comes from, in terms of the state [w] before the call. *)
Definition conn_origin (abs : list conns) (key : Z) (saddr : list Z) (sport protocol : Z) w (c : conns) (e : loc)
    (gip : list Z) : Prop :=
  (∃ c0 y, c0 ∈ abs ∧ cn_key c0 = key ∧ e ∈ cn_entries c0 ∧ n_entries (w_nat w) !! e = Some y
     ∧ outbound_test protocol sport saddr y = true ∧ gateIP y = gip)
  ∨ ((∃ rest, cn_entries c = e :: rest) ∧ current_address w gip
     ∧ ∀ c0 e0 y, c0 ∈ abs → cn_key c0 = key → e0 ∈ cn_entries c0 → n_entries (w_nat w) !! e0 = Some y →
         outbound_test protocol sport saddr y = false).

Lemma touch_lookup now e n l y :
  n_entries (touch now e n) !! l = Some y → ∃ y0, n_entries n !! l = Some y0 ∧ same_conn y y0.
Proof.
  cbn. destruct (decide (e = l)) as [<-|Hne].
  - rewrite lookup_alter_eq. intros (x & Hx & ->)%fmap_Some. by exists x.
  - rewrite lookup_alter_ne by done. intros Hy. by exists y.
Qed.

Lemma same_conn_trans x y z : same_conn x y → same_conn y z → same_conn x z.
Proof. unfold same_conn. intuition congruence. Qed.

(** What the search and the creation leave, once the time is noted. *)
Lemma has_entry_connection abs key pre c post saddr sport protocol e n now w w' :
  cn_key c = key → c ∈ abs ∨ cn_entries c = [] ∧ key ∉ cn_key <$> abs → n_entries (w_nat w) = n_entries n →
  has_entry pre post c saddr sport protocol e w w' →
  ∃ c' x, connection abs key saddr sport protocol n
    (touch now e (w_nat w' <| natTableLock := false |>)) c' e (x <| lastUsed := now |>)
    ∧ n_entries (w_nat w') !! e = Some x ∧ origin c saddr sport protocol e (cn_entries c') x w.
Proof.
  intros Hk Hc Hn (es & x & Hor & Hok & He & Hx & Hp & Hpo & Hi & Hg & _ & _ & Hwf).
  exists (c <| cn_entries := es |>), x. split; [|done]. split; cbn [cn_key cn_entries upd].
  - exists pre, post. apply nat_ok_touch. by apply locked_ok.
  - done.
  - done.
  - split; [done|]. cbn. by rewrite lookup_alter_eq, Hx.
  - done.
  - intros l y (y0 & Hy0 & Hsc)%touch_lookup. apply (same_conn_wf _ _ Hsc). by eapply Hwf.
  - intros l y Hl (y0 & Hy0 & Hsc)%touch_lookup.
    destruct (Hg l y0 Hl Hy0) as [->|(y1 & Hin & Hy1 & Hsc1)]; [by left|right].
    destruct Hc as [Hc|[Hc _]]; [|rewrite Hc in Hin; by apply elem_of_nil in Hin].
    exists c, y1. rewrite <- Hn. split_and!; [done..|]. by eapply same_conn_trans.
Qed.

(** The buckets of a table have different keys. *)
Lemma same_key_bucket n abs c c' : nat_ok n abs → c ∈ abs → c' ∈ abs → cn_key c = cn_key c' → c = c'.
Proof.
  intros [Ht _ _ _ _] Hc Hc' Hk. pose proof (md_keys _ _ Ht) as Hnd. rewrite cn_items_keys in Hnd.
  apply list_elem_of_lookup in Hc as [i Hi]. apply list_elem_of_lookup in Hc' as [j Hj].
  assert (i = j) as <-; [|congruence].
  apply (NoDup_lookup _ _ _ (cn_key c) Hnd); rewrite list_lookup_fmap; [by rewrite Hi|by rewrite Hj, Hk].
Qed.

Lemma origin_connection abs saddr sport protocol w0 w c c' e x :
  nat_ok (w_nat w0) abs → c ∈ abs ∨ cn_entries c = [] ∧ cn_key c ∉ cn_key <$> abs →
  w_gates w = w_gates w0 → w_gateInfo w = w_gateInfo w0 → w_clock w = w_clock w0 →
  n_entries (w_nat w) = n_entries (w_nat w0) → e_proto x = protocol ∧ intPort x = sport ∧ intIP x = saddr →
  origin c saddr sport protocol e (cn_entries c') x w →
  conn_origin abs (cn_key c) saddr sport protocol w0 c' e (gateIP x).
Proof.
  intros Hok Hc Hg Hi Hk Hn (<- & <- & <-) [(_ & y & He & Hy & Hs)|(Hes & Hcur & Hno)].
  - left. destruct Hc as [Hc|[Hc _]]; [|rewrite Hc in He; by apply elem_of_nil in He].
    exists c, y. rewrite <- Hn. destruct Hs as (E1 & E2 & E3 & E4 & E5). split_and!; [done..| |congruence].
    apply bool_decide_eq_true. split_and!; congruence.
  - right. split; [by eexists|]. split.
    { destruct Hcur as (gl & g & ? & ? & ?). exists gl, g. by rewrite <- Hi, <- Hg, <- Hk. }
    intros c0 e0 y Hc0 Hk0 He0 Hy. destruct Hc as [Hc|[_ Hnin]].
    + rewrite (same_key_bucket _ _ c0 c Hok Hc0 Hc Hk0) in He0. rewrite <- Hn in Hy. by eapply first_entry_None.
    + destruct Hnin. rewrite <- Hk0. by apply list_elem_of_fmap_2.
Qed.

Lemma nat_outbound_run p ip start off len saddr daddr sport dport protocol abs w :
  nat_packet p ip start off len → addressed p ip saddr daddr sport dport protocol →
  nat_ok (w_nat w) abs → nat_room (w_nat w) abs → natTableLock (w_nat w) = false → entries_wf (w_nat w) → own_address w →
  wp (do_nat_outbound_rewrite p) (λ r w', r = 0 ∧ ∃ c e x d,
    connection abs (create_nat_bucket_key daddr dport) saddr sport protocol (w_nat w) (w_nat w') c e x
    ∧ conn_origin abs (create_nat_bucket_key daddr dport) saddr sport protocol w c e (gateIP x)
    ∧ kept (w_nat w) (w_nat w')
    ∧ rewritten p ip start off len (ip + 12) (gateIP x) start sport d
    ∧ w_sent w' = w_sent w ++ [OutIP (le_val daddr) (drop (Z.to_nat ip) d)]) w.
Proof using All.
  intros Hn Ha Hok Hroom Hl Hwf Hown. unfold do_nat_outbound_rewrite.
  eapply wp_bind_lift; [exact (np_ipv4 _ _ _ _ _ Hn)|]. apply wp_bind_nat_lock; [done|].
  eapply wp_bind_load; [exact (ad_daddr _ _ _ _ _ _ _ Ha)|].
  eapply wp_bind_lift; [exact (ad_dport _ _ _ _ _ _ _ Ha)|]. apply wp_bind_gets.
  apply (wp_bind_bucket abs); [by apply locked_ok|exact Hroom|]. intros pre c post w1 Hok1 Hkey Hc He1 Has1 Hclk.
  eapply wp_bind_lift; [exact (ad_sport _ _ _ _ _ _ _ Ha)|].
  eapply wp_bind_lift; [exact (ad_proto _ _ _ _ _ _ _ Ha)|].
  eapply wp_bind_load; [exact (ad_saddr _ _ _ _ _ _ _ Ha)|].
  eapply wp_bind_search; [exact Hok1|].
  assert (entries_wf (w_nat w1)) as Hwf1 by (unfold entries_wf; rewrite He1; exact Hwf).
  assert (own_address w1) as Hown1.
  { destruct Has1 as [Eg Ei El _ _], Hown as [Ho1 Ho2]. split; [rewrite Eg, Ei|rewrite El]; done. }
  apply (wp_bind_entry pre post c saddr sport protocol (ad_saddr_ok p ip start off len Hn _ _ _ _ _ Ha));
    [done..|]. intros w2 e Hhas.
  set (w0 := set_nat (w_nat w2 <| natTableLock := false |>) w2).
  assert (w2 = locked w0) as Hw2.
  { destruct Hhas as (_ & _ & _ & _ & _ & _ & _ & _ & _ & _ & Hkept & [_ _ _ _ Hlk] & _).
    rewrite (as_lock _ _ Has1) in Hlk. unfold w0. destruct w2 as [? ? [] ? ? ? ? ?]. cbn in *. by subst. }
  destruct (has_entry_connection abs _ pre c post saddr sport protocol e (w_nat w)
    (env_clock (w_clock w0)) w1 w2 Hkey Hc He1 Hhas) as (c' & x & Hcx & Hx & Hor).
  assert (entry_wf x) as [_ [Hgl Hgb] Hport].
  { destruct Hhas as (es & x' & _ & _ & _ & _ & _ & _ & _ & _ & _ & _ & Hwf2). by eapply Hwf2. }
  destruct (rewrite_source_run slack_ok p ip start off len x Hn Hgl Hgb) as (d & Hrw & Hd).
  destruct (np_trans _ _ _ _ _ Hn) as (_ & _ & _ & _ & Hip & Hst).
  eapply wp_mono.
  - eapply (wp_use rewrite_source e x p ip start off len d daddr w0);
      [exact Hn|done|exact Hx|intros; apply Hrw|apply Hd| |apply (rewritten_tot _ _ _ _ _ _ _ _ _ _ Hn Hd); lia|exact Hw2].
    rewrite (rewritten_rd _ _ _ _ _ _ _ _ _ _ _ _ Hn Hd) by (change ADDR_SIZE with 4%nat; lia).
    exact (ad_daddr _ _ _ _ _ _ _ Ha).
  - intros r w' [-> [Hs1 _ _ _ Hs5]]. split; [done|]. exists c', e, (x <| lastUsed := env_clock (w_clock w0) |>), d.
    split_and!.
    + rewrite Hs1. exact Hcx.
    + rewrite <- Hkey. apply (origin_connection abs saddr sport protocol w w1 c c' e x); [exact Hok|by rewrite Hkey| | | | | |exact Hor].
      * exact (as_gates _ _ Has1).
      * exact (as_info _ _ Has1).
      * exact Hclk.
      * exact He1.
      * exact (cx_conn _ _ _ _ _ _ _ _ _ _ Hcx).
    + rewrite Hs1. intros l y Hy. destruct Hhas as (_ & _ & _ & _ & _ & _ & _ & _ & _ & _ & Hkept & _).
      assert (n_entries (w_nat w1) !! l = Some y) as Hy1 by (rewrite He1; exact Hy).
      destruct (Hkept l y Hy1) as (y' & Hy' & Hs). cbn. destruct (decide (e = l)) as [<-|Hne].
      * rewrite lookup_alter_eq, Hy'. by eexists.
      * rewrite lookup_alter_ne by done. by exists y'.
    + destruct (cx_conn _ _ _ _ _ _ _ _ _ _ Hcx) as (_ & Hpo & _). cbn in Hpo |- *. by rewrite <- Hpo, <- Hport.
    + rewrite Hs5. cbn. destruct Hhas as (_ & _ & _ & _ & _ & _ & _ & _ & _ & _ & _ & [_ _ _ Has2 _] & _).
      rewrite Has2, (as_sent _ _ Has1). done.
Qed.

(** No other inside host uses the port with the protocol to that outside host. *)
Definition alone (abs : list conns) (n : nat_state) (key : Z) (inside : list Z) (iport protocol : Z)
    : Prop :=
  ∀ c e x, c ∈ abs → cn_key c = key → e ∈ cn_entries c → n_entries n !! e = Some x →
    e_proto x = protocol → intPort x = iport → intIP x = inside.

(** In that case the search for a reply finds an entry of the inside host. *)
Lemma reply_entry abs key inside iport protocol n n' c e x :
  alone abs n key inside iport protocol →
  connection abs key inside iport protocol n n' c e x →
  ∃ e' x', first_entry n' (inbound_test protocol iport (gateIP x)) (cn_entries c) = Some e'
    ∧ n_entries n' !! e' = Some x' ∧ entry_wf x' ∧ intIP x' = inside ∧ intPort x' = iport.
Proof.
  intros Hal [_ _ _ [He Hx] (Hp & Hpo & Hi) Hwf Hold].
  assert (inbound_test protocol iport (gateIP x) x = true) as Ht.
  { apply bool_decide_eq_true. rewrite (ew_port _ (Hwf _ _ Hx)). by subst. }
  destruct (first_entry _ _ _) as [e'|] eqn:Hf.
  - exists e'. apply first_entry_Some in Hf as (He' & x' & Hx' & (Hp' & Hpo' & _)%bool_decide_eq_true).
    exists x'. pose proof (Hwf _ _ Hx') as Hwf'. pose proof (ew_port _ Hwf') as Hgp.
    split_and!; [done..| |congruence].
    destruct (Hold e' x' He' Hx') as [->|(c0 & y0 & Hc0 & Hk & Hin & Hy0 & (E1 & E2 & _ & _ & E5))];
      [congruence|].
    rewrite E1. apply (Hal c0 e' y0); congruence.
  - by rewrite (first_entry_None _ _ _ _ _ Hf He Hx) in Ht.
Qed.
End Directions.

(** The source address a connection gets: the one it has in the table, or for a
    new one the gateway's address at the time. *)
Definition source_address `{PolarSSL, Env} (abs : list conns) (key : Z) (inside : list Z) (iport protocol : Z) (w : world)
    (gip : list Z) : Prop :=
  let known c e x := c ∈ abs ∧ cn_key c = key ∧ e ∈ cn_entries c ∧ n_entries (w_nat w) !! e = Some x
    ∧ outbound_test protocol iport inside x = true in
  (∃ c e x, known c e x ∧ gateIP x = gip) ∨ ((∀ c e x, ¬ known c e x) ∧ current_address w gip).

Lemma conn_origin_source `{PolarSSL, Env} abs key inside iport protocol w c e gip :
  conn_origin abs key inside iport protocol w c e gip → source_address abs key inside iport protocol w gip.
Proof.
  intros [(c0 & y & ? & ? & ? & ? & ? & ?)|(_ & Hcur & Hno)]; [left; by exists c0, e, y|right].
  split; [|done]. intros c0 e0 x (? & ? & ? & ? & Ht). by rewrite (Hno c0 e0 x) in Ht.
Qed.

(** C12. A connection through the NAT works both ways.  A packet from an inside
    host is sent to its destination with a gateway's address as its source --
    for a new connection the address the gateway has at that moment, later the
    same one, which the table remembers -- the port kept, the checksum verifying
    and nothing else changed; and every reply from there to that address and
    port is then sent to the inside host and its port, rewritten in the same
    way -- provided no other inside host uses the same port and protocol towards
    that host, and the table has room. *)
Theorem nat_round_trip `{PolarSSL_ok} `{Env} p ip start off len inside outside iport oport protocol abs
    (w : world) :
  (∀ i, env_malloc i = true) → (∀ i, 0 ≤ env_sendto i) → is_byte env_slack →
  nat_packet p ip start off len → addressed p ip inside outside iport oport protocol →
  nat_ok (w_nat w) abs → nat_room (w_nat w) abs →
  natTableLock (w_nat w) = false → entries_wf (w_nat w) → own_address w →
  let key := create_nat_bucket_key outside oport in
  alone abs (w_nat w) key inside iport protocol →
  ∃ w1 gip d, do_nat_outbound_rewrite p w = Done 0 w1
    ∧ source_address abs key inside iport protocol w gip
    ∧ w_sent w1 = w_sent w ++ [OutIP (le_val outside) (drop (Z.to_nat ip) d)]
    ∧ rewritten p ip start off len (ip + 12) gip start iport d
    ∧ ∀ q ip' start' off' len' (w2 : world),
        nat_packet q ip' start' off' len' → addressed q ip' outside gip oport iport protocol →
        w_nat w2 = w_nat w1 →
        ∃ w3 d', do_nat_inbound_rewrite q w2 = Done 0 w3
          ∧ w_sent w3 = w_sent w2 ++ [OutIP (le_val inside) (drop (Z.to_nat ip') d')]
          ∧ rewritten q ip' start' off' len' (ip' + 16) inside (start' + 2) iport d'.
Proof.
  intros Hm Hsend Hsl Hn Ha Hok Hroom Hl Hwf Hown key Hal.
  destruct (wp_elim _ _ _ (nat_outbound_run Hm Hsend Hsl p ip start off len _ _ _ _ _ abs w Hn Ha Hok Hroom Hl Hwf Hown))
    as (r & w1 & Hrun & -> & c & e & x & d & Hcx & Hor & _ & Hd & Hsent).
  destruct (reply_entry _ _ _ _ _ _ _ _ _ _ Hal Hcx) as (e' & x' & Hf & Hx' & Hwf' & <- & <-).
  destruct Hcx as [(pre & post & Hok1) Hl1 Hk _ _ _ _].
  exists w1, (gateIP x), d. split_and!; [done|by eapply conn_origin_source|done..|]. intros q ip' start' off' len' w2 Hq Hqa Hw2.
  rewrite <- Hw2 in *.
  destruct (wp_elim _ _ _ (nat_inbound_run Hm Hsend Hsl q ip' start' off' len' _ _ _ _ _ pre c post e' x' w2
    Hq Hqa Hok1 Hl1 Hk Hf Hx' Hwf')) as (r & w3 & Hrun3 & -> & d' & Hs & Hd').
  exists w3, d'. split_and!; [done| |done]. exact (so_sent _ _ _ Hs).
Qed.

(** C34. What the table cannot tell apart.  An inside host opens a connection
    to a host outside while another inside host has one with the same port and
    protocol to it, made under the same address of the gateway.  From then on
    every packet to that address and port goes to the second host, those for
    the first host too, whose entry is still there; and so does every packet of
    a stranger whose address XORed with its port gives the same key. *)
Theorem nat_wrong_host `{PolarSSL_ok} `{Env} p ip start off len second outside port oport protocol abs
    (w : world) c1 e1 x1 :
  (∀ i, env_malloc i = true) → (∀ i, 0 ≤ env_sendto i) → is_byte env_slack →
  nat_packet p ip start off len → addressed p ip second outside port oport protocol →
  nat_ok (w_nat w) abs → nat_room (w_nat w) abs →
  natTableLock (w_nat w) = false → entries_wf (w_nat w) → own_address w →
  let key := create_nat_bucket_key outside oport in
  (c1 ∈ abs ∧ cn_key c1 = key ∧ e1 ∈ cn_entries c1 ∧ n_entries (w_nat w) !! e1 = Some x1) →
  (e_proto x1 = protocol ∧ gatePort x1 = port ∧ intIP x1 ≠ second ∧ current_address w (gateIP x1)) →
  (∀ c e x, c ∈ abs → cn_key c = key → e ∈ cn_entries c → n_entries (w_nat w) !! e = Some x →
     outbound_test protocol port second x = false) →
  ∃ w1, do_nat_outbound_rewrite p w = Done 0 w1
    ∧ (∃ x1', n_entries (w_nat w1) !! e1 = Some x1' ∧ same_conn x1' x1)
    ∧ ∀ q ip' start' off' len' stranger sport (w2 : world),
        nat_packet q ip' start' off' len' → addressed q ip' stranger (gateIP x1) sport port protocol →
        create_nat_bucket_key stranger sport = key → w_nat w2 = w_nat w1 →
        ∃ w3 d', do_nat_inbound_rewrite q w2 = Done 0 w3
          ∧ w_sent w3 = w_sent w2 ++ [OutIP (le_val second) (drop (Z.to_nat ip') d')]
          ∧ rewritten q ip' start' off' len' (ip' + 16) second (start' + 2) port d'.
Proof.
  intros Hm Hsend Hsl Hn Ha Hok Hroom Hl Hwf Hown key (Hc1 & Hk1 & He1 & Hx1) (_ & _ & _ & Hcur1) Hno.
  destruct (wp_elim _ _ _ (nat_outbound_run Hm Hsend Hsl p ip start off len _ _ _ _ _ abs w Hn Ha Hok Hroom Hl Hwf Hown))
    as (r & w1 & Hrun & -> & c & e & x & d & Hcx & Hor & Hkept & Hd & Hsent).
  exists w1. split; [done|]. split; [by apply Hkept|]. intros q ip' start' off' len' stranger sport w2 Hq Hqa Hkey Hw2.
  destruct Hor as [(c0 & y & ? & ? & ? & ? & Ht & _)|((rest & Hrest) & Hcur & _)]; [by rewrite (Hno c0 e y) in Ht|].
  rewrite (current_address_unique w _ _ Hcur1 Hcur) in Hqa.
  destruct Hcx as [(pre & post & Hok1) Hl1 Hk [He Hx] (Hp & Hpo & Hi) Hwf1 _].
  pose proof (Hwf1 _ _ Hx) as Hwfx. rewrite <- Hw2 in *.
  assert (first_entry (w_nat w2) (inbound_test protocol port (gateIP x)) (cn_entries c) = Some e) as Hf.
  { unfold first_entry. rewrite Hrest, filter_cons_True; [done|]. unfold matching. rewrite Hx. cbn.
    apply bool_decide_eq_true. by rewrite (ew_port _ Hwfx), Hp, Hpo. }
  destruct (wp_elim _ _ _ (nat_inbound_run Hm Hsend Hsl q ip' start' off' len' _ _ _ _ _ pre c post e x w2
    Hq Hqa Hok1 Hl1 ltac:(by rewrite Hk, Hkey) Hf Hx Hwfx)) as (r & w3 & Hrun3 & -> & d' & Hs & Hd').
  rewrite Hi, Hpo in *.
  exists w3, d'. split_and!; [done| |done]. exact (so_sent _ _ _ Hs).
Qed.

(** A packet from outside that belongs to no connection is refused with
    the error that says what is missing, nothing is sent, and the state, the
    table's lock included, is as before. *)
Theorem nat_inbound_unsolicited `{PolarSSL} `{Env} p ip saddr daddr sport dport protocol abs (w : world) :
  p_ipv4 p = Some ip → addressed p ip saddr daddr sport dport protocol →
  nat_ok (w_nat w) abs → natTableLock (w_nat w) = false →
  (∀ c e x, c ∈ abs → cn_key c = create_nat_bucket_key saddr sport → e ∈ cn_entries c →
     n_entries (w_nat w) !! e = Some x → inbound_test protocol dport daddr x = false) →
  do_nat_inbound_rewrite p w =
    Done (if bool_decide (create_nat_bucket_key saddr sport ∈ cn_key <$> abs)
          then - ARG_ENTRY_NOT_FOUND else - ARG_BUCKET_NOT_FOUND) w.
Proof.
  intros Hip Ha Hok Hl Hno. case_bool_decide as Hin; [|by eapply inbound_no_bucket].
  apply list_elem_of_fmap in Hin as (c & Hk & Hc). pose proof Hc as Hc'.
  apply list_elem_of_split in Hc as (pre & post & ->).
  eapply inbound_no_entry; [done..|]. destruct (first_entry _ _ _) as [e|] eqn:Hf; [|done].
  apply first_entry_Some in Hf as (He & x & Hx & Ht). rewrite (Hno c e x) in Ht; done.
Qed.

(** ** Evaluation: UDP datagrams between inside hosts and hosts outside *)

Definition udp (saddr daddr : list Z) (sport dport : Z) : packet_data :=
  parsed ([69; 0; 0; 31; 0; 0; 64; 0; 64; 17; 0; 0] ++ saddr ++ daddr
    ++ [sport / 256; sport mod 256; dport / 256; dport mod 256; 0; 11; 9; 9; 1; 2; 3]).
Definition inside1 : list Z := [10; 1; 1; 7].
Definition inside2 : list Z := [10; 1; 1; 8].
Definition dns : list Z := [8; 8; 8; 8].
Definition request1 : packet_data := udp inside1 dns 8080 53.
Definition request2 : packet_data := udp inside2 dns 8080 53.
Definition own_ip : list Z :=
  Eval vm_compute in default [] (ip_at (gateA None None) (Timespec 100 0) 0).
Definition reply : packet_data := udp dns own_ip 53 8080.
Definition stranger : packet_data := udp [9; 8; 8; 8] own_ip 52 8080.

(** Running a call on a concrete state. *)
Definition after (m : proc (@world toy) Z) (w : @world toy) : option (Z * @world toy) :=
  match m w with Done r w' => Some (r, w') | _ => None end.
Definition destinations (w : @world toy) : list Z :=
  omap (λ o, match o with OutIP dest _ => Some dest | _ => None end) (w_sent w).

(** The calls one after the other, while they succeed. *)
Fixpoint runs (calls : list (proc (@world toy) Z)) (w : @world toy) : option (@world toy) :=
  match calls with
  | [] => Some w
  | m :: calls => '(r, w') ← after m w; if decide (r = 0) then runs calls w' else None
  end.

Lemma runs_destinations calls w ds :
  destinations <$> runs calls w = Some ds → ∃ w', runs calls w = Some w' ∧ destinations w' = ds.
Proof. intros (w' & Hr & ->)%fmap_Some. by exists w'. Qed.

Lemma request1_packet : nat_packet request1 0 20 26 11.
Proof.
  split; [split|..]; try (vm_compute; done); try by_decide. exists 7936. by vm_compute.
Defined.
Lemma reply_packet : nat_packet reply 0 20 26 11.
Proof.
  split; [split|..]; try (vm_compute; done); try by_decide. exists 7936. by vm_compute.
Defined.
Lemma request1_addressed : addressed request1 0 inside1 dns 8080 53 17.
Proof. by split; vm_compute. Defined.

Lemma nat_round_trip_witness :
  ∃ w1 gip d, do_nat_outbound_rewrite request1 worldA = Done 0 w1
    ∧ source_address [] (create_nat_bucket_key dns 53) inside1 8080 17 worldA gip
    ∧ w_sent w1 = w_sent worldA ++ [OutIP (le_val dns) (drop (Z.to_nat 0) d)]
    ∧ rewritten request1 0 20 26 11 (0 + 12) gip 20 8080 d
    ∧ ∀ q ip' start' off' len' (w2 : world),
        nat_packet q ip' start' off' len' → addressed q ip' dns gip 53 8080 17 →
        w_nat w2 = w_nat w1 →
        ∃ w3 d', do_nat_inbound_rewrite q w2 = Done 0 w3
          ∧ w_sent w3 = w_sent w2 ++ [OutIP (le_val inside1) (drop (Z.to_nat ip') d')]
          ∧ rewritten q ip' start' off' len' (ip' + 16) inside1 (start' + 2) 8080 d'.
Proof.
  apply (nat_round_trip request1 0 20 26 11 inside1 dns 8080 53 17 [] worldA).
  - done.
  - intros i. cbn. lia.
  - cbn. lia.
  - exact request1_packet.
  - exact request1_addressed.
  - apply nat_ok_init.
  - by vm_compute.
  - done.
  - by intros l x Hx.
  - split; [|done]. exists 1%positive. eexists. split; [done|]. split; [reflexivity|].
    split; [by apply toy_gate_wf|]. cbn. by_decide.
  - intros c e x Hc. by apply elem_of_nil in Hc.
Defined.

(** After a request of the first inside host. *)
Definition dns_key : Z := Eval vm_compute in create_nat_bucket_key dns 53.
Definition dns_table : option ut_table :=
  match run_ops small_machine None [OpAdd dns_key 1%positive] 0%nat with Done t _ => t | _ => None end.
Definition nat1 : nat_state :=
  NatState dns_table {[1%positive := NatBucket dns_key dns 53 (Some 1%positive)]}
    {[1%positive := NatEntry inside1 8080 own_ip 8080 17 (Timespec 99 0) (Some 1%positive) None None]} false.
Definition conns1 : conns := Conns dns_key 1 [1%positive].

Lemma nat1_ok : nat_ok nat1 [conns1].
Proof.
  split.
  - assert (match run_ops small_machine None [OpAdd dns_key 1%positive] 0%nat with Done _ _ => true | _ => false end = true)
      as Hr by by vm_compute.
    change (models dns_table (foldl spec_op [] [OpAdd dns_key 1%positive])). unfold dns_table.
    destruct (run_ops _ _ _ _) eqn:E; [|done..]. by eapply (run_ops_done small_machine), E; [apply models_nil|].
  - constructor; [|constructor]. eexists. split; [reflexivity|]. split; [reflexivity|]. split; [reflexivity|].
    eexists. split; [reflexivity|]. by split_and!.
  - apply NoDup_singleton.
  - intros l [x Hx]. cbn in Hx. apply lookup_singleton_Some in Hx as [<- _]. by left.
  - intros l. split.
    + intros [x Hx]. cbn in Hx. apply lookup_singleton_Some in Hx as [<- _]. by left.
    + intros ->%list_elem_of_singleton. by eexists.
Qed.

(** A stranger whose address and port give the same key. *)
Lemma stranger_key : create_nat_bucket_key [9; 8; 8; 8] 52 = create_nat_bucket_key dns 53.
Proof. by vm_compute. Qed.

Lemma request2_packet : nat_packet request2 0 20 26 11.
Proof.
  split; [split|..]; try (vm_compute; done); try by_decide. exists 7936. by vm_compute.
Defined.

Lemma nat_wrong_host_witness :
  ∃ w1, do_nat_outbound_rewrite request2 (set_nat nat1 worldA) = Done 0 w1
    ∧ (∃ x1', n_entries (w_nat w1) !! 1%positive = Some x1'
         ∧ same_conn x1' (NatEntry inside1 8080 own_ip 8080 17 (Timespec 99 0) (Some 1%positive) None None))
    ∧ ∀ q ip' start' off' len' stranger sport (w2 : world),
        nat_packet q ip' start' off' len' → addressed q ip' stranger own_ip sport 8080 17 →
        create_nat_bucket_key stranger sport = create_nat_bucket_key dns 53 → w_nat w2 = w_nat w1 →
        ∃ w3 d', do_nat_inbound_rewrite q w2 = Done 0 w3
          ∧ w_sent w3 = w_sent w2 ++ [OutIP (le_val inside2) (drop (Z.to_nat ip') d')]
          ∧ rewritten q ip' start' off' len' (ip' + 16) inside2 (start' + 2) 8080 d'.
Proof.
  apply (nat_wrong_host request2 0 20 26 11 inside2 dns 8080 53 17 [conns1] (set_nat nat1 worldA) conns1 1%positive
    (NatEntry inside1 8080 own_ip 8080 17 (Timespec 99 0) (Some 1%positive) None None)).
  - done.
  - intros i. cbn. lia.
  - cbn. lia.
  - exact request2_packet.
  - by split; vm_compute.
  - exact nat1_ok.
  - by vm_compute.
  - done.
  - intros l x Hx. cbn in Hx. apply lookup_singleton_Some in Hx as [_ <-]. split; [by_decide..|done].
  - split; [|done]. exists 1%positive. eexists. split; [done|]. split; [reflexivity|].
    split; [by apply toy_gate_wf|]. cbn. by_decide.
  - split; [by left|]. split; [by vm_compute|]. split; [by left|done].
  - split; [done|]. split; [done|]. split; [done|]. exists 1%positive. eexists. split; [done|]. split; [reflexivity|].
    by vm_compute.
  - intros c e x ->%list_elem_of_singleton _ ->%list_elem_of_singleton Hx. cbn in Hx.
    apply lookup_singleton_Some in Hx as [_ <-]. by vm_compute.
Defined.

(** Before any connection the reply finds no bucket. *)
Lemma nat_inbound_unsolicited_witness :
  do_nat_inbound_rewrite reply worldA = Done (- ARG_BUCKET_NOT_FOUND) worldA.
Proof.
  apply (nat_inbound_unsolicited reply 0 dns own_ip 53 8080 17 [] worldA); [done| |apply nat_ok_init|done|].
  - by split; vm_compute.
  - intros c e x Hc. by apply elem_of_nil in Hc.
Defined.
