(* ===== verification/Director.v ===== *)
(** * Directing traffic and the administration thread
    (src/director.c, src/hopper.c)

    What happens to a received packet, the dispatch of administration messages,
    and one round of the administration thread. *)

From S2P Require Import Prelude Words Settings ArgError Utility Crypto Packet Gate Uthash NatData World Net Hopper Message ArgPacket Protocol Nat Tables.

Section Director.
Context `{PolarSSL, Env}.

Definition get_msg_type (arg : Z) (p : packet_data) : prog Z :=
  lift_opt (rd8 (arg + arg_type_off) (p_data p)).
Definition is_wrapped_msg (type : Z) : bool := bool_decide (type = ARG_WRAPPED_MSG).
Definition is_admin_msg (type : Z) : bool := bool_decide (type ≠ ARG_WRAPPED_MSG).

Definition process_admin_msg (p : packet_data) (srcGate : loc) : prog Z :=
  arg ← lift_opt (p_arg p);
  type ← get_msg_type arg p;
  gi ← gateInfo;
  local ← deref gi;
  if decide (type = ARG_PING_MSG) then process_arg_ping local srcGate p
  else if decide (type = ARG_CONN_DATA_REQ_MSG) then process_arg_conn_data_req local srcGate p
  else if decide (type = ARG_CONN_DATA_RESP_MSG) then process_arg_conn_data_resp local srcGate p
  else if decide (type = ARG_TRUST_DATA_MSG) then process_arg_trust local srcGate p
  else mret (- ARG_UNHANDLED_TYPE).

Definition do_arg_wrap (p : packet_data) (destGate : loc) : prog Z :=
  gi ← gateInfo;
  if decide (Some destGate = gi) then mret 0 else
  local ← deref gi;
  send_arg_wrapped local destGate p.

Definition do_arg_unwrap (p : packet_data) (srcGate : loc) : prog Z :=
  gi ← gateInfo; local ← deref gi; process_arg_wrapped local srcGate p.

(** What [direct_inbound] reports in the log. *)
Inductive verdict :=
  | BadProtocol | AdminHandled (ret : Z)
  | NotConnected | DestIPIncorrect | SourceIPIncorrect | Unwrapped (ret : Z)
  | NatInbound (ret : Z).

Definition inbound_wrapped (p : packet_data) (gate : loc) (saddr daddr : list Z) : prog verdict :=
  g ← gate_get gate;
  if negb (connected g) then mret NotConnected else
  ok ← is_valid_local_ip daddr;
  if negb ok then note_bad_ip gate;; mret DestIPIncorrect else
  ok ← is_valid_ip gate saddr;
  if negb ok then note_bad_ip gate;; mret SourceIPIncorrect else
  note_good_ip gate;;
  Unwrapped <$> do_arg_unwrap p gate.

Definition direct_inbound (p : packet_data) : prog verdict :=
  ip ← lift_opt (p_ipv4 p);
  saddr ← load (ip + 12) ADDR_SIZE p;
  gate ← get_arg_network saddr;
  match gate with
  | Some gate =>
      match p_arg p with
      | None => mret BadProtocol
      | Some arg =>
          type ← get_msg_type arg p;
          if is_admin_msg type then AdminHandled <$> process_admin_msg p gate
          else
            daddr ← load (ip + 16) ADDR_SIZE p;
            inbound_wrapped p gate saddr daddr
      end
  | None => NatInbound <$> do_nat_inbound_rewrite p
  end.

Definition direct_outbound (p : packet_data) : prog Z :=
  ip ← lift_opt (p_ipv4 p);
  daddr ← load (ip + 16) ADDR_SIZE p;
  gate ← get_arg_network daddr;
  match gate with
  | Some gate => do_arg_wrap p gate
  | None => do_nat_outbound_rewrite p
  end.

(** One turn of [receive_thread]'s loop for a captured frame. *)
Definition receive_frame (handler : packet_data → prog unit) (devIndex : Z) (hwaddr : list Z)
    (wireData : list Z) : prog unit :=
  '(ret, p) ← reparse (Packet (Z.of_nat (length wireData)) LINK_LAYER_SIZE None None None None
                 None None None None 0 wireData);
  if decide (ret ≠ 0) then mret tt else
  match p_arp p, p_ipv4 p with
  | Some _, _ => _ ← send_arp_reply p devIndex hwaddr; mret tt
  | None, None => mret tt
  | None, Some _ => handler p
  end.

(** ** The administration thread *)

Definition reset_ip_counts : arg_network_info → arg_network_info :=
  with_proto (λ q, q <| goodIPCount := 0 |> <| badIPCount := 0 |>).

(** [int prop]: good packets per bad one, or all good ones when none was bad. *)
Definition ip_prop (g : arg_network_info) : Z :=
  s32 (if decide (badIPCount (proto g) ≠ 0)
       then goodIPCount (proto g) / badIPCount (proto g) else goodIPCount (proto g)).

(** The body of the loop over the gateways for one of them. *)
Definition admin_gate (local gate : loc) (checkCount : Z) (curr : timespec) : prog Z :=
  g ← gate_get gate;
  let offset := time_offset (lastDataUpdate g) curr in
  (if connected g && bool_decide (offset > MAX_UPDATE_TIME * 1000)
   then end_connection local gate else mret tt);;
  (if decide (checkCount mod CONNECT_WAIT_TIME = 0)
   then start_connection local gate else mret tt);;
  g ← gate_get gate;
  let offset := time_offset (pingSentTime (proto g)) curr in
  (if connected g && bool_decide (MIN_VALID_IP_PROP > ip_prop g ∨ offset > MAX_PING_TIME * 1000)
   then start_time_sync local gate;; gate_upd gate reset_ip_counts else mret tt);;
  do_next_protocol_action local gate.

Fixpoint admin_gates (fuel : nat) (local : loc) (gate : option loc) (checkCount : Z)
    (curr : timespec) : prog unit :=
  match gate with
  | None => mret tt
  | Some l =>
      match fuel with
      | O => stuck
      | S fuel =>
          _ ← admin_gate local l checkCount curr;
          g ← gate_get l;
          admin_gates fuel local (next g) checkCount curr
      end
  end.

(** One round of [hopper_admin_thread]; the result is the next [checkCount]. *)
Definition admin_round (checkCount : Z) : prog Z :=
  curr ← current_time;
  gi ← gateInfo;
  local ← deref gi;
  l ← gate_get local;
  gs ← gets w_gates;
  admin_gates (size gs) local (next l) checkCount curr;;
  let checkCount := u32 (checkCount + 1) in
  (if decide (checkCount mod GATE_PRINT_TIME = 0) then _ ← print_associated_networks; mret tt else mret tt);;
  mret checkCount.
End Director.
