(* ===== verification/Threads.v ===== *)
(** * The program's threads (src/director.c, src/hopper.c, src/nat.c, and the
    network cards' queries of src/packet.c)

    Four threads run until they are cancelled: a receiver per device, the
    administration of the connections, and the cleaner of the NAT table.  A
    thread is what it does in a number of turns of its loop; what comes in from
    outside (frames, and answers of the kernel) is an argument or the class
    [Nic].  Sleeping is left out. *)

From S2P Require Import Prelude Words Settings ArgError CString Utility Crypto Packet Gate Uthash NatData World Net Hopper Message ArgPacket Protocol Nat Tables Director.

Definition IFNAMSIZ : nat := 16.

(** [socket] and [ioctl]: results and what they store. *)
Class Nic := {
  raw_socket : Z;
  ioctl_hwaddr : list Z → Z * list Z;
  ioctl_index : list Z → Z * Z;
  (** [pcap_datalink pd = DLT_EN10MB] for a device *)
  datalink_ethernet : list Z → bool }.

Section Nic.
Context `{Nic}.

Definition ifr_name (dev : list Z) : list Z := strncpy (zeros IFNAMSIZ) dev (IFNAMSIZ - 1).

(** The result and the address, which is written on success only. *)
Definition get_mac_addr (dev : list Z) : Z * option (list Z) :=
  if decide (raw_socket < 0) then (-1, None) else
  let '(ret, sa_data) := ioctl_hwaddr (ifr_name dev) in
  if decide (ret < 0) then (ret, None) else (0, Some (take ETH_ALEN sa_data)).

Definition get_dev_index (dev : list Z) : Z :=
  if decide (raw_socket < 0) then -1 else
  let '(ret, idx) := ioctl_index (ifr_name dev) in
  if decide (ret < 0) then ret else idx.
End Nic.

Section Threads.
Context `{PolarSSL, Env}.

(** One turn per result of [pcap_next]; [None] when its timeout ran out.  The
    list ends when [receiveShouldRun] is found false. *)
Fixpoint receive_loop (handler : packet_data → prog unit) (devIndex : Z) (hwaddr : list Z)
    (frames : list (option (list Z))) : prog unit :=
  match frames with
  | [] => mret tt
  | None :: frames => receive_loop handler devIndex hwaddr frames
  | Some wireData :: frames =>
      receive_frame handler devIndex hwaddr wireData;; receive_loop handler devIndex hwaddr frames
  end.

(** The two handlers, as the receivers call them: what becomes of the packet
    is only logged. *)
Definition inbound_handler (p : packet_data) : prog unit := _ ← direct_inbound p; mret tt.
Definition outbound_handler (p : packet_data) : prog unit := _ ← direct_outbound p; mret tt.

(** The thread's result, as a number. *)
Definition receive_thread `{Nic} (handler : packet_data → prog unit) (dev : list Z)
    (frames : list (option (list Z))) : prog Z :=
  match get_mac_addr dev with
  | (0, Some hwaddr) =>
      let devIndex := get_dev_index dev in
      if decide (devIndex < 0) then mret (- ARG_CONFIG_BAD) else
      if negb (datalink_ethernet dev) then mret (- ARG_CONFIG_BAD) else
      receive_loop handler devIndex hwaddr frames;; mret 0
  | _ => mret (- ARG_CONFIG_BAD)
  end.

Definition nat_cleanup_round : prog unit :=
  clean_nat_table;; nat_lock;; _ ← print_nat_table; nat_unlock.
Fixpoint nat_cleanup_thread (turns : nat) : prog unit :=
  match turns with O => mret tt | S turns => nat_cleanup_round;; nat_cleanup_thread turns end.

Fixpoint hopper_admin_loop (turns : nat) (checkCount : Z) : prog unit :=
  match turns with O => mret tt | S turns => c ← admin_round checkCount; hopper_admin_loop turns c end.
Definition hopper_admin_thread (turns : nat) : prog unit := hopper_admin_loop turns 0.
End Threads.
