(* ===== verification/DirectorFacts.v ===== *)
(** * Address checks and their limits (src/director.c, src/hopper.c)

    What [direct_inbound] does with wrapped packets whose addresses are not
    valid, and the hop direction search. *)

From S2P Require Import Prelude Words Settings ArgError Utility Crypto Packet PacketFacts Gate Uthash NatData World Net ToyCrypto ToyWorld Layout Hopper HopperFacts Message ArgPacket Protocol Nat Director.

Section Inbound.
Context `{Hok : PolarSSL_ok} `{Env}.
Implicit Types w : world.

(** A parsed ARG packet from [saddr] to [daddr] with a message of type [type]. *)
Definition arg_packet (p : packet_data) (type : Z) (saddr daddr : list Z) : Prop :=
  ∃ ip arg, p_ipv4 p = Some ip ∧ p_arg p = Some arg
    ∧ rd (ip + 12) ADDR_SIZE (p_data p) = Some saddr
    ∧ rd (ip + 16) ADDR_SIZE (p_data p) = Some daddr
    ∧ rd8 (arg + arg_type_off) (p_data p) = Some type.

Definition bad_ip_noted (remote : loc) (gr : arg_network_info) (w w' : world) : Prop :=
  w_gates w' = <[remote := with_proto (λ p, p <| badIPCount ::= (λ c, u32 (c + 1)) |>) gr]> (w_gates w)
  ∧ w_sent w' = w_sent w ∧ w_nat w' = w_nat w.

Lemma bad_ip_run remote gr (v : verdict) w0 w :
  w_gates w = w_gates w0 → w_sent w = w_sent w0 → w_nat w = w_nat w0 → w_gates w0 !! remote = Some gr →
  wp (note_bad_ip remote;; mret v) (λ r w', r = v ∧ bad_ip_noted remote gr w0 w') w.
Proof.
  intros Hg Hs Hn Hr. unfold note_bad_ip. eapply wp_bind_upd; [by rewrite Hg|].
  apply wp_ret. split; [done|]. unfold bad_ip_noted. cbn. by rewrite Hg, Hs, Hn.
Qed.

(** C27. Address checks on wrapped traffic from a known, connected gateway: a
    packet whose destination is not the local gateway's address of now or one
    hop ago is dropped, and so is one whose source is not the sender's; both
    count as a bad address of the sender, and nothing is unwrapped or sent. *)
Theorem invalid_addresses_dropped p saddr daddr local remote gl gr w :
  arg_packet p ARG_WRAPPED_MSG saddr daddr →
  get_arg_network saddr w = Done (Some remote) w →
  w_gateInfo w = Some local → w_gates w !! local = Some gl → w_gates w !! remote = Some gr →
  lock gl = false → lock gr = false → connected gr = true →
  let c := w_clock w in
  (valid_at gl (env_clock c) (env_clock (S c)) daddr = false →
     ∃ w', direct_inbound p w = Done DestIPIncorrect w' ∧ bad_ip_noted remote gr w w')
  ∧ (valid_at gl (env_clock c) (env_clock (S c)) daddr = true →
     (∀ i, (c < i ≤ c + 2)%nat → valid_at gr (env_clock i) (env_clock (S i)) saddr = false) →
     ∃ w', direct_inbound p w = Done SourceIPIncorrect w' ∧ bad_ip_noted remote gr w w').
Proof.
  intros (ip & arg & Hip & Harg & Hs & Hd & Ht) Hget Hi Hl Hr Hkl Hkr Hconn c.
  assert (∀ Q, wp (inbound_wrapped p remote saddr daddr) Q w → wp (direct_inbound p) Q w) as Hin.
  { intros Q HQ. unfold direct_inbound. eapply wp_bind_lift; [done|]. eapply wp_bind_load; [done|].
    apply wp_bind. unfold wp at 1. rewrite Hget, Harg. unfold get_msg_type.
    eapply wp_bind_lift; [done|]. change (is_admin_msg ARG_WRAPPED_MSG) with false. cbn match.
    by eapply wp_bind_load. }
  assert (∀ Q, (∀ b w1, b = valid_at gl (env_clock c) (env_clock (S c)) daddr → only_clock local w w1 →
      wp (if negb b then note_bad_ip remote;; mret DestIPIncorrect else
          ok ← is_valid_ip remote saddr;
          if negb ok then note_bad_ip remote;; mret SourceIPIncorrect else
          note_good_ip remote;; Unwrapped <$> do_arg_unwrap p remote) Q w1) →
    wp (direct_inbound p) Q w) as Hcheck.
  { intros Q HQ. apply Hin. unfold inbound_wrapped. eapply wp_bind_get; [done|]. rewrite Hconn. cbn [negb].
    apply wp_bind. unfold is_valid_local_ip, gateInfo. apply wp_bind_gets. rewrite Hi.
    apply wp_bind_lift with (1 := eq_refl). eapply wp_mono; [by apply is_valid_ip_run|].
    intros b w1 [-> Ho]. by apply HQ. }
  split.
  - intros Hv. assert (wp (direct_inbound p) (λ v w', v = DestIPIncorrect ∧ bad_ip_noted remote gr w w') w)
      as (v & w' & Hrun & -> & Hb)%wp_elim; [|by exists w'].
    apply Hcheck. intros b w1 -> [Hg1 _ Hs1 Hn1 _]. rewrite Hv. cbn [negb]. by apply bad_ip_run.
  - intros Hv Hsrc.
    assert (wp (direct_inbound p) (λ v w', v = SourceIPIncorrect ∧ bad_ip_noted remote gr w w') w)
      as (v & w' & Hrun & -> & Hb)%wp_elim; [|by exists w'].
    apply Hcheck. intros b w1 -> [Hg1 _ Hs1 Hn1 Hc1]. rewrite Hv. cbn [negb].
    apply wp_bind. eapply wp_mono; [apply is_valid_ip_run; [by rewrite Hg1|done]|].
    intros b w2 [-> [Hg2 _ Hs2 Hn2 _]]. rewrite Hsrc by (unfold c; lia). cbn [negb].
    apply bad_ip_run; congruence.
Qed.

(** ** The direction of an invalid address *)

Lemma ip_direction_loop_run n gate g ip i w :
  w_gates w !! gate = Some g →
  (∀ j, (j < n)%nat → ip_at g (env_clock (w_clock w + j)) (s32 (u32 (hopInterval g * INT_MAX))) ≠ Some ip) →
  wp (ip_direction_loop n gate ip i INT_MAX) (λ d w', d = INT_MAX ∧ w_gates w' = w_gates w) w.
Proof.
  revert i w. induction n as [|n IH]; intros i w Hg Hne; cbn [ip_direction_loop]; [by apply wp_ret|].
  eapply wp_bind_get; [done|]. eapply wp_bind_generate; [done|]. intros ip' Hip'.
  rewrite decide_False.
  - eapply wp_mono; [apply IH; [done|]|done]. intros j Hj. cbn [w_clock upd].
    replace (S (w_clock w) + j)%nat with (w_clock w + S j)%nat by lia. apply Hne. lia.
  - intros ->. apply (Hne 0%nat); [lia|]. by rewrite Nat.add_0_r.
Qed.

(** C38. [invalid_ip_direction] tries the correction [hopInterval * dir] eleven
    times instead of [hopInterval * i]: an address that is not the one for
    [dir = INT_MAX] is reported as unknown, however many hops it is off. *)
Theorem direction_never_found gate g ip w :
  w_gates w !! gate = Some g →
  (∀ j, (j < 11)%nat → ip_at g (env_clock (w_clock w + j)) (s32 (u32 (hopInterval g * INT_MAX))) ≠ Some ip) →
  ∃ w', invalid_ip_direction gate ip w = Done INT_MAX w'.
Proof.
  intros Hg Hne. destruct (wp_elim _ _ _ (ip_direction_loop_run 11 gate g ip (-5) w Hg Hne))
    as (d & w' & Hr & -> & _). by exists w'.
Qed.
End Inbound.

(** ** Evaluation *)

(** The address of gateway A one hop from now. *)
Definition next_ip : list Z :=
  Eval vm_compute in default [] (ip_at (gateA (Some 2%positive) None) (Timespec 100 0) 1000).

Lemma direction_never_found_witness :
  ∃ w', invalid_ip_direction 1%positive next_ip worldA = Done INT_MAX w'.
Proof.
  apply (direction_never_found 1%positive (gateA (Some 2%positive) None)); [reflexivity|].
  intros j _. change (env_clock (w_clock worldA + j)) with (Timespec 100 0).
  vm_compute. congruence.
Defined.

(** A wrapped packet from A to an address B never had. *)
Definition stray_packet : packet_data :=
  Packet 160 0 None (Some 0) None None None None (Some 20) (Some 156) 4
    ([69; 0; 0; 160; 0; 0; 0; 0; 32; 253; 0; 0] ++ [10; 1; 1; 77] ++ [10; 2; 2; 200] ++ zeros 140).

Lemma invalid_addresses_dropped_witness :
  ∃ w', direct_inbound stray_packet worldB = Done DestIPIncorrect w'
    ∧ bad_ip_noted 2%positive (gateA None (Some 1%positive)) worldB w'.
Proof.
  apply (invalid_addresses_dropped stray_packet [10; 1; 1; 77] [10; 2; 2; 200] 1%positive 2%positive
    (gateB (Some 2%positive) None) (gateA None (Some 1%positive)) worldB); try reflexivity.
  by exists 0, 20.
Defined.
