(* ===== verification/NatSafe.v ===== *)
(** * The NAT comes back and keeps its table (src/nat.c)

    Whatever the packet holds and whether or not memory runs out, each of the
    three operations of the NAT that the threads call gives [natTableLock] back
    and leaves a well-formed table -- or is undefined.  The interface to the
    rest is [nat_ready], which the other operations do not touch. *)

From S2P Require Import Prelude Linked Words Settings ArgError Utility Crypto Packet Gate Uthash UthashFacts NatData World Net Layout HopperFacts Hopper Nat NatFacts NatClean NatTable NatRoundTrip Tables TablesFacts Director Threads.

Create HintDb nat_runs.

Section NatSafe.
Context `{PolarSSL, Env}.
Implicit Types w : world.

(** The table is well-formed, its mutex is held as [b] says, [ipLock] is free. *)
Record nat_ready (b : bool) (w : world) : Prop := {
  nr_lock : natTableLock (w_nat w) = b;
  nr_table : ∃ abs, nat_ok (w_nat w) abs;
  nr_ip : w_ipLock w = false }.

Definition same_net (w w' : world) : Prop :=
  w_gates w' = w_gates w ∧ w_gateInfo w' = w_gateInfo w.

(** From a ready state in which the mutex is held as [b] says, [m] comes back
    with the mutex as [b'] says and the gateways untouched. *)
Definition nat_runs (b b' : bool) {A} (m : prog A) : Prop := ∀ w,
  nat_ready b w →
  match m w with Done _ w' => nat_ready b' w' ∧ same_net w w' | Fault | Exited => True | Stuck => False end.

(** ** Rules *)

Lemma nat_runs_bind {A B} b b1 b' (m : prog A) (k : A → prog B) :
  nat_runs b b1 m → (∀ a, nat_runs b1 b' (k a)) → nat_runs b b' (m ≫= k).
Proof using Type.
  intros Hm Hk w Hw. specialize (Hm w Hw). unfold mbind, proc_bind.
  destruct (m w) as [a w1| | |]; [|done..]. destruct Hm as [Hw1 [E1 E2]]. specialize (Hk a w1 Hw1).
  destruct (k a w1) as [c w2| | |]; [|done..]. destruct Hk as [? [? ?]]. split; [done|]. split; congruence.
Qed.

Lemma nat_runs_ret {A} b (a : A) : nat_runs b b (mret a).
Proof using Type. by intros w Hw. Qed.
Lemma nat_runs_gets {A} b (f : world → A) : nat_runs b b (gets f).
Proof using Type. by intros w Hw. Qed.
Lemma nat_runs_lift {A} b (o : option A) : nat_runs b b (lift_opt o).
Proof using Type. by destruct o. Qed.

(** What does not touch the table. *)
Definition apart {A} (m : prog A) : Prop := ∀ w, w_ipLock w = false →
  match m w with
  | Done _ w' => w_nat w' = w_nat w ∧ w_ipLock w' = false ∧ same_net w w'
  | Fault | Exited => True | Stuck => False end.

Lemma nat_runs_apart {A} b (m : prog A) : apart m → nat_runs b b m.
Proof using Type.
  intros Hm w [Hl Ht Hi]. specialize (Hm w Hi). destruct (m w); [|done..]. destruct Hm as (E & ? & ?).
  split; [|done]. split; by rewrite ?E.
Qed.

(** A change of the table alone, without its mutex. *)
Lemma nat_runs_table {A} b (m : prog A) :
  (∀ w abs, nat_ok (w_nat w) abs →
    match m w with
    | Done _ w' => ∃ n abs', w' = set_nat n w ∧ nat_ok n abs' ∧ natTableLock n = natTableLock (w_nat w)
    | Fault | Exited => True | Stuck => False end) → nat_runs b b m.
Proof using Type.
  intros Hm w [Hl (abs & Ht) Hi]. specialize (Hm w abs Ht). destruct (m w); [|done..].
  destruct Hm as (n & abs' & -> & Hn & E). split; [|done].
  split; [change (natTableLock n = b); congruence|by exists abs'|done].
Qed.

Lemma apart_bind {A B} (m : prog A) (k : A → prog B) : apart m → (∀ a, apart (k a)) → apart (m ≫= k).
Proof using Type.
  intros Hm Hk w Hw. specialize (Hm w Hw). unfold mbind, proc_bind.
  destruct (m w) as [a w1| | |]; [|done..]. destruct Hm as (E & Hw1 & [E1 E2]). specialize (Hk a w1 Hw1).
  destruct (k a w1) as [c w2| | |]; [|done..]. destruct Hk as (? & ? & [? ?]). split_and!; [congruence|done|].
  split; congruence.
Qed.
Lemma apart_ret {A} (a : A) : apart (mret a).
Proof using Type. by intros w Hw. Qed.
Lemma apart_fault {A} : apart (@fault world A).
Proof using Type. by intros w Hw. Qed.
Lemma apart_lift {A} (o : option A) : apart (lift_opt o).
Proof using Type. by destruct o. Qed.
Lemma apart_time : apart current_time.
Proof using Type. by intros w Hw. Qed.
Lemma apart_malloc : apart malloc_ok.
Proof using Type. by intros w Hw. Qed.
Lemma apart_sendto o : apart (sendto o).
Proof using Type. intros w Hw. unfold sendto. by case_decide. Qed.
Lemma apart_gate_get l : apart (gate_get l).
Proof using Type. intros w Hw. unfold gate_get, gets, mbind, proc_bind. by destruct (w_gates w !! l). Qed.
End NatSafe.

#[export] Hint Resolve nat_runs_ret nat_runs_gets nat_runs_lift apart_ret apart_fault apart_lift apart_time
  apart_malloc apart_sendto apart_gate_get : nat_runs.


(** Walk through a procedure; the mutex is as it is at each leaf. *)
Ltac apart_step :=
  match goal with
  | |- apart (_ ≫= _) => apply apart_bind; [| intros ?]
  | |- apart (match ?x with _ => _ end) => destruct x eqn:?
  | |- _ => solve [eauto with nat_runs]
  end.
Ltac apart_walk := repeat apart_step.
Ltac nat_step :=
  match goal with
  | |- nat_runs ?b ?b (_ ≫= _) => eapply (nat_runs_bind b b); [| intros ?]
  | |- nat_runs _ _ (match ?x with _ => _ end) => destruct x eqn:?
  | |- _ => solve [eauto with nat_runs]
  | |- nat_runs ?b ?b _ => apply nat_runs_apart; solve [eauto with nat_runs]
  end.
Ltac nat_walk := repeat nat_step.

Section Operations.
Context `{PolarSSL, Env}.
Implicit Types w : world.

(** ** Besides the table *)

Lemma apart_current_ip : apart current_ip.
Proof using Type.
  intros w Hw. unfold current_ip, ipLock_lock, gets, modify, mbind, proc_bind. rewrite Hw.
  unfold gateInfo, gets, deref. destruct (w_gateInfo _) as [l|] eqn:Hi; [|done].
  cbn [lift_opt mret proc_ret]. unfold generate_ip_corrected, current_time, mbind, proc_bind.
  unfold gate_get, gets, mbind, proc_bind. destruct (w_gates _ !! l) as [g|]; [|done].
  cbn [lift_opt mret proc_ret]. destruct (ip_at _ _ _); [|done]. by split_and!.
Qed.
Lemma apart_load off n p : apart (load off n p).
Proof using Type. apply apart_lift. Qed.
Lemma apart_store off bs p : apart (store off bs p).
Proof using Type. apply apart_lift. Qed.
Lemma apart_reparse p : apart (reparse p).
Proof using Type. apply apart_lift. Qed.
Hint Resolve apart_current_ip apart_load apart_store apart_reparse : nat_runs.
Lemma apart_copy_packet p : apart (copy_packet p).
Proof using Type. unfold copy_packet. apart_walk. Qed.
Lemma apart_create_packet len : apart (create_packet len).
Proof using Type. unfold create_packet. apart_walk. Qed.
Lemma apart_send_packet p : apart (send_packet p).
Proof using Type. unfold send_packet. apart_walk. Qed.
Lemma apart_send_packet_on i p : apart (send_packet_on i p).
Proof using Type. unfold send_packet_on. apart_walk. Qed.
Lemma apart_fill_arp a b c d p : apart (fill_arp_reply a b c d p).
Proof using Type. unfold fill_arp_reply. apart_walk. Qed.
Hint Resolve apart_copy_packet apart_create_packet apart_send_packet apart_send_packet_on apart_fill_arp : nat_runs.
Lemma apart_arp_reply p i mac : apart (send_arp_reply p i mac).
Proof using Type. unfold send_arp_reply. apart_walk. Qed.
Lemma apart_rewrite_dest x p : apart (rewrite_dest x p).
Proof using Type. unfold rewrite_dest. apart_walk. Qed.
Lemma apart_rewrite_source x p : apart (rewrite_source x p).
Proof using Type. unfold rewrite_source. apart_walk. Qed.
Hint Resolve apart_rewrite_dest apart_rewrite_source : nat_runs.

(** ** The table *)

Lemma nat_runs_entry_get b l : nat_runs b b (entry_get l).
Proof using Type.
  intros w Hw. unfold entry_get, gets, mbind, proc_bind. by destruct (n_entries (w_nat w) !! l).
Qed.
Hint Resolve nat_runs_entry_get : nat_runs.
Lemma nat_runs_rewritten b rewrite e p :
  (∀ x q, apart (rewrite x q)) → nat_runs b b (send_rewritten rewrite e p).
Proof using Type. intros Hr. unfold send_rewritten. nat_walk. Qed.

Lemma nat_runs_lock : nat_runs false true nat_lock.
Proof using Type.
  intros w [Hl (abs & Ht) Hi]. unfold nat_lock, gets, mbind, proc_bind. rewrite Hl. split; [|done].
  split; [done|by exists abs; apply locked_ok|done].
Qed.

Lemma nat_runs_unlock b : nat_runs b false nat_unlock.
Proof using Type.
  intros w [Hl (abs & Ht) Hi]. split; [|done]. split; [done|by exists abs; apply locked_ok|done].
Qed.

(** An allocated bucket is one of the table's. *)
Lemma nat_ok_split n abs bl b :
  nat_ok n abs → n_buckets n !! bl = Some b → ∃ pre c post, abs = pre ++ c :: post ∧ cn_bucket c = bl.
Proof using Type.
  intros Hn Hb. assert (bl ∈ cn_bucket <$> abs) as Hin by (apply (no_heap _ _ Hn); by eexists).
  apply list_elem_of_fmap in Hin as (c & -> & Hc). apply list_elem_of_split in Hc as (pre & post & ->).
  by exists pre, c, post.
Qed.

Lemma nat_runs_search b test bl : nat_runs b b (search test bl).
Proof using Type.
  intros w Hw. pose proof Hw as [_ (abs & Ht) _].
  destruct (n_buckets (w_nat w) !! bl) as [x|] eqn:Hb.
  - destruct (nat_ok_split _ _ _ _ Ht Hb) as (pre & c & post & -> & <-).
    pose proof (wp_bind_search test pre c post mret (λ _ w', w' = w) w Ht eq_refl) as Hs.
    apply wp_bind, wp_elim in Hs as (e & w' & -> & E). cbn in E. by subst.
  - unfold search, bucket_get, gets, mbind, proc_bind. by rewrite Hb.
Qed.

Lemma nat_runs_touch b e : nat_runs b b (update_nat_entry_time e).
Proof using Type.
  eapply nat_runs_bind; [by apply nat_runs_apart, apart_time|intros now].
  apply nat_runs_table. intros w abs Ht. unfold entry_upd, entry_get, gets, nat_modify, modify, mbind, proc_bind.
  destruct (n_entries (w_nat w) !! e) as [x|] eqn:He; [|done]. cbn [lift_opt mret proc_ret].
  exists (touch now e (w_nat w)), abs. split_and!; [|by apply nat_ok_touch|done].
  unfold touch, alter_entries, set_nat. destruct w as [? ? [] ? ? ? ? ?]. cbn in *. by rewrite (alter_as_insert _ _ _ _ He).
Qed.

(** [create_nat_entry] once it has its memory and its address. *)
Lemma nat_runs_new_entry b bl (mk : nat_entry) :
  nat_runs b b (
    n ← gets w_nat;
    let l := fresh_loc (n_entries n) in
    nat_modify (λ n, n <| n_entries ::= (λ h, <[l := mk]> h) |>);; link_head l bl;; mret (Some l)).
Proof using Type.
  apply nat_runs_table. intros w abs Ht. unfold gets, mbind at 1, proc_bind at 1.
  set (n := w_nat w) in *. set (l := fresh_loc (n_entries n)) in *. cbv zeta.
  pose proof (fresh_loc_None (n_entries n)) as Hl. fold l in Hl.
  destruct (n_buckets n !! bl) as [x|] eqn:Hb.
  - destruct (nat_ok_split _ _ _ _ Ht Hb) as (pre & c & post & -> & <-).
    destruct (nat_ok_bucket _ _ _ _ Ht) as (x' & Hx' & _ & Hes). simplify_eq.
    pose proof (nat_ok_entries_nodup _ _ _ _ Ht) as Hnd.
    pose proof (headed_by_change l (cn_bucket c) x mk n (cn_entries c) Hb Hes Hnd Hl) as Hch.
    assert (l ∉ cn_entries c) as Hnin by (intros Hin; destruct (dseg_lookup Hes Hin); congruence).
    set (w1 := w <| w_nat ::= (λ n, n <| n_entries ::= (λ h, <[l := mk]> h) |>) |>).
    pose proof (wp_bind_link_head l (cn_bucket c) x mk n (cn_entries c) (λ _, mret (Some l))
      (λ _ w', ∃ n', w' = set_nat n' w1 ∧ change (cn_bucket c) (cn_entries c) (l :: cn_entries c) n n') w1
      Hb Hes Hnd Hl eq_refl ltac:(apply wp_ret; eexists; split; [reflexivity|exact Hch])) as Hrun.
    unfold nat_modify, modify, mbind at 1, proc_bind at 1. fold w1.
    apply wp_elim in Hrun as (r & w' & -> & n' & -> & Hch'). eexists n', _. split_and!; [done| |].
    + apply (nat_ok_change _ _ _ _ _ _ Ht Hch'); [by constructor|]. intros y [->|?]%elem_of_cons; auto.
    + apply (ch_lock _ _ _ _ _ Hch').
  - unfold nat_modify, modify, link_head, bucket_get, gets, mbind, proc_bind.
    cbn [w_nat upd n_buckets]. fold n. by rewrite Hb.
Qed.

Lemma nat_runs_create_entry b s port proto bl : nat_runs b b (create_nat_entry s port proto bl).
Proof using Type.
  unfold create_nat_entry. eapply nat_runs_bind; [by apply nat_runs_apart, apart_malloc|intros []]; cbn [negb]; [|nat_walk].
  eapply nat_runs_bind; [apply nat_runs_apart, apart_current_ip|intros ip].
  apply (nat_runs_new_entry b bl (NatEntry s port ip port proto (Timespec 0 0) None None None)).
Qed.

(** The bucket of a key is found, or made. *)
Lemma nat_runs_bucket {B} b b' extip extport key (k : option loc → prog B) :
  (∀ o, nat_runs b b' (k o)) →
  nat_runs b b' (
    n ← gets w_nat;
    bucket ← (match HASH_FIND_INT (natTable n) key with
              | Some x => mret (Some x)
              | None => create_nat_bucket extip extport key
              end);
    k bucket).
Proof using Type.
  intros Hk w Hw. unfold gets, mbind at 1, proc_bind at 1. destruct (HASH_FIND_INT _ key) eqn:Hf.
  - rewrite ret_bind. by apply Hk.
  - pose proof Hw as [Hl (abs & Ht) Hi].
    assert (key ∉ cn_key <$> abs) as Hnin.
    { intros Hin. destruct (bucket_cases abs key) as [(pre & c & post & -> & <-)|Hn]; [|done].
      rewrite (find_bucket _ _ _ _ Ht) in Hf. done. }
    unfold create_nat_bucket, malloc_ok, gets, nat_modify, modify, uthash, mbind, proc_bind. cbn [w_nat upd].
    set (w0 := w <| w_malloc ::= S |>). change (same_net w) with (same_net w0).
    destruct (env_malloc _); cbn [negb]; [|by apply (Hk None w0); split; [| exists abs|]].
    pose proof (add_bucket (λ i _, env_malloc i) (w_nat w) abs key (S (w_malloc w)) Ht Hnin) as Hadd.
    cbn [w_malloc upd]. destruct (HASH_ADD_INT _ _ _ _ _) as [t j| | |]; [|done..].
    set (w1 := w <| w_malloc := j |>). change (same_net w0) with (same_net (set_nat (new_bucket extip extport key t (w_nat w)) w1)).
    apply (Hk (Some (fresh_loc (n_buckets (w_nat w)))) (set_nat (new_bucket extip extport key t (w_nat w)) w1)).
    split; [done| |done]. eexists. by apply (nat_ok_new_bucket (w_nat w) abs extip extport key).
Qed.
Hint Resolve nat_runs_search nat_runs_touch nat_runs_create_entry : nat_runs.

(** ** The three operations *)

Ltac unlock := eapply nat_runs_bind; [apply nat_runs_unlock|intros []]; nat_walk.

Lemma nat_runs_inbound p : nat_runs false false (do_nat_inbound_rewrite p).
Proof using Type.
  unfold do_nat_inbound_rewrite. nat_step; [nat_walk|]. eapply nat_runs_bind; [apply nat_runs_lock|intros []].
  do 3 (eapply (nat_runs_bind true true); [nat_walk|intros ?]). case_match; [|unlock].
  do 4 (eapply (nat_runs_bind true true); [nat_walk|intros ?]). case_match; [|unlock].
  eapply (nat_runs_bind true true); [nat_walk|intros []]. unlock. apply nat_runs_rewritten. eauto with nat_runs.
Qed.

Lemma nat_runs_outbound p : nat_runs false false (do_nat_outbound_rewrite p).
Proof using Type.
  unfold do_nat_outbound_rewrite. nat_step; [nat_walk|]. eapply nat_runs_bind; [apply nat_runs_lock|intros []].
  do 2 (eapply (nat_runs_bind true true); [nat_walk|intros ?]). apply nat_runs_bucket. intros [bl|]; [|unlock].
  do 4 (eapply (nat_runs_bind true true); [nat_walk|intros ?]).
  eapply (nat_runs_bind true true); [nat_walk|intros [e|]]; [|unlock].
  eapply (nat_runs_bind true true); [nat_walk|intros []]. unlock. apply nat_runs_rewritten. eauto with nat_runs.
Qed.

Lemma nat_runs_print b : nat_runs b b print_nat_table.
Proof using Type. intros w [Hl (abs & Ht) Hi]. rewrite (nat_table_printed _ _ Ht). split; [|done]. by split; [|exists abs|]. Qed.

Lemma nat_runs_cleanup : nat_runs false false nat_cleanup_round.
Proof using Type.
  unfold nat_cleanup_round. eapply (nat_runs_bind false false).
  - intros w [Hl (abs & Ht) Hi]. destruct (wp_elim _ _ _ (clean_table_run abs w Ht Hl)) as (u & w' & -> & n' & -> & Hn & Hl' & _).
    split; [|done]. split; [done|by eexists|done].
  - intros []. eapply nat_runs_bind; [apply nat_runs_lock|intros []].
    eapply nat_runs_bind; [apply nat_runs_print|intros lines]. apply nat_runs_unlock.
Qed.
End Operations.
