(* ===== verification/Invariant.v ===== *)
(** * The invariant of the gateway heap (src/hopper.c, src/protocol.c)

    Every gateway record is well-formed and counts as connected exactly when
    both its connection data and its time base have arrived; the [next] chain
    from [gateInfo] visits distinct gateways and ends.  Each operation of the
    program keeps this, so it holds in every reachable state. *)

From S2P Require Import Prelude Words Settings ArgError Utility Crypto Packet Gate Uthash NatData World Net Layout Hopper Message ArgPacket Protocol Nat Tables Director Threads ToyCrypto ToyWorld.

(** Closes a goal on the width of fields that are kept, or set to a word. *)
Ltac word_fields := first [assumption | apply u32_range | apply htonl_range | done].
Ltac typed :=
  lazymatch goal with
  | |- gate_typed _ → _ => intros [[? ? ? ? ?] ?]; split; [split|]; word_fields
  | |- proto_typed _ → _ => intros [? ? ? ? ?]; split; word_fields
  end.

Section Invariant.
Context `{PolarSSL}.

(** The gateways reached from [p] through [next], in order. *)
Fixpoint chain (gs : gmap loc arg_network_info) (p : option loc) (ls : list loc) : Prop :=
  match ls with
  | [] => p = None
  | l :: ls => p = Some l ∧ ∃ g, gs !! l = Some g ∧ chain gs (next g) ls
  end.

Definition gate_good (g : arg_network_info) : Prop := conn_ok g ∧ gate_wf g ∧ gate_typed g.
Definition gates_ok (gs : gmap loc arg_network_info) : Prop :=
  map_Forall (λ _, gate_good) gs.

Record net_inv (w : world) : Prop := {
  inv_gates : gates_ok (w_gates w);
  inv_chain : ∃ ls, chain (w_gates w) (w_gateInfo w) ls ∧ NoDup ls }.

(** An update of one gateway that keeps its part of the invariant and does not
    touch the links. *)
Record benign (f : arg_network_info → arg_network_info) : Prop := {
  benign_conn : ∀ g, conn_ok g → conn_ok (f g);
  benign_wf : ∀ g, gate_wf g → gate_wf (f g);
  benign_typed : ∀ g, gate_typed g → gate_typed (f g);
  benign_next : ∀ g, next (f g) = next g }.

(** ** Chains *)

Lemma chain_agree gs gs' p ls :
  chain gs p ls →
  (∀ l g, l ∈ ls → gs !! l = Some g → ∃ g', gs' !! l = Some g' ∧ next g' = next g) →
  chain gs' p ls.
Proof.
  revert p. induction ls as [|l ls IH]; intros p; [done|].
  intros (-> & g & Hg & Hc) Hag. split; [done|].
  destruct (Hag l g) as (g' & Hg' & Hn); [by left|done|].
  exists g'. split; [done|]. rewrite Hn. apply IH; [done|].
  intros l' g0 Hl'. apply Hag. by right.
Qed.

Lemma chain_upd gs p ls l g g' :
  chain gs p ls → gs !! l = Some g → next g' = next g → chain (<[l := g']> gs) p ls.
Proof.
  intros Hc Hl Hn. apply (chain_agree gs); [done|]. intros l' g0 _ Hg0.
  destruct (decide (l = l')) as [<-|Hne].
  - exists g'. rewrite lookup_insert_eq. by simplify_eq.
  - exists g0. by rewrite lookup_insert_ne.
Qed.

Lemma chain_lookup gs p ls l : chain gs p ls → l ∈ ls → is_Some (gs !! l).
Proof.
  revert p. induction ls as [|l' ls IH]; intros p Hc Hl; [by apply not_elem_of_nil in Hl|].
  destruct Hc as (-> & g & Hg & Hc). apply elem_of_cons in Hl as [->|Hl]; [by eexists|eauto].
Qed.

Lemma chain_fun gs p ls ls' : chain gs p ls → chain gs p ls' → ls = ls'.
Proof.
  revert p ls'. induction ls as [|l ls IH]; intros p [|l' ls']; cbn.
  - done.
  - intros -> (? & _). done.
  - intros (-> & _) ?. done.
  - intros (-> & g & Hg & Hc) (Hp & g' & Hg' & Hc'). simplify_eq. f_equal. by eapply IH.
Qed.

Lemma chain_length gs p ls : chain gs p ls → NoDup ls → (length ls ≤ size gs)%nat.
Proof. intros Hc Hnd. apply path_fuel; [done|]. intros l Hl. by eapply chain_lookup. Qed.

(** ** The primitive steps *)

Abbreviation keeps_inv m := (keeps net_inv m).

Lemma inv_ext (w w' : world) :
  w_gates w' = w_gates w → w_gateInfo w' = w_gateInfo w → net_inv w → net_inv w'.
Proof. intros Hg Hi [H1 H2]. split; rewrite ?Hg, ?Hi; done. Qed.

Lemma keeps_frame {A} (m : proc world A) :
  (∀ w a w', m w = Done a w' → w_gates w' = w_gates w ∧ w_gateInfo w' = w_gateInfo w) → keeps_inv m.
Proof. intros Hm w a w' Hr Hi. destruct (Hm _ _ _ Hr). by apply (inv_ext w). Qed.

Lemma keeps_gate_upd l f : benign f → keeps_inv (gate_upd l f).
Proof.
  intros [Hc Hw Ht Hn] w a w'.
  destruct (w_gates w !! l) as [g|] eqn:Hl; [|by rewrite gate_upd_None].
  rewrite (gate_upd_run _ _ _ _ Hl). intros [= _ <-] [Hok (ls & Hch & Hnd)]. split; cbn.
  - intros l' g'. rewrite lookup_insert_Some. intros [[_ <-]|[_ Hg']]; [|by apply (Hok l')].
    destruct (Hok l g Hl) as (? & ? & ?). unfold gate_good. auto.
  - exists ls. split; [by apply (chain_upd _ _ _ _ g)|done].
Qed.

Lemma keeps_gate_get l : keeps_inv (gate_get l).
Proof.
  apply keeps_frame. intros w a w'. destruct (w_gates w !! l) eqn:Hl.
  - rewrite (gate_get_run _ _ _ Hl). intros. by simplify_eq.
  - by rewrite gate_get_None.
Qed.

Section Env.
Context `{Env}.

Lemma keeps_time : keeps_inv current_time.
Proof. apply keeps_frame. unfold current_time. intros; by simplify_eq. Qed.
Lemma keeps_random n : keeps_inv (get_random_bytes n).
Proof. apply keeps_frame. unfold get_random_bytes. intros; by simplify_eq. Qed.
(** Four random bytes are a 32-bit word. *)
Lemma keeps_random_id {B} (k : list Z → proc world B) :
  (∀ id, is_u32 (le_val id) → keeps_inv (k id)) → keeps_inv (get_random_bytes 4 ≫= k).
Proof.
  intros Hk w b w' (id & w1 & [= <- <-] & Hr)%bind_done Hi. eapply Hk; [|exact Hr|by apply (inv_ext w)].
  apply (le_val_range [_; _; _; _]). repeat (apply Forall_cons; split); [apply u8_range..|done].
Qed.
Lemma keeps_malloc : keeps_inv malloc_ok.
Proof. apply keeps_frame. unfold malloc_ok. intros; by simplify_eq. Qed.
Lemma keeps_sendto o : keeps_inv (sendto o).
Proof. apply keeps_frame. unfold sendto. intros w a w' [= _ <-]. by case_decide. Qed.
End Env.

Lemma keeps_ipLock_lock : keeps_inv ipLock_lock.
Proof.
  apply respects_bind; [typeclasses eauto|apply respects_gets; typeclasses eauto|].
  intros []; [apply respects_stuck|]. by apply keeps_frame; intros ? ? ? [= _ <-].
Qed.
Lemma keeps_ipLock_unlock : keeps_inv ipLock_unlock.
Proof. by apply keeps_frame; intros ? ? ? [= _ <-]. Qed.
Lemma keeps_nat_modify f : keeps_inv (nat_modify f).
Proof. by apply keeps_frame; intros ? ? ? [= _ <-]. Qed.

(** ** The updates of the program are benign *)

Lemma benign_lock b : benign (λ g, g <| lock := b |>).
Proof. split; [done|by intros g []|by intros g []|done]. Qed.

Lemma benign_proto f :
  (∀ p, connDataAvailable (f p) = connDataAvailable p ∧ timeBaseAvailable (f p) = timeBaseAvailable p) →
  (∀ p, proto_typed p → proto_typed (f p)) →
  benign (with_proto f).
Proof.
  intros Hf Ht. split; [|by intros g []|intros g []; split; [by apply Ht|done]|done].
  intros g. unfold conn_ok. cbn. destruct (Hf (proto g)) as [-> ->]. done.
Qed.

Lemma benign_compose f f' : benign f → benign f' → benign (λ g, f (f' g)).
Proof. intros [? ? ? Hn] [? ? ? Hn']. split; auto. intros g. by rewrite Hn, Hn'. Qed.

Lemma benign_disconnect : benign disconnect.
Proof. split; [done|by intros g []|intros g; typed|done]. Qed.

Lemma benign_cipher c : benign (set_cipher c).
Proof. split; [done|by intros g []|by intros g []|done]. Qed.
Lemma benign_md m : benign (set_md m).
Proof. split; [done|by intros g []|by intros g []|done]. Qed.
Lemma benign_rng r : benign (λ l, l <| ctr_drbg := r |>).
Proof. split; [done|by intros g []|by intros g []|done]. Qed.

Lemma benign_sentPingID i : is_u32 i → benign (set_sentPingID i).
Proof. intros Hi. apply benign_proto; [by intros []|intros ?; typed]. Qed.

Lemma benign_accept_pong lat base : benign (accept_pong lat base).
Proof.
  split; intros g.
  - unfold conn_ok, accept_pong. intros Hg.
    repeat case_decide; cbn; destruct (connDataAvailable (proto g)) eqn:Hd; cbn; by rewrite ?Hd.
  - unfold accept_pong. intros []. repeat case_decide; cbn; by destruct (connDataAvailable _).
  - intros [[] ?]. unfold accept_pong.
    repeat case_decide; cbn; destruct (connDataAvailable _); (split; [split|]; word_fields).
  - unfold accept_pong. by repeat case_decide; cbn; destruct (connDataAvailable _).
Qed.

Lemma benign_accept_conn buf d now : read_conn buf = Some d → benign (accept_conn_data d now).
Proof.
  unfold read_conn. intros Hr.
  destruct (rd 0 _ buf) as [k|] eqn:Hk; [|done]. destruct (rd 32 _ buf) as [i|] eqn:Hi; [|done].
  destruct (rd 48 _ buf) as [h|] eqn:Hh; [|done]. destruct (rd32 64 buf); [|done].
  injection Hr as <-. apply rd_length in Hk, Hi, Hh. split; intros g.
  - unfold conn_ok, accept_conn_data. cbn. intros Hg.
    destruct (timeBaseAvailable (proto g)) eqn:Ht; cbn; rewrite ?Ht; [done|]. by rewrite Hg, andb_false_r.
  - unfold accept_conn_data. intros []. cbn. by destruct (timeBaseAvailable _).
  - intros [[] ?]. unfold accept_conn_data. cbn -[ntohl].
    destruct (timeBaseAvailable _); (split; [split|]; word_fields).
  - unfold accept_conn_data. cbn. by destruct (timeBaseAvailable _).
Qed.

Lemma benign_trusted buf t n e : read_trust buf = Some t → benign (trusted_gate t n e).
Proof.
  unfold read_trust. intros Hr.
  destruct (rd 0 _ buf) as [nm|]; [|done]. destruct (rd 10 _ buf) as [b|] eqn:Hb; [|done].
  destruct (rd 14 _ buf) as [m|] eqn:Hm; [|done]. destruct (rd 18 _ buf), (rd 148 _ buf); try done.
  injection Hr as <-. apply rd_length in Hb, Hm. split; intros g; [done| |typed|done].
  intros [Hk Hi Hh Hbl Hml Hnl]. split; [done..| | |].
  - apply length_mask_array; [cbn; by rewrite Hb|cbn; by rewrite Hm].
  - exact Hm.
  - rewrite <- Hnl. apply length_strncpy. rewrite Hnl. unfold MAX_NAME_SIZE. lia.
Qed.
End Invariant.

#[export] Hint Resolve keeps_gate_upd keeps_gate_get keeps_time keeps_random keeps_malloc keeps_sendto
  keeps_ipLock_lock keeps_ipLock_unlock keeps_nat_modify benign_lock benign_disconnect benign_cipher
  benign_md benign_rng benign_sentPingID benign_accept_pong benign_accept_conn : procs.
#[export] Hint Extern 2 (benign (with_proto _)) => (apply benign_proto; [by intros []|intros ?; typed]) : procs.

(** The setters of single protocol fields. *)
#[export] Hint Extern 2 (benign _) =>
  progress unfold set_inSeqNum, set_sendPing, set_sendConnData, set_sendTrust,
    set_pingSentTime, set_lastConnAttemptTime, reset_ip_counts : procs.
Lemma benign_ask `{PolarSSL} : benign ask_ping_and_trust.
Proof. apply (benign_compose (set_sendTrust true)); eauto with procs. Qed.
#[export] Hint Resolve benign_ask : procs.

(** ** Every operation keeps the invariant *)

Section Operations.
Context `{PolarSSL, Env}.

(** A preserved procedure: walk through it with the hints. *)
Ltac keep f := unfold f; proc_walk.
(** The same where the ID of a ping is drawn. *)
Ltac id_walk := repeat first [apply keeps_random_id; intros ? ? | proc_step].

Lemma keeps_lock l : keeps net_inv (mutex_lock l).
Proof. keep (@mutex_lock). Qed.
Lemma keeps_unlock l : keeps net_inv (mutex_unlock l).
Proof. keep (@mutex_unlock). Qed.
Hint Resolve keeps_lock keeps_unlock : procs.

Lemma keeps_store off bs p : keeps net_inv (store off bs p).
Proof. keep (@store). Qed.
Lemma keeps_load off n p : keeps net_inv (load off n p).
Proof. keep (@load). Qed.
Lemma keeps_reparse p : keeps net_inv (reparse p).
Proof. keep (@reparse). Qed.
Hint Resolve keeps_store keeps_load keeps_reparse : procs.

Lemma keeps_create_packet len : keeps net_inv (create_packet len).
Proof. keep (@create_packet). Qed.
Lemma keeps_copy_packet p : keeps net_inv (copy_packet p).
Proof. keep (@copy_packet). Qed.
Lemma keeps_send_packet p : keeps net_inv (send_packet p).
Proof. keep (@send_packet). Qed.
Hint Resolve keeps_create_packet keeps_copy_packet keeps_send_packet : procs.

Lemma keeps_generate g c : keeps net_inv (generate_ip_corrected g c).
Proof. keep (@generate_ip_corrected). Qed.
Hint Resolve keeps_generate : procs.
Lemma keeps_current_ip : keeps net_inv current_ip.
Proof. keep (@current_ip). Qed.
Lemma keeps_is_valid_ip g ip : keeps net_inv (is_valid_ip g ip).
Proof. keep (@is_valid_ip). Qed.
Hint Resolve keeps_current_ip keeps_is_valid_ip : procs.

Lemma keeps_find_network fuel p ip : keeps net_inv (find_network fuel p ip).
Proof. revert p. induction fuel as [|fuel IH]; intros [l|]; cbn [find_network]; proc_walk. Qed.
Hint Resolve keeps_find_network : procs.
Lemma keeps_get_arg_network ip : keeps net_inv (get_arg_network ip).
Proof. keep (@get_arg_network). Qed.
Hint Resolve keeps_get_arg_network : procs.

(** Messages and packets. *)
Lemma keeps_cipher_loop fuel b i len src so dst d c sum :
  keeps net_inv (cipher_loop fuel b i len src so dst d c sum).
Proof.
  revert i dst c sum. induction fuel as [|fuel IH]; intros i dst c sum; cbn [cipher_loop]; proc_walk.
Qed.
Lemma keeps_create_arg_msg len : keeps net_inv (create_arg_msg len).
Proof. keep (@create_arg_msg). Qed.
Lemma keeps_fill_ip_header l r p : keeps net_inv (fill_ip_header l r p).
Proof. keep (@fill_ip_header). Qed.
Hint Resolve keeps_cipher_loop keeps_create_arg_msg keeps_fill_ip_header : procs.
Lemma keeps_encrypt_body l r t a msg p : keeps net_inv (encrypt_body l r t a msg p).
Proof. keep (@encrypt_body); unfold encrypt_symmetric, encrypt_rsa; proc_walk. Qed.
Lemma keeps_sign_packet l t p : keeps net_inv (sign_packet l t p).
Proof. keep (@sign_packet). Qed.
Hint Resolve keeps_encrypt_body keeps_sign_packet : procs.
Lemma keeps_create_arg_packet l r t msg : keeps net_inv (create_arg_packet l r t msg).
Proof. keep (@create_arg_packet). Qed.
Hint Resolve keeps_create_arg_packet : procs.
Lemma keeps_send_arg_packet l r t msg : keeps net_inv (send_arg_packet l r t msg).
Proof. keep (@send_arg_packet). Qed.
Lemma keeps_check_signature r p q n : keeps net_inv (check_signature r p q n).
Proof. keep (@check_signature). Qed.
Lemma keeps_decrypt_body l p q n : keeps net_inv (decrypt_body l p q n).
Proof. keep (@decrypt_body); unfold decrypt_symmetric, decrypt_rsa; proc_walk. Qed.
Lemma keeps_recheck_seq r msg : keeps net_inv (recheck_seq r msg).
Proof. keep (@recheck_seq). Qed.
Hint Resolve keeps_send_arg_packet keeps_check_signature keeps_decrypt_body keeps_recheck_seq : procs.
Lemma keeps_process_arg_packet l r p : keeps net_inv (process_arg_packet l r p).
Proof. keep (@process_arg_packet). Qed.
Hint Resolve keeps_process_arg_packet : procs.

(** Protocol handlers. *)
Lemma keeps_send_arg_ping l r : keeps net_inv (send_arg_ping l r).
Proof. unfold send_arg_ping, current_time_offset. id_walk. Qed.
Lemma keeps_process_arg_ping l r p : keeps net_inv (process_arg_ping l r p).
Proof.
  unfold process_arg_ping, handle_pong, reply_ping, current_time_offset, current_time_plus. id_walk.
Qed.
Lemma keeps_send_arg_conn_data l r b : keeps net_inv (send_arg_conn_data l r b).
Proof. keep (@send_arg_conn_data). Qed.
Hint Resolve keeps_send_arg_ping keeps_process_arg_ping keeps_send_arg_conn_data : procs.
Lemma keeps_process_conn_resp l r p : keeps net_inv (process_arg_conn_data_resp l r p).
Proof. keep (@process_arg_conn_data_resp). Qed.
Hint Resolve keeps_process_conn_resp : procs.
Lemma keeps_process_conn_req l r p : keeps net_inv (process_arg_conn_data_req l r p).
Proof. keep (@process_arg_conn_data_req). Qed.
Lemma keeps_send_arg_trust l r g : keeps net_inv (send_arg_trust l r g).
Proof. keep (@send_arg_trust). Qed.
Hint Resolve keeps_process_conn_req keeps_send_arg_trust : procs.
Lemma keeps_send_trust_loop fuel l r c ret : keeps net_inv (send_trust_loop fuel l r c ret).
Proof. revert c ret. induction fuel as [|fuel IH]; intros c ret; cbn [send_trust_loop]; proc_walk. Qed.
Hint Resolve keeps_send_trust_loop : procs.
Lemma keeps_send_all_trust l r : keeps net_inv (send_all_trust l r).
Proof. keep (@send_all_trust). Qed.
Lemma keeps_send_arg_wrapped l r p : keeps net_inv (send_arg_wrapped l r p).
Proof. keep (@send_arg_wrapped). Qed.
Lemma keeps_process_arg_wrapped l r p : keeps net_inv (process_arg_wrapped l r p).
Proof. keep (@process_arg_wrapped). Qed.
Hint Resolve keeps_send_all_trust keeps_send_arg_wrapped keeps_process_arg_wrapped : procs.
Lemma keeps_next_action l r : keeps net_inv (do_next_protocol_action l r).
Proof. keep (@do_next_protocol_action); unfold current_time_offset; proc_walk. Qed.
Hint Resolve keeps_next_action : procs.

(** ** A new gateway *)

(** [newGate] is in the heap, outside the list, with no links of its own. *)
Definition detached (n : loc) (w : world) : Prop :=
  ∃ g ls, w_gates w !! n = Some g ∧ next g = None ∧ prev g = None
    ∧ chain (w_gates w) (w_gateInfo w) ls ∧ NoDup ls ∧ n ∉ ls.

Lemma chain_outside gs p ls l g : chain gs p ls → l ∉ ls → chain (<[l := g]> gs) p ls.
Proof.
  intros Hc Hl. apply (chain_agree gs); [done|]. intros l' g' Hl' Hg'. exists g'.
  rewrite lookup_insert_ne; [done|]. intros <-. done.
Qed.

Lemma chain_fresh gs p ls l : chain gs p ls → gs !! l = None → l ∉ ls.
Proof. intros Hc Hl Hin. destruct (chain_lookup _ _ _ _ Hc Hin). congruence. Qed.

Lemma create_detached w n w' :
  create_arg_network_info w = Done (Some n) w' → net_inv w → net_inv w' ∧ detached n w'.
Proof.
  unfold create_arg_network_info, malloc_ok, mbind, proc_bind, gets, modify. cbn.
  destruct (env_malloc _); [|done]. cbn. intros [= <- <-] [Hok (ls & Hc & Hnd)].
  pose proof (fresh_loc_None (w_gates w)) as Hf.
  pose proof (chain_fresh _ _ _ _ Hc Hf) as Hni.
  pose proof (chain_outside _ _ _ _ new_arg_network_info Hc Hni) as Hc'.
  split; [split|]; cbn.
  - apply map_Forall_insert_2; [|done]. split_and!; [apply new_gate_conn_ok|apply new_gate_wf|apply new_gate_typed].
  - by exists ls.
  - exists new_arg_network_info, ls. split_and!; try done. apply lookup_insert_eq.
Qed.

Lemma keeps_create : keeps net_inv create_arg_network_info.
Proof.
  intros w [n|] w' Hr Hi; [by eapply create_detached|].
  revert Hr. unfold create_arg_network_info, malloc_ok, mbind, proc_bind, gets, modify. cbn.
  destruct (env_malloc _); [done|]. cbn. intros [= <-]. by apply (inv_ext w).
Qed.

Lemma detached_upd n l f w a w' :
  benign f → (∀ g, prev (f g) = prev g) → gate_upd l f w = Done a w' → net_inv w → detached n w →
  net_inv w' ∧ detached n w'.
Proof.
  intros Hf Hp Hr Hi (g & ls & Hg & Hnx & Hpv & Hc & Hnd & Hni).
  split; [by eapply keeps_gate_upd|].
  destruct (w_gates w !! l) as [gl|] eqn:Hl; [|by rewrite gate_upd_None in Hr].
  rewrite (gate_upd_run _ _ _ _ Hl) in Hr. injection Hr as _ <-.
  assert (chain (w_gates (set_gate l (f gl) w)) (w_gateInfo w) ls) as Hc'.
  { apply (chain_upd _ _ _ _ gl); [done|done|by rewrite (benign_next _ Hf)]. }
  destruct (decide (l = n)) as [->|Hne].
  - assert (gl = g) as -> by congruence.
    exists (f g), ls. rewrite (benign_next _ Hf), Hp. split_and!; try done. apply lookup_insert_eq.
  - exists g, ls. split_and!; try done. by rewrite set_gate_ne.
Qed.

(** Giving up on a new gateway leaves the list as it was. *)
Lemma remove_detached n w :
  net_inv w → detached n w → wp (remove_arg_network n) (λ _ w', net_inv w') w.
Proof.
  intros [Hok _] (g & ls & Hg & Hnx & Hpv & Hc & Hnd & Hni). unfold remove_arg_network.
  eapply wp_bind_get; [done|]. rewrite Hnx. cbn [upd_opt]. rewrite ret_bind.
  eapply wp_bind_get; [done|]. rewrite Hpv. cbn [upd_opt]. rewrite ret_bind.
  apply wp_bind. unfold modify, wp. cbn. split; cbn.
  - by apply map_Forall_delete.
  - exists ls. split; [|done]. apply (chain_agree (w_gates w)); [done|].
    intros l g' Hl Hg'. exists g'. rewrite lookup_delete_ne; [done|]. congruence.
Qed.

Lemma benign_links p : benign (λ g, g <| prev := p |>).
Proof. split; [done|by intros g []|by intros g []|done]. Qed.

(** "Hooking it up" makes the new gateway the successor of [local]. *)
Lemma chain_hook gs p ls local gl n gn :
  chain gs p ls → NoDup ls → n ∉ ls → local ≠ n → gs !! local = Some gl → gs !! n = Some gn →
  next gn = next gl → ∀ gl', next gl' = Some n →
  ∃ ls', chain (<[local := gl']> gs) p ls' ∧ NoDup ls'
    ∧ (∀ x, x ∈ ls' → x = n ∨ x ∈ ls).
Proof.
  intros Hc Hnd Hni Hne Hl Hn Hnn gl' Hgl'. revert p Hc Hnd Hni.
  induction ls as [|x ls IH]; intros p Hc Hnd Hni.
  - exists []. split_and!; [done|constructor|by right].
  - destruct Hc as (-> & g & Hg & Hc). apply NoDup_cons in Hnd as [Hx Hnd].
    apply not_elem_of_cons in Hni as [Hnx Hni].
    destruct (decide (x = local)) as [->|Hxl].
    + assert (g = gl) as -> by congruence. exists (local :: n :: ls). split_and!.
      * split; [done|]. exists gl'. rewrite lookup_insert_eq. split; [done|].
        split; [done|]. exists gn. rewrite lookup_insert_ne by done. split; [done|].
        rewrite Hnn. apply (chain_agree gs); [done|]. intros l' g' Hl' Hg'. exists g'.
        rewrite lookup_insert_ne; [done|]. congruence.
      * by repeat constructor; rewrite ?not_elem_of_cons.
      * intros y. rewrite !elem_of_cons. tauto.
    + destruct (IH (next g) Hc Hnd Hni) as (ls' & Hc' & Hnd' & Hsub).
      exists (x :: ls'). split_and!.
      * split; [done|]. exists g. by rewrite lookup_insert_ne.
      * constructor; [|done]. intros Hin. apply Hsub in Hin as [->|Hin]; done.
      * intros y. rewrite !elem_of_cons. intros [->|Hy]; [by right; left|].
        apply Hsub in Hy as [->|Hy]; auto.
Qed.

Lemma hook_up_inv local n w a w' :
  hook_up local n w = Done a w' → local ≠ n → net_inv w → detached n w → net_inv w'.
Proof.
  unfold hook_up. intros (? & w1 & Hlock & Hr)%bind_done Hne Hi Hd.
  assert (net_inv w1 ∧ detached n w1) as [Hi1 (gn & ls & Hgn & Hnx & Hpv & Hc & Hnd & Hni)].
  { unfold mutex_lock in Hlock. apply bind_done in Hlock as (g & w0 & Hg & Hlock).
    destruct (w_gates w !! local) as [gl|] eqn:Hl; [|by rewrite gate_get_None in Hg].
    rewrite (gate_get_run _ _ _ Hl) in Hg. injection Hg as <- <-.
    revert Hlock. destruct (lock gl); [done|]. intros Hlock. eapply detached_upd; [apply benign_lock|done|done|done|done]. }
  destruct (w_gates w1 !! local) as [gl|] eqn:Hl;
    [|by apply bind_done in Hr as (? & ? & Hg & _); rewrite gate_get_None in Hg].
  apply bind_done in Hr as (? & ? & Hg & Hr). rewrite (gate_get_run _ _ _ Hl) in Hg.
  injection Hg as <- <-.
  apply bind_done in Hr as (? & w2 & Hu & Hr). rewrite (gate_upd_run _ _ _ _ Hgn) in Hu.
  injection Hu as _ <-.
  apply bind_done in Hr as (? & w3 & Hu & Hr). rewrite (gate_upd_run local gl) in Hu
    by by rewrite set_gate_ne.
  injection Hu as _ <-. eapply keeps_unlock; [exact Hr|]. destruct Hi1 as [Hok _].
  split; cbn.
  - apply map_Forall_insert_2; [|apply map_Forall_insert_2; [|done]].
    + destruct (Hok _ _ Hl) as (? & [] & []). split_and!; [done|by split|by split].
    + destruct (Hok _ _ Hgn) as (? & [] & []). split_and!; [done|by split|by split].
  - edestruct (chain_hook (<[n := gn <| next := next gl |> <| prev := Some local |>]> (w_gates w1))
      (w_gateInfo w1) ls local gl n) as (ls' & Hc' & Hnd' & _);
      [|done|done|done|rewrite lookup_insert_ne by done; exact Hl|apply lookup_insert_eq|done| |].
    3: by exists ls'.
    + by apply chain_outside.
    + done.
Qed.

Hint Resolve keeps_create : procs.

(** What a search from [l] needs and leaves. *)
Lemma find_network_from fuel l ip w r w' :
  find_network fuel (Some l) ip w = Done r w' → w' = w ∧ is_Some (w_gates w !! l).
Proof.
  assert (∀ fuel p r w', find_network fuel p ip w = Done r w' → w' = w) as Hst.
  { clear. intros fuel. induction fuel as [|fuel IH]; intros [l|] r w'; cbn [find_network]; try done.
    - by intros [= _ <-].
    - intros (g & w1 & Hg & Hr)%bind_done. destruct (w_gates w !! l) as [gl|] eqn:Hl;
        [|by rewrite gate_get_None in Hg].
      rewrite (gate_get_run _ _ _ Hl) in Hg. injection Hg as <- <-.
      destruct (gate_matches gl ip); [by injection Hr as _ <-|by eapply IH].
    - by intros [= _ <-]. }
  intros Hr. split; [by eapply Hst|].
  destruct fuel; [done|]. cbn [find_network] in Hr. apply bind_done in Hr as (g & w1 & Hg & _).
  destruct (w_gates w !! l) eqn:Hl; [by eexists|by rewrite gate_get_None in Hg].
Qed.

(** The part of [process_arg_trust] that stores a new gateway. *)
Definition store_trusted (local : loc) (trust : arg_trust_data) : proc world Z :=
  newGate ← create_arg_network_info;
  newGate ← deref newGate;
  let '(retN, n) := mpi_read_binary (t_n trust) in
  if decide (retN ≠ 0) then _ ← remove_arg_network newGate; mret (- ARG_CONFIG_BAD) else
  let '(retE, e) := mpi_read_binary (t_e trust) in
  if decide (retE ≠ 0) then _ ← remove_arg_network newGate; mret (- ARG_CONFIG_BAD) else
  gate_upd newGate (trusted_gate trust n e);;
  hook_up local newGate;;
  start_connection local newGate;;
  mret 0.

Lemma give_up_inv n (w w' : world) (r a : Z) :
  (remove_arg_network n ≫= λ _, mret r) w = Done a w' → net_inv w → detached n w → net_inv w'.
Proof.
  intros (? & w1 & Hr & Hret)%bind_done Hi Hd. injection Hret as _ <-.
  pose proof (remove_detached n w Hi Hd) as Hw. unfold wp in Hw. by rewrite Hr in Hw.
Qed.

Lemma store_trusted_inv local buf trust w a w' :
  store_trusted local trust w = Done a w' → read_trust buf = Some trust →
  is_Some (w_gates w !! local) → net_inv w → net_inv w'.
Proof.
  intros (o & w1 & Hc & Hr)%bind_done Ht [gl Hl] Hi.
  apply bind_done in Hr as (n & w1' & Hn & Hr).
  destruct o as [n'|]; [|done]. injection Hn as <- <-.
  assert (local ≠ n') as Hne.
  { unfold create_arg_network_info, malloc_ok, mbind, proc_bind, gets, modify in Hc. cbn in Hc.
    destruct (env_malloc _); [|done]. cbn in Hc. injection Hc as <- _.
    intros ->. pose proof (fresh_loc_None (w_gates w)). congruence. }
  destruct (create_detached _ _ _ Hc Hi) as [Hi1 Hd1]. revert Hr.
  destruct (mpi_read_binary (t_n trust)) as [rn n], (mpi_read_binary (t_e trust)) as [re e].
  case_decide; [intros Hr; by eapply give_up_inv|].
  case_decide; [intros Hr; by eapply give_up_inv|].
  intros (? & w2 & Hu & Hr)%bind_done.
  destruct (detached_upd _ _ _ _ _ _ (benign_trusted _ _ n e Ht) ltac:(done) Hu Hi1 Hd1) as [Hi2 Hd2].
  apply bind_done in Hr as (? & w3 & Hh & Hr).
  pose proof (hook_up_inv _ _ _ _ _ Hh Hne Hi2 Hd2) as Hi3.
  apply bind_done in Hr as (? & w4 & Hs & Hr). injection Hr as _ <-.
  revert Hi3. eapply keeps_gate_upd; [|exact Hs]. eauto with procs.
Qed.

Lemma keeps_process_arg_trust l r p : keeps net_inv (process_arg_trust l r p).
Proof.
  unfold process_arg_trust. proc_step; [proc_step|]. proc_step. proc_step; [proc_step|].
  proc_step. proc_step; [|proc_step]. proc_step. proc_step; [proc_step|].
  intros w b w' (known & w1 & Hf & Hr)%bind_done Hi.
  apply find_network_from in Hf as [-> Hl]. destruct known; [by injection Hr as _ <-|].
  by eapply store_trusted_inv.
Qed.
Hint Resolve keeps_process_arg_trust : procs.

(** ** NAT touches no gateway *)

Lemma keeps_entry_get l : keeps net_inv (entry_get l).
Proof. keep (@entry_get). Qed.
Lemma keeps_bucket_get l : keeps net_inv (bucket_get l).
Proof. keep (@bucket_get). Qed.
Hint Resolve keeps_entry_get keeps_bucket_get : procs.
Lemma keeps_entry_upd l f : keeps net_inv (entry_upd l f).
Proof. keep (@entry_upd). Qed.
Lemma keeps_bucket_upd l f : keeps net_inv (bucket_upd l f).
Proof. keep (@bucket_upd). Qed.
Hint Resolve keeps_entry_upd keeps_bucket_upd : procs.
Lemma keeps_nat_lock : keeps net_inv nat_lock.
Proof. keep (@nat_lock). Qed.
Lemma keeps_nat_unlock : keeps net_inv nat_unlock.
Proof. keep (@nat_unlock). Qed.
Lemma keeps_link_head e b : keeps net_inv (link_head e b).
Proof. keep (@link_head). Qed.
Lemma keeps_uthash {A} (m : (nat → Z → bool) → proc nat A) : keeps net_inv (uthash m).
Proof. apply keeps_frame. unfold uthash. intros w a w'. by destruct (m _ _); intros; simplify_eq. Qed.
Hint Resolve keeps_uthash : procs.
Lemma keeps_create_bucket ip port key : keeps net_inv (create_nat_bucket ip port key).
Proof. keep (@create_nat_bucket). Qed.
Hint Resolve keeps_nat_lock keeps_nat_unlock keeps_link_head keeps_create_bucket : procs.
Lemma keeps_create_entry s port proto b : keeps net_inv (create_nat_entry s port proto b).
Proof. keep (@create_nat_entry). Qed.
Lemma keeps_find_entry fuel t e : keeps net_inv (find_entry fuel t e).
Proof. revert e. induction fuel as [|fuel IH]; intros [l|]; cbn [find_entry]; proc_walk. Qed.
Hint Resolve keeps_create_entry keeps_find_entry : procs.
Lemma keeps_rewritten b e p :
  keeps net_inv (send_rewritten (if b : bool then rewrite_dest else rewrite_source) e p).
Proof. destruct b; keep (@send_rewritten); unfold rewrite_dest, rewrite_source; proc_walk. Qed.
Lemma keeps_nat_inbound p : keeps net_inv (do_nat_inbound_rewrite p).
Proof.
  keep (@do_nat_inbound_rewrite); unfold search, update_nat_entry_time; proc_walk.
  apply (keeps_rewritten true).
Qed.
Lemma keeps_nat_outbound p : keeps net_inv (do_nat_outbound_rewrite p).
Proof.
  keep (@do_nat_outbound_rewrite); unfold search, update_nat_entry_time; proc_walk;
    apply (keeps_rewritten false).
Qed.
Hint Resolve keeps_nat_inbound keeps_nat_outbound : procs.
Lemma keeps_remove_entry l : keeps net_inv (remove_nat_entry l).
Proof. keep (@remove_nat_entry); unfold entry_upd_opt; proc_walk. Qed.
Hint Resolve keeps_remove_entry : procs.
Lemma keeps_remove_entries fuel e : keeps net_inv (remove_entries fuel e).
Proof. revert e. induction fuel as [|fuel IH]; intros [l|]; cbn [remove_entries]; proc_walk. Qed.
Hint Resolve keeps_remove_entries : procs.
Lemma keeps_remove_bucket l : keeps net_inv (remove_nat_bucket l).
Proof. keep (@remove_nat_bucket). Qed.
Hint Resolve keeps_remove_bucket : procs.
Lemma keeps_clean_entries fuel now e : keeps net_inv (clean_entries fuel now e).
Proof. revert e. induction fuel as [|fuel IH]; intros [l|]; cbn [clean_entries]; proc_walk. Qed.
Hint Resolve keeps_clean_entries : procs.
Lemma keeps_clean_buckets fuel now b : keeps net_inv (clean_buckets fuel now b).
Proof. revert b. induction fuel as [|fuel IH]; intros [l|]; cbn [clean_buckets]; proc_walk. Qed.
Hint Resolve keeps_clean_buckets : procs.
Lemma keeps_clean : keeps net_inv clean_nat_table.
Proof. keep (@clean_nat_table). Qed.

(** ** Directing and administration *)

Lemma keeps_send_packet_on i p : keeps net_inv (send_packet_on i p).
Proof. keep (@send_packet_on). Qed.
Lemma keeps_fill_arp a b c d p : keeps net_inv (fill_arp_reply a b c d p).
Proof. keep (@fill_arp_reply). Qed.
Hint Resolve keeps_send_packet_on keeps_fill_arp : procs.
Lemma keeps_arp_reply p i mac : keeps net_inv (send_arp_reply p i mac).
Proof. keep (@send_arp_reply). Qed.

(** Printing *)
Lemma keeps_print_networks fuel p : keeps net_inv (print_networks fuel p).
Proof. revert p. induction fuel as [|fuel IH]; intros [l|]; cbn [print_networks]; unfold print_network; proc_walk. Qed.
Hint Resolve keeps_print_networks : procs.
Lemma keeps_print_associated : keeps net_inv print_associated_networks.
Proof. keep (@print_associated_networks). Qed.
Lemma keeps_print_entries fuel e : keeps net_inv (print_entries fuel e).
Proof.
  revert e. induction fuel as [|fuel IH]; intros [l|]; cbn [print_entries];
    unfold print_nat_entry, current_time_offset; proc_walk.
Qed.
Hint Resolve keeps_print_associated keeps_print_entries : procs.
Lemma keeps_print_buckets fuel b : keeps net_inv (print_buckets fuel b).
Proof. revert b. induction fuel as [|fuel IH]; intros [l|]; cbn [print_buckets]; proc_walk. Qed.
Hint Resolve keeps_print_buckets keeps_clean : procs.
Lemma keeps_cleanup_round : keeps net_inv nat_cleanup_round.
Proof. keep (@nat_cleanup_round); unfold print_nat_table; proc_walk. Qed.

Lemma keeps_process_admin_msg p g : keeps net_inv (process_admin_msg p g).
Proof. keep (@process_admin_msg); unfold get_msg_type; proc_walk. Qed.
Hint Resolve keeps_process_admin_msg : procs.
Lemma keeps_inbound_wrapped p g s d : keeps net_inv (inbound_wrapped p g s d).
Proof.
  keep (@inbound_wrapped); unfold is_valid_local_ip, note_bad_ip, note_good_ip, do_arg_unwrap; proc_walk.
Qed.
Hint Resolve keeps_inbound_wrapped : procs.
Lemma keeps_direct_inbound p : keeps net_inv (direct_inbound p).
Proof. keep (@direct_inbound); unfold get_msg_type; proc_walk. Qed.
Lemma keeps_direct_outbound p : keeps net_inv (direct_outbound p).
Proof. keep (@direct_outbound); unfold do_arg_wrap; proc_walk. Qed.
Lemma keeps_admin_gate l g n t : keeps net_inv (admin_gate l g n t).
Proof.
  keep (@admin_gate); unfold end_connection, start_connection, start_time_sync; proc_walk.
Qed.
Hint Resolve keeps_admin_gate : procs.
Lemma keeps_admin_gates fuel l p n t : keeps net_inv (admin_gates fuel l p n t).
Proof. revert p. induction fuel as [|fuel IH]; intros [x|]; cbn [admin_gates]; proc_walk. Qed.
Hint Resolve keeps_admin_gates : procs.
Lemma keeps_admin_round n : keeps net_inv (admin_round n).
Proof. keep (@admin_round). Qed.
End Operations.

(** ** Reachable states *)

Section Reachable.
Context `{PolarSSL, Env}.

(** One step of the gateway: a whole call of one of its threads returns.  A
    received packet may hold any bytes. *)
Inductive step (w : world) : world → Prop :=
  | step_inbound p v w' : direct_inbound p w = Done v w' → step w w'
  | step_outbound p r w' : direct_outbound p w = Done r w' → step w w'
  | step_admin n m w' : admin_round n w = Done m w' → step w w'
  | step_arp p i mac r w' : send_arp_reply p i mac w = Done r w' → step w w'
  | step_clean w' : nat_cleanup_round w = Done tt w' → step w w'.

Lemma step_inv w w' : step w w' → net_inv w → net_inv w'.
Proof.
  intros [p v w1 Hr|p r w1 Hr|n m w1 Hr|p i mac r w1 Hr|w1 Hr]; revert Hr.
  - apply keeps_direct_inbound.
  - apply keeps_direct_outbound.
  - apply keeps_admin_round.
  - apply keeps_arp_reply.
  - apply keeps_cleanup_round.
Qed.

Lemma reachable_net_inv w w' : rtc step w w' → net_inv w → net_inv w'.
Proof. induction 1; eauto using step_inv. Qed.

(** The first gateway of a list whose network contains an address. *)
Definition first_match (gs : gmap loc arg_network_info) (ip : list Z) (ls : list loc) : option loc :=
  List.find (λ l, match gs !! l with Some g => gate_matches g ip | None => false end) ls.

Lemma find_network_run fuel p ls ip w :
  chain (w_gates w) p ls → (length ls ≤ fuel)%nat →
  find_network fuel p ip w = Done (first_match (w_gates w) ip ls) w.
Proof.
  revert fuel p. induction ls as [|l ls IH]; intros fuel p Hc Hf.
  - cbn in Hc. subst p. by destruct fuel.
  - destruct Hc as (-> & g & Hg & Hc). destruct fuel as [|fuel]; [cbn in Hf; lia|].
    cbn [find_network]. unfold mbind, proc_bind. rewrite (gate_get_run _ _ _ Hg).
    unfold first_match. cbn [List.find]. rewrite Hg. destruct (gate_matches g ip); [done|].
    apply IH; [done|]. cbn in Hf. lia.
Qed.

Lemma get_arg_network_run ls ip w :
  chain (w_gates w) (w_gateInfo w) ls → NoDup ls →
  get_arg_network ip w = Done (first_match (w_gates w) ip ls) w.
Proof.
  intros Hc Hnd. apply (find_network_run (size (w_gates w))); [done|by eapply chain_length].
Qed.

(** C3. In every state the gateway can reach from one in which the list of
    gateways is well-formed, each gateway's record is well-formed and counts as
    connected exactly when its connection data and its time base have both
    arrived since it was last disconnected; and a lookup by address returns,
    with the first gateway in list order whose network holds the address. *)
Theorem reachable_consistent w w' :
  net_inv w → rtc step w w' →
  (∀ l g, w_gates w' !! l = Some g →
     connected g = connDataAvailable (proto g) && timeBaseAvailable (proto g) ∧ gate_wf g)
  ∧ ∃ ls, chain (w_gates w') (w_gateInfo w') ls ∧ NoDup ls
    ∧ ∀ ip, get_arg_network ip w' = Done (first_match (w_gates w') ip ls) w'.
Proof.
  intros Hi Hr. destruct (reachable_net_inv _ _ Hr Hi) as [Hok (ls & Hc & Hnd)].
  split; [intros l g Hg; by destruct (Hok l g Hg) as (? & ? & _)|]. exists ls. split_and!; [done|done|].
  intros ip. by apply get_arg_network_run.
Qed.

(** Every gateway record keeps the types of its C fields in every state
    the gateway can reach, whatever it receives and however long it runs: the
    sequence numbers, the counters of addresses, the ID of the last ping and the
    hop interval stay in 32 bits, and the keys, addresses, masks and names keep
    the lengths of their arrays. *)
Theorem reachable_typed w w' :
  net_inv w → rtc step w w' →
  ∀ l g, w_gates w' !! l = Some g →
    is_u32 (inSeqNum (proto g)) ∧ is_u32 (outSeqNum (proto g))
    ∧ is_u32 (goodIPCount (proto g)) ∧ is_u32 (badIPCount (proto g))
    ∧ is_u32 (sentPingID (proto g)) ∧ is_u32 (hopInterval g)
    ∧ length (symKey g) = AES_KEY_SIZE ∧ length (iv g) = AES_BLOCK_SIZE ∧ length (hopKey g) = HOP_KEY_SIZE
    ∧ length (baseIP g) = ADDR_SIZE ∧ length (mask g) = ADDR_SIZE ∧ length (name g) = MAX_NAME_SIZE.
Proof.
  intros Hi Hr l g Hg. destruct (reachable_net_inv _ _ Hr Hi) as [Hok _].
  destruct (Hok l g Hg) as (_ & [? ? ? ? ? ?] & [[? ? ? ? ?] ?]). by split_and!.
Qed.
End Reachable.

(** The worlds of the two gateways. *)
Lemma toy_chain own other :
  (∀ n p, next (own n p) = n) → (∀ n p, next (other n p) = n) →
  chain (w_gates (toy_world own other)) (w_gateInfo (toy_world own other)) [1%positive; 2%positive].
Proof.
  intros Ho Ht. split; [done|]. eexists. split; [done|]. rewrite Ho. split; [done|].
  eexists. split; [done|]. by rewrite Ht.
Qed.

Lemma toy_nodup : NoDup [1%positive; 2%positive].
Proof. apply NoDup_cons. split; [by intros ?%list_elem_of_singleton|apply NoDup_singleton]. Qed.

Lemma benign_good `{PolarSSL} f g : benign f → gate_good g → gate_good (f g).
Proof. intros [Hc Hw Ht _] (? & ? & ?). split_and!; auto. Qed.

Lemma toy_gate_good key seed base nxt prv : length base = ADDR_SIZE → gate_good (toy_gate key seed base nxt prv).
Proof. intros. split_and!; [done|by apply toy_gate_wf|by repeat split]. Qed.

Lemma toy_world_inv own other :
  (∀ n p, next (own n p) = n) → (∀ n p, next (other n p) = n) →
  (∀ n p, gate_good (own n p)) → (∀ n p, gate_good (other n p)) → net_inv (toy_world own other).
Proof.
  intros Ho Ht Hog Htg. split.
  - apply map_Forall_insert_2; [apply Hog|]. apply map_Forall_singleton, Htg.
  - exists [1%positive; 2%positive]. split; [by apply toy_chain|apply toy_nodup].
Qed.

Lemma worldA_inv : net_inv worldA.
Proof. by apply toy_world_inv; [..|intros; apply toy_gate_good|intros; apply toy_gate_good]. Qed.

(** One round of A's administration thread, in which two packets are due. *)
Lemma reachable_consistent_witness :
  ∃ w', admin_round 0 worldA = Done 1 w' ∧
  (∀ l g, w_gates w' !! l = Some g →
     connected g = connDataAvailable (proto g) && timeBaseAvailable (proto g) ∧ gate_wf g)
  ∧ ∃ ls, chain (w_gates w') (w_gateInfo w') ls ∧ NoDup ls
    ∧ ∀ ip, get_arg_network ip w' = Done (first_match (w_gates w') ip ls) w'.
Proof.
  assert (wp (admin_round 0) (λ m w', m = 1 ∧ length (w_sent w') = 2%nat) worldA) as Hrun by by vm_compute.
  apply wp_elim in Hrun as (m & w' & Hr & -> & _). exists w'. split; [exact Hr|].
  apply (reachable_consistent worldA); [exact worldA_inv|]. eapply rtc_once, step_admin, Hr.
Defined.

(** A round in which A's next sequence number is the last one: it wraps. *)
Definition gate_last (nxt prv : option loc) : arg_network_info :=
  with_proto (λ p, p <| outSeqNum := UINT32_MAX |> <| sendPing := true |>) (gateB nxt prv).
Definition worldA_last : world := toy_world gateA gate_last.

Lemma worldA_last_inv : net_inv worldA_last.
Proof.
  apply toy_world_inv; [done|done|intros; by apply toy_gate_good|].
  intros n p. apply (benign_good (with_proto _)); [|by apply toy_gate_good].
  apply benign_proto; [by intros []|intros ?; typed].
Qed.

Lemma reachable_typed_witness :
  ∃ w' g, admin_round 0 worldA_last = Done 1 w' ∧ w_gates w' !! 2%positive = Some g
  ∧ outSeqNum (proto g) = 1
  ∧ is_u32 (inSeqNum (proto g)) ∧ is_u32 (outSeqNum (proto g))
  ∧ is_u32 (goodIPCount (proto g)) ∧ is_u32 (badIPCount (proto g))
  ∧ is_u32 (sentPingID (proto g)) ∧ is_u32 (hopInterval g)
  ∧ length (symKey g) = AES_KEY_SIZE ∧ length (iv g) = AES_BLOCK_SIZE ∧ length (hopKey g) = HOP_KEY_SIZE
  ∧ length (baseIP g) = ADDR_SIZE ∧ length (mask g) = ADDR_SIZE ∧ length (name g) = MAX_NAME_SIZE.
Proof.
  assert (wp (admin_round 0) (λ m w', m = 1 ∧
    outSeqNum ∘ proto <$> w_gates w' !! 2%positive = Some 1) worldA_last) as Hrun by by vm_compute.
  apply wp_elim in Hrun as (m & w' & Hr & -> & (g & Hg & Ho)%fmap_Some). exists w', g.
  split; [exact Hr|]. split; [exact Hg|]. split; [done|].
  apply (reachable_typed worldA_last w') with (l := 2%positive); [|eapply rtc_once, step_admin, Hr|exact Hg].
  apply worldA_last_inv.
Defined.
