(* ===== verification/ThreadsFacts.v ===== *)
(** * The threads: facts

    However long the threads run and whatever comes in, what they do is a
    sequence of the steps that keep the gateway's invariant. *)

From S2P Require Import Prelude Words Settings ArgError CString Utility Crypto Packet Gate Uthash NatData World Net Hopper Message ArgPacket Protocol Nat Director Threads ToyCrypto ToyWorld Invariant.

Section Threads.
Context `{PolarSSL, Env}.

Lemma respects_reparse p : respects (rtc step) (reparse p).
Proof.
  apply respects_lift, _.
Qed.

Lemma frame_steps handler i mac wire :
  (∀ p, respects (rtc step) (handler p)) → respects (rtc step) (receive_frame handler i mac wire).
Proof.
  intros Hh. unfold receive_frame. apply respects_bind; [apply _|apply respects_reparse|]. intros [ret p].
  proc_walk; auto. intros w a w' Hr. by eapply rtc_once, step_arp.
Qed.

Lemma receive_steps `{Nic} handler dev frames :
  (∀ p, respects (rtc step) (handler p)) → respects (rtc step) (receive_thread handler dev frames).
Proof.
  intros Hh. unfold receive_thread.
  assert (∀ i mac, respects (rtc step) (receive_loop handler i mac frames)) as Hl.
  { intros i mac. induction frames as [|[f|] frames IH]; cbn [receive_loop]; [apply respects_ret, _| |done].
    apply respects_bind; [apply _|by apply frame_steps|done]. }
  proc_walk; auto.
Qed.

(** Whatever frames the receivers get and however many turns the
    administration thread and the NAT's cleaner take, when they are through the
    gateway has made a sequence of steps of [Invariant.step]; so what holds in
    all reachable states holds whenever no thread is in the middle of one. *)
Theorem threads_are_steps `{Nic} dev frames turns :
  respects (rtc step) (receive_thread inbound_handler dev frames)
  ∧ respects (rtc step) (receive_thread outbound_handler dev frames)
  ∧ respects (rtc step) (hopper_admin_thread turns)
  ∧ respects (rtc step) (nat_cleanup_thread turns).
Proof.
  split_and!.
  - apply receive_steps. intros p. apply respects_bind; [apply _| |intros v; apply respects_ret, _].
    intros w v w' Hr. by eapply rtc_once, step_inbound.
  - apply receive_steps. intros p. apply respects_bind; [apply _| |intros r; apply respects_ret, _].
    intros w r w' Hr. by eapply rtc_once, step_outbound.
  - unfold hopper_admin_thread. generalize 0. induction turns as [|n IH]; intros c; cbn [hopper_admin_loop];
      [apply respects_ret, _|]. apply respects_bind; [apply _| |done].
    intros w m w' Hr. by eapply rtc_once, step_admin.
  - induction turns as [|n IH]; cbn [nat_cleanup_thread]; [apply respects_ret, _|].
    apply respects_bind; [apply _| |done]. intros w [] w' Hr. by eapply rtc_once, step_clean.
Qed.
End Threads.
