(* ===== verification/NoHang.v ===== *)
(** * No thread waits for ever (src/protocol.c, src/hopper.c, src/director.c)

    A gateway's mutex is taken at most once at a time by a thread, and every
    function gives back what it took; the loops over the list of gateways end.
    So what a thread does with ARG traffic comes back, with every mutex free,
    or is undefined.  The one function that keeps a mutex on an error path,
    [send_arg_wrapped], has no such error when memory is there.  Together with
    the NAT ([NatSafe]) this covers the four threads. *)

From S2P Require Import Prelude Words Settings ArgError CString Utility Crypto Packet Gate Uthash NatData World Log LogFacts Net Layout Hopper Message ArgPacket CipherLoop Protocol Nat Tables Director Threads ToyCrypto ToyWorld NatClean NatSafe Invariant.

Create HintDb runs.

Section NoHang.
Context `{Hok : PolarSSL_ok, Env}.
Context (local : loc).
Implicit Types w : world.

(** The one gateway whose mutex is held, if any. *)
Definition held (L : option loc) (w : world) : Prop :=
  map_Forall (λ l g, lock g = bool_decide (L = Some l)) (w_gates w).

(** The list starts at [local] and ends. *)
Definition list_ok (w : world) : Prop :=
  w_gateInfo w = Some local ∧ ∃ ls, chain (w_gates w) (Some local) ls ∧ NoDup ls.

(** The head of the list, the NAT and [ipLock] are as before. *)
Definition elsewhere (w w' : world) : Prop :=
  w_gateInfo w' = w_gateInfo w ∧ w_nat w' = w_nat w ∧ w_ipLock w' = w_ipLock w.

Lemma elsewhere_trans w1 w2 w3 : elsewhere w1 w2 → elsewhere w2 w3 → elsewhere w1 w3.
Proof using Type. intros (? & ? & ?) (? & ? & ?). split_and!; congruence. Qed.

Definition same_links (w w' : world) : Prop :=
  next <$> w_gates w' = next <$> w_gates w ∧ elsewhere w w'.

(** From any state with a good list in which [L] is held, [m] comes back with
    [L'] held and the list unchanged, or is undefined. *)
Definition runs (L L' : option loc) {A} (m : prog A) : Prop := ∀ w,
  list_ok w → held L w →
  match m w with Done _ w' => held L' w' ∧ same_links w w' | Fault | Exited => True | Stuck => False end.

Lemma chain_links w w' p ls : same_links w w' → chain (w_gates w) p ls → chain (w_gates w') p ls.
Proof using Type.
  intros [Hs _] Hc. apply (chain_agree (w_gates w)); [done|]. intros l g _ Hg.
  apply (f_equal (λ m, m !! l)) in Hs. rewrite !lookup_fmap, Hg in Hs.
  destruct (w_gates w' !! l) as [g'|]; [|done]. injection Hs as Hs. by exists g'.
Qed.

Lemma same_links_trans w1 w2 w3 : same_links w1 w2 → same_links w2 w3 → same_links w1 w3.
Proof using Type. intros [? ?] [? ?]. split; [congruence|by eapply elsewhere_trans]. Qed.

Lemma list_ok_links w w' : same_links w w' → list_ok w → list_ok w'.
Proof using Type.
  intros Hs [Hi (ls & Hc & Hnd)]. pose proof Hs as (_ & Hi' & _). split; [congruence|].
  exists ls. split; [by eapply chain_links|done].
Qed.

(** ** Rules *)

Lemma runs_bind {A B} L L1 L' (m : prog A) (k : A → prog B) :
  runs L L1 m → (∀ a, runs L1 L' (k a)) → runs L L' (m ≫= k).
Proof using Type.
  intros Hm Hk w Hl Hh. specialize (Hm w Hl Hh). unfold mbind, proc_bind.
  destruct (m w) as [a w1| | |]; [|done..]. destruct Hm as [Hh1 Hs1].
  pose proof (Hk a w1 (list_ok_links _ _ Hs1 Hl) Hh1) as Hk1.
  destruct (k a w1) as [b w2| | |]; [|done..]. destruct Hk1 as [? Hs2]. split; [done|]. by eapply same_links_trans.
Qed.

Lemma runs_ret {A} L (a : A) : runs L L (mret a).
Proof using Type. by intros w _ Hh. Qed.
Lemma runs_fault {A} L L' : runs L L' (@fault world A).
Proof using Type. by intros w _ Hh. Qed.
Lemma runs_fmap {A B} L L' (f : A → B) (m : prog A) : runs L L' m → runs L L' (f <$> m).
Proof using Type. intros Hm. eapply runs_bind; [exact Hm|]. intros a. apply runs_ret. Qed.
Lemma runs_gets {A} L (f : world → A) : runs L L (gets f).
Proof using Type. by intros w _ Hh. Qed.
Lemma runs_lift {A} L (o : option A) : runs L L (lift_opt o).
Proof using Type. destruct o; [apply runs_ret|apply runs_fault]. Qed.
Lemma runs_lift_bind {A B} L L' (o : option A) (k : A → prog B) :
  (∀ a, o = Some a → runs L L' (k a)) → runs L L' (lift_opt o ≫= k).
Proof using Type. intros Hk. destruct o; [by apply Hk|apply runs_fault]. Qed.

(** What does not touch the gateways. *)
Lemma runs_frame {A} L (m : prog A) :
  (∀ w, match m w with
        | Done _ w' => w_gates w' = w_gates w ∧ elsewhere w w'
        | Fault | Exited => True | Stuck => False end) → runs L L m.
Proof using Type.
  intros Hm w _ Hh. specialize (Hm w). destruct (m w) as [a w'| | |]; [|done..]. destruct Hm as [E1 E2].
  unfold held, same_links. by rewrite E1.
Qed.

(** An update that touches neither mutex nor link. *)
Definition steady (f : arg_network_info → arg_network_info) : Prop :=
  ∀ g, lock (f g) = lock g ∧ next (f g) = next g.

Lemma links_upd w l g g' :
  w_gates w !! l = Some g → next g' = next g → next <$> <[l := g']> (w_gates w) = next <$> w_gates w.
Proof using Type.
  intros Hg Hn. rewrite fmap_insert, Hn. apply insert_id. by rewrite lookup_fmap, Hg.
Qed.

Lemma runs_gate_get L l : runs L L (gate_get l).
Proof using Type. apply runs_frame. intros w. unfold gate_get, gets, mbind, proc_bind. by destruct (w_gates w !! l). Qed.

Lemma runs_gate_upd L l f : steady f → runs L L (gate_upd l f).
Proof using Type.
  intros Hf w _ Hh. destruct (w_gates w !! l) as [g|] eqn:Hl; [|by rewrite gate_upd_None].
  rewrite (gate_upd_run _ _ _ _ Hl). destruct (Hf g) as [E1 E2].
  split; [|split; [by eapply links_upd|done]].
  apply map_Forall_insert_2; [|done]. rewrite E1. by apply (Hh l).
Qed.

Lemma held_lock l g w :
  w_gates w !! l = Some g → held None w → held (Some l) (set_gate l (g <| lock := true |>) w).
Proof using Type.
  intros Hl Hh l' g'. cbn -[lookup insert]. rewrite lookup_insert_Some. intros [[<- <-]|[Hne Hg']].
  - by rewrite bool_decide_eq_true_2.
  - rewrite (Hh l' g' Hg'). by rewrite !bool_decide_eq_false_2 by congruence.
Qed.
Lemma held_unlock l g w :
  w_gates w !! l = Some g → held (Some l) w → held None (set_gate l (g <| lock := false |>) w).
Proof using Type.
  intros Hl Hh l' g'. cbn -[lookup insert]. rewrite lookup_insert_Some. intros [[<- <-]|[Hne Hg']]; [done|].
  rewrite (Hh l' g' Hg'). by rewrite !bool_decide_eq_false_2 by congruence.
Qed.

Lemma runs_lock l : runs None (Some l) (mutex_lock l).
Proof using Type.
  intros w _ Hh. unfold mutex_lock. destruct (w_gates w !! l) as [g|] eqn:Hl;
    [|unfold mbind, proc_bind; by rewrite gate_get_None].
  unfold mbind at 1, proc_bind at 1. rewrite (gate_get_run _ _ _ Hl). rewrite (Hh l g Hl).
  rewrite bool_decide_eq_false_2 by done.
  rewrite (gate_upd_run _ _ _ _ Hl). split; [by eapply held_lock|split; [by eapply links_upd|done]].
Qed.

Lemma runs_unlock l : runs (Some l) None (mutex_unlock l).
Proof using Type.
  intros w _ Hh. unfold mutex_unlock. destruct (w_gates w !! l) as [g|] eqn:Hl; [|by rewrite gate_upd_None].
  rewrite (gate_upd_run _ _ _ _ Hl). split; [by eapply held_unlock|split; [by eapply links_upd|done]].
Qed.

Lemma runs_time L : runs L L current_time.
Proof using Type. by apply runs_frame. Qed.
Lemma runs_random L n : runs L L (get_random_bytes n).
Proof using Type. by apply runs_frame. Qed.
Lemma runs_malloc L : runs L L malloc_ok.
Proof using Type. by apply runs_frame. Qed.
Lemma runs_sendto L o : runs L L (sendto o).
Proof using Type. apply runs_frame. intros w. unfold sendto. by case_decide. Qed.

Context (block_positive : ∀ c, 0 < cipher_get_block_size c).

(** The block loop ends: a block is not empty. *)
Lemma runs_cipher_loop L fuel b i len src so dst d c sum :
  0 < b → len ≤ i + Z.of_nat fuel → runs L L (cipher_loop fuel b i len src so dst d c sum).
Proof using Type.
  intros Hb. revert i dst c sum. induction fuel as [|fuel IH]; intros i dst c sum Hf; cbn [cipher_loop];
    case_decide; try lia; try apply runs_ret.
  apply runs_lift_bind. intros bs _. destruct (cipher_update c bs). apply runs_lift_bind. intros dst' _. apply IH. lia.
Qed.
End NoHang.

#[export] Hint Resolve runs_ret runs_fault runs_gets runs_lift runs_gate_get runs_gate_upd runs_time runs_random
  runs_malloc runs_sendto : runs.

(** Walk through what takes and gives back no mutex. *)
Ltac run_step :=
  match goal with
  | |- runs _ _ _ (lift_opt _ ≫= _) => apply runs_lift_bind; intros ? ?
  | |- runs _ ?L ?L (_ ≫= _) => eapply (runs_bind _ L L); [| intros ?]
  | |- runs _ _ _ (_ <$> _) => apply runs_fmap
  | |- runs _ _ _ (match ?x with _ => _ end) => destruct x eqn:?
  | |- _ => solve [eauto with runs]
  end.
Ltac run_walk := repeat run_step.

(** Updates of single fields. *)
#[export] Hint Extern 2 (steady _) => (by intros ?) : runs.

Section Operations.
Context `{Hok : PolarSSL_ok, Env} (local : loc).
Context (block_positive : ∀ c, 0 < cipher_get_block_size c).
Local Abbreviation runs := (runs local).

Lemma runs_reparse L p : runs L L (reparse p).
Proof using Type. unfold reparse. run_walk. Qed.
Lemma runs_load L off n p : runs L L (load off n p).
Proof using Type. unfold load. run_walk. Qed.
Lemma runs_store L off bs p : runs L L (store off bs p).
Proof using Type. unfold store. run_walk. Qed.
Hint Resolve runs_reparse runs_load runs_store : runs.
Lemma runs_create_packet L len : runs L L (create_packet len).
Proof using Type. unfold create_packet. run_walk. Qed.
Lemma runs_copy_packet L p : runs L L (copy_packet p).
Proof using Type. unfold copy_packet. run_walk. Qed.
Lemma runs_send_packet L p : runs L L (send_packet p).
Proof using Type. unfold send_packet. run_walk. Qed.
Lemma runs_generate L g c : runs L L (generate_ip_corrected g c).
Proof using Type. unfold generate_ip_corrected. run_walk. Qed.
Lemma runs_create_arg_msg L len : runs L L (create_arg_msg len).
Proof using Type. unfold create_arg_msg. run_walk. Qed.
Hint Resolve runs_create_packet runs_copy_packet runs_send_packet runs_generate runs_create_arg_msg : runs.
Lemma runs_fill_ip_header L l r p : runs L L (fill_ip_header l r p).
Proof using Type. unfold fill_ip_header. run_walk. Qed.
Lemma runs_sign_packet L l t p : runs L L (sign_packet l t p).
Proof using Type. unfold sign_packet. run_walk. Qed.
Hint Resolve runs_fill_ip_header runs_sign_packet : runs.

Lemma runs_encrypt_symmetric L r a msg p : runs L L (encrypt_symmetric r a msg p).
Proof using block_positive.
  unfold encrypt_symmetric. run_walk. apply runs_cipher_loop; [done|lia].
Qed.
Lemma runs_encrypt_body L l r t a msg p : runs L L (encrypt_body l r t a msg p).
Proof using block_positive.
  unfold encrypt_body, encrypt_rsa. run_walk. apply runs_encrypt_symmetric.
Qed.
Hint Resolve runs_encrypt_body : runs.
Lemma runs_create_arg_packet L l r t msg : runs L L (create_arg_packet l r t msg).
Proof using block_positive. unfold create_arg_packet. run_walk. Qed.
Hint Resolve runs_create_arg_packet : runs.
Lemma runs_send_arg_packet L l r t msg : runs L L (send_arg_packet l r t msg).
Proof using block_positive. unfold send_arg_packet. run_walk. Qed.
Hint Resolve runs_send_arg_packet : runs.

Lemma runs_check_signature L r p q n : runs L L (check_signature r p q n).
Proof using Type. unfold check_signature. run_walk. Qed.
Lemma runs_decrypt_body L l p q n : runs L L (decrypt_body l p q n).
Proof using block_positive.
  unfold decrypt_body, decrypt_rsa, decrypt_symmetric. run_walk.
  apply runs_cipher_loop; [done|unfold ARG_HDR_LEN; lia].
Qed.
Lemma runs_recheck_seq L r msg : runs L L (recheck_seq r msg).
Proof using Type. unfold recheck_seq. run_walk. Qed.
Hint Resolve runs_check_signature runs_decrypt_body runs_recheck_seq : runs.
Lemma runs_process_arg_packet L l r p : runs L L (process_arg_packet l r p).
Proof using block_positive. unfold process_arg_packet. run_walk. Qed.
Hint Resolve runs_process_arg_packet : runs.

(** ** Critical sections *)

Lemma runs_locked {A B} l (m : prog A) (k : A → prog B) :
  runs (Some l) (Some l) m → (∀ a, runs (Some l) None (k a)) → runs None None (mutex_lock l;; m ≫= k).
Proof using Type.
  intros Hm Hk. eapply runs_bind; [apply runs_lock|]. intros _. eapply runs_bind; [exact Hm|exact Hk].
Qed.
Lemma runs_unlock_ret {A} l (a : A) : runs (Some l) None (mutex_unlock l;; mret a).
Proof using Type. eapply runs_bind; [apply runs_unlock|]. intros _. apply runs_ret. Qed.

Lemma steady_accept_pong lat t : steady (accept_pong lat t).
Proof using Type. intros g. unfold accept_pong. by repeat case_match. Qed.
Lemma steady_accept_conn d t : steady (accept_conn_data d t).
Proof using Type. intros g. unfold accept_conn_data. by case_match. Qed.
Hint Resolve steady_accept_pong steady_accept_conn : runs.

Ltac unlock := first [apply runs_unlock_ret | eapply runs_bind; [apply runs_unlock|intros []]].
(** Up to the next mutex that is given back. *)
Ltac inside := eapply runs_bind; [solve [run_walk]|intros ?].
Ltac to_unlock := repeat inside; unlock.

Lemma runs_offset L t : runs L L (current_time_offset t).
Proof using Type. unfold current_time_offset. run_walk. Qed.
Lemma runs_time_plus L ms : runs L L (current_time_plus ms).
Proof using Type. unfold current_time_plus. run_walk. Qed.
Hint Resolve runs_offset runs_time_plus : runs.

Lemma runs_send_arg_ping l r : runs None None (send_arg_ping l r).
Proof using block_positive.
  unfold send_arg_ping. eapply runs_bind; [run_walk|intros [msg|]; [|apply runs_ret]].
  apply runs_locked; [run_walk|intros id]. to_unlock.
Qed.

Lemma runs_handle_pong L r d : runs L L (handle_pong r d).
Proof using Type. unfold handle_pong. run_walk. Qed.
Lemma runs_reply_ping L l r m d : runs L L (reply_ping l r m d).
Proof using block_positive. unfold reply_ping. run_walk. Qed.
Hint Resolve runs_handle_pong runs_reply_ping : runs.

Lemma runs_process_arg_ping l r p : runs None None (process_arg_ping l r p).
Proof using block_positive.
  unfold process_arg_ping. eapply runs_bind; [run_walk|intros [ret msg]]. case_decide; [apply runs_ret|].
  apply runs_lift_bind. intros m _. case_decide; [|apply runs_ret].
  apply runs_locked; [run_walk|intros d]. to_unlock.
Qed.

Lemma runs_send_arg_conn_data l r b : runs None None (send_arg_conn_data l r b).
Proof using block_positive.
  unfold send_arg_conn_data. eapply runs_bind; [run_walk|intros [msg|]; [|apply runs_ret]].
  apply runs_locked; [run_walk|intros g]. unlock. inside. apply runs_locked; [run_walk|intros _]. unlock.
Qed.
Lemma runs_process_conn_resp l r p : runs None None (process_arg_conn_data_resp l r p).
Proof using block_positive.
  unfold process_arg_conn_data_resp. eapply runs_bind; [run_walk|intros [ret msg]]. case_decide; [apply runs_ret|].
  apply runs_lift_bind. intros m _. case_decide; [|apply runs_ret].
  apply runs_locked; [run_walk|intros d]. to_unlock. run_walk.
Qed.
Hint Resolve runs_send_arg_ping runs_send_arg_conn_data runs_process_conn_resp : runs.
Lemma runs_process_conn_req l r p : runs None None (process_arg_conn_data_req l r p).
Proof using block_positive. unfold process_arg_conn_data_req. run_walk. Qed.

Lemma runs_send_arg_trust l r g : runs None None (send_arg_trust l r g).
Proof using block_positive.
  unfold send_arg_trust. eapply runs_bind; [run_walk|intros [msg|]; [|apply runs_ret]].
  eapply runs_bind; [run_walk|intros g1]. destruct (mpi_write_binary _ 130). case_decide; [apply runs_ret|].
  destruct (mpi_write_binary _ 10). case_decide; [apply runs_ret|].
  apply runs_locked; [run_walk|intros _]. unlock.
Qed.

Lemma runs_process_arg_wrapped l r p : runs None None (process_arg_wrapped l r p).
Proof using block_positive.
  unfold process_arg_wrapped. apply runs_locked; [run_walk|intros g]. case_match; [unlock|].
  eapply runs_bind; [run_walk|intros [ret msg]]. case_decide; [unlock|].
  apply runs_lift_bind. intros m _. eapply runs_bind; [run_walk|intros [np|]; [|unlock]].
  apply runs_lift_bind. intros d _. inside. eapply runs_bind; [run_walk|intros [? ?]]. to_unlock.
Qed.

Lemma runs_is_valid_ip g ip : runs None None (is_valid_ip g ip).
Proof using Type. unfold is_valid_ip. apply runs_locked; [run_walk|intros genIP]. to_unlock. Qed.
Hint Resolve runs_process_conn_req runs_process_arg_ping runs_process_arg_wrapped runs_is_valid_ip : runs.

Lemma runs_is_valid_local_ip ip : runs None None (is_valid_local_ip ip).
Proof using Type. unfold is_valid_local_ip, gateInfo, deref. do 2 inside. apply runs_is_valid_ip. Qed.
Lemma runs_do_arg_unwrap p g : runs None None (do_arg_unwrap p g).
Proof using block_positive. unfold do_arg_unwrap, gateInfo, deref. do 2 inside. apply runs_process_arg_wrapped. Qed.
Hint Resolve runs_is_valid_local_ip runs_do_arg_unwrap : runs.

Lemma runs_inbound_wrapped p g s d : runs None None (inbound_wrapped p g s d).
Proof using block_positive.
  unfold inbound_wrapped, note_bad_ip, note_good_ip. run_walk.
Qed.

(** ** Loops over the list *)

Lemma runs_trust_loop fuel r curr ret w ls :
  chain (w_gates w) (Some curr) ls → (length ls ≤ S fuel)%nat → list_ok local w → held None w →
  match send_trust_loop fuel local r curr ret w with
  | Done _ w' => held None w' ∧ same_links w w' | Fault | Exited => True | Stuck => False end.
Proof using block_positive.
  revert curr ret w ls. induction fuel as [|fuel IH]; intros curr ret w ls Hc Hf Hl Hh.
  all: destruct ls as [|c ls]; [done|]; destruct Hc as ([= <-] & g & Hg & Hc);
    cbn [send_trust_loop]; unfold mbind at 1, proc_bind at 1; rewrite (gate_get_run _ _ _ Hg);
    destruct (next g) as [n|] eqn:Hn; try done.
  - destruct ls; [done|]. cbn in Hf. lia.
  - destruct ls as [|n' ls]; [done|]. pose proof Hc as [[= <-] _]. cbn in Hf. case_decide.
    { apply (IH _ _ _ (n :: ls)); [done|cbn; lia|done..]. }
    unfold mbind, proc_bind. pose proof (runs_send_arg_trust local r n w Hl Hh) as Hs.
    destruct (send_arg_trust local r n w) as [x w1| | |]; [|done..]. destruct Hs as [Hh1 Hs1].
    pose proof (IH n (if decide (x ≠ 0) then 1 else ret) w1 (n :: ls)) as IH1.
    destruct (send_trust_loop fuel local r n _ w1) as [y w2| | |]; try (apply IH1; [by eapply chain_links|cbn; lia|by eapply list_ok_links|done]).
    destruct IH1 as [? Hs2]; [by eapply chain_links|cbn; lia|by eapply list_ok_links|done|].
    split; [done|]. by eapply same_links_trans.
Qed.

Lemma runs_send_all_trust r : runs None None (send_all_trust local r).
Proof using block_positive.
  intros w Hl Hh. unfold send_all_trust, gets, mbind, proc_bind. pose proof Hl as [_ (ls & Hc & Hnd)].
  apply (runs_trust_loop _ _ _ _ _ ls); [done| |done..]. pose proof (chain_length _ _ _ Hc Hnd). lia.
Qed.
Hint Resolve runs_send_all_trust : runs.

Lemma runs_next_action r : runs None None (do_next_protocol_action local r).
Proof using block_positive. unfold do_next_protocol_action. run_walk. Qed.
Hint Resolve runs_next_action : runs.

Lemma runs_admin_gate r n t : runs None None (admin_gate local r n t).
Proof using block_positive. unfold admin_gate, end_connection, start_connection, start_time_sync. run_walk. Qed.

Lemma runs_admin_gates fuel p n t w ls :
  chain (w_gates w) p ls → (length ls ≤ fuel)%nat → list_ok local w → held None w →
  match admin_gates fuel local p n t w with
  | Done _ w' => held None w' ∧ same_links w w' | Fault | Exited => True | Stuck => False end.
Proof using block_positive.
  revert p w ls. induction fuel as [|fuel IH]; intros p w ls Hc Hf Hl Hh.
  all: destruct ls as [|l ls]; [cbn in Hc; subst; cbn [admin_gates]; done|].
  - cbn in Hf. lia.
  - pose proof Hc as (-> & _). cbn [admin_gates]. unfold mbind at 1, proc_bind at 1.
    pose proof (runs_admin_gate l n t w Hl Hh) as Hs.
    destruct (admin_gate local l n t w) as [x w1| | |]; [|done..]. destruct Hs as [Hh1 Hs1].
    pose proof (chain_links _ _ _ _ Hs1 Hc) as (_ & g & Hg & Hc1).
    unfold mbind, proc_bind. rewrite (gate_get_run _ _ _ Hg). cbn in Hf.
    pose proof (IH (next g) w1 ls Hc1 ltac:(lia) (list_ok_links _ _ _ Hs1 Hl) Hh1) as IH1.
    destruct (admin_gates fuel local (next g) n t w1); [|done..]. destruct IH1 as [? Hs2].
    split; [done|]. by eapply same_links_trans.
Qed.

Lemma runs_print_networks fuel p w ls :
  chain (w_gates w) p ls → (length ls ≤ fuel)%nat →
  match print_networks fuel p w with Done _ w' => w' = w | Fault | Exited => True | Stuck => False end.
Proof using Type.
  revert p ls. induction fuel as [|fuel IH]; intros p [|l ls] Hc Hf;
    try (cbn in Hf; lia); try (by cbn in Hc; subst).
  destruct Hc as (-> & g & Hg & Hc). cbn [print_networks]. unfold mbind at 1, proc_bind at 1.
  rewrite (gate_get_run _ _ _ Hg). unfold print_network. destruct (cstr (name g)); [|done].
  cbn [lift_opt]. rewrite !ret_bind. cbn in Hf. specialize (IH (next g) ls Hc ltac:(lia)).
  unfold mbind, proc_bind. by destruct (print_networks fuel (next g) w).
Qed.

Lemma runs_print_associated : runs None None print_associated_networks.
Proof using Type.
  intros w Hl Hh. pose proof Hl as [Hi (ls & Hc & Hnd)]. pose proof (chain_length _ _ _ Hc Hnd) as Hlen.
  unfold print_associated_networks, gateInfo, gets, mbind, proc_bind. rewrite Hi.
  destruct ls as [|l ls]; [done|]. destruct Hc as ([= <-] & g & Hg & Hc). rewrite (gate_get_run _ _ _ Hg).
  cbn in Hlen. pose proof (runs_print_networks (size (w_gates w)) (next g) w ls Hc ltac:(lia)) as Hp.
  destruct (print_networks _ _ w) as [lines w'| | |]; [subst w'|done..]. split; [done|]. by split.
Qed.

Lemma runs_round_end c :
  runs None None ((if decide (c mod GATE_PRINT_TIME = 0) then _ ← print_associated_networks; mret tt else mret tt);;
                  mret c).
Proof using Type.
  eapply runs_bind; [|intros _; apply runs_ret]. case_decide; [|apply runs_ret].
  eapply runs_bind; [apply runs_print_associated|intros _; apply runs_ret].
Qed.

(** [m] from a state in which it is known to come back. *)
Lemma runs_after {A B} (m : prog A) (k : A → prog B) w :
  list_ok local w →
  match m w with Done _ w' => held None w' ∧ same_links w w' | Fault | Exited => True | Stuck => False end →
  (∀ a, runs None None (k a)) →
  match (m ≫= k) w with Done _ w' => held None w' ∧ same_links w w' | Fault | Exited => True | Stuck => False end.
Proof using Type.
  intros Hl Hm Hk. unfold mbind, proc_bind. destruct (m w) as [a w1| | |]; [|done..]. destruct Hm as [Hh1 Hs1].
  specialize (Hk a w1 (list_ok_links _ _ _ Hs1 Hl) Hh1). destruct (k a w1); [|done..]. destruct Hk.
  split; [done|]. by eapply same_links_trans.
Qed.

Lemma runs_admin_round n : runs None None (admin_round n).
Proof using block_positive.
  unfold admin_round, gateInfo. eapply runs_bind; [run_walk|intros t]. intros w Hl Hh.
  pose proof Hl as [Hi (ls & Hc & Hnd)]. pose proof (chain_length _ _ _ Hc Hnd) as Hlen.
  destruct ls as [|l ls]; [done|]. destruct Hc as ([= <-] & g & Hg & Hc). cbn in Hlen.
  unfold gets, mbind at 1, proc_bind at 1. cbn beta iota. rewrite Hi. unfold deref. cbn [lift_opt]. rewrite ret_bind.
  unfold mbind at 1, proc_bind at 1. rewrite (gate_get_run _ _ _ Hg). unfold mbind at 1, proc_bind at 1.
  cbn beta iota. apply runs_after; [done| |intros _; apply runs_round_end]. by apply (runs_admin_gates _ _ _ _ w ls); [|lia|..].
Qed.


(** ** Wrapping: with memory there is no error once the gateway is connected *)

Definition same_gates (w w' : world) : Prop := w_gates w' = w_gates w.
#[local] Instance same_gates_preorder : PreOrder same_gates.
Proof. split; unfold same_gates; [done|congruence]. Qed.

Lemma gates_get l : respects same_gates (gate_get l).
Proof using Type. intros w a w'. unfold gate_get, gets, mbind, proc_bind. by destruct (w_gates w !! l); intros [= _ <-]. Qed.
Lemma gates_time : respects same_gates current_time.
Proof using Type. by intros w a w' [= _ <-]. Qed.
Lemma gates_malloc : respects same_gates malloc_ok.
Proof using Type. by intros w a w' [= _ <-]. Qed.
Hint Resolve gates_get gates_time gates_malloc : procs.
Lemma gates_fill l r p : respects same_gates (fill_ip_header l r p).
Proof using Type. unfold fill_ip_header, store, generate_ip_corrected. proc_walk. Qed.
Lemma gates_create len : respects same_gates (create_packet len).
Proof using Type. unfold create_packet, reparse. proc_walk. Qed.

Context (mallocs_ok : ∀ i, env_malloc i = true).

Lemma create_packet_some len w o w' : create_packet len w = Done o w' → is_Some o.
Proof using mallocs_ok.
  unfold create_packet. intros (ok & w1 & H1 & H2)%bind_done. injection H1 as <- <-. rewrite mallocs_ok in H2.
  cbn [negb] in H2. case_decide; [|done]. apply bind_done in H2 as (ok & w2 & H1 & H2). injection H1 as <- <-.
  rewrite mallocs_ok in H2. cbn [negb] in H2. apply bind_done in H2 as ([? c] & w3 & _ & [= <- _]). by eexists.
Qed.

Lemma store_same off bs p q w w' : store off bs p w = Done q w' → w' = w.
Proof using Type. unfold store. destruct (with_data p <$> _); by intros [=]. Qed.

Lemma encrypt_connected l r a msg p w g e w' :
  w_gates w !! r = Some g → connected g = true →
  encrypt_body l r ARG_WRAPPED_MSG a (Some msg) p w = Done e w' → ∃ q, e = inr q.
Proof using Type.
  intros Hg Hc. unfold encrypt_body, mbind, proc_bind. rewrite (gate_get_run _ _ _ Hg), Hc. cbn [negb].
  change (is_symmetric ARG_WRAPPED_MSG) with true. cbn iota.
  intros (q & w1 & _ & [= <- _])%bind_done. by eexists.
Qed.

Lemma sign_wrapped l p w e w' : sign_packet l ARG_WRAPPED_MSG p w = Done e w' → ∃ q, e = inr q.
Proof using Type.
  unfold sign_packet. intros (arg & w1 & _ & H1)%bind_done. apply bind_done in H1 as (n & w2 & _ & H1).
  apply bind_done in H1 as (b & w3 & _ & H1). apply bind_done in H1 as (g & w4 & _ & H1).
  rewrite decide_True in H1 by done. destruct (md_hmac_finish _). apply bind_done in H1 as (u & w5 & _ & H1).
  apply bind_done in H1 as (q & w6 & _ & [= <- _]). by eexists.
Qed.

(** The gateway's record after the new sequence number was taken. *)
Lemma wrapped_created l r msg w g ret o w' :
  w_gates w !! r = Some g → connected g = true →
  create_arg_packet l r ARG_WRAPPED_MSG (Some msg) w = Done (ret, o) w' → ret = 0.
Proof using mallocs_ok.
  intros Hg Hc. unfold create_arg_packet. intros (gl & w1 & H1 & H2)%bind_done.
  apply gates_get in H1. apply bind_done in H2 as (op & w2 & Hcr & H2). pose proof (gates_create _ _ _ _ Hcr) as H3.
  apply create_packet_some in Hcr as [p ->].
  apply bind_done in H2 as (p1 & w3 & H4%gates_fill & H2). apply bind_done in H2 as ([? p2] & w4 & H5 & H2).
  unfold reparse in H5. assert (w4 = w3) as -> by (revert H5; destruct (parse_packet p1); by intros [=]). clear H5.
  apply bind_done in H2 as (arg & w4 & H5 & H2). assert (w4 = w3) as -> by (revert H5; destruct (p_arg p2); by intros [=]).
  apply bind_done in H2 as (p3 & w4 & H6 & H2). apply store_same in H6 as ->.
  apply bind_done in H2 as (p4 & w4 & H6 & H2). apply store_same in H6 as ->.
  assert (w_gates w3 !! r = Some g) as Hg3 by (unfold same_gates in *; congruence).
  unfold mbind at 1, proc_bind at 1 in H2. rewrite (gate_get_run _ _ _ Hg3) in H2.
  unfold mbind at 1, proc_bind at 1 in H2. rewrite (gate_upd_run _ _ _ _ Hg3) in H2.
  apply bind_done in H2 as (p5 & w4 & H6 & H2). apply store_same in H6 as ->.
  apply bind_done in H2 as (e & w4 & H6 & H2).
  eapply encrypt_connected in H6 as [q ->]; [|apply set_gate_same|exact Hc].
  apply bind_done in H2 as (ip & w5 & _ & H2). apply bind_done in H2 as (tl & w6 & _ & H2).
  apply bind_done in H2 as (al & w7 & _ & H2). apply bind_done in H2 as (p6 & w8 & _ & H2).
  apply bind_done in H2 as ([? p7] & w9 & _ & H2). apply bind_done in H2 as (s & w10 & H6 & H2).
  apply sign_wrapped in H6 as [q' ->]. by injection H2.
Qed.

Lemma runs_send_arg_wrapped l r p : runs None None (send_arg_wrapped l r p).
Proof using block_positive mallocs_ok.
  unfold send_arg_wrapped. eapply runs_bind; [apply runs_lock|intros []]. intros w Hl Hh.
  unfold mbind at 1, proc_bind at 1. destruct (w_gates w !! r) as [g|] eqn:Hg; [|by rewrite gate_get_None].
  rewrite (gate_get_run _ _ _ Hg). destruct (connected g) eqn:Hc; cbn [negb]; [|by apply runs_unlock_ret].
  unfold mbind at 1, proc_bind at 1. set (msg := ArgMsg _ _).
  pose proof (runs_create_arg_packet (Some r) l r ARG_WRAPPED_MSG (Some msg) w Hl Hh) as Hcr.
  destruct (create_arg_packet l r ARG_WRAPPED_MSG (Some msg) w) as [[ret o] w1| | |] eqn:Hrun; [|done..].
  destruct Hcr as [Hh1 Hs1]. rewrite (wrapped_created _ _ _ _ _ _ _ _ Hg Hc Hrun). rewrite decide_False by lia.
  assert (runs (Some r) None (newPacket ← lift_opt o; ret ← send_packet newPacket; mutex_unlock r;; mret ret)) as Hrest.
  { inside. inside. unlock. }
  specialize (Hrest w1 (list_ok_links _ _ _ Hs1 Hl) Hh1).
  destruct ((newPacket ← lift_opt o; ret ← send_packet newPacket; mutex_unlock r;; mret ret) w1); [|done..].
  destruct Hrest. split; [done|]. by eapply same_links_trans.
Qed.

Lemma runs_do_arg_wrap p g : runs None None (do_arg_wrap p g).
Proof using block_positive mallocs_ok.
  unfold do_arg_wrap, gateInfo, deref. inside. case_decide; [run_walk|]. inside. apply runs_send_arg_wrapped.
Qed.

(** ** A new gateway: the list changes, the mutexes do not *)

Definition calm (L L' : option loc) {A} (m : prog A) : Prop := ∀ w, held L w →
  match m w with Done _ w' => held L' w' ∧ elsewhere w w' | Fault | Exited => True | Stuck => False end.

Lemma calm_bind {A B} L L1 L' (m : prog A) (k : A → prog B) :
  calm L L1 m → (∀ a, calm L1 L' (k a)) → calm L L' (m ≫= k).
Proof using Type.
  intros Hm Hk w Hh. specialize (Hm w Hh). unfold mbind, proc_bind. destruct (m w) as [a w1| | |]; [|done..].
  destruct Hm as [Hh1 E1]. specialize (Hk a w1 Hh1). destruct (k a w1); [|done..]. destruct Hk. split; [done|by eapply elsewhere_trans].
Qed.
Lemma calm_after {A} L L' (m : prog A) w w1 : calm L L' m → held L w1 → elsewhere w w1 →
  match m w1 with Done _ w' => held L' w' ∧ elsewhere w w' | Fault | Exited => True | Stuck => False end.
Proof using Type.
  intros Hm Hh He. specialize (Hm w1 Hh). destruct (m w1); [|done..]. destruct Hm. split; [done|].
  by eapply elsewhere_trans.
Qed.
Lemma calm_ret {A} L (a : A) : calm L L (mret a).
Proof using Type. by intros w Hh. Qed.
Lemma calm_lift {A} L (o : option A) : calm L L (lift_opt o).
Proof using Type. by destruct o. Qed.

(** An update of a record besides its mutex. *)
Lemma calm_upd L l f : (∀ g, lock (f g) = lock g) → calm L L (gate_upd l f).
Proof using Type.
  intros Hf w Hh. destruct (w_gates w !! l) as [g|] eqn:Hl; [|by rewrite gate_upd_None].
  rewrite (gate_upd_run _ _ _ _ Hl). split; [|done]. apply map_Forall_insert_2; [|done]. rewrite Hf. by apply (Hh l).
Qed.
Lemma calm_get L l : calm L L (gate_get l).
Proof using Type. intros w Hh. unfold gate_get, gets, mbind, proc_bind. by destruct (w_gates w !! l). Qed.
Lemma calm_lock l : calm None (Some l) (mutex_lock l).
Proof using Type.
  intros w Hh. unfold mutex_lock, mbind, proc_bind. destruct (w_gates w !! l) as [g|] eqn:Hl; [|by rewrite gate_get_None].
  rewrite (gate_get_run _ _ _ Hl), (Hh l g Hl), bool_decide_eq_false_2 by done.
  rewrite (gate_upd_run _ _ _ _ Hl). split; [by eapply held_lock|done].
Qed.
Lemma calm_unlock l : calm (Some l) None (mutex_unlock l).
Proof using Type.
  intros w Hh. unfold mutex_unlock. destruct (w_gates w !! l) as [g|] eqn:Hl; [|by rewrite gate_upd_None].
  rewrite (gate_upd_run _ _ _ _ Hl). split; [by eapply held_unlock|done].
Qed.
Lemma calm_upd_opt L o f : (∀ g, lock (f g) = lock g) → calm L L (upd_opt o f).
Proof using Type. intros Hf. destruct o; [by apply calm_upd|apply calm_ret]. Qed.

Lemma calm_create : calm None None create_arg_network_info.
Proof using mallocs_ok.
  intros w Hh. unfold create_arg_network_info, malloc_ok, gets, modify, mbind, proc_bind. rewrite mallocs_ok. cbn.
  split; [|done]. by apply map_Forall_insert_2.
Qed.
Lemma calm_remove l : calm None None (remove_arg_network l).
Proof using Type.
  unfold remove_arg_network. eapply calm_bind; [apply calm_get|intros g]. eapply calm_bind; [by apply calm_upd_opt|intros _].
  eapply calm_bind; [apply calm_get|intros g']. eapply calm_bind; [by apply calm_upd_opt|intros _].
  eapply calm_bind; [|intros _; apply calm_ret]. intros w Hh. split; [|done]. by apply map_Forall_delete.
Qed.
Lemma calm_hook_up l n : calm None None (hook_up l n).
Proof using Type.
  unfold hook_up. eapply calm_bind; [apply calm_lock|intros _]. eapply calm_bind; [apply calm_get|intros g].
  eapply calm_bind; [by apply calm_upd|intros _]. eapply calm_bind; [by apply calm_upd|intros _]. apply calm_unlock.
Qed.

Lemma runs_calm {A} L L' (m : prog A) w :
  runs L L' m → list_ok local w → held L w →
  match m w with Done _ w' => list_ok local w' ∧ held L' w' ∧ elsewhere w w'
  | Fault | Exited => True | Stuck => False end.
Proof using Type.
  intros Hm Hl Hh. specialize (Hm w Hl Hh). destruct (m w); [|done..]. destruct Hm as [? Hs].
  split; [by eapply list_ok_links|]. split; [done|]. by destruct Hs.
Qed.

(** [process_arg_trust] after the search. *)
Lemma calm_new_gate r t :
  calm None None (
    newGate ← create_arg_network_info;
    newGate ← deref newGate;
    let '(retN, n) := mpi_read_binary (t_n t) in
    if decide (retN ≠ 0) then _ ← remove_arg_network newGate; mret (- ARG_CONFIG_BAD) else
    let '(retE, e) := mpi_read_binary (t_e t) in
    if decide (retE ≠ 0) then _ ← remove_arg_network newGate; mret (- ARG_CONFIG_BAD) else
    gate_upd newGate (trusted_gate t n e);; hook_up local newGate;; start_connection r newGate;; mret 0).
Proof using mallocs_ok.
  eapply calm_bind; [apply calm_create|intros o]. eapply calm_bind; [apply calm_lift|intros l].
  destruct (mpi_read_binary (t_n t)). case_decide; [eapply calm_bind; [apply calm_remove|intros; apply calm_ret]|].
  destruct (mpi_read_binary (t_e t)). case_decide; [eapply calm_bind; [apply calm_remove|intros; apply calm_ret]|].
  eapply calm_bind; [by apply calm_upd|intros _]. eapply calm_bind; [apply calm_hook_up|intros _].
  eapply calm_bind; [by apply calm_upd|intros _]. apply calm_ret.
Qed.

Lemma trust_comes_back r p w :
  list_ok local w → held None w →
  match process_arg_trust local r p w with
  | Done _ w' => held None w' ∧ elsewhere w w' | Fault | Exited => True | Stuck => False end.
Proof using block_positive mallocs_ok.
  intros Hl Hh. unfold process_arg_trust. unfold mbind at 1, proc_bind at 1.
  pose proof (runs_calm _ _ _ w (runs_process_arg_packet None local r p) Hl Hh) as Hp.
  destruct (process_arg_packet local r p w) as [[ret msg] w1| | |]; [|done..]. destruct Hp as (Hl1 & Hh1 & E1).
  case_decide; [done|]. destruct msg as [msg|]; [|done]. cbn [lift_opt]. rewrite ret_bind.
  case_decide; [|done]. destruct (read_trust (m_data msg)) as [t|]; [|done]. cbn [lift_opt]. rewrite ret_bind.
  destruct Hl1 as [Hi (ls & Hc & Hnd)]. unfold gets, mbind at 1 2, proc_bind at 1 2.
  rewrite (find_network_run (size (w_gates w1)) (Some local) ls _ w1 Hc (chain_length _ _ _ Hc Hnd)).
  destruct (first_match _ _ _); [done|]. by apply (calm_after _ _ _ _ _ (calm_new_gate local t)).
Qed.

(** What the theorem below is about: a good list, a good NAT table, and every
    mutex free. *)
Definition at_rest (w : world) : Prop :=
  net_inv w ∧ w_gateInfo w = Some local ∧ held None w ∧ nat_ready false w.

Lemma at_rest_list w : at_rest w → list_ok local w.
Proof using Type. intros ([_ (ls & Hc & Hnd)] & Hi & _). split; [done|]. rewrite Hi in Hc. by exists ls. Qed.

(** What ARG traffic does is at rest again. *)
Lemma at_rest_after w w' : at_rest w → net_inv w' → held None w' → elsewhere w w' → at_rest w'.
Proof using Type.
  intros (_ & Hi & _ & [Hl Ht Hip]) Hn Hh (E1 & E2 & E3). split_and!; [done|congruence|done|].
  split; by rewrite ?E2, ?E3.
Qed.

Lemma runs_comes_back {A} (m : prog A) : runs None None m → keeps net_inv m → comes_back at_rest m.
Proof using Type.
  intros Hr Hk w Hw. pose proof (at_rest_list w Hw) as Hl. pose proof Hw as (Hn & Hi & Hh & _).
  pose proof (runs_calm _ _ _ w Hr Hl Hh) as Hc. specialize (Hk w). destruct (m w) as [a w1| | |] eqn:Hm; [|done..].
  destruct Hc as (_ & ? & ?). eapply at_rest_after; [exact Hw|by eapply Hk|done|done].
Qed.

(** What the NAT does is at rest again. *)
Lemma nat_comes_back {A} (m : prog A) : nat_runs false false m → keeps net_inv m → comes_back at_rest m.
Proof using Type.
  intros Hr Hk w (Hn & Hi & Hh & Hw). specialize (Hr w Hw). specialize (Hk w).
  destruct (m w) as [a w1| | |] eqn:Hm; [|done..]. destruct Hr as [? [E1 E2]].
  split_and!; [by eapply Hk|congruence|unfold held; by rewrite E1|done].
Qed.

Lemma trust_rests r p w :
  at_rest w →
  match process_arg_trust local r p w with Done _ w' => at_rest w' | Fault | Exited => True | Stuck => False end.
Proof using block_positive mallocs_ok.
  intros Hw. pose proof Hw as (Hn & _ & Hh & _). pose proof (trust_comes_back r p w (at_rest_list w Hw) Hh) as Ht.
  pose proof (keeps_process_arg_trust local r p w) as Hk.
  destruct (process_arg_trust local r p w) as [x w1| | |]; [|done..]. destruct Ht as [? E].
  eapply at_rest_after; [exact Hw|by eapply Hk|done|done].
Qed.

Lemma admin_msg_comes_back p g : comes_back at_rest (process_admin_msg p g).
Proof using block_positive mallocs_ok.
  intros w Hw. unfold process_admin_msg. destruct (p_arg p) as [arg|]; [|done]. cbn [lift_opt]. rewrite ret_bind.
  unfold get_msg_type. destruct (rd8 _ _) as [type|]; [|done]. cbn [lift_opt]. rewrite ret_bind.
  pose proof Hw as (Hn & Hi & _). unfold gateInfo, gets, deref, mbind at 1 2, proc_bind at 1 2. rewrite Hi.
  cbn [lift_opt mret proc_ret].
  assert (∀ (m : prog Z), runs None None m → keeps net_inv m →
    match m w with Done _ w' => at_rest w' | Fault | Exited => True | Stuck => False end) as Hm
    by (intros m ? ?; by apply (runs_comes_back m)).
  case_decide; [by apply Hm; [apply runs_process_arg_ping|apply keeps_process_arg_ping]|].
  case_decide; [by apply Hm; [apply runs_process_conn_req|apply keeps_process_conn_req]|].
  case_decide; [by apply Hm; [apply runs_process_conn_resp|apply keeps_process_conn_resp]|].
  case_decide; [|done]. by apply trust_rests.
Qed.

Lemma runs_get_arg_network ip : runs None None (get_arg_network ip).
Proof using Type.
  intros w [Hi (ls & Hc & Hnd)] Hh. rewrite (get_arg_network_run ls); [done|by rewrite Hi|done].
Qed.

(** ** The threads *)

Lemma wrapped_comes_back p gate saddr daddr : comes_back at_rest (inbound_wrapped p gate saddr daddr).
Proof using block_positive mallocs_ok.
  apply runs_comes_back; [apply runs_inbound_wrapped|apply keeps_inbound_wrapped].
Qed.
Lemma lookup_comes_back ip : comes_back at_rest (get_arg_network ip).
Proof using Type. apply runs_comes_back; [apply runs_get_arg_network|apply keeps_get_arg_network]. Qed.
Lemma wrap_comes_back p gate : comes_back at_rest (do_arg_wrap p gate).
Proof using block_positive mallocs_ok.
  apply runs_comes_back; [apply runs_do_arg_wrap|]. unfold do_arg_wrap, gateInfo, deref. proc_walk.
  apply keeps_send_arg_wrapped.
Qed.
Lemma nat_in_comes_back p : comes_back at_rest (do_nat_inbound_rewrite p).
Proof using Type. apply nat_comes_back; [apply nat_runs_inbound|apply keeps_nat_inbound]. Qed.
Lemma nat_out_comes_back p : comes_back at_rest (do_nat_outbound_rewrite p).
Proof using Type. apply nat_comes_back; [apply nat_runs_outbound|apply keeps_nat_outbound]. Qed.
Lemma load_comes_back off n p : comes_back at_rest (load off n p).
Proof using Type. apply comes_back_lift. Qed.
Hint Resolve admin_msg_comes_back wrapped_comes_back lookup_comes_back wrap_comes_back nat_in_comes_back
  nat_out_comes_back load_comes_back : procs.

Lemma inbound_comes_back p : comes_back at_rest (direct_inbound p).
Proof using block_positive mallocs_ok. unfold direct_inbound, get_msg_type. proc_walk. Qed.
Lemma outbound_comes_back p : comes_back at_rest (direct_outbound p).
Proof using block_positive mallocs_ok. unfold direct_outbound. proc_walk. Qed.
Lemma arp_comes_back p i mac : comes_back at_rest (send_arp_reply p i mac).
Proof using Type. apply nat_comes_back; [apply nat_runs_apart, apart_arp_reply|apply keeps_arp_reply]. Qed.
Hint Resolve inbound_comes_back outbound_comes_back arp_comes_back : procs.

Lemma receiver_comes_back `{Nic} handler dev frames :
  (∀ p, comes_back at_rest (handler p)) → comes_back at_rest (receive_thread handler dev frames).
Proof using Type.
  intros Hh. unfold receive_thread.
  assert (∀ i mac, comes_back at_rest (receive_loop handler i mac frames)) as Hl.
  { intros i mac. induction frames as [|[f|] frames IH]; cbn [receive_loop]; [by intros w| |done].
    apply comes_back_bind; [|done]. unfold receive_frame. apply comes_back_bind; [apply comes_back_lift|].
    intros [ret p]. proc_walk; auto. }
  proc_walk; auto.
Qed.

(** C4. No thread waits for ever.  From a state with a good list of gateways
    and a good NAT table in which no mutex is held, each of the program's four
    threads comes back with every mutex free and both structures good, whatever
    frames arrive and however many turns it takes -- or is undefined, where
    other theorems say so.  It takes that memory does not run out: without it,
    [send_arg_wrapped] keeps its mutex. *)
Theorem no_thread_hangs `{Nic} turns dev frames :
  comes_back at_rest (receive_thread inbound_handler dev frames)
  ∧ comes_back at_rest (receive_thread outbound_handler dev frames)
  ∧ comes_back at_rest (hopper_admin_thread turns)
  ∧ comes_back at_rest (nat_cleanup_thread turns).
Proof using block_positive mallocs_ok.
  split_and!.
  - apply receiver_comes_back. intros p. unfold inbound_handler. proc_walk.
  - apply receiver_comes_back. intros p. unfold outbound_handler. proc_walk.
  - unfold hopper_admin_thread. generalize 0. induction turns as [|k IH]; intros c; cbn [hopper_admin_loop];
      [by intros w|]. apply comes_back_bind; [|done].
    apply runs_comes_back; [apply runs_admin_round|apply keeps_admin_round].
  - induction turns as [|k IH]; cbn [nat_cleanup_thread]; [by intros w|]. apply comes_back_bind; [|done].
    apply nat_comes_back; [apply nat_runs_cleanup|apply keeps_cleanup_round].
Qed.
End Operations.

(** ** Evaluation: gateway A and its peer *)

Lemma worldA_at_rest : at_rest 1%positive worldA.
Proof.
  split; [apply worldA_inv|]. split; [done|].
  split; [apply map_Forall_insert_2; [reflexivity|]; apply map_Forall_singleton; reflexivity|].
  split; [done|by exists []; apply nat_ok_init|done].
Qed.

Lemma toy_blocks (c : @cipher_context toy) : 0 < @cipher_get_block_size toy c.
Proof. exact (eq_refl Lt). Qed.

Lemma toy_mallocs i : @env_malloc toy_env i = true.
Proof. exact (eq_refl true). Qed.

(** A kernel with one Ethernet device, and a frame from a host behind A. *)
Definition toy_nic : Nic := {|
  raw_socket := 3;
  ioctl_hwaddr _ := (0, [2; 0; 0; 0; 0; 1] ++ zeros 8);
  ioctl_index _ := (0, 2);
  datalink_ethernet _ := true |}.
Definition toy_frame : list Z :=
  [2; 0; 0; 0; 0; 1; 2; 0; 0; 0; 0; 9; 8; 0] ++ datagram_bytes 64 9 9 7 7.

(** A lets it through the NAT, and remembers the connection. *)
Example outbound_frame_sent :
  wp (@receive_thread toy toy_env toy_nic outbound_handler [101] [Some toy_frame; None])
    (λ r w', r = 0 ∧ length (w_sent w') = 1%nat ∧ n_entries (w_nat w') ≠ ∅) worldA.
Proof. vm_compute. split_and!; by intros. Qed.

Lemma no_thread_hangs_witness :
  at_rest 1%positive worldA
  ∧ comes_back (at_rest 1%positive) (@receive_thread toy toy_env toy_nic inbound_handler [101] [Some toy_frame; None])
  ∧ comes_back (at_rest 1%positive) (@receive_thread toy toy_env toy_nic outbound_handler [101] [Some toy_frame; None])
  ∧ comes_back (at_rest 1%positive) (@hopper_admin_thread toy toy_env 3)
  ∧ comes_back (at_rest 1%positive) (@nat_cleanup_thread toy toy_env 3).
Proof.
  split; [apply worldA_at_rest|].
  apply (no_thread_hangs 1%positive toy_blocks toy_mallocs 3 [101] [Some toy_frame; None]).
Defined.
