(* ===== verification/GateList.v ===== *)
(** * The list of gateways (src/hopper.c, src/protocol.c)

    Removing gateways from the doubly linked list, emptying it, and what
    hooking up a new gateway does to the backward links. *)

From S2P Require Import Prelude Linked Words Settings ArgError Utility Crypto Packet Gate Uthash NatData World Net ToyCrypto ToyWorld Layout Hopper Message ArgPacket Protocol Nat Director Invariant.

(** The list in both directions: [prv] is what comes before it. *)
Abbreviation dlist gs prv p ls := (dseg next prev (λ _, True) gs prv p ls None).

Section GateList.
Context `{PolarSSL}.
Implicit Types w : world.

Lemma dlist_chain gs prv p ls : dlist gs prv p ls → chain gs p ls.
Proof.
  revert prv p. induction ls as [|l ls IH]; intros prv p; [done|].
  intros (-> & g & Hg & _ & _ & Hd). split; [done|]. exists g. split; [done|]. by eapply IH.
Qed.

(** ** Removing one gateway *)

Lemma wp_bind_upd_opt {B} p f (k : unit → proc world B) Q w :
  match p with
  | None => wp (k tt) Q w
  | Some l => ∃ g, w_gates w !! l = Some g ∧ wp (k tt) Q (set_gate l (f g) w)
  end → wp (upd_opt p f ≫= k) Q w.
Proof. destruct p as [l|]; [intros (g & Hg & Hk); by eapply wp_bind_upd|done]. Qed.

(** The neighbours of [n] as [remove_arg_network] leaves them; all other
    gateways are untouched and [n] is freed. *)
Lemma remove_run n g a ga w :
  w_gates w !! n = Some g → prev g = Some a → w_gates w !! a = Some ga → a ≠ n →
  (∀ b, next g = Some b → b ≠ n ∧ b ≠ a ∧ is_Some (w_gates w !! b)) →
  wp (remove_arg_network n) (λ r w', r = next g
    ∧ w_gateInfo w' = w_gateInfo w
    ∧ w_gates w' !! a = Some (ga <| next := next g |>)
    ∧ w_gates w' !! n = None
    ∧ (∀ b gb, next g = Some b → w_gates w !! b = Some gb →
         w_gates w' !! b = Some (gb <| prev := Some a |>))
    ∧ (∀ l, l ≠ a → l ≠ n → next g ≠ Some l → w_gates w' !! l = w_gates w !! l)) w.
Proof.
  intros Hn Hp Ha Hne Hnx. unfold remove_arg_network.
  eapply wp_bind_get; [done|]. apply wp_bind_upd_opt. destruct (next g) as [b|] eqn:Hb.
  - destruct (Hnx b eq_refl) as (Hbn & Hba & gb & Hgb). exists gb. split; [done|].
    eapply wp_bind_get; [by rewrite set_gate_ne|]. apply wp_bind_upd_opt. rewrite Hp.
    exists ga. split; [by rewrite set_gate_ne|]. apply wp_bind. unfold modify, wp. cbn.
    rewrite Hb. split_and!; try done.
    + rewrite lookup_delete_ne by done. apply lookup_insert_eq.
    + apply lookup_delete_eq.
    + intros b' gb' [= <-] Hgb'. assert (gb' = gb) as -> by congruence.
      rewrite lookup_delete_ne, lookup_insert_ne by congruence. apply lookup_insert_eq.
    + intros l Hla Hln Hlb. by rewrite lookup_delete_ne, !lookup_insert_ne by congruence.
  - eapply wp_bind_get; [done|]. apply wp_bind_upd_opt. rewrite Hp.
    exists ga. split; [done|]. apply wp_bind. unfold modify, wp. cbn.
    rewrite Hb. split_and!; try done.
    + rewrite lookup_delete_ne by done. apply lookup_insert_eq.
    + apply lookup_delete_eq.
    + intros l Hla Hln _. by rewrite lookup_delete_ne, lookup_insert_ne by congruence.
Qed.

(** ** Removing all but the first *)

(** A list in which only the first gateway's successor has a right [prev]. *)
Record headed (h : loc) (ls : list loc) (w : world) : Prop := {
  hd_info : w_gateInfo w = Some h;
  hd_head : ∃ g, w_gates w !! h = Some g ∧ chain (w_gates w) (next g) ls;
  hd_nodup : NoDup (h :: ls);
  hd_second : ∀ n g, hd_error ls = Some n → w_gates w !! n = Some g → prev g = Some h }.

Lemma headed_next h n ls g w :
  headed h (n :: ls) w → w_gates w !! n = Some g →
  (∀ b, next g = Some b → b ≠ n ∧ b ≠ h ∧ is_Some (w_gates w !! b) ∧ hd_error ls = Some b).
Proof.
  intros [_ (gh & _ & _ & g' & Hg' & Hc) Hnd _] Hg b Hb. simplify_eq.
  destruct ls as [|b' ls]; cbn in Hc; [congruence|].
  destruct Hc as [Hb' (gb & Hgb & _)]. assert (b' = b) as -> by congruence.
  apply NoDup_cons in Hnd as [Hh Hnd]. apply NoDup_cons in Hnd as [Hn _].
  rewrite !not_elem_of_cons in Hh. rewrite not_elem_of_cons in Hn.
  destruct Hh as (_ & ? & _), Hn as [? _]. split_and!; [congruence|congruence|by eexists|done].
Qed.

Lemma dlist_headed h ls w :
  w_gateInfo w = Some h → dlist (w_gates w) None (Some h) (h :: ls) → NoDup (h :: ls) → headed h ls w.
Proof.
  intros Hi (_ & g & Hg & _ & _ & Hd) Hnd. split; [done| |done|].
  - exists g. split; [done|]. by eapply dlist_chain.
  - destruct ls as [|n ls]; [done|]. destruct Hd as (_ & gn & Hgn & Hp & _). intros m gm [= <-] Hm. congruence.
Qed.

(** One turn of the loop. *)
Lemma headed_remove h n ls w :
  headed h (n :: ls) w →
  wp (remove_arg_network n) (λ _ w', headed h ls w' ∧ w_gates w' !! n = None
    ∧ ∀ l, l ∉ h :: n :: ls → w_gates w' !! l = w_gates w !! l) w.
Proof.
  intros Hh. pose proof Hh as [Hi (gh & Hgh & Hnh & g & Hg & Hc) Hnd Hs].
  pose proof (headed_next _ _ _ _ _ Hh Hg) as Hnx.
  pose proof Hnd as [Hhn [Hnn Hnd']%NoDup_cons]%NoDup_cons.
  assert (h ≠ n) as Hne by (intros ->; apply Hhn; by left).
  eapply wp_mono.
  { apply (remove_run n g h gh w Hg (Hs _ _ eq_refl Hg) Hgh Hne).
    intros b Hb. destruct (Hnx b Hb) as (? & ? & ? & _). done. }
  cbv beta. intros r w' (_ & Hi' & Hh' & Hn' & Hb' & Hl').
  assert (∀ l, l ∉ h :: n :: ls → w_gates w' !! l = w_gates w !! l) as Hother.
  { intros l Hl. rewrite !not_elem_of_cons in Hl. destruct Hl as (? & ? & Hl). apply Hl'; [done..|].
    intros Hb. destruct (Hnx l Hb) as (_ & _ & _ & Hhd). apply Hl. destruct ls; [done|].
    injection Hhd as ->. by left. }
  split_and!; [|done|done]. split.
  - by rewrite Hi'.
  - eexists. split; [exact Hh'|]. cbn. apply (chain_agree (w_gates w)); [done|].
    intros l gl Hl Hgl. destruct (decide (next g = Some l)) as [Hb|Hb].
    + eexists. split; [by eapply Hb'|]. done.
    + exists gl. split; [|done]. rewrite Hl'; [done|..|done].
      * intros ->. apply Hhn. by right.
      * by intros ->.
  - apply NoDup_cons. split; [|done]. intros Hin. apply Hhn. by right.
  - intros m gm Hm Hgm. destruct ls as [|m' ls]; [done|]. injection Hm as ->.
    destruct Hc as [Hb (gb & Hgb & _)]. rewrite (Hb' m gb Hb Hgb) in Hgm. by injection Hgm as <-.
Qed.

Lemma remove_all_run fuel h ls w :
  headed h ls w → (length ls ≤ fuel)%nat →
  wp (remove_all_loop fuel) (λ _ w', headed h [] w'
    ∧ (∀ l, l ∈ ls → w_gates w' !! l = None)
    ∧ ∀ l, l ∉ h :: ls → w_gates w' !! l = w_gates w !! l) w.
Proof.
  revert fuel w. induction ls as [|n ls IH]; intros fuel w Hh Hf;
    pose proof Hh as [Hi (gh & Hgh & Hc) Hnd _].
  - cbn in Hc. destruct fuel; cbn [remove_all_loop]; unfold gateInfo; apply wp_bind_gets;
      (rewrite Hi; eapply wp_bind_lift; [done|]; eapply wp_bind_get; [done|]; rewrite Hc; apply wp_ret;
      split_and!; [done|by intros ? ?%not_elem_of_nil|done]).
  - destruct fuel as [|fuel]; [cbn in Hf; lia|]. cbn [remove_all_loop]. unfold gateInfo.
    apply wp_bind_gets. rewrite Hi. eapply wp_bind_lift; [done|]. eapply wp_bind_get; [done|].
    destruct Hc as [-> _]. apply wp_bind. eapply wp_mono; [by apply headed_remove|].
    cbv beta. intros _ w1 (Hh1 & Hn1 & Ho1). cbn in Hf.
    eapply wp_mono; [apply IH; [done|lia]|]. cbv beta. intros _ w2 (Hh2 & Hr2 & Ho2).
    pose proof Hnd as [Hhn [Hnn _]%NoDup_cons]%NoDup_cons.
    split_and!; [done| |].
    + intros l [->|Hl]%elem_of_cons; [|by apply Hr2]. rewrite Ho2; [done|].
      rewrite not_elem_of_cons in Hhn. rewrite not_elem_of_cons.
      destruct Hhn as [? _]. split; congruence.
    + intros l Hl. rewrite !not_elem_of_cons in Hl. destruct Hl as (? & ? & ?).
      rewrite Ho2, Ho1; [done|by rewrite !not_elem_of_cons|by rewrite not_elem_of_cons].
Qed.

Lemma remove_all_headed h ls w :
  headed h ls w →
  wp remove_all_associated_arg_networks (λ _ w', headed h [] w'
    ∧ (∀ l, l ∈ ls → w_gates w' !! l = None)
    ∧ ∀ l, l ∉ h :: ls → w_gates w' !! l = w_gates w !! l) w.
Proof.
  intros Hh. pose proof Hh as [Hi (gh & Hgh & Hc) Hnd _].
  unfold remove_all_associated_arg_networks, gateInfo. apply wp_bind_gets. rewrite Hi.
  apply wp_bind_gets. apply remove_all_run; [done|].
  pose proof (chain_length (w_gates w) (Some h) (h :: ls)) as Hlen. cbn in Hlen.
  enough (S (length ls) ≤ size (w_gates w))%nat by lia. apply Hlen; [|done]. split; [done|].
  by exists gh.
Qed.

(** [remove_all_associated_arg_networks] terminates, frees every gateway of
    the list but the first, leaves the first with no successor, and touches no
    other gateway; it needs only the second gateway's [prev] to be right. *)
Theorem remove_all_keeps_first h ls w :
  headed h ls w →
  ∃ w' g, remove_all_associated_arg_networks w = Done tt w'
    ∧ w_gateInfo w' = Some h ∧ w_gates w' !! h = Some g ∧ next g = None
    ∧ (∀ l, l ∈ ls → w_gates w' !! l = None)
    ∧ ∀ l, l ∉ h :: ls → w_gates w' !! l = w_gates w !! l.
Proof.
  intros Hh. destruct (wp_elim _ _ _ (remove_all_headed h ls w Hh))
    as ([] & w' & Hr & [Hi' (g & Hg & Hc') _ _] & Hrem & Ho).
  exists w', g. by split_and!.
Qed.

(** ** Hooking up a new gateway *)

Lemma hook_up_run h ls n gh gn w :
  headed h ls w → w_gates w !! h = Some gh → lock gh = false →
  n ∉ h :: ls → w_gates w !! n = Some gn →
  wp (hook_up h n) (λ _ w', headed h (n :: ls) w'
    ∧ (∀ l, l ≠ h → l ≠ n → w_gates w' !! l = w_gates w !! l)) w.
Proof.
  intros [Hi (gh' & Hgh' & Hc) Hnd Hs] Hgh Hk Hn Hgn. assert (gh' = gh) as -> by congruence.
  apply not_elem_of_cons in Hn as [Hnh Hn]. unfold hook_up.
  eapply wp_bind_lock; [done..|]. eapply wp_bind_get; [apply set_gate_same|].
  eapply wp_bind_upd; [by rewrite set_gate_ne|].
  eapply wp_bind_upd; [rewrite set_gate_ne by done; apply set_gate_same|].
  apply wp_bind_right. eapply wp_bind_unlock; [apply set_gate_same|]. apply wp_ret.
  set (w' := set_gate _ _ _).
  assert (∀ l, l ≠ h → l ≠ n → w_gates w' !! l = w_gates w !! l) as Ho.
  { intros l Hlh Hln. unfold w'. by rewrite !set_gate_ne by done. }
  split; [|done]. split.
  - exact Hi.
  - eexists. split; [apply set_gate_same|]. split; [done|]. eexists.
    split; [unfold w'; rewrite !set_gate_ne by done; apply set_gate_same|].
    change (chain (w_gates w') (next gh) ls). apply (chain_agree (w_gates w)); [done|].
    intros l g Hl Hg. exists g. rewrite Ho; [done|..].
    + intros ->. by apply NoDup_cons in Hnd as [? _].
    + by intros ->.
  - apply NoDup_cons in Hnd as [Hh Hnd]. 
    apply NoDup_cons. split; [rewrite not_elem_of_cons; split; congruence|]. by apply NoDup_cons.
  - intros m g [= <-]. unfold w'. rewrite !set_gate_ne, set_gate_same by done. by intros [= <-].
Qed.

(** C31. Hooking up gateway [n] puts it second in the list and keeps the list
    sound for lookups and for [remove_all_associated_arg_networks].  But the
    gateway [b] that was second keeps its old [prev]: removing [b] afterwards
    takes [n] out of the list as well, although [n] is still allocated. *)
Theorem hook_up_stale_prev h b ls n gh gn gb w :
  headed h (b :: ls) w → w_gates w !! h = Some gh → lock gh = false →
  w_gates w !! b = Some gb → n ∉ h :: b :: ls → w_gates w !! n = Some gn →
  ∃ w1 r w2 g, hook_up h n w = Done tt w1 ∧ headed h (n :: b :: ls) w1
    ∧ remove_arg_network b w1 = Done r w2
    ∧ w_gates w2 !! h = Some g ∧ next g = next gb
    ∧ chain (w_gates w2) (w_gateInfo w2) (h :: ls)
    ∧ is_Some (w_gates w2 !! n).
Proof.
  intros Hh Hgh Hk Hgb Hn Hgn.
  destruct (wp_elim _ _ _ (hook_up_run h (b :: ls) n gh gn w Hh Hgh Hk Hn Hgn))
    as ([] & w1 & Hr1 & Hh1 & Ho1).
  rewrite !not_elem_of_cons in Hn. destruct Hn as (Hnh & Hnb & Hnl).
  pose proof Hh as [_ _ [Hhb Hnd]%NoDup_cons Hs].
  rewrite not_elem_of_cons in Hhb. destruct Hhb as [Hhb Hhl].
  apply NoDup_cons in Hnd as [Hbl Hnd].
  assert (w_gates w1 !! b = Some gb) as Hgb1 by (rewrite Ho1; congruence).
  pose proof Hh1 as [Hi1 (g1 & Hg1 & Hnx & gn1 & Hgn1 & Hnb1 & gb1 & Hgb1' & Hc1) _ _].
  assert (gb1 = gb) as -> by congruence.
  pose proof (headed_next _ _ _ _ _ Hh Hgb) as Hnext.
  assert (∀ x, next gb = Some x → x ≠ b ∧ x ≠ h ∧ is_Some (w_gates w1 !! x)) as Hnext1.
  { intros x Hx. destruct (Hnext x Hx) as (Hxb & Hxh & _ & Hhd). split_and!; [done..|].
    destruct ls as [|x' ls]; [done|]. injection Hhd as ->. destruct Hc1 as [_ (gx & Hgx & _)]. by eexists. }
  destruct (wp_elim _ _ _ (remove_run b gb h g1 w1 Hgb1 (Hs _ _ eq_refl Hgb) Hg1 Hhb Hnext1))
    as (r & w2 & Hr2 & -> & Hi2 & Hh2 & _ & Hb2 & Ho2).
  do 4 eexists. split_and!; [exact Hr1|exact Hh1|exact Hr2|exact Hh2|done| |].
  - rewrite Hi2, Hi1. split; [done|]. eexists. split; [exact Hh2|]. cbn.
    apply (chain_agree (w_gates w1)); [done|]. intros l g Hl Hg.
    destruct (decide (next gb = Some l)) as [Hx|Hx].
    + eexists. split; [by eapply Hb2|done].
    + exists g. split; [|done]. rewrite Ho2; [done|..|done]; by intros ->.
  - destruct (decide (next gb = Some n)) as [Hx|Hx].
    + by rewrite (Hb2 n gn1 Hx Hgn1).
    + rewrite Ho2; [by rewrite Hgn1|done..].
Qed.
End GateList.

(** ** Evaluation: a third gateway C arrives at A *)

Definition three_world : world :=
  set_gate 3%positive (toy_gate 5 6 [10; 3; 3; 0] None None) worldA.

Lemma three_headed : headed 1%positive [2%positive] three_world.
Proof.
  split.
  - reflexivity.
  - eexists. split; [reflexivity|]. split; [reflexivity|]. eexists. split; reflexivity.
  - apply toy_nodup.
  - intros n g [= <-]. intros [= <-]. reflexivity.
Defined.

Lemma remove_all_keeps_first_witness :
  ∃ w' g, remove_all_associated_arg_networks three_world = Done tt w'
    ∧ w_gateInfo w' = Some 1%positive ∧ w_gates w' !! 1%positive = Some g ∧ next g = None
    ∧ (∀ l, l ∈ [2%positive] → w_gates w' !! l = None)
    ∧ ∀ l, l ∉ [1%positive; 2%positive] → w_gates w' !! l = w_gates three_world !! l.
Proof. apply (remove_all_keeps_first 1%positive [2%positive]), three_headed. Defined.

Lemma hook_up_stale_prev_witness :
  ∃ w1 r w2 g, hook_up 1%positive 3%positive three_world = Done tt w1
    ∧ headed 1%positive [3%positive; 2%positive] w1
    ∧ remove_arg_network 2%positive w1 = Done r w2
    ∧ w_gates w2 !! 1%positive = Some g ∧ next g = None
    ∧ chain (w_gates w2) (w_gateInfo w2) [1%positive]
    ∧ is_Some (w_gates w2 !! 3%positive).
Proof.
  apply (hook_up_stale_prev 1%positive 2%positive [] 3%positive (gateA (Some 2%positive) None)
    (toy_gate 5 6 [10; 3; 3; 0] None None) (gateB None (Some 1%positive)) three_world three_headed);
    try reflexivity.
  by rewrite !not_elem_of_cons; split_and!; [| |apply not_elem_of_nil].
Defined.
