(* ===== verification/StartupFacts.v ===== *)
(** * The list of gateways after the start (src/hopper.c, [get_hopper_conf])

    From the list of names and the key files next to the configuration to the
    doubly linked list of gateways, with the gateway itself first. *)

From S2P Require Import Prelude Linked Words Settings ArgError CString Utility Crypto Packet Gate Uthash NatData World Config ToyCrypto ToyWorld Net Layout ToySetup ConfigFacts KeyFiles Hopper Startup HopperFacts Invariant GateList.

(** What a public key file says of the gate [pb_name]. *)
Record published := Published {
  pb_name : list Z; pb_ip : list Z; pb_mask : list Z; pb_key : rsa_context }.

Lemma until_nul_idem s : until_nul (until_nul s) = until_nul s.
Proof. induction s as [|b s IH]; [done|]. cbn. case_decide; [done|]. cbn. by rewrite decide_False, IH by done. Qed.

Lemma strncpy_until dst s n : strncpy dst s n = strncpy dst (until_nul s) n.
Proof. unfold strncpy. by rewrite until_nul_idem. Qed.

(** A name as a gateway record stores it. *)
Definition stored_name (nm : list Z) : list Z := strncpy (zeros MAX_NAME_SIZE) nm (MAX_NAME_SIZE - 1).

Lemma stored_name_cstr nm :
  Forall (λ b, b ≠ 0) nm → (length nm < MAX_NAME_SIZE)%nat → cstr (stored_name nm) = Some nm.
Proof.
  intros Hn Hl. unfold stored_name. destruct (decide (length nm = MAX_NAME_SIZE - 1)%nat) as [He|].
  - unfold strncpy. rewrite until_nul_no_nul, take_ge by (done || lia). rewrite He, Nat.sub_diag.
    change (drop (MAX_NAME_SIZE - 1) (zeros MAX_NAME_SIZE)) with [0]. cbn [zeros replicate app].
    by apply cstr_intro.
  - apply cstr_strncpy; [done|]. lia.
Qed.

Section StartupFacts.
Context `{U : Setup} {Hmpi : MpiFiles U} `{Env}.
Implicit Types w : world.

(** The record of a published gate, before it is linked. *)
Definition gate_for (d : published) : arg_network_info :=
  new_arg_network_info <| name := stored_name (pb_name d) |>
    <| baseIP := mask_array ADDR_SIZE (pb_ip d) (pb_mask d) |> <| mask := pb_mask d |>
    <| rsa ::= (λ r, r <| rsa_N := rsa_N (pb_key d) |> <| rsa_E := rsa_E (pb_key d) |>
                      <| rsa_len := Z.shiftr (mpi_msb (rsa_N (pb_key d)) + 7) 3 |>) |>.

(** A gateway without its links. *)
Definition unlinked (g : arg_network_info) : arg_network_info := g <| next := None |> <| prev := None |>.

(** Its file is in [dir] and was written by the generator. *)
Definition published_in (dir : list Z) (d : published) : Prop :=
  Forall (λ b, b ≠ 0) (pb_name d) ∧ (length (pb_name d) < MAX_NAME_SIZE)%nat ∧
  ∃ ip m, fs_read (dir ++ SLASH :: pb_name d ++ dot_pub) = inr (public_file ip m (pb_key d))
    ∧ pton ip [] None = Some (pb_ip d) ∧ (length ip < IP_TEXT_SIZE - 1)%nat
    ∧ pton m [] None = Some (pb_mask d) ∧ (length m < IP_TEXT_SIZE - 1)%nat ∧ key_ok (pb_key d).

(** The list built so far; no other gateway is allocated. *)
Record built (w : world) (ls : list loc) (ds : list published) : Prop := {
  bl_list : dlist (w_gates w) None (w_gateInfo w) ls;
  bl_nodup : NoDup ls;
  bl_gates : Forall2 (λ l d, unlinked <$> w_gates w !! l = Some (gate_for d)) ls ds;
  bl_only x : is_Some (w_gates w !! x) → x ∈ ls }.

(** ** Updates that keep the links *)

Lemma dlist_upd gs prv p ls l g g' :
  dlist gs prv p ls → gs !! l = Some g → next g' = next g → prev g' = prev g →
  dlist (<[l := g']> gs) prv p ls.
Proof.
  intros Hd Hl Hn Hp. revert prv p Hd. induction ls as [|x ls IH]; intros prv p; [done|].
  intros (-> & gx & Hgx & Hpx & _ & Hd). split; [done|]. destruct (decide (l = x)) as [->|Hne].
  - exists g'. rewrite lookup_insert_eq. assert (gx = g) as -> by congruence.
    split_and!; [done|congruence|done|]. rewrite Hn. by apply IH.
  - exists gx. rewrite lookup_insert_ne by done. split_and!; [done..|]. by apply IH.
Qed.

Lemma gates_other (P : arg_network_info → arg_network_info) (gs gs' : gmap loc arg_network_info) ls (ds : list published) f :
  Forall2 (λ l d, P <$> gs !! l = Some (f d)) ls ds →
  (∀ l, l ∈ ls → P <$> gs' !! l = P <$> gs !! l) → Forall2 (λ l d, P <$> gs' !! l = Some (f d)) ls ds.
Proof.
  intros Hf Ha. induction Hf as [|l d ls ds Hl _ IH]; constructor.
  - rewrite Ha by (by left). done.
  - apply IH. intros x Hx. apply Ha. by right.
Qed.

(** ** Linking a new gateway at the end *)

Lemma link_run ls ds net g w :
  dlist (w_gates w) None (w_gateInfo w) ls → NoDup ls →
  Forall2 (λ l d, unlinked <$> w_gates w !! l = Some (gate_for d)) ls ds →
  net ∉ ls → w_gates w !! net = Some g → next g = None → prev g = None →
  wp (link_gate (last ls) net) (λ _ w', dlist (w_gates w') None (w_gateInfo w') (ls ++ [net])
    ∧ Forall2 (λ l d, unlinked <$> w_gates w' !! l = Some (gate_for d)) ls ds
    ∧ w_gates w' !! net = Some (g <| prev := last ls |>)
    ∧ ∀ x, is_Some (w_gates w' !! x) → is_Some (w_gates w !! x)) w.
Proof.
  intros Hd Hnd Hg Hnet Hl Hn Hp. unfold link_gate, gateInfo. apply wp_bind_gets.
  destruct ls as [|x ls _] using rev_ind.
  - cbn in Hd. rewrite Hd. apply Forall2_nil_inv_l in Hg. subst ds.
    apply wp_bind. unfold set_head, modify, wp at 1. apply wp_ret. cbn.
    split; [split; [done|]; exists g; by split_and!|]. split; [constructor|]. split; [|done].
    rewrite Hl. f_equal. destruct g. cbn in *. by subst.
  - rewrite last_snoc. destruct (w_gateInfo w) as [gi|] eqn:Hgi.
    2: { apply dseg_head in Hd. by destruct ls. }
    rewrite ret_bind. destruct (dseg_lookup Hd (l := x)) as [gx Hgx]; [set_solver|].
    assert (x ≠ net) as Hne by set_solver.
    eapply wp_bind_upd; [exact Hgx|]. apply wp_bind_right.
    eapply wp_bind_upd; [rewrite set_gate_ne by done; exact Hl|]. apply wp_ret. cbn. rewrite Hgi.
    pose proof (dseg_relink_end (nx := next) (pv := prev) (P := λ _, True) (Some net)
      (λ g, g <| next := Some net |>) ltac:(done) ltac:(done) ltac:(done) Hnd Hd) as Hr.
    rewrite last_snoc in Hr. cbn [opt_alter] in Hr. rewrite (alter_as_insert _ _ _ _ Hgx) in Hr.
    split_and!.
    + apply dseg_app. exists (Some net). split.
      * eapply dseg_agree; [|destruct ls; exact Hr]. intros y Hy. apply lookup_insert_ne. by intros <-.
      * unfold last_or. rewrite last_snoc. split; [done|]. eexists. rewrite lookup_insert_eq. by split_and!.
    + eapply gates_other; [exact Hg|]. intros y Hy. rewrite lookup_insert_ne by (by intros <-).
      destruct (decide (x = y)) as [->|]; [by rewrite lookup_insert_eq, Hgx|by rewrite lookup_insert_ne].
    + by rewrite lookup_insert_eq.
    + intros y. rewrite !lookup_insert_is_Some. intros [<-|[_ [<-|[_ Hy]]]]; [by eexists..|done].
Qed.

(** ** Its name and its public file *)

Context (c : config_data) (dir : list Z).
Context (Hdir : cstr (cf_dir c) = Some dir) (Hdirlen : (length dir + 16 < MAX_CONF_LINE)%nat).

Lemma load_run d nm l g w :
  published_in dir d → until_nul nm = pb_name d → w_gates w !! l = Some g →
  unlinked g = new_arg_network_info →
  wp (load_gate c nm l) (λ _ w', ∃ g', w_gates w' = <[l := g']> (w_gates w)
    ∧ w_gateInfo w' = w_gateInfo w ∧ next g' = next g ∧ prev g' = prev g ∧ unlinked g' = gate_for d) w.
Proof using All.
  intros (Hz & Hlen & ip & m & Hfile & Hip & Hil & Hm & Hml & Hk) Hnm Hl Hnew.
  assert (name g = zeros MAX_NAME_SIZE) as Hzero by exact (f_equal name Hnew).
  set (g1 := g <| name := stored_name (pb_name d) |>).
  assert (g <| name ::= (λ dst, strncpy dst nm (MAX_NAME_SIZE - 1)) |> = g1) as Hg1
    by (unfold g1, stored_name; rewrite <- Hzero, <- Hnm, <- strncpy_until; done).
  unfold load_gate. eapply wp_bind_upd; [exact Hl|]. rewrite Hg1.
  eapply wp_bind_get; [apply set_gate_same|]. apply wp_bind. unfold wp at 1.
  rewrite (read_public_key_run c g1 dir (pb_name d) ip m (pb_key d) (pb_ip d) (pb_mask d)); try done.
  - eapply wp_bind_upd; [apply set_gate_same|]. apply wp_bind_right.
    eapply wp_bind_upd; [apply set_gate_same|]. apply wp_ret. eexists. cbn. rewrite !insert_insert_eq.
    split_and!; [reflexivity|done|done|done|].
    unfold gate_for. rewrite <- Hnew. destruct g. reflexivity.
  - apply stored_name_cstr; done.
  - unfold MAX_NAME_SIZE, MAX_CONF_LINE in *. lia.
Qed.

Context (mallocs_ok : ∀ i, env_malloc i = true).

(** One more gateway. *)
Lemma add_one_run ls ds d nm w :
  built w ls ds → published_in dir d → until_nul nm = pb_name d →
  wp (currNet ← create_arg_network_info;
      match currNet with
      | None => mret None
      | Some net => link_gate (last ls) net;; load_gate c nm net;; mret (Some net)
      end) (λ r w', ∃ net, r = Some net ∧ built w' (ls ++ [net]) (ds ++ [d])) w.
Proof using All.
  intros [Hd Hnd Hg Hall] Hpub Hnm. unfold create_arg_network_info.
  apply wp_assoc, wp_bind_malloc. rewrite mallocs_ok. cbn [negb].
  apply wp_assoc, wp_bind_gets, wp_assoc, wp_bind. unfold modify, wp at 1. rewrite ret_bind.
  cbn [w_gates w_malloc upd]. set (net := fresh_loc (w_gates w)).
  assert (w_gates w !! net = None) as Hnet by apply fresh_loc_None.
  assert (net ∉ ls) as Hnin by (intros Hin; destruct (dseg_lookup Hd Hin); congruence).
  assert (∀ y, y ∈ ls → <[net := new_arg_network_info]> (w_gates w) !! y = w_gates w !! y) as Hsame
    by (intros y Hy; apply lookup_insert_ne; by intros <-).
  set (w1 := _ : world).
  apply wp_bind. eapply wp_mono.
  { apply (link_run ls ds net new_arg_network_info w1); [by eapply dseg_agree|done| |done|cbn; apply lookup_insert_eq|done|done].
    eapply gates_other; [exact Hg|]. intros y Hy. cbn. by rewrite Hsame. }
  intros _ w2 (Hd2 & Hg2 & Hn2 & Ha2). apply wp_bind. eapply wp_mono.
  { by apply (load_run d nm net _ w2 Hpub Hnm Hn2). }
  intros _ w3 (g' & Hw3 & Hi3 & Hnx & Hpv & Hun). apply wp_ret. exists net. split; [done|].
  split; rewrite ?Hw3, ?Hi3.
  - by eapply dlist_upd.
  - apply NoDup_app. split_and!; [done| |apply NoDup_singleton]. intros y Hy ->%list_elem_of_singleton. done.
  - apply Forall2_app; [|constructor; [by rewrite lookup_insert_eq; cbn; f_equal|constructor]].
    eapply gates_other; [exact Hg2|]. intros y Hy. rewrite lookup_insert_ne; [done|]. by intros <-.
  - intros y. rewrite elem_of_app, list_elem_of_singleton, lookup_insert_is_Some.
    intros [<-|[Hne Hy%Ha2]]; [by right|left]. cbn in Hy. apply Hall. by rewrite lookup_insert_ne in Hy.
Qed.

Lemma add_gates_run fuel nodes items curr ls ds ds' w :
  glist nodes curr items → items.*2 = pb_name <$> ds' → Forall (published_in dir) ds' →
  (length items ≤ fuel)%nat → built w ls ds →
  wp (add_gates fuel nodes c curr (last ls)) (λ r w', r = 0 ∧ ∃ ls', built w' (ls ++ ls') (ds ++ ds')) w.
Proof using All.
  revert items curr ls ds ds' w. induction fuel as [|fuel IH];
    intros [|[x xm] items] curr ls ds [|d ds'] w Hgl Hit Hpub Hfu Hb; try (cbn in Hfu; lia); try done;
    try (cbn in Hgl; subst; apply wp_ret; split; [done|]; exists []; by rewrite !app_nil_r).
  injection Hit as Hxm Hit. apply Forall_cons in Hpub as [Hpd Hpub].
  destruct Hgl as (-> & n & Hn & Hnm & _ & Hgl). cbn [add_gates].
  eapply wp_bind_lift; [exact Hn|].
  pose proof (add_one_run ls ds d (gl_name n) w Hb Hpd ltac:(congruence)) as Hone.
  apply wp_bind in Hone. apply wp_bind. eapply wp_mono; [exact Hone|].
  cbv beta. intros [net|] w1 Hw1; [|by destruct Hw1 as (? & ? & _)].
  apply wp_bind in Hw1. apply wp_bind. eapply wp_mono; [exact Hw1|]. cbv beta. intros _ w2 Hw2.
  apply wp_bind in Hw2. apply wp_bind. eapply wp_mono; [exact Hw2|]. cbv beta. intros _ w3 (net' & [= <-] & Hb3).
  rewrite <- (last_snoc net ls).
  eapply wp_mono; [apply (IH items (gl_next n) (ls ++ [net]) (ds ++ [d]) ds'); [done..|cbn in Hfu; lia|done]|].
  intros r w4 (-> & ls' & Hb4). split; [done|]. exists (net :: ls'). by rewrite <- !app_assoc in Hb4.
Qed.

(** ** Finding our own record *)

(** Whether a gate's record carries our name. *)
Definition names_match (d : published) : bool :=
  strncmp_same MAX_NAME_SIZE (ourGateName c) (stored_name (pb_name d)).

Fixpoint ours (ls : list loc) (ds : list published) : option loc :=
  match ls, ds with
  | l :: ls, d :: ds => if names_match d then Some l else ours ls ds
  | _, _ => None
  end.

Lemma ours_None ls ds : Forall (λ d, names_match d = false) ds → ours ls ds = None.
Proof. intros Hd. revert ls. induction Hd as [|d ds Hm _ IH]; intros [|l ls]; cbn; [done..|]. by rewrite Hm. Qed.

Lemma ours_Some pre l post dpre d dpost :
  length pre = length dpre → Forall (λ d, names_match d = false) dpre → names_match d = true →
  ours (pre ++ l :: post) (dpre ++ d :: dpost) = Some l.
Proof.
  intros Hl Hd Hm. revert pre Hl. induction Hd as [|d' dpre Hm' _ IH]; intros [|x pre] [=]; cbn; [by rewrite Hm|].
  rewrite Hm'. by apply IH.
Qed.

Lemma find_ours_run fuel prv p ls ds w :
  dlist (w_gates w) prv p ls →
  Forall2 (λ l d, unlinked <$> w_gates w !! l = Some (gate_for d)) ls ds → (length ls ≤ fuel)%nat →
  find_ours fuel c p w = Done (ours ls ds) w.
Proof.
  revert prv p ls ds. induction fuel as [|fuel IH]; intros prv p [|l ls] ds Hd Hf Hfu;
    try (cbn in Hfu; lia); try (cbn in Hd; by subst).
  destruct Hd as (-> & g & Hg & _ & _ & Hd).
  apply Forall2_cons_inv_l in Hf as (d & ds' & Hgl & Hf & ->).
  rewrite Hg, some_fmap in Hgl. apply (inj Some) in Hgl.
  cbn [find_ours ours]. unfold mbind, proc_bind. rewrite (gate_get_run _ _ _ Hg).
  assert (name g = stored_name (pb_name d)) as -> by exact (f_equal name Hgl).
  fold (names_match d). destruct (names_match d); [done|]. eapply IH; [done..|cbn in Hfu; lia].
Qed.

(** ** Moving it to the front *)

Lemma wp_bind_upd_opt_alter {B} p f (k : unit → prog B) Q w :
  (∀ x, p = Some x → is_Some (w_gates w !! x)) →
  wp (k tt) Q (w <| w_gates ::= opt_alter f p |>) → wp (upd_opt p f ≫= k) Q w.
Proof.
  intros Hp Hk. destruct p as [l|]; cbn in *.
  - destruct (Hp l eq_refl) as [g Hg]. eapply wp_bind_upd; [exact Hg|].
    unfold set_gate. cbn. by rewrite <- (alter_as_insert _ _ _ _ Hg).
  - by destruct w.
Qed.

Lemma move_to_front_run pre l post w :
  dlist (w_gates w) None (w_gateInfo w) (pre ++ l :: post) → NoDup (pre ++ l :: post) →
  wp (move_to_front l) (λ _ w', w_gateInfo w' = Some l
    ∧ dlist (w_gates w') None (Some l) (l :: pre ++ post)
    ∧ ∀ x, unlinked <$> w_gates w' !! x = unlinked <$> w_gates w !! x) w.
Proof.
  intros Hd Hnd. pose proof Hd as (m & H1 & -> & g & Hg & Hprev & _ & H2)%dseg_app.
  pose proof (hd_error_dseg H2) as Hnext. pose proof (dseg_head H1) as Hgi.
  assert (prev g = last pre) as Hlast by (rewrite Hprev; unfold last_or; by destruct (last pre)).
  unfold move_to_front, gateInfo. apply wp_bind_gets. destruct pre as [|h pre].
  { rewrite decide_True by done. apply wp_ret. rewrite Hgi in Hd. by split_and!. }
  pose proof Hnd as (_ & Hdis & [Hl Hpost]%NoDup_cons)%NoDup_app.
  assert (h ≠ l) as Hhl by (intros ->; apply (Hdis l); by left).
  rewrite decide_False by (rewrite Hgi; congruence).
  eapply wp_bind_get; [exact Hg|]. rewrite Hlast, Hnext. apply wp_bind_upd_opt_alter.
  { intros x Hx%hd_elem. by eapply (dseg_lookup H2). }
  assert (hd_error post ≠ Some l) as Hne1 by (by intros ?%hd_elem).
  assert (last (h :: pre) ≠ Some l) as Hne2 by (intros Hx%last_elem; apply (Hdis l Hx); by left).
  assert (hd_error post = None ∨ hd_error post ≠ last (h :: pre)) as Hcom.
  { destruct (hd_error post) as [y|] eqn:Hy; [right|by left]. intros Hx%eq_sym%last_elem.
    apply (Hdis y Hx). right. by apply hd_elem. }
  eapply wp_bind_get; [cbn; rewrite opt_alter_ne by done; exact Hg|]. rewrite Hlast, Hnext.
  apply wp_bind_upd_opt_alter.
  { intros x Hx. cbn. rewrite opt_alter_ne; [eapply (dseg_lookup H1); by apply last_elem|].
    rewrite Hx in Hcom. destruct Hcom as [->|?]; congruence. }
  cbn [w_gates upd]. set (gs := opt_alter _ _ (opt_alter _ _ (w_gates w))).
  pose proof (bridged_list (λ a x, x <| next := a |>) (λ a x, x <| prev := a |>)
    (nx := next) (pv := prev) (P := λ _, True) ltac:(done) ltac:(done) ltac:(done) ltac:(done) ltac:(done) ltac:(done)
    Hnd Hg H1 H2) as Hb.
  unfold bridged in Hb. rewrite opt_alter_commute in Hb by exact Hcom.
  change (dlist gs None (w_gateInfo w) ((h :: pre) ++ post)) in Hb. rewrite Hgi in Hb.
  assert (gs !! l = Some g) as Hgs by (unfold gs; by rewrite !opt_alter_ne).
  assert (∀ x, unlinked <$> gs !! x = unlinked <$> w_gates w !! x) as Hun
    by (intros x; unfold gs; by rewrite !opt_alter_fmap).
  assert (l ∉ (h :: pre) ++ post) as Hlin.
  { intros [Hx|Hx]%elem_of_app; [|done]. apply (Hdis l Hx). by left. }
  rewrite Hgi. apply wp_bind_upd_opt_alter.
  { intros x [= <-]. cbn. eapply (dseg_lookup Hb). by left. }
  eapply wp_bind_upd; [cbn; rewrite lookup_alter_ne by done; exact Hgs|].
  unfold set_head, modify, wp. cbn [w_gateInfo w_gates set_gate upd opt_alter]. split; [done|]. split.
  - split; [done|]. eexists. rewrite lookup_insert_eq. split_and!; [done..|]. cbn [next upd].
    eapply dseg_agree; [|eapply (dseg_relink_start (nx := next) (pv := prev) (P := λ _, True) (Some l) (λ x, x <| prev := Some l |>)
      ltac:(done) ltac:(done) ltac:(done)); [|done|exact Hb]].
    + intros x Hx. apply lookup_insert_ne. by intros <-.
    + apply NoDup_app in Hnd as (Hn1 & Hn2 & [_ Hn3]%NoDup_cons). apply NoDup_app. split_and!; [done| |done].
      intros x Hx Hy. apply (Hn2 x Hx). by right.
  - intros x. destruct (decide (x = l)) as [->|Hx].
    + rewrite lookup_insert_eq, <- Hun, Hgs. done.
    + rewrite lookup_insert_ne by done. rewrite <- Hun. by apply (opt_alter_fmap unlinked _ (Some h)).
Qed.

(** ** Our own keys *)

Definition random_bytes (k n : nat) : list Z := (λ i, u8 (env_random i)) <$> seq k n.

#[local] Opaque random_bytes.

(** The record with keys from the random bytes [k] on. *)
Definition keyed_gate (k : nat) (g : arg_network_info) : arg_network_info :=
  let g := g <| iv := random_bytes k AES_BLOCK_SIZE |> in
  let g := g <| hopKey := random_bytes (k + AES_BLOCK_SIZE) HOP_KEY_SIZE |> in
  let g := g <| symKey := random_bytes (k + AES_BLOCK_SIZE + HOP_KEY_SIZE) AES_KEY_SIZE |> in
  let g := g <| cipher ::= (λ c, cipher_setkey c (symKey g) (Z.of_nat AES_KEY_SIZE * 8)) |> in
  g <| md ::= (λ m, md_hmac_starts m (symKey g)) |>.

Lemma wp_bind_random {B} n (k : list Z → prog B) Q w :
  wp (k (random_bytes (w_random w) n)) Q (w <| w_random ::= (λ k, k + n)%nat |>) →
  wp (get_random_bytes n ≫= k) Q w.
Proof. intros Hk. by apply wp_bind. Qed.

(** An update, with the new record and the new state under names. *)
Record stored (l : loc) (g : arg_network_info) (w w' : world) : Prop := {
  st_gates : w_gates w' = <[l := g]> (w_gates w);
  st_info : w_gateInfo w' = w_gateInfo w;
  st_random : w_random w' = w_random w }.

Lemma stored_trans l g1 g2 w1 w2 w3 : stored l g1 w1 w2 → stored l g2 w2 w3 → stored l g2 w1 w3.
Proof.
  intros [E1 E2 E3] [E4 E5 E6]. split; [|congruence..]. by rewrite E4, E1, insert_insert_eq.
Qed.

Lemma wp_bind_stored {B} l f g (k : unit → prog B) Q w0 w :
  stored l g w0 w →
  (∀ w', stored l (f g) w0 w' → wp (k tt) Q w') → wp (gate_upd l f ≫= k) Q w.
Proof.
  intros Hs Hk. eapply wp_bind_upd; [rewrite (st_gates _ _ _ _ Hs); apply lookup_insert_eq|].
  apply Hk. eapply stored_trans; [exact Hs|]. by split.
Qed.

Lemma wp_bind_stored_random {B} l g n (k : list Z → prog B) Q w0 w :
  stored l g w0 w →
  (∀ w1 w', w_gates w1 = w_gates w0 → w_gateInfo w1 = w_gateInfo w0 →
     w_random w1 = (w_random w0 + n)%nat → stored l g w1 w' →
     wp (k (random_bytes (w_random w0) n)) Q w') →
  wp (get_random_bytes n ≫= k) Q w.
Proof.
  intros [E1 E2 E3] Hk. apply wp_bind_random. rewrite E3.
  apply (Hk (w0 <| w_random ::= (λ k, k + n)%nat |>)); try done. by split; cbn; rewrite ?E1, ?E2, ?E3.
Qed.

Lemma own_keys_run l g w :
  w_gates w !! l = Some g →
  wp (own_keys l) (λ _ w', w_gates w' = <[l := keyed_gate (w_random w) g]> (w_gates w)
    ∧ w_gateInfo w' = w_gateInfo w) w.
Proof.
  intros Hl. assert (stored l g w w) as H1 by (split; [by rewrite insert_id|done..]).
  unfold own_keys, keyed_gate.
  eapply wp_bind_stored_random; [exact H1|]. clear H1. intros w1 v1 G1 I1 R1 H1.
  eapply wp_bind_stored; [exact H1|]. clear v1 H1. intros v1 H1.
  eapply wp_bind_stored_random; [exact H1|]. clear v1 H1. intros w2 v1 G2 I2 R2 H1.
  eapply wp_bind_stored; [exact H1|]. clear v1 H1. intros v1 H1.
  eapply wp_bind_stored_random; [exact H1|]. clear v1 H1. intros w3 v1 G3 I3 R3 H1.
  eapply wp_bind_stored; [exact H1|]. clear v1 H1. intros v1 H1.
  eapply wp_bind_stored; [exact H1|]. clear v1 H1. intros v1 H1. apply wp_bind_right.
  eapply wp_bind_stored; [exact H1|]. clear v1 H1. intros v1 [E1 E2 _]. apply wp_ret.
  rewrite E1, E2, G3, G2, G1, I3, I2, I1, R2, R1. split; reflexivity.
Qed.

(** ** The whole of [get_hopper_conf] *)

Definition key_len (k : rsa_context) : Z := Z.shiftr (mpi_msb (rsa_N k) + 7) 3.

(** Our own record when the start is over. *)
Definition own_gate (d : published) (k t : nat) : arg_network_info :=
  let g := gate_for d <| rsa := pb_key d <| rsa_len := key_len (pb_key d) |> |> in
  keyed_gate k g <| timeBase := env_clock t |> <| hopInterval := u32 (hopRate c) |>.

Lemma unlinked_own k r tb i g :
  unlinked (keyed_gate k (g <| rsa := r |>) <| timeBase := tb |> <| hopInterval := i |>)
  = keyed_gate k (unlinked g <| rsa := r |>) <| timeBase := tb |> <| hopInterval := i |>.
Proof. destruct g. reflexivity. Qed.

(** The list is built, and our record, if there is one, is found. *)
Lemma wp_conf_list nodes items ds Q w :
  glist nodes (cf_gate c) items → NoDup items.*1 → items.*2 = pb_name <$> ds →
  Forall (published_in dir) ds → w_gates w = ∅ → w_gateInfo w = None →
  (∀ w' ls, built w' ls ds → wp (conf_ours c (ours ls ds)) Q w') →
  wp (get_hopper_conf nodes c) Q w.
Proof using All.
  intros Hgl Hnd Hit Hpub Hno Hgi Hk.
  assert (built w [] []) as Hb0 by (split; [done|constructor|constructor|rewrite Hno; by intros x [? ?]]).
  assert (length items ≤ size nodes)%nat as Hfu.
  { rewrite <- (length_fmap fst). apply path_fuel; [done|]. intros l Hl. by eapply glist_lookup. }
  unfold get_hopper_conf. apply wp_bind.
  eapply wp_mono; [exact (add_gates_run (size nodes) nodes items (cf_gate c) [] [] ds w Hgl Hit Hpub Hfu Hb0)|].
  cbv beta. intros r w' (-> & ls & Hb). cbn [app] in Hb. rewrite decide_False by lia.
  unfold gateInfo. apply wp_bind_gets, wp_bind_gets, wp_bind.
  pose proof Hb as [Hd Hnd' Hg _]. unfold wp at 1.
  rewrite (find_ours_run _ None _ ls ds w' Hd Hg); [by apply Hk|].
  eapply chain_length; [|exact Hnd']. by eapply dlist_chain.
Qed.

(** The gateways once ours, at [l], is at the front. *)
Record started (w : world) (l : loc) (others : list loc) (d : published) (ds : list published)
    (g : arg_network_info) : Prop := {
  su_info : w_gateInfo w = Some l;
  su_list : dlist (w_gates w) None (Some l) (l :: others);
  su_nodup : NoDup (l :: others);
  su_others : Forall2 (λ l d, unlinked <$> w_gates w !! l = Some (gate_for d)) others ds;
  su_own : w_gates w !! l = Some g;
  su_only x : is_Some (w_gates w !! x) → x ∈ l :: others }.

(** Storing our record anew, with the links it has. *)
Lemma started_stored w w' l others d ds g g' :
  started w l others d ds g → w_gates w' = <[l := g']> (w_gates w) → w_gateInfo w' = w_gateInfo w →
  next g' = next g → prev g' = prev g → started w' l others d ds g'.
Proof.
  intros [Hi Hd Hnd Ho Hg Ha] E1 E2 Hn Hp. split; rewrite ?E1, ?E2; try done.
  - by eapply dlist_upd.
  - eapply gates_other; [exact Ho|]. intros y Hy. apply NoDup_cons in Hnd as [Hl _].
    rewrite lookup_insert_ne by (by intros ->). done.
  - apply lookup_insert_eq.
  - intros x [<-|[_ Hx]]%lookup_insert_is_Some; [by left|by apply Ha].
Qed.

Lemma wp_bind_started {B} f l others d ds g (k : unit → prog B) Q w :
  started w l others d ds g → next (f g) = next g → prev (f g) = prev g →
  (∀ w', started w' l others d ds (f g) → wp (k tt) Q w') → wp (gate_upd l f ≫= k) Q w.
Proof.
  intros Hs Hn Hp Hk. eapply wp_bind_upd; [exact (su_own _ _ _ _ _ _ Hs)|]. apply Hk.
  by eapply started_stored.
Qed.

Context (d : published) (dpre dpost : list published).
Context (Hpub : published_in dir d)
  (Hpriv : fs_read (dir ++ SLASH :: pb_name d ++ dot_priv) = inr (number_bytes (private_numbers (pb_key d))))
  (Hcheck : rsa_check_privkey (pb_key d <| rsa_len := key_len (pb_key d) |>) = 0).

Lemma conf_ours_run pre l post w :
  length pre = length dpre → built w (pre ++ l :: post) (dpre ++ d :: dpost) →
  wp (conf_ours c (Some l)) (λ r w', r = 0 ∧ ∃ k t g,
    started w' l (pre ++ post) d (dpre ++ dpost) g ∧ unlinked g = own_gate d k t) w.
Proof using All.
  intros Hl [Hd Hnd Hg Ha]. unfold conf_ours. apply wp_bind.
  eapply wp_mono; [by apply move_to_front_run|]. cbv beta. intros _ w1 (Hi1 & Hd1 & Hun1).
  pose proof (gates_other unlinked _ (w_gates w1) _ _ gate_for Hg ltac:(intros; apply Hun1)) as Hg1.
  apply Forall2_app_inv in Hg1 as [Hga (Hgl & Hgb)%Forall2_cons_1]; [|done].
  destruct (w_gates w1 !! l) as [g|] eqn:Hgl1; [|done]. apply (inj Some) in Hgl.
  assert (NoDup (l :: pre ++ post)) as Hnd1 by (rewrite Permutation_middle; exact Hnd).
  assert (∀ x, is_Some (w_gates w1 !! x) → x ∈ l :: pre ++ post) as Ha1.
  { intros x Hx. rewrite Permutation_middle. apply Ha. specialize (Hun1 x).
    destruct (w_gates w !! x), (w_gates w1 !! x); try done; by destruct Hx. }
  assert (started w1 l (pre ++ post) d (dpre ++ dpost) g) as Hs by (split; [done..|by apply Forall2_app|done|done]).
  clear w Hd Hnd Hg Ha Ha1 Hun1 Hd1 Hga Hgb. unfold gateInfo. apply wp_bind_gets. rewrite Hi1.
  unfold deref. eapply wp_bind_lift; [done|]. eapply wp_bind_get; [exact Hgl1|].
  assert (name g = stored_name (pb_name d)) as Hnm by exact (f_equal name Hgl).
  assert (rsa_len (rsa g) = key_len (pb_key d)) as Hlen by exact (f_equal (λ g, rsa_len (rsa g)) Hgl).
  destruct Hpub as (Hz & Hnl & ip & m & _ & _ & _ & _ & _ & Hk).
  apply wp_bind. unfold wp at 1.
  rewrite (read_private_key_run c g dir (pb_name d) (pb_key d)); try done; rewrite ?Hlen; try done.
  2: { rewrite Hnm. by apply stored_name_cstr. }
  2: { unfold MAX_NAME_SIZE, MAX_CONF_LINE in *. lia. }
  eapply wp_bind_started; [exact Hs|done..|]. clear w1 Hi1 Hgl1 Hs. intros w1 Hs.
  rewrite decide_False by lia. apply wp_bind. eapply wp_mono; [apply own_keys_run, (su_own _ _ _ _ _ _ Hs)|].
  cbv beta. intros _ w2 (E1 & E2). set (k := w_random w1) in *.
  pose proof (started_stored _ _ _ _ _ _ _ _ Hs E1 E2 eq_refl eq_refl) as Hs2. clear Hs E1 E2.
  clearbody k. clear w1. apply wp_bind_time. set (t := w_clock w2).
  assert (started (w2 <| w_clock ::= S |>) l (pre ++ post) d (dpre ++ dpost)
    (keyed_gate k (g <| rsa := pb_key d <| rsa_len := key_len (pb_key d) |> |>))) as Hs3 by (by destruct Hs2).
  clearbody t. clear Hs2. eapply wp_bind_started; [exact Hs3|done..|]. clear w2 Hs3. intros w2 Hs2.
  eapply wp_bind_started; [exact Hs2|done..|]. clear w2 Hs2. intros w2 Hs2. apply wp_ret.
  split; [done|]. exists k, t. eexists. split; [exact Hs2|].
  unfold own_gate. rewrite <- Hgl. apply unlinked_own.
Qed.
End StartupFacts.

(** ** The theorems *)

Lemma until_nul_take n buf : until_nul (take n buf) = take n (until_nul buf).
Proof.
  revert n. induction buf as [|b buf IH]; intros [|n]; try done. cbn. case_decide; [done|]. cbn. by rewrite IH.
Qed.

Lemma length_until_nul (xs rest : list Z) :
  (length (until_nul (xs ++ 0%Z :: rest)) ≤ length xs)%nat.
Proof. induction xs as [|b xs IH]; [done|]. cbn. case_decide; cbn; lia. Qed.

(** A record holds at most nine characters of a name, so a longer one of ours
    matches none. *)
Lemma long_name_matches_none c d :
  (MAX_NAME_SIZE ≤ length (until_nul (ourGateName c)))%nat → names_match c d = false.
Proof.
  intros Hl. apply bool_decide_eq_false. intros Heq. apply (f_equal length) in Heq.
  rewrite until_nul_take, length_take_le in Heq by done.
  set (s := take (MAX_NAME_SIZE - 1) (until_nul (pb_name d))).
  assert (stored_name (pb_name d) = (s ++ zeros (MAX_NAME_SIZE - 1 - length s)) ++ 0 :: []) as Hst
    by (unfold stored_name, strncpy; by rewrite <- app_assoc).
  assert (length s ≤ MAX_NAME_SIZE - 1)%nat as Hs by (unfold s; rewrite length_take; lia).
  rewrite Hst, until_nul_take, length_take in Heq.
  pose proof (length_until_nul (s ++ zeros (MAX_NAME_SIZE - 1 - length s)) []) as Hle.
  rewrite length_app in Hle. unfold zeros in Hle at 2. rewrite length_replicate in Hle.
  unfold MAX_NAME_SIZE in *. lia.
Qed.

Lemma hopper_conf_run `{U : Setup} `{!MpiFiles U} `{Env} c dir nodes items dpre d dpost (w : world) :
  (∀ i, env_malloc i = true) →
  cstr (cf_dir c) = Some dir → (length dir + 16 < MAX_CONF_LINE)%nat →
  glist nodes (cf_gate c) items → NoDup items.*1 → items.*2 = pb_name <$> dpre ++ d :: dpost →
  Forall (published_in dir) (dpre ++ d :: dpost) →
  fs_read (dir ++ SLASH :: pb_name d ++ dot_priv) = inr (number_bytes (private_numbers (pb_key d))) →
  rsa_check_privkey (pb_key d <| rsa_len := key_len (pb_key d) |>) = 0 →
  Forall (λ d, names_match c d = false) dpre → names_match c d = true →
  w_gates w = ∅ → w_gateInfo w = None →
  wp (get_hopper_conf nodes c) (λ r w', r = 0 ∧ ∃ l others k t g,
    started w' l others d (dpre ++ dpost) g ∧ unlinked g = own_gate c d k t) w.
Proof.
  intros Hm Hdir Hlen Hgl Hnd Hit Hpub Hpriv Hchk Hpre Hd Hno Hgi.
  eapply (wp_conf_list c dir Hdir Hlen Hm); [done..|]. intros w1 ls Hb.
  pose proof Hb as [_ _ Hg _]. apply Forall2_app_inv_r in Hg as (pre & rest & Hg1 & Hg2 & ->).
  apply Forall2_cons_inv_r in Hg2 as (l & post & _ & _ & ->).
  pose proof (Forall2_length _ _ _ Hg1) as Hl. rewrite ours_Some by done.
  assert (published_in dir d) as Hpd by (by apply Forall_app in Hpub as [_ [? _]%Forall_cons]).
  eapply wp_mono; [by apply (conf_ours_run c dir Hdir Hlen Hm d dpre dpost Hpd Hpriv Hchk pre l post)|].
  cbv beta. intros r w2 (-> & k & t & g & Hs & Ho). split; [done|]. by exists l, (pre ++ post), k, t, g.
Qed.

(** The start-up builds the list of gateways that the key files describe:
    doubly linked, every file's gate once, in the directory's order -- except
    that the gate whose name is ours comes first, with its private key, fresh
    keys from consecutive random bytes, the current time as its time base and
    the configured hop interval. *)
Theorem hopper_configured `{U : Setup} `{!MpiFiles U} `{Env} c dir nodes items dpre d dpost (w : world) :
  (∀ i, env_malloc i = true) →
  cstr (cf_dir c) = Some dir → (length dir + 16 < MAX_CONF_LINE)%nat →
  glist nodes (cf_gate c) items → NoDup items.*1 → items.*2 = pb_name <$> dpre ++ d :: dpost →
  Forall (published_in dir) (dpre ++ d :: dpost) →
  fs_read (dir ++ SLASH :: pb_name d ++ dot_priv) = inr (number_bytes (private_numbers (pb_key d))) →
  rsa_check_privkey (pb_key d <| rsa_len := key_len (pb_key d) |>) = 0 →
  Forall (λ d, names_match c d = false) dpre → names_match c d = true →
  w_gates w = ∅ → w_gateInfo w = None →
  ∃ w' l others g k t, get_hopper_conf nodes c w = Done 0 w'
    ∧ started w' l others d (dpre ++ dpost) g ∧ unlinked g = own_gate c d k t.
Proof.
  intros Hm Hdir Hlen Hgl Hnd Hit Hpub Hpriv Hchk Hpre Hd Hno Hgi.
  destruct (wp_elim _ _ _ (hopper_conf_run c dir nodes items dpre d dpost w Hm Hdir Hlen Hgl Hnd Hit
    Hpub Hpriv Hchk Hpre Hd Hno Hgi)) as (r & w' & Hrun & -> & l & others & k & t & g & Hs & Ho).
  by exists w', l, others, g, k, t.
Qed.


(** Stopping frees every gateway and nothing else, and leaves the lock free. *)
Theorem uninit_frees_all `{PolarSSL} l others (w : world) :
  headed l others w → w_ipLock w = false →
  ∃ w', uninit_hopper w = Done tt w' ∧ w_gateInfo w' = None ∧ w_ipLock w' = false
    ∧ (∀ x, x ∈ l :: others → w_gates w' !! x = None)
    ∧ ∀ x, x ∉ l :: others → w_gates w' !! x = w_gates w !! x.
Proof.
  intros Hh Hl. pose proof Hh as [Hi _ Hnd _].
  enough (wp uninit_hopper (λ _ w', w_gateInfo w' = None ∧ w_ipLock w' = false
    ∧ (∀ x, x ∈ l :: others → w_gates w' !! x = None)
    ∧ ∀ x, x ∉ l :: others → w_gates w' !! x = w_gates w !! x) w) as Hw
    by (destruct (wp_elim _ _ _ Hw) as ([] & w' & Hrun & Hp); by exists w').
  unfold uninit_hopper, ipLock_lock, gateInfo. apply wp_assoc, wp_bind_gets. rewrite Hl.
  apply wp_bind. unfold modify at 1, wp at 1. apply wp_bind_gets. cbn [w_gateInfo upd]. rewrite Hi.
  apply wp_assoc, wp_bind. eapply wp_mono; [apply (remove_all_headed l others); by destruct Hh|].
  cbv beta. intros _ w1 (_ & Hgone & Hother). cbn in Hother.
  unfold set_head, ipLock_unlock, modify, wp.
  split; [done|]. split; [done|].
  assert (∀ x, w_gates (w1 <| w_gates ::= delete l |> <| w_gateInfo := None |> <| w_ipLock := false |>) !! x
    = delete l (w_gates w1) !! x) as Hw by done. split.
  - intros x Hx. rewrite Hw. apply elem_of_cons in Hx as [->|Hx]; [apply lookup_delete_eq|].
    rewrite lookup_delete_ne; [by apply Hgone|]. intros ->. by apply NoDup_cons in Hnd as [? _].
  - intros x Hx. rewrite Hw, lookup_delete_ne; [by apply Hother|]. intros ->. apply Hx. by left.
Qed.

(** ** Evaluation: gate alpha, with gate beta's key next to its own *)

Definition alpha_pub : published := Published alpha [10; 1; 1; 0] [255; 255; 255; 0] toy_key.
Definition beta_pub : published := Published beta [10; 2; 2; 0] [255; 255; 255; 0] (toy_key <| rsa_N := 2773 |>).
Definition name_node (nm : list Z) (nxt : option loc) : gate_list :=
  GateName (strncpy (zeros MAX_CONF_LINE) nm (MAX_CONF_LINE - 1)) nxt.
Definition toy_nodes : gmap loc gate_list :=
  {[1%positive := name_node beta (Some 2%positive); 2%positive := name_node alpha None]}.
Definition toy_started (own : list Z) : config_data :=
  toy_found <| ourGateName ::= (λ d, strncpy d own (MAX_CONF_LINE - 1)) |> <| cf_gate := Some 1%positive |>
            <| hopRate := 1000 |>.
Definition empty_world : world := World ∅ None nat_init false 0 0 0 0 [].

Lemma toy_published : Forall (published_in etc_arg) [beta_pub; alpha_pub].
Proof.
  repeat constructor; try by_decide.
  - exists beta_ip, alpha_mask. split_and!; by_decide.
  - exists alpha_ip, alpha_mask. split_and!; by_decide.
Qed.

Lemma toy_glist own : glist toy_nodes (cf_gate (toy_started own)) [(1%positive, beta); (2%positive, alpha)].
Proof.
  split; [done|]. eexists. split; [reflexivity|]. split; [by vm_compute|]. split; [by vm_compute|].
  split; [done|]. eexists. split; [reflexivity|]. by split_and!; [vm_compute| |].
Qed.

Lemma hopper_configured_witness :
  ∃ w' l others g k t, get_hopper_conf toy_nodes (toy_started alpha) empty_world = Done 0 w'
    ∧ started w' l others alpha_pub ([beta_pub] ++ []) g ∧ unlinked g = own_gate (toy_started alpha) alpha_pub k t.
Proof.
  apply (hopper_configured (toy_started alpha) etc_arg toy_nodes [(1%positive, beta); (2%positive, alpha)]
    [beta_pub] alpha_pub []); try done; try by_decide.
  - apply toy_glist.
  - apply toy_published.
Defined.


Lemma uninit_frees_all_witness :
  ∃ w', @uninit_hopper toy three_world = Done tt w' ∧ w_gateInfo w' = None ∧ w_ipLock w' = false
    ∧ (∀ x, x ∈ [1%positive; 2%positive] → w_gates w' !! x = None)
    ∧ ∀ x, x ∉ [1%positive; 2%positive] → w_gates w' !! x = w_gates three_world !! x.
Proof. apply (uninit_frees_all 1%positive [2%positive] three_world); [apply three_headed | done]. Defined.
