(* ===== verification/StartState.v ===== *)
(** * The state after the start (src/hopper.c, src/init.c)

    What [init_hopper] leaves is a state in which the threads may run: every
    record is well-formed, nothing is allocated besides the list, the NAT table
    is empty and no mutex is held. *)

From stdpp Require Import strings.
From S2P Require Import Prelude Linked Words Settings ArgError CString Utility Crypto Packet Gate Uthash NatData World Config KeyFiles ConfigFacts Net Layout Hopper Startup Invariant GateList Nat NatFacts NatClean NatSafe NoHang StartupFacts.

(** ** The records are well-formed *)

Lemma length_pton s octets cur v : (length octets ≤ 3)%nat → pton s octets cur = Some v → length v = 4%nat.
Proof.
  revert octets cur. induction s as [|c s IH]; intros octets cur Ho; cbn [pton].
  - destruct cur; [|done]. case_decide; [|done]. intros [= <-]. rewrite length_app. cbn. lia.
  - destruct (is_digit c).
    + destruct cur; [case_decide; [done|]|]; by apply IH.
    + case_decide; [|done]. destruct cur; [|done]. case_decide; [done|]. apply IH. rewrite length_app. cbn. lia.
Qed.

Section StartState.
Context `{U : Setup, Env}.
Implicit Types w : world.

Lemma gate_for_good dir d : published_in dir d → gate_good (gate_for d).
Proof.
  intros (_ & _ & ip & m & _ & Hip & _ & Hm & _ & _).
  apply length_pton in Hip; [|cbn; lia]. apply length_pton in Hm; [|cbn; lia].
  assert (length (stored_name (pb_name d)) = MAX_NAME_SIZE) as Hn
    by (apply (length_strncpy (zeros MAX_NAME_SIZE)); unfold zeros; rewrite length_replicate; unfold MAX_NAME_SIZE; lia).
  split_and!; [done| |by destruct new_gate_typed as [[] ?]; split; [split|]].
  destruct new_gate_wf. split; [done..| |exact Hm|exact Hn].
  apply length_mask_array; [by rewrite Hip|by rewrite Hm].
Qed.

Lemma own_gate_good c dir d k t drbg :
  published_in dir d → gate_good (own_gate c d k t <| ctr_drbg := drbg |>).
Proof.
  intros (Hc & [] & [[] ?])%gate_for_good. split_and!; [done| |split; [by split|apply u32_range]].
  split; try done; unfold own_gate, keyed_gate, random_bytes; cbn -[seq fmap];
    by rewrite length_fmap, length_seq.
Qed.

(** Links do not count. *)
Lemma unlinked_good g g' : unlinked g = g' → gate_good g' ∧ lock g' = false → gate_good g ∧ lock g = false.
Proof. intros <- [(? & [] & []) ?]. split; [|done]. split_and!; [done|by split|by split]. Qed.

(** ** The start is at rest *)

Lemma started_at_rest w dir c l others d ds g k t drbg :
  started w l others d ds g → unlinked g = own_gate c d k t <| ctr_drbg := drbg |> →
  published_in dir d → Forall (published_in dir) ds → w_ipLock w = false → w_nat w = nat_init →
  at_rest l w.
Proof.
  intros [Hi Hd Hnd Ho Hg Hall] Hun Hpd Hpds Hip Hnat.
  assert (∀ x gx, w_gates w !! x = Some gx → gate_good gx ∧ lock gx = false) as Hgood.
  { intros x gx Hx. destruct (proj1 (elem_of_cons _ _ _) (Hall x (mk_is_Some _ _ Hx))) as [->|Hin].
    - assert (gx = g) as -> by congruence. eapply unlinked_good; [exact Hun|]. split; [by eapply own_gate_good|done].
    - apply list_elem_of_lookup in Hin as [i Hin]. destruct (Forall2_lookup_l _ _ _ _ _ Ho Hin) as (d' & Hd' & Hu).
      rewrite Hx in Hu. apply (inj Some) in Hu. eapply unlinked_good; [exact Hu|]. split; [|done].
      eapply gate_for_good, Forall_lookup_1; [exact Hpds|exact Hd']. }
  split_and!.
  - split; [intros x gx Hx; by apply (Hgood x)|]. exists (l :: others). rewrite Hi. split; [by eapply dlist_chain|done].
  - done.
  - intros x gx Hx. by destruct (Hgood x gx Hx) as [_ ->].
  - split; rewrite ?Hnat; [done|by exists []; apply nat_ok_init|done].
Qed.

(** ** The NAT is left alone *)

Definition same_nat (w w' : world) : Prop := w_nat w' = w_nat w.
#[local] Instance same_nat_preorder : PreOrder same_nat.
Proof. split; unfold same_nat; [done|congruence]. Qed.
Lemma same_gate_get l : respects same_nat (gate_get l).
Proof. intros w a w'. unfold gate_get, gets, mbind, proc_bind. by destruct (w_gates w !! l); intros [= _ <-]. Qed.
Lemma same_gate_upd l f : respects same_nat (gate_upd l f).
Proof.
  intros w a w'. destruct (w_gates w !! l) eqn:E; [rewrite (gate_upd_run _ _ _ _ E)|by rewrite gate_upd_None].
  by intros [= _ <-].
Qed.
#[local] Hint Resolve same_gate_get same_gate_upd : procs.

Lemma same_remove l : respects same_nat (remove_arg_network l).
Proof. unfold remove_arg_network, upd_opt. proc_walk; by apply respects_modify. Qed.
#[local] Hint Resolve same_remove : procs.

Lemma same_remove_all fuel : respects same_nat (remove_all_loop fuel).
Proof. induction fuel; cbn [remove_all_loop]; unfold gateInfo, deref; proc_walk. Qed.
#[local] Hint Resolve same_remove_all : procs.

Lemma same_uninit_hopper : respects same_nat uninit_hopper.
Proof.
  unfold uninit_hopper, remove_all_associated_arg_networks, ipLock_lock, ipLock_unlock, gateInfo, set_head.
  proc_walk; by apply respects_modify.
Qed.


Lemma same_time : respects same_nat current_time.
Proof. by intros w a w' [= _ <-]. Qed.
Lemma same_random n : respects same_nat (get_random_bytes n).
Proof. by intros w a w' [= _ <-]. Qed.
Lemma same_malloc : respects same_nat malloc_ok.
Proof. by intros w a w' [= _ <-]. Qed.
Lemma same_modify f : (∀ w, w_nat (f w) = w_nat w) → respects same_nat (modify f).
Proof. intros Hf. by apply respects_modify. Qed.
Lemma same_stream {A} content (m : proc (list Z) A) : respects same_nat (with_stream content m).
Proof. intros w a w'. unfold with_stream. by destruct (m content); intros [= _ <-]. Qed.
#[local] Hint Resolve same_stream : procs.
Lemma same_read_public c g : respects same_nat (read_public_key c g).
Proof. unfold read_public_key. proc_walk. Qed.
Lemma same_read_private c g : respects same_nat (read_private_key c g).
Proof. unfold read_private_key. proc_walk. Qed.
#[local] Hint Resolve same_time same_random same_malloc same_read_public same_read_private : procs.
#[local] Hint Extern 1 (respects same_nat (modify _)) => (by apply same_modify) : procs.
Lemma same_add_gates fuel nodes c curr p : respects same_nat (add_gates fuel nodes c curr p).
Proof.
  revert curr p. induction fuel as [|fuel IH]; intros [l|] p; cbn [add_gates];
    unfold create_arg_network_info, link_gate, load_gate, gateInfo, set_head; proc_walk.
Qed.
Lemma same_find_ours fuel c curr : respects same_nat (find_ours fuel c curr).
Proof. revert curr. induction fuel as [|fuel IH]; intros [l|]; cbn [find_ours]; proc_walk. Qed.
#[local] Hint Resolve same_add_gates same_find_ours same_uninit_hopper : procs.
Lemma same_init_hopper nodes c : respects same_nat (init_hopper nodes c).
Proof.
  unfold init_hopper, get_hopper_conf, conf_ours, move_to_front, own_keys, upd_opt, gateInfo, deref, set_head,
    ipLock_lock, ipLock_unlock. proc_walk.
Qed.
End StartState.
