(* ===== verification/DirectorSetup.v ===== *)
(** * Devices, threads and the life of the process (src/director.c, src/nat.c,
    src/hopper.c, src/init.c: the functions that start and stop)

    The whole process: the gateway's world, the open pcap handles, the threads
    that run, and the mutexes' life from [pthread_mutex_init] to
    [pthread_mutex_destroy].  pcap is not part of the repository; what its
    functions return for a device is the class [Pcap].  A started thread is a
    flag; what it does is a step of [Invariant.step]. *)

From stdpp Require Import strings.
From S2P Require Import Prelude Words Settings ArgError CString Text Utility Crypto Packet Gate Uthash NatData World Config Net Hopper Startup Nat.

Definition MAX_FILTER_LEN : nat := 150.
Definition MAX_PACKET_SIZE : Z := UINT16_MAX.
(** The array [dev] of a receiver. *)
Definition RECV_DEV_SIZE : nat := 10.

(** What the compiled filter is built from. *)
Definition external_filter (base mask : list Z) : list (list Z) :=
  [str "(arp and not src net "; base; str " mask "; mask; str " and dst net "; base; str " mask "; mask;
   str ") or "; str "(not arp and dst net "; base; str " mask "; mask; str ")"].
Definition internal_filter (base mask : list Z) : list (list Z) :=
  [str "(arp and not dst net "; base; str " mask "; mask; str ") or ";
   str "(not arp and src net "; base; str " mask "; mask; str ")"].
Definition pcap_filter (is_internal : bool) (base mask : list Z) : list Z :=
  snprintf_cat MAX_FILTER_LEN
    (if is_internal then internal_filter base mask else external_filter base mask).

(** ** pcap and the process *)

Class Pcap := {
  (** whether [pcap_create dev] returns a handle *)
  pcap_create : list Z → bool;
  pcap_activate : list Z → Z;
  (** results for a device and a filter text *)
  pcap_compile : list Z → list Z → Z;
  pcap_setfilter : list Z → list Z → Z }.

Record pcap_t := PcapHandle {
  h_dev : list Z; h_timeout : Z; h_snaplen : Z; h_promisc : bool; h_filter : option (list Z) }.
#[export] Instance pcap_t_eta : Eta pcap_t := λ h,
  PcapHandle (h_dev h) (h_timeout h) (h_snaplen h) (h_promisc h) (h_filter h).

(** [rd_thread]: whether [thread] is not zero. *)
Record receive_thread_data := Receiver {
  rd_pd : option loc; rd_dev : list Z; rd_thread : bool }.
#[export] Instance receive_thread_data_eta : Eta receive_thread_data := λ r,
  Receiver (rd_pd r) (rd_dev r) (rd_thread r).

Inductive mutex_life := MFree | MHeld | MDestroyed.
#[export] Instance mutex_life_eq_dec : EqDecision mutex_life.
Proof. solve_decision. Defined.

Section Process.
Context `{PolarSSL}.

Record process := Process {
  p_world : world;
  p_nodes : gmap loc gate_list;
  p_pcaps : gmap loc pcap_t;
  p_int : receive_thread_data; p_ext : receive_thread_data;
  p_receiveShouldRun : bool; p_cancelSent : bool;
  p_cancelLock : mutex_life; p_hopperLocks : mutex_life; p_natLock : mutex_life;
  p_natThread : bool; p_connectThread : bool }.
#[export] Instance process_eta : Eta process := λ p,
  Process (p_world p) (p_nodes p) (p_pcaps p) (p_int p) (p_ext p) (p_receiveShouldRun p) (p_cancelSent p)
    (p_cancelLock p) (p_hopperLocks p) (p_natLock p) (p_natThread p) (p_connectThread p).

(** A function of the gateway, run in the process. *)
Definition in_world {A} (m : prog A) : proc process A := λ s,
  match m (p_world s) with
  | Done a w => Done a (s <| p_world := w |>)
  | Fault => Fault
  | Stuck => Stuck
  | Exited => Exited
  end.
(** A function on the configuration's nodes; allocations are counted together. *)
Definition in_conf {A} (m : proc conf_heap A) : proc process A := λ s,
  match m (ConfHeap (p_nodes s) (w_malloc (p_world s))) with
  | Done a h => Done a (s <| p_nodes := c_gates h |> <| p_world ::= (λ w, w <| w_malloc := c_malloc h |>) |>)
  | Fault => Fault
  | Stuck => Stuck
  | Exited => Exited
  end.

Definition rcv (is_internal : bool) (p : process) : receive_thread_data :=
  if is_internal then p_int p else p_ext p.
Definition upd_rcv (is_internal : bool) (f : receive_thread_data → receive_thread_data) : proc process unit :=
  modify (λ p, if is_internal then p <| p_int ::= f |> else p <| p_ext ::= f |>).

(** ** The director *)

Definition gate_base_ip : prog (list Z) :=
  gi ← gateInfo; l ← deref gi; g ← gate_get l; mret (baseIP g).
Definition gate_mask : prog (list Z) :=
  gi ← gateInfo; l ← deref gi; g ← gate_get l; mret (mask g).

(** [pcap_close]: closing a handle that is not open is undefined. *)
Definition pcap_close (h : loc) : proc process unit :=
  hs ← gets p_pcaps;
  _ ← lift_opt (hs !! h);
  modify (λ p, p <| p_pcaps ::= delete h |>).

(** [pthread_cancel] of a [pthread_t] that was never set is undefined. *)
Definition pthread_cancel (running : bool) : proc process unit := if running then mret tt else fault.

Context `{Pcap}.

(** [*pd] is the receiver's [pd]. *)
Definition init_pcap_driver (dev : list Z) (is_internal : bool) : proc process Z :=
  if negb (pcap_create dev) then
    upd_rcv is_internal (λ r, r <| rd_pd := None |>);; mret (- ARG_CONFIG_BAD) else
  hs ← gets p_pcaps;
  let h := fresh_loc hs in
  upd_rcv is_internal (λ r, r <| rd_pd := Some h |>);;
  modify (λ p, p <| p_pcaps ::= (λ m, <[h := PcapHandle dev 250 MAX_PACKET_SIZE true None]> m) |>);;
  if decide (pcap_activate dev ≠ 0) then mret (- ARG_CONFIG_BAD) else
  base ← in_world gate_base_ip;
  msk ← in_world gate_mask;
  let filter := pcap_filter is_internal (inet_ntop base) (inet_ntop msk) in
  if decide (pcap_compile dev filter = -1) then pcap_close h;; mret (- ARG_INTERNAL_ERROR) else
  if decide (pcap_setfilter dev filter = -1) then pcap_close h;; mret (- ARG_CONFIG_BAD) else
  modify (λ p, p <| p_pcaps ::= alter (λ x, x <| h_filter := Some filter |>) h |>);;
  mret 0.

Definition init_director (c : config_data) : proc process Z :=
  upd_rcv true (λ r, r <| rd_dev ::= (λ d, strncpy d (intDev c) (RECV_DEV_SIZE - 1)) |>);;
  upd_rcv false (λ r, r <| rd_dev ::= (λ d, strncpy d (extDev c) (RECV_DEV_SIZE - 1)) |>);;
  i ← gets (rcv true);
  idev ← lift_opt (cstr (rd_dev i));
  ret ← init_pcap_driver idev true;
  if decide (ret < 0) then mret ret else
  e ← gets (rcv false);
  edev ← lift_opt (cstr (rd_dev e));
  ret ← init_pcap_driver edev false;
  if decide (ret < 0) then mret ret else
  _ ← in_world gate_base_ip;
  _ ← in_world gate_mask;
  modify (λ p, p <| p_receiveShouldRun := true |>);;
  upd_rcv true (λ r, r <| rd_thread := true |>);;
  upd_rcv false (λ r, r <| rd_thread := true |>);;
  mret 0.

(** Both receivers end, as the loop's flag or the cancellation tells them to;
    what they do until then is an argument of [ArgInit.main]. *)
Definition join_director : proc process unit :=
  upd_rcv false (λ r, r <| rd_thread := false |>);;
  upd_rcv true (λ r, r <| rd_thread := false |>).

Definition close_receiver (is_internal : bool) : proc process unit :=
  r ← gets (rcv is_internal);
  match rd_pd r with
  | None => mret tt
  | Some h => pcap_close h;; upd_rcv is_internal (λ r, r <| rd_pd := None |>)
  end.

Definition uninit_director : proc process Z :=
  m ← gets p_cancelLock;
  match m with
  | MDestroyed => fault
  | MHeld => mret 0
  | MFree =>
      modify (λ p, p <| p_cancelLock := MHeld |>);;
      sent ← gets p_cancelSent;
      if (sent : bool) then mret 0 else
      modify (λ p, p <| p_cancelSent := true |>);;
      i ← gets (rcv true);
      pthread_cancel (rd_thread i);;
      e ← gets (rcv false);
      pthread_cancel (rd_thread e);;
      modify (λ p, p <| p_receiveShouldRun := false |>);;
      join_director;;
      close_receiver true;;
      close_receiver false;;
      modify (λ p, p <| p_cancelLock := MDestroyed |>);;
      mret 0
  end.

(** ** NAT and hopper *)

Definition init_nat : proc process Z :=
  modify (λ p, p <| p_natThread := true |>);; mret 0.

Context `{Env}.

(** [pthread_cancel] and [pthread_join]: a cancelled thread dies at a
    cancellation point -- [syslog], [sleep] -- and keeps what it has locked. *)
Definition cancel_cleaner : proc process unit :=
  running ← gets p_natThread;
  if (running : bool) then
    (if env_dies_locked then in_world (nat_modify (λ n, n <| natTableLock := true |>)) else mret tt);;
    modify (λ p, p <| p_natThread := false |>)
  else mret tt.

Definition uninit_nat : proc process unit :=
  cancel_cleaner;;
  m ← gets p_natLock;
  match m with
  | MDestroyed => fault
  | _ => in_world empty_nat_table;; modify (λ p, p <| p_natLock := MDestroyed |>)
  end.

Definition init_hopper_finish : proc process unit :=
  modify (λ p, p <| p_connectThread := true |>).

(** The connect thread has no cancellation point inside [ipLock], the only one
    of the two mutexes it takes; that it may die holding a gateway's own mutex
    is left out. *)
Definition stop_hopper : proc process unit :=
  modify (λ p, p <| p_connectThread := false |>);;
  m ← gets p_hopperLocks;
  match m with
  | MDestroyed => fault
  | _ => in_world uninit_hopper;; modify (λ p, p <| p_hopperLocks := MDestroyed |>)
  end.

Context `{@Setup _}.

(** [init_hopper] calls [uninit_hopper] itself when it fails. *)
Definition start_hopper (nodes : gmap loc gate_list) (c : config_data) : proc process Z :=
  m ← gets p_hopperLocks;
  match m with
  | MDestroyed => fault
  | _ =>
      r ← in_world (init_hopper nodes c);
      (if decide (r ≠ 0) then modify (λ p, p <| p_hopperLocks := MDestroyed |>) else mret tt);;
      mret r
  end.
End Process.
