(* ===== verification/DirectorSetupFacts.v ===== *)
(** * The filters, and starting and stopping the director (src/director.c)

    When the text of the packet filter fits its buffer, what starting the
    director opens, and that stopping it closes it again. *)

From stdpp Require Import strings.
From S2P Require Import Prelude Words Settings ArgError CString Text Utility Crypto Packet Gate Uthash NatData World Config Net Layout KeyFiles Hopper Startup Nat DirectorSetup ConfigFacts.

(** ** Parentheses *)

Definition parens (t : list Z) : Z :=
  Z.of_nat (length (filter (λ c, c = 40) t)) - Z.of_nat (length (filter (λ c, c = 41) t)).

Lemma parens_app s t : parens (s ++ t) = parens s + parens t.
Proof. unfold parens. rewrite !filter_app, !length_app. lia. Qed.

Lemma parens_none t : Forall (λ c, c ≠ 40 ∧ c ≠ 41) t → parens t = 0.
Proof.
  intros Ht. unfold parens.
  assert (∀ x, x = 40 ∨ x = 41 → filter (λ c, c = x) t = []) as Hf.
  { intros x Hx. induction Ht as [|c t [? ?] _ IH]; [done|]. rewrite filter_cons_False by lia. done. }
  by rewrite !Hf by lia.
Qed.

Lemma parens_address t : Forall address_char t → Forall (λ c, c ≠ 40 ∧ c ≠ 41) t.
Proof. intros Ht. eapply Forall_impl; [exact Ht|]. intros c [->|?]; [done|lia]. Qed.

(** The external filter up to the second opening parenthesis, and the rest
    without the last character. *)
Definition filter_head (base mask : list Z) : list Z :=
  concat [str "(arp and not src net "; base; str " mask "; mask; str " and dst net "; base; str " mask "; mask;
   str ") or "; str "("].
Definition filter_tail (base mask : list Z) : list Z :=
  concat [str "not arp and dst net "; base; str " mask "; mask].

Lemma external_filter_parts base mask :
  concat (external_filter base mask) = filter_head base mask ++ filter_tail base mask ++ [41].
Proof.
  unfold filter_head, filter_tail, external_filter. cbn [concat]. rewrite !app_nil_r, <- !app_assoc. done.
Qed.

Ltac text_lengths :=
  unfold filter_head, filter_tail, external_filter; cbn [concat]; rewrite ?length_app;
  repeat match goal with
  | |- context [length (bytes_of_string ?s)] =>
      let n := eval vm_compute in (length (bytes_of_string s)) in
      change (length (bytes_of_string s)) with n
  end.

Lemma filter_head_length base mask :
  length (filter_head base mask) = (52 + 2 * (length base + length mask))%nat.
Proof. text_lengths. cbn [length]. lia. Qed.
Lemma filter_tail_length base mask :
  length (filter_tail base mask) = (26 + (length base + length mask))%nat.
Proof. text_lengths. cbn [length]. lia. Qed.

Section Filter.
Context (base mask : list Z) (Hb : Forall address_char base) (Hm : Forall address_char mask).

Lemma parens_head : parens (filter_head base mask) = 1.
Proof using All.
  unfold filter_head. cbn [concat]. rewrite !parens_app, !(parens_none base), !(parens_none mask)
    by (by apply parens_address). by vm_compute.
Qed.

Lemma tail_plain : Forall (λ c, c ≠ 40 ∧ c ≠ 41) (filter_tail base mask).
Proof using All.
  unfold filter_tail. cbn [concat]. apply parens_address in Hb, Hm. repeat apply Forall_app_2; try done; by_decide.
Qed.

(** Without room, the text ends inside the second parenthesis. *)
Lemma filter_unclosed :
  (23 < length base + length mask)%nat →
  (length base < INET_ADDRSTRLEN)%nat → (length mask < INET_ADDRSTRLEN)%nat →
  parens (pcap_filter false base mask) = 1.
Proof using All.
  intros Hfit Hlb Hlm. pose proof (filter_head_length base mask) as Hh. pose proof (filter_tail_length base mask) as Ht.
  unfold pcap_filter, snprintf_cat. rewrite external_filter_parts. unfold INET_ADDRSTRLEN, MAX_FILTER_LEN in *.
  rewrite app_assoc, take_app_le by (rewrite length_app; lia).
  rewrite take_app_ge by lia. rewrite parens_app, parens_head, parens_none; [done|].
  apply Forall_take, tail_plain.
Qed.

(** The buffer of the external filter holds the whole text exactly when the
    network's base address and mask take at most 23 characters together.  With
    more -- 192.168.1.0 and 255.255.255.0 take 24 -- the text is cut off inside
    the second parenthesis, which is then not closed. *)
Theorem external_filter_fits :
  (length base < INET_ADDRSTRLEN)%nat → (length mask < INET_ADDRSTRLEN)%nat →
  if decide (length base + length mask ≤ 23)%nat
  then pcap_filter false base mask = concat (external_filter base mask) ∧ parens (pcap_filter false base mask) = 0
  else parens (pcap_filter false base mask) = 1.
Proof using All.
  intros Hlb Hlm. case_decide as Hfit; [|apply filter_unclosed; [lia|done..]].
  assert (pcap_filter false base mask = concat (external_filter base mask)) as Hall.
  { unfold pcap_filter, snprintf_cat. apply take_ge. unfold MAX_FILTER_LEN.
    rewrite external_filter_parts, !length_app, filter_head_length, filter_tail_length. cbn [length]. lia. }
  split; [done|]. rewrite Hall, external_filter_parts.
  rewrite !parens_app, parens_head, (parens_none (filter_tail _ _)) by apply tail_plain. done.
Qed.
End Filter.

Definition home_base : list Z := inet_ntop [192; 168; 1; 0].
Definition home_mask : list Z := inet_ntop [255; 255; 255; 0].

Lemma external_filter_fits_witness :
  if decide (length home_base + length home_mask ≤ 23)%nat
  then pcap_filter false home_base home_mask = concat (external_filter home_base home_mask)
    ∧ parens (pcap_filter false home_base home_mask) = 0
  else parens (pcap_filter false home_base home_mask) = 1.
Proof.
  apply external_filter_fits; [apply inet_ntop_ok; [by_decide|done]|apply inet_ntop_ok; [by_decide|done]|by_decide|by_decide].
Defined.

(** ** Starting *)

Section Director.
Context `{P : PolarSSL} `{Pcap}.
Implicit Types p : process.

Lemma in_world_same {A} (m : prog A) a p : m (p_world p) = Done a (p_world p) → in_world m p = Done a p.
Proof. intros Hm. unfold in_world. rewrite Hm. by destruct p. Qed.

(** Our own record is the first. *)
Definition own_gate_is (p : process) (g : arg_network_info) : Prop :=
  ∃ l, w_gateInfo (p_world p) = Some l ∧ w_gates (p_world p) !! l = Some g.

Lemma gate_base_run p g : own_gate_is p g → in_world gate_base_ip p = Done (baseIP g) p.
Proof.
  intros (l & Hi & Hl). apply in_world_same. unfold gate_base_ip, gateInfo, deref, gets, mbind, proc_bind.
  rewrite Hi. cbn [lift_opt mret proc_ret]. by rewrite (gate_get_run _ _ _ Hl).
Qed.
Lemma gate_mask_run p g : own_gate_is p g → in_world gate_mask p = Done (mask g) p.
Proof.
  intros (l & Hi & Hl). apply in_world_same. unfold gate_mask, gateInfo, deref, gets, mbind, proc_bind.
  rewrite Hi. cbn [lift_opt mret proc_ret]. by rewrite (gate_get_run _ _ _ Hl).
Qed.

(** The filter of a side. *)
Definition gate_filter (is_internal : bool) (g : arg_network_info) : list Z :=
  pcap_filter is_internal (inet_ntop (baseIP g)) (inet_ntop (mask g)).

(** pcap opens the device and takes the filter. *)
Record pcap_works (is_internal : bool) (dev : list Z) (g : arg_network_info) : Prop := {
  pw_create : pcap_create dev = true;
  pw_activate : pcap_activate dev = 0;
  pw_compile : pcap_compile dev (gate_filter is_internal g) ≠ -1;
  pw_setfilter : pcap_setfilter dev (gate_filter is_internal g) ≠ -1 }.

Definition set_rcv (is_internal : bool) (f : receive_thread_data → receive_thread_data) (p : process) : process :=
  if is_internal then p <| p_int ::= f |> else p <| p_ext ::= f |>.
Definition handle (dev filter : list Z) : pcap_t := PcapHandle dev 250 MAX_PACKET_SIZE true (Some filter).
(** The process with one more device. *)
Definition opened (is_internal : bool) (dev filter : list Z) (p : process) : process :=
  set_rcv is_internal (λ r, r <| rd_pd := Some (fresh_loc (p_pcaps p)) |>) p
    <| p_pcaps ::= (λ m, <[fresh_loc m := handle dev filter]> m) |>.

Lemma open_run is_internal dev p g :
  own_gate_is p g → pcap_works is_internal dev g →
  init_pcap_driver dev is_internal p = Done 0 (opened is_internal dev (gate_filter is_internal g) p).
Proof.
  intros Hg [Hc Ha Hco Hs]. unfold init_pcap_driver. rewrite Hc. cbn [negb].
  unfold gets at 1, upd_rcv, modify, mbind, proc_bind. rewrite Ha. rewrite (decide_False (P := 0 ≠ 0)) by lia.
  match goal with |- context [in_world gate_base_ip ?q] => set (q1 := q) end.
  assert (own_gate_is q1 g) as Hg1 by (by destruct is_internal).
  rewrite (gate_base_run _ _ Hg1), (gate_mask_run _ _ Hg1). fold (gate_filter is_internal g).
  rewrite !decide_False by done. f_equal. unfold q1, opened, set_rcv.
  destruct is_internal, p; cbn; by rewrite alter_insert_eq.
Qed.

(** A device that cannot be used, or a filter that pcap refuses. *)
Lemma open_fails is_internal dev p g :
  own_gate_is p g → pcap_create dev = true → pcap_activate dev = 0 →
  pcap_compile dev (gate_filter is_internal g) = -1 →
  ∃ p', init_pcap_driver dev is_internal p = Done (- ARG_INTERNAL_ERROR) p'
    ∧ p_cancelLock p' = p_cancelLock p ∧ p_cancelSent p' = p_cancelSent p ∧ rd_thread (p_int p') = rd_thread (p_int p)
    ∧ p_pcaps p' = p_pcaps p ∧ ∃ h, rd_pd (rcv is_internal p') = Some h ∧ p_pcaps p' !! h = None.
Proof.
  intros Hg Hc Ha Hco. unfold init_pcap_driver. rewrite Hc. cbn [negb].
  unfold gets at 1, upd_rcv, modify, mbind, proc_bind. rewrite Ha. rewrite (decide_False (P := 0 ≠ 0)) by lia.
  match goal with |- context [in_world gate_base_ip ?q] => set (q1 := q) end.
  assert (own_gate_is q1 g) as Hg1 by (by destruct is_internal).
  rewrite (gate_base_run _ _ Hg1), (gate_mask_run _ _ Hg1). fold (gate_filter is_internal g).
  rewrite decide_True by done. unfold pcap_close, gets, modify, mbind, proc_bind.
  pose proof (fresh_loc_None (p_pcaps p)) as Hn.
  assert (p_pcaps q1 !! fresh_loc (p_pcaps p) = Some (PcapHandle dev 250 MAX_PACKET_SIZE true None)) as ->
    by (unfold q1; destruct is_internal, p; cbn; apply lookup_insert_eq).
  cbn [lift_opt mret proc_ret]. eexists. split; [reflexivity|]. unfold q1.
  assert (∀ x, delete (fresh_loc (p_pcaps p)) (<[fresh_loc (p_pcaps p) := x]> (p_pcaps p)) = p_pcaps p) as Hdel
    by (intros x; by rewrite delete_insert_eq, delete_id by done).
  destruct is_internal, p; cbn in *; rewrite Hdel; split_and!; try done; eexists; (split; [reflexivity|done]).
Qed.
End Director.

(** What a receiver keeps of a device's name. *)
Definition dev_name (s : list Z) : list Z := take (RECV_DEV_SIZE - 1) (until_nul s).

Lemma until_nul_nonzero s : Forall (λ b, b ≠ 0) (until_nul s).
Proof. induction s as [|b s IH]; [constructor|]. cbn. case_decide; by constructor. Qed.

Lemma cstr_dev s : cstr (strncpy (zeros RECV_DEV_SIZE) s (RECV_DEV_SIZE - 1)) = Some (dev_name s).
Proof.
  unfold strncpy. set (t := take _ (until_nul s)). unfold dev_name. fold t.
  assert (∃ rest, t ++ zeros (RECV_DEV_SIZE - 1 - length t) ++ drop (RECV_DEV_SIZE - 1) (zeros RECV_DEV_SIZE)
    = t ++ 0 :: rest) as [rest ->].
  { destruct (RECV_DEV_SIZE - 1 - length t)%nat as [|k]; by eexists. }
  apply cstr_intro, Forall_take, until_nul_nonzero.
Qed.

Section Start.
Context `{P : PolarSSL} `{Pcap}.
Implicit Types p : process.

(** The receivers as they are when the program starts. *)
Definition receiver0 : receive_thread_data := Receiver None (zeros RECV_DEV_SIZE) false.

(** Both devices open and both receivers running. *)
Record receiving (p : process) (idev edev : list Z) (g : arg_network_info) (hi he : loc) : Prop := {
  rc_distinct : hi ≠ he;
  rc_int : p_int p = Receiver (Some hi) (strncpy (zeros RECV_DEV_SIZE) idev (RECV_DEV_SIZE - 1)) true;
  rc_ext : p_ext p = Receiver (Some he) (strncpy (zeros RECV_DEV_SIZE) edev (RECV_DEV_SIZE - 1)) true;
  rc_pcaps : p_pcaps p = {[hi := handle (dev_name idev) (gate_filter true g);
                          he := handle (dev_name edev) (gate_filter false g)]};
  rc_run : p_receiveShouldRun p = true }.

(** The process with the receivers' device names set. *)
Definition named (c : config_data) (p : process) : process :=
  set_rcv false (λ r, r <| rd_dev ::= (λ d, strncpy d (extDev c) (RECV_DEV_SIZE - 1)) |>)
    (set_rcv true (λ r, r <| rd_dev ::= (λ d, strncpy d (intDev c) (RECV_DEV_SIZE - 1)) |>) p).

(** What follows once the names are set. *)
Lemma init_director_named c p :
  init_director c p = (i ← gets (rcv true);
    idev ← lift_opt (cstr (rd_dev i));
    ret ← init_pcap_driver idev true;
    if decide (ret < 0) then mret ret else
    e ← gets (rcv false);
    edev ← lift_opt (cstr (rd_dev e));
    ret ← init_pcap_driver edev false;
    if decide (ret < 0) then mret ret else
    _ ← in_world gate_base_ip;
    _ ← in_world gate_mask;
    modify (λ p, p <| p_receiveShouldRun := true |>);;
    upd_rcv true (λ r, r <| rd_thread := true |>);;
    upd_rcv false (λ r, r <| rd_thread := true |>);;
    mret 0) (named c p).
Proof. done. Qed.

Lemma init_director_run c p g :
  own_gate_is p g → p_int p = receiver0 → p_ext p = receiver0 → p_pcaps p = ∅ →
  pcap_works true (dev_name (intDev c)) g → pcap_works false (dev_name (extDev c)) g →
  ∃ p' hi he, init_director c p = Done 0 p' ∧ receiving p' (intDev c) (extDev c) g hi he
    ∧ p_world p' = p_world p ∧ p_nodes p' = p_nodes p ∧ p_cancelSent p' = p_cancelSent p
    ∧ p_cancelLock p' = p_cancelLock p ∧ p_hopperLocks p' = p_hopperLocks p ∧ p_natLock p' = p_natLock p
    ∧ p_natThread p' = p_natThread p ∧ p_connectThread p' = p_connectThread p.
Proof.
  intros Hg Hi He Hpc Hwi Hwe.
  set (p1 := named c p).
  rewrite init_director_named. fold p1.
  assert (own_gate_is p1 g) as Hg1 by exact Hg.
  set (p2 := opened true (dev_name (intDev c)) (gate_filter true g) p1).
  assert (own_gate_is p2 g) as Hg2 by exact Hg.
  set (p3 := opened false (dev_name (extDev c)) (gate_filter false g) p2).
  assert (own_gate_is p3 g) as Hg3 by exact Hg.
  assert (rd_dev (rcv true p1) = strncpy (zeros RECV_DEV_SIZE) (intDev c) (RECV_DEV_SIZE - 1)) as Edi
    by (unfold p1, named, set_rcv; cbn; by rewrite Hi).
  assert (rd_dev (rcv false p2) = strncpy (zeros RECV_DEV_SIZE) (extDev c) (RECV_DEV_SIZE - 1)) as Ede
    by (unfold p2, opened, p1, named, set_rcv; cbn; by rewrite He).
  unfold gets, mbind, proc_bind. rewrite Edi, cstr_dev. cbn [lift_opt mret proc_ret].
  rewrite (open_run true _ p1 g Hg1 Hwi). fold p2. rewrite (decide_False (P := 0 < 0)) by lia.
  rewrite Ede, cstr_dev. cbn [lift_opt mret proc_ret].
  rewrite (open_run false _ p2 g Hg2 Hwe). fold p3. rewrite (decide_False (P := 0 < 0)) by lia.
  rewrite (gate_base_run _ _ Hg3), (gate_mask_run _ _ Hg3). unfold modify, upd_rcv.
  set (hi := fresh_loc (p_pcaps p1)). set (he := fresh_loc (p_pcaps p2)).
  eexists. exists hi, he. split; [reflexivity|].
  assert (hi ≠ he) as Hne.
  { intros Heq. pose proof (fresh_loc_None (p_pcaps p2)) as Hn. fold he in Hn. rewrite <- Heq in Hn.
    unfold p2, opened in Hn. cbn in Hn. fold hi in Hn. by rewrite lookup_insert_eq in Hn. }
  split; [|by split_and!]. split; [done|..|done].
  - cbn. fold hi. unfold receiver0 in Hi. rewrite Hi. done.
  - cbn. fold he. rewrite He. done.
  - change (<[he := handle (dev_name (extDev c)) (gate_filter false g)]>
      (<[hi := handle (dev_name (intDev c)) (gate_filter true g)]> (p_pcaps p)) =
      {[hi := handle (dev_name (intDev c)) (gate_filter true g);
        he := handle (dev_name (extDev c)) (gate_filter false g)]}).
    by rewrite Hpc, insert_insert_ne, !insert_empty by done.
Qed.

(** The external device's filter is refused: no receiver was started. *)
Lemma init_director_refused c p g :
  own_gate_is p g → p_int p = receiver0 → p_ext p = receiver0 →
  pcap_works true (dev_name (intDev c)) g →
  pcap_create (dev_name (extDev c)) = true → pcap_activate (dev_name (extDev c)) = 0 →
  pcap_compile (dev_name (extDev c)) (gate_filter false g) = -1 →
  ∃ p', init_director c p = Done (- ARG_INTERNAL_ERROR) p' ∧ p_cancelLock p' = p_cancelLock p
    ∧ p_cancelSent p' = p_cancelSent p ∧ rd_thread (p_int p') = false.
Proof.
  intros Hg Hi He Hwi Hcr Hac Hco. set (p1 := named c p). set (p2 := opened true (dev_name (intDev c)) (gate_filter true g) p1).
  destruct (open_fails false (dev_name (extDev c)) p2 g Hg Hcr Hac Hco) as (p' & Hrun & Hl & Hs & Ht & _).
  exists p'. split_and!; try done; [|by rewrite Ht; unfold p2, opened, p1, named, set_rcv; cbn; rewrite Hi].
  assert (rd_dev (rcv true p1) = strncpy (zeros RECV_DEV_SIZE) (intDev c) (RECV_DEV_SIZE - 1)) as Edi
    by (unfold p1, named, set_rcv; cbn; by rewrite Hi).
  assert (rd_dev (rcv false p2) = strncpy (zeros RECV_DEV_SIZE) (extDev c) (RECV_DEV_SIZE - 1)) as Ede
    by (unfold p2, opened, p1, named, set_rcv; cbn; by rewrite He).
  rewrite init_director_named. fold p1. unfold gets, mbind, proc_bind. rewrite Edi, cstr_dev. cbn [lift_opt mret proc_ret].
  rewrite (open_run true _ p1 g Hg Hwi). fold p2. rewrite (decide_False (P := 0 < 0)) by lia.
  rewrite Ede, cstr_dev. cbn [lift_opt mret proc_ret]. rewrite Hrun.
  by rewrite decide_True by (unfold ARG_INTERNAL_ERROR; lia).
Qed.

(** Both devices closed, both receivers ended, and the lock destroyed. *)
Record director_down (p : process) : Prop := {
  dd_pcaps : p_pcaps p = ∅;
  dd_int : rd_pd (p_int p) = None ∧ rd_thread (p_int p) = false;
  dd_ext : rd_pd (p_ext p) = None ∧ rd_thread (p_ext p) = false;
  dd_run : p_receiveShouldRun p = false;
  dd_sent : p_cancelSent p = true;
  dd_lock : p_cancelLock p = MDestroyed }.

Lemma uninit_director_run p idev edev g hi he :
  receiving p idev edev g hi he → p_cancelLock p = MFree → p_cancelSent p = false →
  ∃ p', uninit_director p = Done 0 p' ∧ director_down p' ∧ p_world p' = p_world p ∧ p_nodes p' = p_nodes p
    ∧ p_hopperLocks p' = p_hopperLocks p ∧ p_natLock p' = p_natLock p
    ∧ p_natThread p' = p_natThread p ∧ p_connectThread p' = p_connectThread p.
Proof.
  intros [Hne Hi He Hpc Hrun] Hl Hs. destruct p as [w nd pc int ext run sent cl hl nl nt ct]; cbn in *. subst.
  unfold uninit_director, gets, mbind, proc_bind, modify, pthread_cancel, join_director, close_receiver, upd_rcv,
    modify, pcap_close, gets, mbind, proc_bind. cbn.
  rewrite lookup_insert_eq. cbn. rewrite delete_insert_eq, delete_singleton_ne, lookup_singleton_eq by done.
  cbn. eexists. split; [reflexivity|]. split; [split; cbn; try done|done].
  by rewrite delete_singleton_eq.
Qed.

(** Without a thread to cancel, it is undefined. *)
Lemma uninit_director_unstarted p :
  p_cancelLock p = MFree → p_cancelSent p = false → rd_thread (p_int p) = false → uninit_director p = Fault.
Proof.
  intros Hl Hs Ht. destruct p as [w nd pc int ext run sent cl hl nl nt ct]; cbn in *. subst.
  unfold uninit_director, gets, mbind, proc_bind, modify, pthread_cancel. cbn. by rewrite Ht.
Qed.
End Start.
