(* ===== verification/ArgInit.v ===== *)
(** * Starting and stopping the program (src/init.c)

    [arg_init], [arg_exit] and [main] over the whole process. *)

From S2P Require Import Prelude Words Settings ArgError CString Utility Crypto Packet Gate Uthash NatData World Config Net Hopper Startup Nat DirectorSetup.

Section ArgInit.
Context `{P : PolarSSL, U : @Setup P, Env, Pcap}.

Definition init_locks : proc process unit :=
  modify (λ p, p <| p_natLock := MFree |> <| p_hopperLocks := MFree |> <| p_cancelLock := MFree |>).

(** [conf] is the uninitialised record on the stack, [line] the uninitialised
    buffer of [read_config]. *)
Definition arg_init (line : list Z) (conf : config_data) (configPath : list Z)
    (gateName : option (list Z)) : proc process Z :=
  init_locks;;
  let conf := conf <| cf_file ::= (λ d, strncpy d configPath (MAX_CONF_LINE - 1)) |> in
  '(r, conf) ← in_conf (read_config line conf);
  if decide (r ≠ 0) then mret (- ARG_CONFIG_BAD) else
  let conf :=
    match gateName with
    | None => conf
    | Some nm => conf <| ourGateName ::= (λ d, strncpy d nm (MAX_CONF_LINE - 1)) |>
    end in
  nodes ← gets p_nodes;
  r ← start_hopper nodes conf;
  if decide (r ≠ 0) then stop_hopper;; mret (- ARG_CONFIG_BAD) else
  r ← init_nat;
  if decide (r ≠ 0) then uninit_nat;; stop_hopper;; mret (- ARG_CONFIG_BAD) else
  r ← init_director conf;
  if decide (r ≠ 0) then
    _ ← uninit_director; uninit_nat;; stop_hopper;; mret (- ARG_CONFIG_BAD) else
  init_hopper_finish;;
  in_conf (release_config conf);;
  mret 0.

Definition arg_exit : proc process unit :=
  _ ← uninit_director; uninit_nat;; stop_hopper.

Definition sig_handler : proc process unit := _ ← uninit_director; mret tt.

(** [main]; [threads]: what the threads do to the world while it waits for the
    receivers; [signalled]: whether SIGINT arrives meanwhile. *)
Definition main (line : list Z) (conf : config_data) (argv : list (list Z)) (threads : world → world)
    (signalled : bool) : proc process Z :=
  match argv with
  | _ :: configPath :: rest =>
      if decide (1 < length rest)%nat then mret 1 else
      _ ← arg_init line conf configPath (head rest);
      modify (λ p, p <| p_world ::= threads |>);;
      (if signalled then sig_handler else mret tt);;
      join_director;;
      arg_exit;;
      mret 0
  | _ => mret 1
  end.
End ArgInit.
