(* ===== verification/ArgInitFacts.v ===== *)
(** * Starting and stopping the program (src/init.c): facts

    From the files on disk to the running program, how that stops, and what
    happens when pcap refuses a filter. *)

From stdpp Require Import strings.
From S2P Require Import Prelude Linked Words Settings ArgError CString Text Utility Crypto Packet Gate Uthash NatData World Config ToyCrypto ToyWorld Net Layout ToySetup ConfigFacts KeyFiles Hopper Startup HopperFacts Invariant GateList StartupFacts Nat NatFacts NatClean NatSafe NoHang StartState DirectorSetup DirectorSetupFacts ArgInit.

(** ** The hopper *)

Section ArgInit.
Context `{U : Setup, Env}.
Context {Hmpi : MpiFiles U}.
Context (mallocs_ok : ∀ i, env_malloc i = true).

(** The gateway's state when the program is loaded. *)
Record loaded (w : world) : Prop := {
  ld_gates : w_gates w = ∅;
  ld_info : w_gateInfo w = None;
  ld_nat : w_nat w = nat_init;
  ld_ipLock : w_ipLock w = false }.

(** The start of the hopper, once its configuration was read. *)
Lemma init_hopper_run c dir nodes items dpre d dpost drbg (w : world) :
  cstr (cf_dir c) = Some dir → (length dir + 16 < MAX_CONF_LINE)%nat →
  glist nodes (cf_gate c) items → NoDup items.*1 → items.*2 = pb_name <$> dpre ++ d :: dpost →
  Forall (published_in dir) (dpre ++ d :: dpost) →
  fs_read (dir ++ SLASH :: pb_name d ++ dot_priv) = inr (number_bytes (private_numbers (pb_key d))) →
  rsa_check_privkey (pb_key d <| rsa_len := key_len (pb_key d) |>) = 0 →
  Forall (λ d, names_match c d = false) dpre → names_match c d = true →
  ctr_drbg_init = (0, drbg) → loaded w →
  wp (init_hopper nodes c) (λ r w', r = 0 ∧ w_ipLock w' = false ∧ ∃ l others k t g,
    started w' l others d (dpre ++ dpost) g ∧ unlinked g = own_gate c d k t <| ctr_drbg := drbg |>) w.
Proof using All.
  intros Hdir Hlen Hgl Hnd Hit Hpub Hpriv Hchk Hpre Hd Hrng [Hno Hgi _ Hl].
  unfold init_hopper, ipLock_lock. apply wp_assoc, wp_bind_gets. rewrite Hl.
  apply wp_bind. unfold modify at 1, wp at 1. apply wp_bind.
  eapply wp_mono; [by apply (hopper_conf_run c dir nodes items dpre d dpost)|].
  cbv beta. intros r w1 (-> & l & others & k & t & g & Hs & Ho). rewrite decide_False by lia.
  unfold gateInfo. apply wp_bind_gets. rewrite (su_info _ _ _ _ _ _ Hs).
  unfold deref. eapply wp_bind_lift; [done|]. rewrite Hrng. cbn beta iota.
  eapply wp_bind_started; [exact Hs|done..|]. clear w1 Hs. intros w1 Hs.
  rewrite decide_False by lia. unfold ipLock_unlock. apply wp_bind. unfold modify, wp at 1.
  apply wp_ret. split; [done|]. split; [done|]. exists l, others, k, t. eexists.
  split; [destruct Hs; split; done|]. by rewrite <- Ho.
Qed.

(** Whether a record carries a short name of ours. *)
Lemma names_match_short c d own :
  until_nul (ourGateName c) = own → (length own < MAX_NAME_SIZE)%nat →
  Forall (λ b, b ≠ 0) (pb_name d) → (length (pb_name d) < MAX_NAME_SIZE)%nat →
  names_match c d = bool_decide (own = pb_name d).
Proof using Type.
  intros Ho Hol Hz Hl. unfold names_match, strncmp_same. rewrite !until_nul_take, Ho.
  assert (until_nul (stored_name (pb_name d)) = pb_name d) as ->.
  { pose proof (stored_name_cstr _ Hz Hl) as Hc. unfold cstr in Hc. case_decide; [|done]. by apply (inj Some). }
  by rewrite !take_ge by lia.
Qed.

(** The name the gateway goes by: the one of the command line, or the one the
    configuration gives. *)
Definition own_name (gateName : option (list Z)) (n : list Z) : list Z := default n gateName.
End ArgInit.


(** ** What is on the disk *)

(** A configuration of four settings, in a directory with the key files of the
    gates, the private one of our own among them. *)
Record on_disk `{U : Setup} (dir base : list Z) (gateName : option (list Z)) (n i e r : list Z)
    (dpre dpost : list published) (d : published) (drbg : ctr_drbg_context) : Prop := OnDisk {
  od_path : Forall (λ b, b ≠ 0) (dir ++ SLASH :: base) ∧ (SLASH ∉ base)
    ∧ (length (dir ++ SLASH :: base) < MAX_CONF_LINE - 1)%nat ∧ (length dir + 16 < MAX_CONF_LINE)%nat;
  od_conf : ∃ ls rest, fs_read (dir ++ SLASH :: base) = inr (text ls) ∧ Forall line_ok ls
    ∧ shown ls = n :: i :: e :: r :: rest;
  od_dir : ∃ names, fs_dir dir = Some names ∧ Forall file_name names
    ∧ pub_stems names = pb_name <$> dpre ++ d :: dpost;
  od_pub : Forall (published_in dir) (dpre ++ d :: dpost);
  od_priv : fs_read (dir ++ SLASH :: pb_name d ++ dot_priv) = inr (number_bytes (private_numbers (pb_key d)));
  od_key : rsa_check_privkey (pb_key d <| rsa_len := key_len (pb_key d) |>) = 0;
  od_own : own_name gateName n = pb_name d;
  od_first : Forall (λ d', pb_name d' ≠ pb_name d) dpre;
  od_rng : ctr_drbg_init = (0, drbg) }.

(** The record on the stack once the path and the name of the command line are
    in it. *)
Definition with_path (path : list Z) (c : config_data) : config_data :=
  c <| cf_file ::= (λ d, strncpy d path (MAX_CONF_LINE - 1)) |>.
Definition with_name (gateName : option (list Z)) (c : config_data) : config_data :=
  match gateName with
  | None => c
  | Some nm => c <| ourGateName ::= (λ d, strncpy d nm (MAX_CONF_LINE - 1)) |>
  end.

Lemma read_on_disk `{U : Setup, Env} line conf dir base gateName n i e r dpre dpost d drbg n0 :
  (∀ i, env_malloc i = true) → config_wf conf → length line = MAX_CONF_LINE →
  on_disk dir base gateName n i e r dpre dpost d drbg →
  ∃ c h items, read_config line (with_path (dir ++ SLASH :: base) conf) (ConfHeap ∅ n0) = Done (0, c) h
    ∧ cstr (cf_dir c) = Some dir ∧ until_nul (ourGateName (with_name gateName c)) = pb_name d
    ∧ intDev c = strncpy (intDev conf) i (DEV_SIZE - 1) ∧ extDev c = strncpy (extDev conf) e (DEV_SIZE - 1)
    ∧ hopRate c = atol r ∧ glist (c_gates h) (cf_gate c) items ∧ NoDup items.*1
    ∧ items.*2 = pb_name <$> dpre ++ d :: dpost ∧ ∀ l, is_Some (c_gates h !! l) → l ∈ items.*1.
Proof.
  intros Hm Hwf Hline [(Hz & Hbase & Hpl & Hdl) (ls & rest & Hread & Hls & Hs) (names & Hdir & Hnames & Hstems)
    Hpub _ _ Hown _ _].
  set (conf1 := with_path (dir ++ SLASH :: base) conf).
  assert (cstr (cf_file conf1) = Some (dir ++ SLASH :: base)) as Hpath by (by apply cstr_strncpy).
  assert (config_wf conf1) as Hwf1.
  { destruct Hwf as [Hf ? ? ? ?]. split; [|done..]. rewrite <- Hf.
    apply (length_strncpy (cf_file conf)). rewrite Hf. unfold MAX_CONF_LINE. lia. }
  destruct (read_config_run n0 conf1 dir base ls names n i e r rest line)
    as (c & h & items & Hrun & Hcd & Hcn & Hci & Hce & Hch & Hg & Hnd & Hit & Hheap); try done.
  { rewrite Hstems. by destruct dpre. }
  rewrite Hstems in Hit. exists c, h, items. split_and!; try done.
  destruct (proj1 (Forall_app _ _ _) Hpub) as [_ Hpd]. apply Forall_cons in Hpd as [(Hdz & Hdn & _) _].
  rewrite <- Hown in Hdz, Hdn |- *.
  assert (MAX_NAME_SIZE < MAX_CONF_LINE - 1)%nat by (unfold MAX_NAME_SIZE, MAX_CONF_LINE; lia).
  destruct gateName as [nm|]; cbn [with_name own_name default from_option id] in *;
    [cbn [ourGateName upd]|rewrite Hcn]; apply strncpy_until_nul; try done; lia.
Qed.

(** The hopper on such a disk. *)
Lemma hopper_on_disk `{U : Setup} `{!MpiFiles U} `{Env} dir base gateName n i e r dpre dpost d drbg c nodes items
    (w : world) :
  (∀ i, env_malloc i = true) → on_disk dir base gateName n i e r dpre dpost d drbg →
  cstr (cf_dir c) = Some dir → until_nul (ourGateName c) = pb_name d →
  glist nodes (cf_gate c) items → NoDup items.*1 → items.*2 = pb_name <$> dpre ++ d :: dpost →
  loaded w →
  ∃ w', init_hopper nodes c w = Done 0 w' ∧ w_ipLock w' = false ∧ ∃ l others k t g,
    started w' l others d (dpre ++ dpost) g ∧ unlinked g = own_gate c d k t <| ctr_drbg := drbg |>
    ∧ at_rest l w'.
Proof.
  intros Hm [(_ & _ & _ & Hdl) _ _ Hpub Hpriv Hchk _ Hpre Hrng] Hcd Hname Hg Hnd Hit Hld.
  destruct (proj1 (Forall_app _ _ _) Hpub) as [Hpub1 Hpd]. apply Forall_cons in Hpd as [(Hdz & Hdn & _) _].
  assert (names_match c d = true) as Hmd.
  { rewrite (names_match_short _ _ (pb_name d)) by done. by apply bool_decide_eq_true. }
  assert (Forall (λ d', names_match c d' = false) dpre) as Hmp.
  { rewrite Forall_forall in Hpre, Hpub1 |- *. intros d' Hd'.
    destruct (Hpub1 d' Hd') as (? & ? & _). rewrite (names_match_short _ _ (pb_name d)) by done.
    apply bool_decide_eq_false. intros Heq. by apply (Hpre d' Hd'). }
  destruct (wp_elim _ _ _ (init_hopper_run Hm c dir nodes items dpre d dpost drbg w Hcd Hdl Hg Hnd Hit Hpub Hpriv
    Hchk Hmp Hmd Hrng Hld)) as (r' & w' & Hih & -> & Hl' & l & others & k & t & g & Hst & Ho).
  exists w'. split_and!; [done..|]. exists l, others, k, t, g. split_and!; [done..|].
  eapply started_at_rest; [exact Hst|exact Ho|..|done|].
  - apply Forall_app in Hpub as [_ [? _]%Forall_cons]. eassumption.
  - apply Forall_app in Hpub as [? [_ ?]%Forall_cons]. by apply Forall_app.
  - pose proof (same_init_hopper _ _ _ _ _ Hih) as E. unfold same_nat in E. by rewrite E, (ld_nat _ Hld).
Qed.

(** ** The process *)

(** What the loader gives: nothing allocated, nothing open. *)
Definition boot `{PolarSSL} (w : world) : process :=
  Process w ∅ ∅ receiver0 receiver0 false false MDestroyed MDestroyed MDestroyed false false.

Lemma strncpy_twice d s k :
  Forall (λ b, b ≠ 0) s → (RECV_DEV_SIZE - 1 ≤ k)%nat →
  strncpy (zeros RECV_DEV_SIZE) (strncpy d s k) (RECV_DEV_SIZE - 1) = strncpy (zeros RECV_DEV_SIZE) s (RECV_DEV_SIZE - 1).
Proof.
  intros Hs Hk. assert (∀ t u, take (RECV_DEV_SIZE - 1) (until_nul t) = take (RECV_DEV_SIZE - 1) (until_nul u) →
    strncpy (zeros RECV_DEV_SIZE) t (RECV_DEV_SIZE - 1) = strncpy (zeros RECV_DEV_SIZE) u (RECV_DEV_SIZE - 1)) as Hext.
  { intros t u Heq. unfold strncpy. by rewrite Heq. }
  apply Hext. destruct (decide (length s < k)%nat) as [Hl|Hl].
  { by rewrite strncpy_until_nul, (until_nul_no_nul s). }
  unfold strncpy. rewrite (until_nul_no_nul s) by done.
  assert (∀ a b, Forall (λ b, b ≠ 0) a → until_nul (a ++ b) = a ++ until_nul b) as Happ.
  { induction 1 as [|x a Hx _ IH]; [done|]. cbn. rewrite decide_False by done. by rewrite IH. }
  rewrite Happ by (by apply Forall_take). rewrite take_app_le by (rewrite length_take; lia).
  by rewrite take_take, Nat.min_l.
Qed.

Section Process.
Context `{P : PolarSSL}.
Implicit Types p : process.

Lemma in_conf_run {A} (m : proc conf_heap A) a h p :
  m (ConfHeap (p_nodes p) (w_malloc (p_world p))) = Done a h →
  in_conf m p = Done a (p <| p_nodes := c_gates h |> <| p_world ::= (λ w, w <| w_malloc := c_malloc h |>) |>).
Proof. intros Hm. unfold in_conf. by rewrite Hm. Qed.
Lemma in_world_run {A} (m : prog A) a w p : m (p_world p) = Done a w → in_world m p = Done a (p <| p_world := w |>).
Proof. intros Hm. unfold in_world. by rewrite Hm. Qed.

Lemma uninit_nat_run `{Env} p w :
  p_natLock p = MFree → env_dies_locked = false → empty_nat_table (p_world p) = Done tt w →
  uninit_nat p = Done tt (p <| p_natThread := false |> <| p_world := w |> <| p_natLock := MDestroyed |>).
Proof.
  intros Hl Hd Hrun. destruct p as [? ? ? ? ? ? ? ? ? ? run ?]; cbn in *.
  unfold uninit_nat, cancel_cleaner, gets, modify, mbind, proc_bind. cbn.
  rewrite Hd. destruct run; cbn; rewrite Hl; unfold in_world; cbn; by rewrite Hrun.
Qed.
(** The mutex of a thread that died holding it is never given back. *)
Lemma uninit_nat_blocks `{Env} p :
  p_natLock p = MFree → p_natThread p = true → env_dies_locked = true → uninit_nat p = Stuck.
Proof.
  intros Hl Ht Hd. destruct p; cbn in *. subst.
  unfold uninit_nat, cancel_cleaner, gets, modify, mbind, proc_bind. cbn. by rewrite Hd.
Qed.
Lemma stop_hopper_run p w :
  p_hopperLocks p = MFree → uninit_hopper (p_world p) = Done tt w →
  stop_hopper p = Done tt (p <| p_connectThread := false |> <| p_world := w |> <| p_hopperLocks := MDestroyed |>).
Proof.
  intros Hl Hrun. destruct p; cbn in *. unfold stop_hopper, gets, modify, mbind, proc_bind. cbn.
  rewrite Hl. unfold in_world. cbn. by rewrite Hrun.
Qed.

(** Running, started from a disk. *)
Record running `{Env} (p : process) (c : config_data) (idev edev : list Z) (l : loc) (others : list loc)
    (d : published) (ds : list published) (drbg : ctr_drbg_context) (hi he : loc) : Prop := Running {
  rn_own : ∃ k t g, started (p_world p) l others d ds g ∧ unlinked g = own_gate c d k t <| ctr_drbg := drbg |>
    ∧ receiving p idev edev g hi he;
  rn_rest : at_rest l (p_world p);
  rn_free : w_ipLock (p_world p) = false ∧ p_nodes p = ∅;
  rn_locks : p_cancelLock p = MFree ∧ p_hopperLocks p = MFree ∧ p_natLock p = MFree;
  rn_threads : p_natThread p = true ∧ p_connectThread p = true ∧ p_cancelSent p = false }.
End Process.

(** From the process as it is loaded to the director: with the hopper started,
    what [arg_init] does is what [init_director] makes of it. *)
Lemma arg_init_to_director `{U : Setup} `{!MpiFiles U} `{Env, Pcap} line conf dir base gateName n i e r dpre dpost d
    drbg (w : world) :
  (∀ i, env_malloc i = true) → config_wf conf → length line = MAX_CONF_LINE →
  on_disk dir base gateName n i e r dpre dpost d drbg → loaded w →
  ∃ p c l others k t g items,
    arg_init line conf (dir ++ SLASH :: base) gateName (boot w) =
      (r ← init_director c;
       if decide (r ≠ 0) then _ ← uninit_director; uninit_nat;; stop_hopper;; mret (- ARG_CONFIG_BAD) else
       init_hopper_finish;; in_conf (release_config c);; mret 0) p
    ∧ intDev c = strncpy (intDev conf) i (DEV_SIZE - 1) ∧ extDev c = strncpy (extDev conf) e (DEV_SIZE - 1)
    ∧ hopRate c = atol r
    ∧ started (p_world p) l others d (dpre ++ dpost) g ∧ unlinked g = own_gate c d k t <| ctr_drbg := drbg |>
    ∧ at_rest l (p_world p) ∧ w_ipLock (p_world p) = false
    ∧ glist (p_nodes p) (cf_gate c) items ∧ NoDup items.*1 ∧ (∀ l, is_Some (p_nodes p !! l) → l ∈ items.*1)
    ∧ p_int p = receiver0 ∧ p_ext p = receiver0 ∧ p_pcaps p = ∅ ∧ p_cancelSent p = false
    ∧ p_cancelLock p = MFree ∧ p_hopperLocks p = MFree ∧ p_natLock p = MFree ∧ p_natThread p = true.
Proof.
  intros Hm Hwf Hline Hd Hld.
  destruct (read_on_disk line conf dir base gateName n i e r dpre dpost d drbg (w_malloc w) Hm Hwf Hline Hd)
    as (c & h & items & Hrun & Hcd & Hname & Hci & Hce & Hch & Hg & Hnd & Hit & Hheap).
  set (c' := with_name gateName c) in *.
  assert (cf_dir c' = cf_dir c ∧ cf_gate c' = cf_gate c ∧ hopRate c' = hopRate c ∧ intDev c' = intDev c
    ∧ extDev c' = extDev c) as (E1 & E2 & E3 & E4 & E5) by (unfold c'; by destruct gateName).
  rewrite <- E1 in Hcd. rewrite <- E2 in Hg.
  set (w1 := w <| w_malloc := c_malloc h |>). assert (loaded w1) as Hld1 by by destruct Hld.
  destruct (hopper_on_disk dir base gateName n i e r dpre dpost d drbg c' (c_gates h) items w1 Hm Hd Hcd Hname Hg Hnd Hit Hld1)
    as (w' & Hih & Hl' & l & others & k & t & g & Hst & Ho & Hrest).
  exists (Process w' (c_gates h) ∅ receiver0 receiver0 false false MFree MFree MFree true false), c', l, others, k, t, g, items.
  split; [|split_and!; try done; congruence].
  unfold arg_init. fold (with_path (dir ++ SLASH :: base) conf).
  set (p0 := Process w ∅ ∅ receiver0 receiver0 false false MFree MFree MFree false false).
  unfold mbind at 1, proc_bind at 1. change (init_locks (boot w)) with (Done tt p0). cbn beta iota.
  unfold mbind at 1, proc_bind at 1. rewrite (in_conf_run _ _ _ p0 Hrun). cbn beta iota. rewrite decide_False by lia.
  fold (with_name gateName c). fold c'.
  set (p1 := Process w1 (c_gates h) ∅ receiver0 receiver0 false false MFree MFree MFree
    false false).
  unfold gets at 1, mbind at 1, proc_bind at 1. cbn beta iota.
  assert (start_hopper (c_gates h) c' p1 = Done 0 (p1 <| p_world := w' |>)) as Hsh.
  { unfold start_hopper, gets, mbind, proc_bind. cbn beta iota. change (p_hopperLocks p1) with MFree. cbn beta iota.
    rewrite (in_world_run _ _ _ p1 Hih). reflexivity. }
  unfold mbind at 1, proc_bind at 1. change (p0 <| p_nodes := c_gates h |> <| p_world ::= _ |>) with p1.
  change (p_nodes p1) with (c_gates h). rewrite Hsh. cbn beta iota. rewrite decide_False by lia.
  reflexivity.
Qed.

(** Where the addresses come from, our records have the same filter. *)
Lemma own_filter `{PolarSSL, Env} is_internal c d k t drbg g :
  unlinked g = own_gate c d k t <| ctr_drbg := drbg |> → gate_filter is_internal g = gate_filter is_internal (gate_for d).
Proof.
  intros Ho. assert (baseIP g = baseIP (unlinked g) ∧ mask g = mask (unlinked g)) as [E1 E2] by done.
  unfold gate_filter. by rewrite E1, E2, Ho.
Qed.

Lemma works_same `{PolarSSL, Pcap} is_internal dev g g' :
  gate_filter is_internal g = gate_filter is_internal g' → pcap_works is_internal dev g' → pcap_works is_internal dev g.
Proof. intros Hf []. split; by rewrite ?Hf. Qed.

Lemma dev_name_setting d s : line_ok s → dev_name (strncpy d s (DEV_SIZE - 1)) = dev_name s.
Proof.
  intros [Hs _]. assert (Forall (λ b, b ≠ 0) s) as Hz by (eapply Forall_impl; [exact Hs|]; by intros b [? _]).
  apply (inj Some). rewrite <- !cstr_dev. f_equal. apply strncpy_twice; [done|]. unfold RECV_DEV_SIZE, DEV_SIZE. lia.
Qed.
Lemma recv_dev_setting d s :
  line_ok s → strncpy (zeros RECV_DEV_SIZE) (strncpy d s (DEV_SIZE - 1)) (RECV_DEV_SIZE - 1)
    = strncpy (zeros RECV_DEV_SIZE) s (RECV_DEV_SIZE - 1).
Proof.
  intros [Hs _]. apply strncpy_twice; [|unfold RECV_DEV_SIZE, DEV_SIZE; lia].
  eapply Forall_impl; [exact Hs|]. by intros b [? _].
Qed.
Lemma receiving_settings `{PolarSSL} p di de i e g hi he :
  line_ok i → line_ok e →
  receiving p (strncpy di i (DEV_SIZE - 1)) (strncpy de e (DEV_SIZE - 1)) g hi he → receiving p i e g hi he.
Proof.
  intros Hi He [Hne Ei Ee Hp Hr]. rewrite recv_dev_setting in Ei, Ee by done.
  rewrite !dev_name_setting in Hp by done. by split.
Qed.

(** The settings are lines. *)
Lemma disk_lines `{U : Setup} dir base gateName n i e r dpre dpost d drbg :
  on_disk dir base gateName n i e r dpre dpost d drbg → line_ok i ∧ line_ok e.
Proof.
  intros Hd. destruct (od_conf _ _ _ _ _ _ _ _ _ _ _ Hd) as (ls & rest & _ & Hls & Hs).
  by destruct (shown_settings ls n i e r rest Hls Hs) as (_ & ? & ?).
Qed.

(** The start, for the theorems below. *)
Lemma start_run `{U : Setup} `{!MpiFiles U} `{Env, Pcap} line conf dir base gateName n i e r dpre dpost d drbg
    (w : world) :
  (∀ i, env_malloc i = true) → config_wf conf → length line = MAX_CONF_LINE →
  on_disk dir base gateName n i e r dpre dpost d drbg → loaded w →
  pcap_works true (dev_name i) (gate_for d) → pcap_works false (dev_name e) (gate_for d) →
  ∃ p c l others hi he, arg_init line conf (dir ++ SLASH :: base) gateName (boot w) = Done 0 p
    ∧ hopRate c = atol r ∧ running p c i e l others d (dpre ++ dpost) drbg hi he.
Proof.
  intros Hm Hwf Hline Hd Hld Hwi Hwe. destruct (disk_lines _ _ _ _ _ _ _ _ _ _ _ Hd) as [Hli Hle].
  destruct (arg_init_to_director line conf dir base gateName n i e r dpre dpost d drbg w Hm Hwf Hline Hd Hld)
    as (p & c & l & others & k & t & g & items & -> & Hci & Hce & Hch & Hst & Ho & Hrest & Hip & Hg & Hnd & Hheap
      & Hint & Hext & Hpc & Hcs & Hcl & Hhl & Hnl & Hnt).
  pose proof (λ b, own_filter b _ _ _ _ _ _ Ho) as Hf.
  assert (own_gate_is p g) as Hown by (exists l; destruct Hst; done).
  destruct (init_director_run c p g Hown Hint Hext Hpc) as (p1 & hi & he & Hrun & Hrc & Hw & Hn & Hs1 & Hc1 & Hh1 & Hn1
    & Ht1 & Hct1).
  { rewrite Hci, dev_name_setting by done. exact (works_same _ _ _ _ (Hf true) Hwi). }
  { rewrite Hce, dev_name_setting by done. exact (works_same _ _ _ _ (Hf false) Hwe). }
  rewrite Hci, Hce in Hrc. apply receiving_settings in Hrc; [|done..].
  unfold mbind, proc_bind. rewrite Hrun. rewrite decide_False by lia.
  unfold init_hopper_finish, modify. rewrite <- Hn in Hg, Hheap.
  destruct (release_config_run c (ConfHeap (p_nodes p1) (w_malloc (p_world p1))) items Hg Hnd Hheap) as (h & Hrel & Hh).
  erewrite in_conf_run by exact Hrel. eexists. exists c, l, others, hi, he. split; [reflexivity|]. split; [done|].
  destruct Hrc as [? ? ? ? ?].
  split; [exists k, t, g; split; [|split; [done|by split]]| |split|split_and!|split_and!]; cbn; try congruence; try done.
  - rewrite Hw. destruct Hst. by split.
  - rewrite Hw. destruct Hrest as ([] & ? & ? & []). split_and!; [by split|done|done|by split].
Qed.

(** C13. From the disk to the running program: with a configuration of four
    settings in a directory with the key files of the gates -- the private one
    of our own among them --, a working random source and two devices that pcap
    opens, [arg_init] succeeds.  The list of gateways holds all published
    gates, our own in front with its private key and fresh keys; both devices
    are open with their filters and their receivers run; the cleaner and the
    administration thread run; every mutex is free and the configuration's
    memory is released.  The gateway is at rest: what the threads do from here
    is [NoHang.no_thread_hangs] and [Invariant.reachable_consistent].  A name on the command line takes the place of the
    configured one. *)
Theorem starts_from_disk `{U : Setup} `{!MpiFiles U} `{Env, Pcap} line conf dir base gateName n i e r dpre dpost d drbg
    (w : world) :
  (∀ i, env_malloc i = true) → config_wf conf → length line = MAX_CONF_LINE →
  on_disk dir base gateName n i e r dpre dpost d drbg → loaded w →
  pcap_works true (dev_name i) (gate_for d) → pcap_works false (dev_name e) (gate_for d) →
  ∃ p c l others hi he, arg_init line conf (dir ++ SLASH :: base) gateName (boot w) = Done 0 p
    ∧ hopRate c = atol r ∧ running p c i e l others d (dpre ++ dpost) drbg hi he.
Proof. exact (start_run line conf dir base gateName n i e r dpre dpost d drbg w). Qed.

(** Stopping the running program, if nothing had stopped the director before:
    [main] never does (below).  Both devices are closed, every thread has ended,
    the NAT table is empty, every gateway is freed and every mutex destroyed --
    unless a thread died holding the NAT table's mutex: then it blocks. *)
Lemma stop_first `{PolarSSL, Env} (p : process) idev edev g hi he l others abs :
  receiving p idev edev g hi he → p_cancelLock p = MFree → p_cancelSent p = false →
  p_hopperLocks p = MFree → p_natLock p = MFree → p_natThread p = true →
  headed l others (p_world p) → (∀ x, is_Some (w_gates (p_world p) !! x) → x ∈ l :: others) →
  w_ipLock (p_world p) = false →
  nat_ok (w_nat (p_world p)) abs → natTableLock (w_nat (p_world p)) = false →
  if env_dies_locked then arg_exit p = Stuck else
  ∃ p', arg_exit p = Done tt p' ∧ director_down p' ∧ p_natThread p' = false ∧ p_connectThread p' = false
    ∧ w_nat (p_world p') = nat_init ∧ w_gates (p_world p') = ∅ ∧ w_gateInfo (p_world p') = None
    ∧ p_natLock p' = MDestroyed ∧ p_hopperLocks p' = MDestroyed.
Proof.
  intros Hrc Hcl Hcs Hhl Hnl Hnt Hh Hall Hip Hnat Hnlk.
  destruct (uninit_director_run p idev edev g hi he Hrc Hcl Hcs) as (p1 & Hrun & Hdown & Hw & _ & Hh1 & Hn1 & Ht1 & _).
  destruct env_dies_locked eqn:Hdies; unfold arg_exit, mbind at 1, proc_bind at 1; rewrite Hrun.
  { rewrite <- Ht1 in Hnt. unfold mbind, proc_bind. by rewrite (uninit_nat_blocks p1 (eq_trans Hn1 Hnl) Hnt Hdies). }
  rewrite <- Hw in Hh, Hall, Hip, Hnat, Hnlk. set (w1 := set_nat nat_init (p_world p1)).
  assert (headed l others w1) as Hh2 by (destruct Hh; by split).
  destruct (uninit_frees_all l others w1 Hh2 Hip) as (w2 & Hun & Hgi & Hlk & Hgone & Hother).
  pose proof (uninit_nat_run p1 w1 (eq_trans Hn1 Hnl) Hdies (empty_frees_all _ _ Hnat Hnlk)) as Hua.
  unfold mbind at 1, proc_bind at 1. rewrite Hua.
  set (p2 := p1 <| p_natThread := false |> <| p_world := w1 |> <| p_natLock := MDestroyed |>).
  rewrite (stop_hopper_run p2 w2 (eq_trans Hh1 Hhl) Hun). eexists. split; [reflexivity|].
  split; [destruct Hdown; by split|]. split_and!; try done; [exact (same_uninit_hopper _ _ _ Hun)|].
  cbn [p_world upd]. apply map_empty. intros x.
  destruct (decide (x ∈ l :: others)) as [Hx|Hx]; [by apply Hgone|].
  rewrite Hother by done. apply eq_None_not_Some. intros Hs. by apply Hx, Hall.
Qed.

(** C35. A network whose base address and mask take more than 23 characters --
    such as 192.168.1.0 and 255.255.255.0 -- keeps the gateway from starting,
    and not with an error: the truncated filter of the external device is
    refused by pcap, which does not take unclosed parentheses, and on the way
    out [uninit_director] cancels threads that were never created. *)
Theorem long_network_crashes `{U : Setup} `{!MpiFiles U} `{Env, Pcap} line conf dir base gateName n i e r dpre dpost d
    drbg (w : world) :
  (∀ i, env_malloc i = true) → config_wf conf → length line = MAX_CONF_LINE →
  on_disk dir base gateName n i e r dpre dpost d drbg → loaded w →
  bytes_ok (baseIP (gate_for d)) → bytes_ok (mask (gate_for d)) → length (baseIP (gate_for d)) = 4%nat →
  length (mask (gate_for d)) = 4%nat →
  (23 < length (inet_ntop (baseIP (gate_for d))) + length (inet_ntop (mask (gate_for d))))%nat →
  pcap_works true (dev_name i) (gate_for d) →
  pcap_create (dev_name e) = true → pcap_activate (dev_name e) = 0 →
  (∀ dev f, parens f ≠ 0 → pcap_compile dev f = -1) →
  arg_init line conf (dir ++ SLASH :: base) gateName (boot w) = Fault.
Proof.
  intros Hm Hwf Hline Hd Hld Hb Hk Hb4 Hk4 Hlong Hwi Hcr Hac Hpar.
  destruct (disk_lines _ _ _ _ _ _ _ _ _ _ _ Hd) as [Hli Hle].
  destruct (arg_init_to_director line conf dir base gateName n i e r dpre dpost d drbg w Hm Hwf Hline Hd Hld)
    as (p & c & l & others & k & t & g & items & -> & Hci & Hce & _ & Hst & Ho & _ & _ & _ & _ & _
      & Hint & Hext & _ & Hcs & Hcl & _).
  pose proof (λ b, own_filter b _ _ _ _ _ _ Ho) as Hf.
  destruct (inet_ntop_ok _ Hb Hb4) as [Hba Hbl]. destruct (inet_ntop_ok _ Hk Hk4) as [Hka Hkl].
  pose proof (filter_unclosed _ _ Hba Hka Hlong) as Hun.
  assert (own_gate_is p g) as Hown by (exists l; destruct Hst; done).
  destruct (init_director_refused c p g) as (p' & Hrun & Hl' & Hs' & Ht'); try done.
  { rewrite Hci, dev_name_setting by done. exact (works_same _ _ _ _ (Hf true) Hwi). }
  { by rewrite Hce, dev_name_setting by done. }
  { by rewrite Hce, dev_name_setting by done. }
  { rewrite Hf. apply Hpar. unfold gate_filter. lia. }
  unfold mbind, proc_bind. rewrite Hrun. rewrite decide_True by (unfold ARG_INTERNAL_ERROR; lia).
  by rewrite uninit_director_unstarted by congruence.
Qed.

(** [main] stops the director twice: once a signal has stopped it, [arg_exit]
    tries a mutex that is destroyed; and when the receivers ended by themselves
    it cancels threads that were joined already. *)
Lemma second_stop_faults `{PolarSSL, Env} (p : process) idev edev g hi he (signalled : bool) :
  receiving p idev edev g hi he → p_cancelLock p = MFree → p_cancelSent p = false →
  ((if signalled then sig_handler else mret tt);; join_director;; arg_exit) p = Fault.
Proof.
  intros Hrc Hcl Hcs. destruct signalled.
  - destruct (uninit_director_run p idev edev g hi he Hrc Hcl Hcs) as (p1 & Hrun & [_ _ _ _ _ Hl] & _).
    unfold sig_handler, mbind, proc_bind. rewrite Hrun. destruct p1. cbn in *. by subst.
  - destruct p. cbn in *. by subst.
Qed.

(** C14. A program started from a disk never ends in an orderly way: whatever
    its threads do while [main] waits for the receivers, and whether a signal
    stops those or they end by themselves, the stop after it is undefined:
    [arg_exit] locks the mutex that the signal handler destroyed, or cancels
    the receivers that [join_director] has cleared. *)
Theorem main_never_returns `{U : Setup} `{!MpiFiles U} `{Env, Pcap} line conf prog_name dir base gateName n i e r dpre
    dpost d drbg (w : world) (threads : world → world) (signalled : bool) :
  (∀ i, env_malloc i = true) → config_wf conf → length line = MAX_CONF_LINE →
  on_disk dir base gateName n i e r dpre dpost d drbg → loaded w →
  pcap_works true (dev_name i) (gate_for d) → pcap_works false (dev_name e) (gate_for d) →
  main line conf (prog_name :: (dir ++ SLASH :: base) :: option_list gateName) threads signalled (boot w) = Fault.
Proof.
  intros Hm Hwf Hline Hd Hld Hwi Hwe.
  destruct (start_run line conf dir base gateName n i e r dpre dpost d drbg w Hm Hwf Hline Hd Hld Hwi Hwe)
    as (p & c & l & others & hi & he & Hrun & _ & [(k & t & g & _ & _ & Hrc) _ _ (Hcl & _ & _) (_ & _ & Hcs)]).
  unfold main. rewrite decide_False by (by destruct gateName; cbn; lia).
  replace (head (option_list gateName)) with gateName by (by destruct gateName).
  unfold mbind at 1, proc_bind at 1. rewrite Hrun.
  set (p' := p <| p_world ::= threads |>).
  assert (receiving p' i e g hi he) as Hrc' by (destruct Hrc; by split).
  pose proof (second_stop_faults p' i e g hi he signalled Hrc' Hcl Hcs) as Hst.
  unfold modify, mbind, proc_bind in Hst |- *. fold p'. by repeat case_match; simplify_eq.
Qed.

(** ** Evaluation: the gateway alpha comes up next to beta, and goes down *)

(** pcap takes what has as many closing as opening parentheses. *)
#[export] Instance toy_pcap : Pcap := {|
  pcap_create dev := true; pcap_activate dev := 0;
  pcap_compile dev f := if decide (parens f = 0) then 0 else -1; pcap_setfilter dev f := 0 |}.

Lemma toy_on_disk : on_disk etc_arg main_conf None alpha eth0 eth1 rate [beta_pub] [] alpha_pub tt.
Proof.
  split; try by_decide; try done.
  - exists toy_lines, []. split_and!; by_decide.
  - exists toy_names. split_and!; by_decide.
  - apply toy_published.
Qed.

Lemma starts_from_disk_witness :
  ∃ p c l others hi he,
    arg_init (zeros MAX_CONF_LINE) (toy_config []) (etc_arg ++ SLASH :: main_conf) None (@boot toy empty_world) = Done 0 p
    ∧ hopRate c = atol rate ∧ @running toy toy_env p c eth0 eth1 l others alpha_pub ([beta_pub] ++ []) tt hi he.
Proof.
  apply (starts_from_disk (U := toy_setup) (zeros MAX_CONF_LINE) (toy_config []) etc_arg main_conf None alpha eth0 eth1 rate
    [beta_pub] [] alpha_pub tt empty_world); try done; try by_decide; [apply toy_on_disk|split; by_decide..].
Defined.

(** A network that is 192.168.1.0 and 255.255.255.0. *)
Definition home_ip : list Z := str "192.168.1.0".
Definition home_setup : Setup := {|
  fs_read path :=
    match list_find (λ f, f.1 = path) (toy_disk_at home_ip) with Some (_, f) => inr f.2 | None => inl 2 end;
  fs_dir := @fs_dir toy toy_setup; fs_create := @fs_create toy toy_setup;
  mpi_read_file := @mpi_read_file toy toy_setup; mpi_write_file := @mpi_write_file toy toy_setup;
  ctr_drbg_init := (0, tt); rsa_gen_key := @rsa_gen_key toy toy_setup |}.
Lemma home_mpi_files : MpiFiles home_setup.
Proof. destruct toy_mpi_files as [H1 H2]. by split. Qed.

Definition home_pub : published := Published alpha [192; 168; 1; 0] [255; 255; 255; 0] toy_key.

Lemma home_on_disk : @on_disk toy home_setup etc_arg main_conf None alpha eth0 eth1 rate [beta_pub] [] home_pub tt.
Proof.
  split; try by_decide; try done.
  - exists toy_lines, []. split_and!; by_decide.
  - exists toy_names. split_and!; by_decide.
  - repeat constructor; try by_decide.
    + exists beta_ip, alpha_mask. split_and!; by_decide.
    + exists home_ip, alpha_mask. split_and!; by_decide.
Qed.

Lemma long_network_crashes_witness :
  @arg_init toy home_setup toy_env toy_pcap (zeros MAX_CONF_LINE) (toy_config []) (etc_arg ++ SLASH :: main_conf) None
    (@boot toy empty_world) = Fault.
Proof.
  apply (@long_network_crashes toy home_setup home_mpi_files toy_env toy_pcap (zeros MAX_CONF_LINE) (toy_config [])
    etc_arg main_conf None alpha eth0 eth1 rate [beta_pub] [] home_pub tt empty_world);
    try done; try by_decide; try apply home_on_disk.
  intros dev f Hf. unfold pcap_compile, toy_pcap. by rewrite decide_False.
Defined.

Lemma main_never_returns_witness :
  @main toy toy_setup toy_env toy_pcap (zeros MAX_CONF_LINE) (toy_config []) [str "arg"; etc_arg ++ SLASH :: main_conf]
    (λ w, w) true (@boot toy empty_world) = Fault.
Proof.
  apply (main_never_returns (U := toy_setup) (zeros MAX_CONF_LINE) (toy_config []) (str "arg") etc_arg main_conf None
    alpha eth0 eth1 rate [beta_pub] [] alpha_pub tt empty_world); try done; try by_decide;
    [apply toy_on_disk|split; by_decide..].
Defined.
