(* ===== verification/EndToEnd.v ===== *)
(** * From one host network to the other (src/director.c)

    [direct_outbound] of one gateway and [direct_inbound] of another: address
    lookup, wrapping, the wire, the address checks, unwrapping. *)

From S2P Require Import Prelude Words Settings ArgError Utility Crypto Packet PacketFacts Gate Uthash NatData World Net ToyCrypto ToyWorld Layout Hopper HopperFacts Message ArgPacket CipherLoop RoundTrip Protocol Tunnel Nat Director Invariant.

Section Sending.
Context `{Hok : PolarSSL_ok} `{Env}.
Hypothesis mallocs_ok : ∀ i, env_malloc i = true.
Hypothesis sends_ok : ∀ i, 0 ≤ env_sendto i.

Lemma outbound_run local remote gl gr k p ip inner dest daddr w :
  local ≠ remote → w_gates w !! local = Some gl → w_gates w !! remote = Some gr →
  gate_wf gl → gate_wf gr → lock gr = false → connected gr = true → keyed (cipher gr) k →
  host_packet p inner dest →
  0 ≤ rsa_len (rsa gl) → 156 + Z.of_nat (length inner) + rsa_len (rsa gl) < 2 ^ 16 →
  w_gateInfo w = Some local → p_ipv4 p = Some ip → rd (ip + 16) ADDR_SIZE (p_data p) = Some daddr →
  get_arg_network daddr w = Done (Some remote) w →
  wp (direct_outbound p) (λ r w',
    ∃ saddr daddr,
    let seq := outSeqNum (proto gr) in
    let alen := Z.of_nat (length inner) + 136 in
    let ct := cipher_text k (iv gr) seq (length inner) inner in
    r = 0 ∧ stamped gl gr w saddr daddr
    ∧ w_sent w' = w_sent w ++ [OutIP (le_val daddr) (concat (datagram saddr daddr ARG_WRAPPED_MSG
          alen seq (mac (symKey gl) alen seq ct) (zeros 96) ct []))]
    ∧ (∃ g, w_gates w' !! remote = Some g ∧ lock g = false)) w.
Proof.
  intros Hne Hl Hr Hwl Hwr Hlock Hconn Hk Hp Hrsa Hsize Hgi Hip Hd Hget. unfold direct_outbound.
  eapply wp_bind_lift; [done|]. eapply wp_bind_load; [done|].
  apply wp_bind. unfold wp at 1. rewrite Hget. unfold do_arg_wrap.
  apply wp_bind. unfold gateInfo, gets, wp at 1. rewrite Hgi.
  rewrite decide_False by congruence. apply wp_bind_lift with (1 := eq_refl).
  by eapply (send_wrapped mallocs_ok sends_ok local remote gl gr k).
Qed.

(** B's clock shows times in step with [t] while the packet is checked. *)
Definition in_step_during (g g' : arg_network_info) (t : timespec) (w : world) : Prop :=
  ∀ i, (w_clock w ≤ i ≤ w_clock w + 2)%nat → in_step g g' t (env_clock i) (env_clock (S i)).

Lemma wp_valid_ip gate g sender t ip w Q :
  w_gates w !! gate = Some g → lock g = false → ip_at sender t 0 = Some ip →
  in_step sender g t (env_clock (w_clock w)) (env_clock (S (w_clock w))) →
  (∀ w', only_clock gate w w' → Q true w') → wp (is_valid_ip gate ip) Q w.
Proof.
  intros Hg Hl Hip Hs HQ. eapply wp_mono; [by apply is_valid_ip_run|].
  intros b w' [-> Ho]. rewrite (in_step_valid _ _ _ _ _ _ Hs Hip). by apply HQ.
Qed.

Lemma inbound_run local remote gl gr k la ra ta tb link saddr daddr trailer inner dest p w seq :
  local ≠ remote → w_gates w !! local = Some gl → w_gates w !! remote = Some gr →
  w_gateInfo w = Some local →
  lock gl = false → lock gr = false → connected gr = true → keyed (cipher gl) k →
  host_packet p inner dest → 0 ≤ seq < 2 ^ 32 →
  seq_check ARG_WRAPPED_MSG seq (inSeqNum (proto gr)) = SeqAdvance →
  let ct := cipher_text k (iv gl) seq (length inner) inner in
  let alen := Z.of_nat (length inner) + 136 in
  fields_ok link saddr daddr alen ct →
  get_arg_network saddr w = Done (Some remote) w →
  ip_at la ta 0 = Some saddr → in_step_during la gr ta w →
  ip_at ra tb 0 = Some daddr → in_step_during ra gl tb w →
  wp (direct_inbound (frame link saddr daddr ARG_WRAPPED_MSG alen seq
        (mac (symKey gr) alen seq ct) (zeros 96) ct trailer)) (λ v w',
    v = Unwrapped 0 ∧ w_sent w' = w_sent w ++ [OutIP dest inner]
    ∧ (∃ g, w_gates w' !! remote = Some g ∧ lock g = false ∧ inSeqNum (proto g) = seq)) w.
Proof.
  intros Hne Hl Hr Hgi Hkl Hkr Hconn Hk Hp Hseq Hv ct alen Hf Hget Hs Hstep Hd Hstep'.
  pose proof Hf as [_ Hsl Hdl _ _]. unfold direct_inbound.
  eapply wp_bind_lift; [done|].
  eapply wp_bind_load; [by eapply frame_addrs|].
  apply wp_bind. unfold wp at 1. rewrite Hget. cbn [frame arg_parsed p_arg].
  apply wp_bind. unfold get_msg_type.
  eapply wp_lift; [by eapply frame_type|]. change (is_admin_msg ARG_WRAPPED_MSG) with false.
  cbn match. eapply wp_bind_load; [by eapply frame_addrs|].
  unfold inbound_wrapped. eapply wp_bind_get; [done|]. rewrite Hconn. cbn [negb].
  apply wp_bind. unfold is_valid_local_ip.
  apply wp_bind. unfold gateInfo, gets, wp at 1. rewrite Hgi. apply wp_bind_lift with (1 := eq_refl).
  eapply (wp_valid_ip _ gl ra tb); [done|done|done|apply Hstep'; lia|].
  intros w1 [Hg1 Hi1 Hs1 _ Hc1]. cbn [negb]. apply wp_bind.
  eapply (wp_valid_ip _ gr la ta); [by rewrite Hg1|done|done|apply Hstep; lia|].
  intros w2 [Hg2 Hi2 Hs2 _ Hc2]. cbn [negb]. unfold note_good_ip.
  eapply wp_bind_upd; [by rewrite Hg2, Hg1|]. apply wp_fmap. unfold do_arg_unwrap.
  apply wp_bind. unfold gateInfo, gets, wp at 1. cbn [w_gateInfo set_gate upd]. rewrite Hi2, Hi1, Hgi.
  apply wp_bind_lift with (1 := eq_refl).
  set (w3 := set_gate _ _ _). set (gr' := with_proto _ gr) in w3.
  eapply wp_mono.
  { eapply (receive_wrapped mallocs_ok sends_ok local remote gl gr' k link saddr daddr trailer inner
      dest p w3); try done; [|apply set_gate_same].
    unfold w3. by rewrite set_gate_ne, Hg2, Hg1. }
  cbv zeta. intros r w4 (-> & Hsent & Hgates). split_and!; [done| |done].
  rewrite Hsent. unfold w3. cbn. by rewrite Hs2, Hs1.
Qed.
End Sending.

Lemma outbound_inbound_run `{Hok : PolarSSL_ok} (EA EB : Env)
    localA remoteA localB remoteB la ra lb rb (wA wB : world) p ip daddr inner dest link trailer :
  (∀ i, @env_malloc EA i = true) → (∀ i, @env_malloc EB i = true) →
  (∀ i, 0 ≤ @env_sendto EA i) → (∀ i, 0 ≤ @env_sendto EB i) →
  w_gates wA !! localA = Some la → w_gates wA !! remoteA = Some ra → localA ≠ remoteA →
  w_gates wB !! localB = Some lb → w_gates wB !! remoteB = Some rb → localB ≠ remoteB →
  w_gateInfo wA = Some localA → w_gateInfo wB = Some localB →
  peers la ra lb rb → lock ra = false → lock lb = false → lock rb = false →
  host_packet p inner dest →
  p_ipv4 p = Some ip → rd (ip + 16) ADDR_SIZE (p_data p) = Some daddr →
  0 ≤ rsa_len (rsa la) → 156 + Z.of_nat (length inner) + rsa_len (rsa la) < 2 ^ 16 →
  get_arg_network daddr wA = Done (Some remoteA) wA →
  (∀ a, length a = ADDR_SIZE → gate_matches la a = true →
    get_arg_network a wB = Done (Some remoteB) wB) →
  in_step_during la rb (@env_clock EA (w_clock wA)) wB →
  in_step_during ra lb (@env_clock EA (S (w_clock wA))) wB →
  link_ok link →
  ∃ wA' bytes q wB' saddr' daddr',
    @direct_outbound _ EA p wA = Done 0 wA'
    ∧ @stamped _ EA la ra wA saddr' daddr'
    ∧ w_sent wA' = w_sent wA ++ [OutIP (le_val daddr') bytes]
    ∧ parse_packet (raw_packet (Z.of_nat (length link)) (link ++ bytes ++ trailer)) = Some (0, q)
    ∧ @direct_inbound _ EB q wB = Done (Unwrapped 0) wB'
    ∧ w_sent wB' = w_sent wB ++ [OutIP dest inner].
Proof.
  intros HmA HmB HsA HsB HlA HrA HneA HlB HrB HneB HgA HgB
    [Hla Hra [HcA HcB] [k [HkA HkB]] Hiv Hhmac [Hseq Hv]] HkrA HklB HkrB Hp Hip Hd Hrsa Hsize
    HgetA HgetB HstepA HstepB Hlink.
  pose proof (outbound_run HmA HsA localA remoteA la ra k p ip inner dest daddr wA HneA HlA HrA Hla Hra
    HkrA HcA HkA Hp Hrsa Hsize HgA Hip Hd HgetA)
    as (rA & wA' & HrunA & saddr' & daddr' & -> & Hst & HsentA & _)%wp_elim.
  rewrite Hhmac in HsentA. pose proof Hst as (Hs' & Hd' & Hsl & Hdl).
  set (seq := outSeqNum (proto ra)) in *. set (ct := cipher_text _ _ _ _ _) in *.
  assert (length ct = length inner) as Hctl by (apply length_cipher_text; lia).
  assert (fields_ok link saddr' daddr' (Z.of_nat (length inner) + 136) ct) as Hf
    by (split; (done || lia)).
  pose proof (inbound_run HmB HsB localB remoteB lb rb k la ra
    (@env_clock EA (w_clock wA)) (@env_clock EA (S (w_clock wA))) link saddr' daddr' trailer inner
    dest p wB seq HneB HlB HrB HgB HklB HkrB HcB HkB Hp Hseq Hv) as HwB.
  cbv zeta in HwB. rewrite <- Hiv in HwB.
  specialize (HwB Hf (HgetB _ Hsl (ip_at_matches _ _ _ _ Hs')) Hs' HstepA Hd' HstepB).
  apply wp_elim in HwB as (v & wB' & HrunB & -> & HsentB & _).
  do 6 eexists. split_and!; [exact HrunA|exact Hst|exact HsentA| |exact HrunB|exact HsentB].
  apply wire_frame; [exact Hf|apply length_mac|done].
Qed.

(** C1. End to end: when gateway A knows gateway B and both agree on keys and,
    within one hop, on time, a host packet for B's network that A directs
    outbound leaves A as one datagram between the gateways' current addresses,
    and B's [direct_inbound] accepts both addresses, unwraps it, and sends
    exactly the host's packet to its destination. *)
Theorem end_to_end `{Hok : PolarSSL_ok} (EA EB : Env)
    localA remoteA localB remoteB la ra lb rb (wA wB : world) p ip daddr inner dest link trailer :
  (∀ i, @env_malloc EA i = true) → (∀ i, @env_malloc EB i = true) →
  (∀ i, 0 ≤ @env_sendto EA i) → (∀ i, 0 ≤ @env_sendto EB i) →
  w_gates wA !! localA = Some la → w_gates wA !! remoteA = Some ra → localA ≠ remoteA →
  w_gates wB !! localB = Some lb → w_gates wB !! remoteB = Some rb → localB ≠ remoteB →
  w_gateInfo wA = Some localA → w_gateInfo wB = Some localB →
  peers la ra lb rb → lock ra = false → lock lb = false → lock rb = false →
  host_packet p inner dest →
  p_ipv4 p = Some ip → rd (ip + 16) ADDR_SIZE (p_data p) = Some daddr →
  0 ≤ rsa_len (rsa la) → 156 + Z.of_nat (length inner) + rsa_len (rsa la) < 2 ^ 16 →
  get_arg_network daddr wA = Done (Some remoteA) wA →
  (∀ a, length a = ADDR_SIZE → gate_matches la a = true →
    get_arg_network a wB = Done (Some remoteB) wB) →
  in_step_during la rb (@env_clock EA (w_clock wA)) wB →
  in_step_during ra lb (@env_clock EA (S (w_clock wA))) wB →
  link_ok link →
  ∃ wA' bytes q wB' saddr' daddr',
    @direct_outbound _ EA p wA = Done 0 wA'
    ∧ @stamped _ EA la ra wA saddr' daddr'
    ∧ w_sent wA' = w_sent wA ++ [OutIP (le_val daddr') bytes]
    ∧ parse_packet (raw_packet (Z.of_nat (length link)) (link ++ bytes ++ trailer)) = Some (0, q)
    ∧ @direct_inbound _ EB q wB = Done (Unwrapped 0) wB'
    ∧ w_sent wB' = w_sent wB ++ [OutIP dest inner].
Proof. exact (outbound_inbound_run EA EB localA remoteA localB remoteB la ra lb rb wA wB p ip daddr inner dest link trailer). Qed.

(** A UDP packet from a host behind A to 10.2.2.9, behind B. *)
Definition host_udp : packet_data :=
  Packet 31 0 None (Some 0) None (Some 20) None None None (Some 28) 3
    [69; 0; 0; 31; 0; 0; 64; 0; 64; 17; 0; 0; 10; 1; 1; 7; 10; 2; 2; 9;
     31; 144; 0; 53; 0; 11; 9; 9; 1; 2; 3].

Lemma host_udp_ok : host_packet host_udp (p_data host_udp) 151126538.
Proof.
  split; try (by vm_compute); try reflexivity.
  exists host_udp. split_and!; try reflexivity. by exists 53.
Defined.

Lemma toy_in_step g g' (w : world) :
  same_hops g g' → hopInterval g = 1000 → timeBase g = Timespec 90 0 → timeBase g' = Timespec 90 0 →
  in_step_during g g' (Timespec 100 0) w.
Proof.
  intros Hs Hi Hb Hb' i _. pose proof Hs as [_ Hi' _ _].
  split; [done|]. split; unfold hop_number, elapsed; rewrite <- ?Hi', ?Hi, ?Hb, ?Hb'; try done.
  by left.
Defined.

(** At B every address of A's network belongs to the record of A. *)
Lemma toy_matches key seed base n p a :
  gate_matches (toy_gate key seed base n p) a
  = bool_decide (mask_array_cmp ADDR_SIZE [255; 255; 255; 0] base a = 0).
Proof. reflexivity. Qed.

Lemma toy_networks_disjoint a :
  length a = ADDR_SIZE → mask_array_cmp ADDR_SIZE [255; 255; 255; 0] [10; 1; 1; 0] a = 0 →
  mask_array_cmp ADDR_SIZE [255; 255; 255; 0] [10; 2; 2; 0] a ≠ 0.
Proof.
  intros Hl Ha Hb. rewrite mask_array_cmp_spec in Ha, Hb.
  destruct (lookup_lt_is_Some_2 a 1) as [x Hx]; [rewrite Hl; unfold ADDR_SIZE; lia|].
  pose proof (Ha 1%nat 255 1 x ltac:(unfold ADDR_SIZE; lia) eq_refl eq_refl Hx) as H1.
  pose proof (Hb 1%nat 255 2 x ltac:(unfold ADDR_SIZE; lia) eq_refl eq_refl Hx) as H2.
  by rewrite <- H1 in H2.
Qed.

Lemma toy_lookup a :
  length a = ADDR_SIZE → gate_matches (gateA (Some 2%positive) None) a = true →
  get_arg_network a worldB = Done (Some 2%positive) worldB.
Proof.
  intros Hl Ha. unfold gateA in Ha. rewrite toy_matches in Ha. apply bool_decide_eq_true in Ha.
  pose proof (toy_networks_disjoint a Hl Ha) as Hb.
  rewrite (get_arg_network_run [1%positive; 2%positive]) by (by apply toy_chain || apply toy_nodup).
  assert (w_gates worldB !! 1%positive = Some (gateB (Some 2%positive) None)) as H1 by reflexivity.
  assert (w_gates worldB !! 2%positive = Some (gateA None (Some 1%positive))) as H2 by reflexivity.
  unfold first_match. cbn [List.find]. rewrite H1, H2. unfold gateA, gateB.
  by rewrite !toy_matches, bool_decide_false, bool_decide_true.
Qed.

Lemma end_to_end_witness :
  ∃ wA' bytes q wB' saddr' daddr',
    direct_outbound host_udp worldA = Done 0 wA'
    ∧ stamped (gateA (Some 2%positive) None) (gateB None (Some 1%positive)) worldA saddr' daddr'
    ∧ w_sent wA' = w_sent worldA ++ [OutIP (le_val daddr') bytes]
    ∧ parse_packet (raw_packet 14 (eth_header ++ bytes ++ [9; 9])) = Some (0, q)
    ∧ direct_inbound q worldB = Done (Unwrapped 0) wB'
    ∧ w_sent wB' = w_sent worldB ++ [OutIP 151126538 (p_data host_udp)].
Proof.
  apply (end_to_end toy_env toy_env 1%positive 2%positive 1%positive 2%positive
    (gateA (Some 2%positive) None) (gateB None (Some 1%positive))
    (gateB (Some 2%positive) None) (gateA None (Some 1%positive)) worldA worldB
    host_udp 0 [10; 2; 2; 9] (p_data host_udp) 151126538 eth_header [9; 9]);
    try reflexivity; try done.
  - exact toy_peers.
  - exact host_udp_ok.
  - exact toy_lookup.
  - by apply toy_in_step.
  - by apply toy_in_step.
  - intros _. by exists 8.
Defined.
