(* ===== verification/Session.v ===== *)
(** * A session of two gateways (src/protocol.c)

    The exchanges of [Handshake] and [TimeSync] one after the other: connection
    data, then a ping in either direction.  What holds between two gateways
    that know each other's public keys ([acquainted]) holds after each exchange,
    so that the next one can start; at the end wrapped packets pass both ways.
    The datagrams go through [direct_inbound] and [direct_outbound], which find
    the peer by its address. *)

From S2P Require Import Prelude Words Settings ArgError Utility Crypto Packet PacketFacts Gate NatData World ToyCrypto Net Layout Hopper HopperFacts Message ArgPacket CipherLoop RoundTrip AdminTrip Protocol ProtocolFacts Tunnel Handshake TimeSync Director Invariant EndToEnd.

Section Session.
Context `{Hok : PolarSSL_ok}.
Implicit Types g la ra lb rb : arg_network_info.

Lemma acquainted_sym la ra lb rb : acquainted la ra lb rb → acquainted lb rb la ra.
Proof. by intros [? ? ? ? [? ?] [? ?] [? ?] [? ?] ? ? [? ?]]. Qed.

(** What an exchange makes of a record of the peer: one more number was used to
    send, and [seq] was received. *)
Record moved (seq : Z) g g' : Prop := {
  mv_wf : gate_wf g → gate_wf g';
  mv_rsa : rsa g' = rsa g; mv_lock : lock g' = lock g;
  mv_in : inSeqNum (proto g') = seq;
  mv_out : outSeqNum (proto g') = u32 (outSeqNum (proto g) + 1) }.

(** Numbers for [n] more exchanges. *)
Definition room (n : Z) ra rb : Prop :=
  outSeqNum (proto ra) + n < 2 ^ 32 - 1 ∧ outSeqNum (proto rb) + n < 2 ^ 32 - 1.

Definition reseeded g g' : Prop := ∃ rng, g' = g <| ctr_drbg := rng |>.

Lemma reseeded_own g g' : reseeded g g' → own_ok g → own_ok g'.
Proof. intros [rng ->] [[] ? ? ?]. by split. Qed.
Lemma reseeded_keys g g' : reseeded g g' → same_keys g g'.
Proof. intros [rng ->]. by split_and!. Qed.

Lemma acquainted_moved n la ra lb rb la' ra' lb' rb' :
  acquainted la ra lb rb → room (n + 1) ra rb → 0 ≤ n → reseeded la la' → reseeded lb lb' →
  moved (outSeqNum (proto rb)) ra ra' → moved (outSeqNum (proto ra)) rb rb' →
  acquainted la' ra' lb' rb' ∧ room n ra' rb'.
Proof.
  intros [Hla Hlb Hra Hrb [Lra Lrb] [PA PB] [KA KB] [HA HB] Sab Sba _] [RA RB] Hn Ha Hb [WA EA LA IA OA] [WB EB LB IB OB].
  rewrite u32_small in OA, OB by lia. unfold room. rewrite OA, OB. split; [|lia]. split.
  - by eapply reseeded_own.
  - by eapply reseeded_own.
  - auto.
  - auto.
  - split; congruence.
  - rewrite EA, EB. destruct Ha as [? ->], Hb as [? ->]. done.
  - destruct Ha as [? ->], Hb as [? ->]. done.
  - destruct Ha as [? ->], Hb as [? ->]. done.
  - rewrite IB, OA. lia.
  - rewrite IA, OB. lia.
  - rewrite OA, OB. lia.
Qed.

(** ** The state of a session *)

(** Both records of the peer agree with the peer's own, and the data is there. *)
Record session (n : Z) la ra lb rb : Prop := {
  se_acquainted : acquainted la ra lb rb;
  se_room : room n ra rb;
  se_knows : knows ra lb ∧ knows rb la;
  se_data : connDataAvailable (proto ra) = true ∧ connDataAvailable (proto rb) = true }.

Lemma session_sym n la ra lb rb : session n la ra lb rb → session n lb rb la ra.
Proof. intros [? [? ?] [? ?] [? ?]]. split; [by apply acquainted_sym|by split|by split|by split]. Qed.

(** Storing the peer's data, and answering with the own. *)
Lemma stored_moved d t seq g g0 :
  conn_wf d → (gate_wf g0 → gate_wf g) → rsa g = rsa g0 → lock g = lock g0 →
  outSeqNum (proto g) = u32 (outSeqNum (proto g0) + 1) → moved seq g0 (with_conn_data d t seq g).
Proof.
  intros Hd Hw Hr Hl Ho. destruct (with_conn_keeps d t seq g) as (R & L & _ & _ & _ & _ & O & I & _).
  pose proof (with_conn_wf d t seq g Hd). split; [by auto|congruence..].
Qed.

Lemma answered_moved d t t' seq g :
  conn_wf d → moved seq g (ask_ping_and_trust (after_send t' (with_conn_data d t seq g))).
Proof.
  intros Hd. destruct (with_conn_keeps d t seq g) as (R & L & _ & _ & _ & _ & O & I & _).
  pose proof (with_conn_wf d t seq g Hd) as Hw. generalize dependent (with_conn_data d t seq g). intros g1 R L O I Hw.
  destruct (after_send_keeps t' g1) as (_ & O' & I' & L' & _). pose proof (after_send_wf t' g1) as Hw'.
  assert (rsa (ask_ping_and_trust (after_send t' g1)) = rsa g1) as R' by reflexivity.
  split; [by auto|congruence..].
Qed.

Lemma asked_keeps t g :
  let g' := after_send t g in
  (gate_wf g → gate_wf g') ∧ rsa g' = rsa g ∧ lock g' = lock g ∧ outSeqNum (proto g') = u32 (outSeqNum (proto g) + 1).
Proof. split; [intros []; by split|by split_and!]. Qed.

Lemma connected_session n la ra lb rb rngA rngB t0 t1 t2 t3 :
  acquainted la ra lb rb → room (n + 1) ra rb → 0 ≤ n →
  session n (la <| ctr_drbg := rngA |>) (with_conn_data (own_conn_data lb) t3 (outSeqNum (proto rb)) (after_send t0 ra))
    (lb <| ctr_drbg := rngB |>)
    (ask_ping_and_trust (after_send t2 (with_conn_data (own_conn_data la) t1 (outSeqNum (proto ra)) rb))).
Proof.
  intros Haq Hroom Hn. pose proof (exchange_result la ra lb rb rngA rngB t0 t1 t2 t3 Haq) as [Hk Hd _ _].
  pose proof Haq as [Hla Hlb _ _ _ _ _ _ _ _ _].
  destruct (asked_keeps t0 ra) as (W & R & L & O).
  pose proof (stored_moved (own_conn_data lb) t3 (outSeqNum (proto rb)) _ _ (own_conn_wf lb Hlb) W R L O) as HA.
  pose proof (answered_moved (own_conn_data la) t1 t2 (outSeqNum (proto ra)) rb (own_conn_wf la Hla)) as HB.
  destruct (acquainted_moved n la ra lb rb (la <| ctr_drbg := rngA |>) _ (lb <| ctr_drbg := rngB |>) _ Haq Hroom Hn
    ltac:(by eexists) ltac:(by eexists) HA HB) as [? ?]. by split.
Qed.

(** Taking the answer to a ping, and giving it. *)
Lemma ponged_moved lat base id t seq g :
  let g' := accept_pong lat base (set_inSeqNum seq (pinged id t g)) in
  moved seq g g' ∧ same_keys g g' ∧ connDataAvailable (proto g') = connDataAvailable (proto g)
  ∧ timeBaseAvailable (proto g') = true
  ∧ connected g' = connected g || connDataAvailable (proto g).
Proof.
  intros g'. subst g'. set (g1 := set_inSeqNum seq (pinged id t g)).
  assert (gate_wf g → gate_wf g1) as Hw by (intros []; by split).
  assert (moved seq g g1 ∧ same_keys g g1 ∧ connDataAvailable (proto g1) = connDataAvailable (proto g)
    ∧ connected g1 = connected g) as ([_ R L I O] & K & D & N) by (split; [by split|by split_and!]).
  clearbody g1. destruct (accept_pong_keeps lat base g1) as [K' R' L' O' I' D'].
  destruct (accept_pong_flags lat base g1) as (F1 & _ & F3). pose proof (benign_wf _ (benign_accept_pong lat base) g1) as Hw'.
  destruct K as (? & ? & ? & ? & ?), K' as (? & ? & ? & ? & ?).
  split_and!; [split; [auto|congruence..]|split_and!; congruence|congruence..].
Qed.

Lemma replied_moved seq g :
  let g' := bump_seq (set_inSeqNum seq g) in
  moved seq g g' ∧ same_keys g g' ∧ connDataAvailable (proto g') = connDataAvailable (proto g)
  ∧ timeBaseAvailable (proto g') = timeBaseAvailable (proto g) ∧ connected g' = connected g.
Proof. split; [split; [intros []; by split|done..]|by split_and!]. Qed.

(** After the answer to a ping: [ra] has the time base, [rb] has answered. *)
Lemma pinged_session n la ra lb rb rngA rngB lat base id t :
  session (n + 1) la ra lb rb → 0 ≤ n →
  let ra' := accept_pong lat base (set_inSeqNum (outSeqNum (proto rb)) (pinged id t ra)) in
  let rb' := bump_seq (set_inSeqNum (outSeqNum (proto ra)) rb) in
  session n (la <| ctr_drbg := rngA |>) ra' (lb <| ctr_drbg := rngB |>) rb'
  ∧ timeBaseAvailable (proto ra') = true ∧ connected ra' = true
  ∧ timeBaseAvailable (proto rb') = timeBaseAvailable (proto rb) ∧ connected rb' = connected rb.
Proof.
  intros [Haq Hroom [KA KB] [DA DB]] Hn ra' rb'.
  destruct (ponged_moved lat base id t (outSeqNum (proto rb)) ra) as (HA & SA & EA & TA & CA).
  destruct (replied_moved (outSeqNum (proto ra)) rb) as (HB & SB & EB & TB & CB). fold ra' in HA, SA, EA, TA, CA.
  fold rb' in HB, SB, EB, TB, CB. clearbody ra' rb'.
  destruct (acquainted_moved n la ra lb rb (la <| ctr_drbg := rngA |>) ra' (lb <| ctr_drbg := rngB |>) rb' Haq Hroom Hn)
    as [? ?]; [by eexists|by eexists|done|done|].
  rewrite DA, orb_true_r in CA. split_and!; [|done..]. split; [done|done| |split; congruence].
  split; [apply (knows_same ra _ lb)|apply (knows_same rb _ la)]; try done; by split_and!.
Qed.

(** Once both are connected, wrapped packets pass both ways. *)
Lemma session_peers n la ra lb rb :
  session n la ra lb rb → 0 ≤ n → connected ra = true → connected rb = true → peers la ra lb rb.
Proof.
  intros [[Hla _ Hra _ _ _ [_ Kb] _ Sab _ _] Hroom [KA KB] _] Hn Hca Hcb. unfold room in Hroom.
  apply knows_peers; try done; [apply Hla|lia|lia].
Qed.
End Session.

(** ** Finding the peer *)

Section Routes.
Context `{Hok : PolarSSL_ok}.
Implicit Types g : arg_network_info.
Implicit Types w : world.

Lemma nets_lookup w w' l g g' :
  same_nets w w' → w_gates w !! l = Some g → w_gates w' !! l = Some g' → network_of g' = network_of g.
Proof.
  intros [_ Hs] Hg Hg'. apply (f_equal (λ m, m !! l)) in Hs. rewrite !lookup_fmap, Hg, Hg' in Hs. exact (inj Some _ _ Hs).
Qed.

Lemma matches_net g g' a : baseIP g' = baseIP g → mask g' = mask g → gate_matches g' a = gate_matches g a.
Proof. unfold gate_matches. by intros -> ->. Qed.

(** A lookup depends on the networks only. *)
Lemma find_nets fuel p ip w w' r :
  same_nets w w' → find_network fuel p ip w = Done r w → find_network fuel p ip w' = Done r w'.
Proof.
  intros Hs. revert p. induction fuel as [|fuel IH]; intros [l|]; cbn [find_network]; try done; try (by intros [= ->]).
  unfold mbind, proc_bind. destruct (w_gates w !! l) as [g|] eqn:Hg; [|by rewrite gate_get_None].
  assert (is_Some (w_gates w' !! l)) as [g' Hg'].
  { destruct Hs as [_ Hs]. apply (f_equal (λ m, m !! l)) in Hs. rewrite !lookup_fmap, Hg in Hs.
    by destruct (w_gates w' !! l). }
  pose proof (nets_lookup w w' l g g' Hs Hg Hg') as [= Eb Em En].
  rewrite (gate_get_run _ _ _ Hg), (gate_get_run _ _ _ Hg'), (matches_net g g') by done.
  destruct (gate_matches g ip); [by intros [= ->]|]. rewrite En. apply IH.
Qed.

(** Every address of the network of [g] belongs to the record at [r]. *)
Definition routes w g (r : loc) : Prop :=
  ∀ a, length a = ADDR_SIZE → gate_matches g a = true → get_arg_network a w = Done (Some r) w.

Lemma routes_nets w w' g g' r :
  same_nets w w' → baseIP g' = baseIP g → mask g' = mask g → routes w g r → routes w' g' r.
Proof.
  intros Hs Eb Em Hr a Ha Hm. rewrite (matches_net g g') in Hm by done. specialize (Hr a Ha Hm).
  pose proof Hs as [Hi Hg]. unfold get_arg_network, gateInfo, gets, mbind, proc_bind in *.
  assert (size (w_gates w') = size (w_gates w)) as ->.
  { rewrite <- (map_size_fmap network_of (w_gates w')), <- (map_size_fmap network_of (w_gates w)). by rewrite Hg. }
  rewrite Hi. by eapply find_nets.
Qed.
End Routes.

Section Dispatch.
Context `{Hok : PolarSSL_ok} `{Env}.

(** The function that a message of a type goes to. *)
Definition admin_handler (type : Z) (local gate : loc) (q : packet_data) : prog Z :=
  if decide (type = ARG_PING_MSG) then process_arg_ping local gate q
  else if decide (type = ARG_CONN_DATA_REQ_MSG) then process_arg_conn_data_req local gate q
  else if decide (type = ARG_CONN_DATA_RESP_MSG) then process_arg_conn_data_resp local gate q
  else if decide (type = ARG_TRUST_DATA_MSG) then process_arg_trust local gate q
  else mret (- ARG_UNHANDLED_TYPE).

Lemma inbound_admin g type q local gate (w w' : world) :
  sent_by g type q → type ≠ ARG_WRAPPED_MSG → w_gateInfo w = Some local → routes w g gate →
  admin_handler type local gate q w = Done 0 w' → direct_inbound q w = Done (AdminHandled 0) w'.
Proof.
  intros (ip & saddr & arg & Hip & Hs & Hl & Hm & Harg & Ht) Hne Hi Hr Hh.
  enough (wp (direct_inbound q) (λ v w1, v = AdminHandled 0 ∧ w1 = w') w) as (v & w1 & Hrun & -> & ->)%wp_elim by exact Hrun.
  unfold direct_inbound. eapply wp_bind_lift; [done|]. eapply wp_bind_load; [done|].
  apply wp_bind. unfold wp at 1. rewrite (Hr _ Hl Hm), Harg.
  apply wp_bind. unfold get_msg_type at 1. eapply wp_lift; [done|].
  unfold is_admin_msg. rewrite bool_decide_eq_true_2 by done. apply wp_fmap. unfold process_admin_msg.
  eapply wp_bind_lift; [done|]. eapply wp_bind_lift; [done|]. unfold gateInfo. apply wp_bind_gets. rewrite Hi.
  unfold deref. eapply wp_bind_lift; [done|]. change (wp (admin_handler type local gate q) (λ a w1, AdminHandled a = AdminHandled 0 ∧ w1 = w') w).
  unfold wp. by rewrite Hh.
Qed.
End Dispatch.

(** A question and its answer through [direct_inbound] on either side. *)
Definition dialogue `{PolarSSL} (EA EB : Env) (ask : prog Z) (linkA trailerA linkB trailerB : list Z)
    (wA wB wA1 wB1 wA2 : world) : Prop :=
  ∃ outer1 bytes1 q1 outer2 bytes2 q2,
    ask wA = Done 0 wA1
    ∧ w_sent wA1 = w_sent wA ++ [OutIP outer1 bytes1]
    ∧ parse_packet (raw_packet (Z.of_nat (length linkB)) (linkB ++ bytes1 ++ trailerB)) = Some (0, q1)
    ∧ @direct_inbound _ EB q1 wB = Done (AdminHandled 0) wB1
    ∧ w_sent wB1 = w_sent wB ++ [OutIP outer2 bytes2]
    ∧ parse_packet (raw_packet (Z.of_nat (length linkA)) (linkA ++ bytes2 ++ trailerA)) = Some (0, q2)
    ∧ @direct_inbound _ EA q2 wA1 = Done (AdminHandled 0) wA2.

Lemma question_dialogue `{Hok : PolarSSL_ok} (EA EB : Env) la lb t1 t2 ask lA rA lB rB linkA trailerA linkB trailerB
    wA wB wA1 wB1 wA2 :
  question la lb t1 t2 ask (@admin_handler _ EB t1 lB rB) (@admin_handler _ EA t2 lA rA)
    linkB trailerB linkA trailerA wA wB wA1 wB1 wA2 →
  t1 ≠ ARG_WRAPPED_MSG → t2 ≠ ARG_WRAPPED_MSG → w_gateInfo wA = Some lA → w_gateInfo wB = Some lB →
  routes wB la rB → routes wA lb rA →
  dialogue EA EB ask linkA trailerA linkB trailerB wA wB wA1 wB1 wA2 ∧ same_nets wA wA2 ∧ same_nets wB wB1.
Proof.
  intros (o1 & b1 & q1 & o2 & b2 & q2 & R1 & S1 & P1 & R2 & S2 & P2 & R3 & B1 & B2 & N1 & N2 & N3) H1 H2 HA HB RB RA.
  split; [|done]. do 6 eexists. split_and!; [exact R1|exact S1|exact P1| |exact S2|exact P2|].
  - by eapply (@inbound_admin _ EB).
  - pose proof N1 as [Hi _]. eapply (@inbound_admin _ EA); [exact B2|done|by rewrite Hi| |exact R3].
    by eapply routes_nets.
Qed.

(** ** Two gateways in sight of each other *)

(** A's records of itself and of B are at [lA] and [rA], B's at [lB] and [rB];
    each finds the other's record by the other's addresses. *)
Record facing `{PolarSSL} (lA rA lB rB : loc) (la ra lb rb : arg_network_info) (wA wB : world) : Prop := {
  fc_la : w_gates wA !! lA = Some la; fc_ra : w_gates wA !! rA = Some ra;
  fc_lb : w_gates wB !! lB = Some lb; fc_rb : w_gates wB !! rB = Some rb;
  fc_heads : w_gateInfo wA = Some lA ∧ w_gateInfo wB = Some lB;
  fc_routes : routes wB la rB ∧ routes wA lb rA;
  fc_base : baseIP ra = baseIP lb ∧ baseIP rb = baseIP la;
  fc_mask : mask ra = mask lb ∧ mask rb = mask la }.

Lemma facing_sym `{PolarSSL} lA rA lB rB (la ra lb rb : arg_network_info) wA wB :
  facing lA rA lB rB la ra lb rb wA wB → facing lB rB lA rA lb rb la ra wB wA.
Proof. intros [? ? ? ? [? ?] [? ?] [? ?] [? ?]]. by split. Qed.

Lemma facing_moved `{PolarSSL_ok} lA rA lB rB (la ra lb rb la' ra' lb' rb' : arg_network_info) wA wB wA' wB' :
  facing lA rA lB rB la ra lb rb wA wB → same_nets wA wA' → same_nets wB wB' →
  w_gates wA' !! lA = Some la' → w_gates wA' !! rA = Some ra' →
  w_gates wB' !! lB = Some lb' → w_gates wB' !! rB = Some rb' →
  facing lA rA lB rB la' ra' lb' rb' wA' wB'.
Proof.
  intros [Hla Hra Hlb Hrb [IA IB] [RB RA] [BA BB] [MA MB]] NA NB Hla' Hra' Hlb' Hrb'.
  pose proof (nets_lookup _ _ _ _ _ NA Hla Hla') as [= B1 M1 _].
  pose proof (nets_lookup _ _ _ _ _ NA Hra Hra') as [= B2 M2 _].
  pose proof (nets_lookup _ _ _ _ _ NB Hlb Hlb') as [= B3 M3 _].
  pose proof (nets_lookup _ _ _ _ _ NB Hrb Hrb') as [= B4 M4 _].
  pose proof (routes_nets _ _ _ la' _ NB B1 M1 RB). pose proof (routes_nets _ _ _ lb' _ NA B3 M3 RA).
  destruct NA as [EA _], NB as [EB _]. split; [done..|split; congruence|done|split; congruence|split; congruence].
Qed.

(** A machine on which nothing fails; it draws no ping ID of 0, the value that
    stands for no ping. *)
Record works `{PolarSSL} (E : Env) : Prop := {
  wk_malloc : ∀ i, @env_malloc E i = true;
  wk_send : ∀ i, 0 ≤ @env_sendto E i;
  wk_ping : ∀ w, @ping_id _ E w ≠ 0 }.

(** [in_step_during], as far as the clocks go. *)
Definition timely_during `{PolarSSL, Env} (g g' : arg_network_info) (t : timespec) (w : world) : Prop :=
  ∀ i, (w_clock w ≤ i ≤ w_clock w + 2)%nat → timely g g' t (env_clock i) (env_clock (S i)).

Section Steps.
Context `{Hok : PolarSSL_ok} (EA EB : Env) (HA : works EA) (HB : works EB).
Context (lA rA lB rB : loc) (HneA : lA ≠ rA) (HneB : lB ≠ rB).
Context (linkA trailerA linkB trailerB : list Z) (HlinkA : link_ok linkA) (HlinkB : link_ok linkB).
Implicit Types la ra lb rb : arg_network_info.

Abbreviation facing' := (facing lA rA lB rB).
Abbreviation dialogue' ask := (dialogue EA EB ask linkA trailerA linkB trailerB).

Lemma dialogue_step la ra lb rb la' ra' lb' rb' t1 t2 ask wA wB wA1 wB1 wA2 :
  facing' la ra lb rb wA wB →
  question la lb t1 t2 ask (@admin_handler _ EB t1 lB rB) (@admin_handler _ EA t2 lA rA)
    linkB trailerB linkA trailerA wA wB wA1 wB1 wA2 → t1 ≠ ARG_WRAPPED_MSG → t2 ≠ ARG_WRAPPED_MSG →
  w_gates wA2 = <[rA := ra']> (<[lA := la']> (w_gates wA)) →
  w_gates wB1 = <[rB := rb']> (<[lB := lb']> (w_gates wB)) →
  dialogue' ask wA wB wA1 wB1 wA2 ∧ facing' la' ra' lb' rb' wA2 wB1.
Proof using HneA HneB Hok.
  intros Hf Hq H1 H2 GA GB. pose proof Hf as [_ _ _ _ [IA IB] [RB RA] _ _].
  destruct (question_dialogue EA EB la lb t1 t2 ask lA rA lB rB linkA trailerA linkB trailerB wA wB wA1 wB1 wA2
    Hq H1 H2 IA IB RB RA) as (Hd & NA & NB).
  split; [done|]. eapply facing_moved; [exact Hf|exact NA|exact NB|..]; rewrite ?GA, ?GB; try apply lookup_insert_eq;
    (rewrite lookup_insert_ne by done; apply lookup_insert_eq).
Qed.

Lemma connect_step n la ra lb rb wA wB :
  facing' la ra lb rb wA wB → acquainted la ra lb rb → room (n + 1) ra rb → 0 ≤ n →
  ∃ wA1 wB1 wA2 la' ra' lb' rb', dialogue' (@send_arg_conn_data _ EA lA rA false) wA wB wA1 wB1 wA2
    ∧ facing' la' ra' lb' rb' wA2 wB1 ∧ session n la' ra' lb' rb'.
Proof using All.
  intros Hf Haq Hroom Hn. pose proof Hf as [Hla Hra Hlb Hrb _ _ _ _]. destruct HA as [MA SA _], HB as [MB SB _].
  destruct (connect_run EA EB lA rA lB rB la ra lb rb wA wB linkB trailerB linkA trailerA MA MB SA SB Hla Hra HneA
    Hlb Hrb HneB Haq HlinkB HlinkA) as (wA1 & wB1 & wA2 & rngA & rngB & t0 & t1 & t2 & t3 & Hq & GA & GB).
  pose proof (connected_session n la ra lb rb rngA rngB t0 t1 t2 t3 Haq Hroom Hn) as Hs.
  destruct (dialogue_step _ _ _ _ _ _ _ _ _ _ _ _ _ _ _ _ Hf Hq ltac:(done) ltac:(done) GA GB) as [Hd Hf'].
  exists wA1, wB1, wA2. by do 4 eexists.
Qed.

(** A has B's time base, and is connected; B has answered. *)
Lemma ping_step n la ra lb rb wA wB :
  facing' la ra lb rb wA wB → session (n + 1) la ra lb rb → 0 ≤ n →
  ∃ wA1 wB1 wA2 la' ra' lb' rb', dialogue' (@send_arg_ping _ EA lA rA) wA wB wA1 wB1 wA2
    ∧ facing' la' ra' lb' rb' wA2 wB1 ∧ session n la' ra' lb' rb'
    ∧ connected ra' = true ∧ connected rb' = connected rb.
Proof using All.
  intros Hf Hs Hn. pose proof Hf as [Hla Hra Hlb Hrb _ _ _ _]. destruct HA as [MA SA PA], HB as [MB SB _].
  destruct (ping_run EA EB lA rA lB rB la ra lb rb wA wB linkB trailerB linkA trailerA MA MB SA SB Hla Hra HneA
    Hlb Hrb HneB (se_acquainted _ _ _ _ _ Hs) HlinkB HlinkA (PA wA)) as (wA1 & wB1 & wA2 & rngA & rngB & Hq & _ & GA & GB & _).
  match type of GA with context [accept_pong ?lat ?base (set_inSeqNum _ (pinged ?id ?t _))] =>
    destruct (pinged_session n la ra lb rb rngA rngB lat base id t Hs Hn) as (Hs' & _ & CA & _ & CB) end.
  destruct (dialogue_step _ _ _ _ _ _ _ _ _ _ _ _ _ _ _ _ Hf Hq ltac:(done) ltac:(done) GA GB) as [Hd Hf'].
  exists wA1, wB1, wA2. by do 4 eexists.
Qed.
(** Whatever a host of A sends, B unwraps and sends on, once it has found
    out who sent it. *)
Definition tunnelled (wA wB : world) : Prop :=
  ∀ p inner dest link trailer, host_packet p inner dest →
    156 + Z.of_nat (length inner) + KEY_LEN < 2 ^ 16 → link_ok link →
    ∃ wA' wB', carried (@send_arg_wrapped _ EA lA rA p) (@process_arg_wrapped _ EB lB rB) link trailer dest inner
      wA wB wA' wB'.

Lemma tunnel_step n la ra lb rb wA wB :
  facing' la ra lb rb wA wB → session n la ra lb rb → 0 ≤ n → connected ra = true → connected rb = true →
  tunnelled wA wB.
Proof using HA HB HneA HneB.
  intros [Hla Hra Hlb Hrb _ _ _ _] Hs Hn CA CB p inner dest link trailer Hp Hsize Hlink.
  destruct HA as [MA SA _], HB as [MB SB _]. pose proof (session_peers n la ra lb rb Hs Hn CA CB) as Hpe.
  destruct (se_acquainted _ _ _ _ _ Hs) as [[_ _ Kla _] _ _ _ [La Lb] _ _ _ _ _ _].
  destruct (tunnel_run EA EB lA rA lB rB la ra lb rb wA wB p inner dest link trailer MA MB SA SB Hla Hra HneA Hlb Hrb
    HneB Hpe La Lb Hp ltac:(by rewrite Kla) ltac:(by rewrite Kla) Hlink) as (wA' & wB' & _ & _ & Hc & _).
  by exists wA', wB'.
Qed.

(** What A directs outbound to an address of B's network, B takes inbound and
    sends on -- while B's clock is within a hop of A's for the addresses of
    both. *)
Definition directed (wA wB : world) : Prop :=
  ∀ la ra lb rb p ip daddr inner dest link trailer,
    w_gates wA !! lA = Some la → w_gates wA !! rA = Some ra →
    w_gates wB !! lB = Some lb → w_gates wB !! rB = Some rb →
    timely_during la rb (@env_clock EA (w_clock wA)) wB →
    timely_during ra lb (@env_clock EA (S (w_clock wA))) wB →
    host_packet p inner dest → p_ipv4 p = Some ip → rd (ip + 16) ADDR_SIZE (p_data p) = Some daddr →
    gate_matches lb daddr = true → 156 + Z.of_nat (length inner) + KEY_LEN < 2 ^ 16 → link_ok link →
    ∃ wA' outer bytes q wB', @direct_outbound _ EA p wA = Done 0 wA'
      ∧ w_sent wA' = w_sent wA ++ [OutIP outer bytes]
      ∧ parse_packet (raw_packet (Z.of_nat (length link)) (link ++ bytes ++ trailer)) = Some (0, q)
      ∧ @direct_inbound _ EB q wB = Done (Unwrapped 0) wB'
      ∧ w_sent wB' = w_sent wB ++ [OutIP dest inner].

Lemma session_hops n la ra lb rb wA wB :
  facing' la ra lb rb wA wB → session n la ra lb rb → same_hops la rb ∧ same_hops ra lb.
Proof using Hok.
  intros [_ _ _ _ _ _ [BA BB] [MA MB]] [_ _ [[_ _ HA1 HA2 _] [_ _ HB1 HB2 _]] _]. split; by split.
Qed.

Lemma direct_step n la ra lb rb wA wB :
  facing' la ra lb rb wA wB → session n la ra lb rb → 0 ≤ n → connected ra = true → connected rb = true →
  directed wA wB.
Proof using HA HB HneA HneB.
  intros Hf Hs Hn CA CB la' ra' lb' rb' p ip daddr inner dest link trailer Hla' Hra' Hlb' Hrb' T1 T2 Hp Hip Hd Hm Hsize Hlink.
  pose proof Hf as [Hla Hra Hlb Hrb [IA IB] [RB RA] _ _].
  assert (la' = la ∧ ra' = ra ∧ lb' = lb ∧ rb' = rb) as (-> & -> & -> & ->) by (split_and!; congruence).
  destruct HA as [MA SA _], HB as [MB SB _]. destruct (session_hops _ _ _ _ _ _ _ Hf Hs) as [H1 H2].
  destruct (se_acquainted _ _ _ _ _ Hs) as [[_ _ Kla _] [_ _ _ Llb] _ _ [Lra Lrb] _ _ _ _ _ _].
  destruct (outbound_inbound_run EA EB lA rA lB rB la ra lb rb wA wB p ip daddr inner dest link trailer MA MB SA SB
    Hla Hra HneA Hlb Hrb HneB IA IB (session_peers n la ra lb rb Hs Hn CA CB) Lra Llb Lrb Hp Hip Hd
    ltac:(by rewrite Kla) ltac:(by rewrite Kla) (RA _ (rd_length _ _ _ _ Hd) Hm) RB)
    as (wA' & bytes & q & wB' & sa & da & ? & _ & ? & ? & ? & ?); [..|by eauto 10].
  - intros i Hi. split; [exact H1|by apply T1].
  - intros i Hi. split; [exact H2|by apply T2].
  - exact Hlink.
Qed.
End Steps.

(** A session comes up: A asks for the connection data, A pings, B pings; each
    datagram goes through the other's [direct_inbound], behind any link header
    and in front of any trailing bytes.  From then on packets pass in both
    directions. *)
Definition session_up `{PolarSSL} (EA EB : Env) (lA rA lB rB : loc) (linkA trailerA linkB trailerB : list Z)
    (wA wB : world) : Prop :=
  ∃ wA1 wA2 wA3 wA4 wA5 wB1 wB2 wB3 wB4,
    dialogue EA EB (@send_arg_conn_data _ EA lA rA false) linkA trailerA linkB trailerB wA wB wA1 wB1 wA2
    ∧ dialogue EA EB (@send_arg_ping _ EA lA rA) linkA trailerA linkB trailerB wA2 wB1 wA3 wB2 wA4
    ∧ dialogue EB EA (@send_arg_ping _ EB lB rB) linkB trailerB linkA trailerA wB2 wA4 wB3 wA5 wB4
    ∧ tunnelled EA EB lA rA lB rB wA5 wB4 ∧ tunnelled EB EA lB rB lA rA wB4 wA5
    ∧ directed EA EB lA rA lB rB wA5 wB4 ∧ directed EB EA lB rB lA rA wB4 wA5.

Lemma session_run `{Hok : PolarSSL_ok} (EA EB : Env) lA rA lB rB (la ra lb rb : arg_network_info) (wA wB : world)
    linkA trailerA linkB trailerB :
  works EA → works EB → lA ≠ rA → lB ≠ rB → facing lA rA lB rB la ra lb rb wA wB →
  acquainted la ra lb rb → room 3 ra rb → link_ok linkA → link_ok linkB →
  session_up EA EB lA rA lB rB linkA trailerA linkB trailerB wA wB.
Proof.
  intros HA HB HneA HneB Hf Haq Hroom HlA HlB.
  destruct (connect_step EA EB HA HB lA rA lB rB HneA HneB linkA trailerA linkB trailerB HlA HlB 2 la ra lb rb wA wB
    Hf Haq Hroom ltac:(lia)) as (wA1 & wB1 & wA2 & la1 & ra1 & lb1 & rb1 & D1 & F1 & S1).
  destruct (ping_step EA EB HA HB lA rA lB rB HneA HneB linkA trailerA linkB trailerB HlA HlB 1 la1 ra1 lb1 rb1 wA2 wB1
    F1 S1 ltac:(lia)) as (wA3 & wB2 & wA4 & la2 & ra2 & lb2 & rb2 & D2 & F2 & S2 & CA & _).
  apply facing_sym in F2. apply session_sym in S2.
  destruct (ping_step EB EA HB HA lB rB lA rA HneB HneA linkB trailerB linkA trailerA HlB HlA 0 lb2 rb2 la2 ra2 wB2 wA4
    F2 S2 ltac:(lia)) as (wB3 & wA5 & wB4 & lb3 & rb3 & la3 & ra3 & D3 & F3 & S3 & CB & CA').
  rewrite CA in CA'. pose proof (facing_sym _ _ _ _ _ _ _ _ _ _ F3) as F4. pose proof (session_sym _ _ _ _ _ S3) as S4.
  exists wA1, wA2, wA3, wA4, wA5, wB1, wB2, wB3, wB4. split_and!; [exact D1|exact D2|exact D3|..].
  - by eapply (tunnel_step EA EB HA HB lA rA lB rB HneA HneB 0).
  - by eapply (tunnel_step EB EA HB HA lB rB lA rA HneB HneA 0).
  - by eapply (direct_step EA EB HA HB lA rA lB rB HneA HneB 0).
  - by eapply (direct_step EB EA HB HA lB rB lA rA HneB HneA 0).
Qed.
