(* ===== verification/Launch.v ===== *)
(** * Two gateways come up (src/init.c, src/hopper.c, src/protocol.c)

    The start of [ArgInitFacts] on two machines and the session of [Session]
    between them: what stands on the two disks is enough for the two programs to
    find each other's records, to exchange keys and time bases, and to carry
    the packets of their hosts. *)

From stdpp Require Import strings.
From S2P Require Import Prelude Words Settings ArgError CString Utility Crypto Packet Gate NatData World Config ToyCrypto ToyWorld Net Layout ToySetup ConfigFacts KeyFiles Hopper Startup Message ArgPacket CipherLoop RoundTrip AdminTrip Protocol ProtocolFacts Tunnel Handshake TimeSync Invariant GateList EndToEnd Session StartupFacts StartState DirectorSetup DirectorSetupFacts ArgInit ArgInitFacts.

(** ** Records that were just started *)

Lemma random_bytes_ok `{PolarSSL, Env} k n : bytes_ok (random_bytes k n).
Proof. apply Forall_fmap, Forall_true. intros x. apply u8_range. Qed.
#[local] Opaque random_bytes.

Section Records.
Context `{Hok : PolarSSL_ok} {U : @Setup P} `{Env}.
Implicit Types g : arg_network_info.

(** Our own record: everything in it that the peer will need. *)
Record own_fresh (d : published) g : Prop := {
  of_ok : own_ok g;
  of_rsa : rsa g = pb_key d <| rsa_len := key_len (pb_key d) |>;
  of_cipher : keyed (cipher g) (symKey g);
  of_hop : 0 ≤ hopInterval g < 2 ^ 32;
  of_net : baseIP g = baseIP (gate_for d) ∧ mask g = mask (gate_for d) }.

Lemma own_started dir c d k t drbg g :
  published_in dir d → key_len (pb_key d) = KEY_LEN → unlinked g = own_gate c d k t <| ctr_drbg := drbg |> →
  own_fresh d g.
Proof.
  intros Hp Hlen Hun.
  destruct (unlinked_good g _ Hun) as [(_ & Hwf & _) Hlk]; [split; [by eapply own_gate_good|done]|].
  assert (rsa g = pb_key d <| rsa_len := key_len (pb_key d) |>) as Hr by exact (f_equal rsa Hun).
  assert (∀ k n, bytes_ok (random_bytes k n)) as Hb by exact random_bytes_ok.
  set (key := random_bytes (k + AES_BLOCK_SIZE + HOP_KEY_SIZE) AES_KEY_SIZE) in *.
  assert (symKey g = key) as Hs by exact (f_equal symKey Hun).
  assert (iv g = random_bytes k AES_BLOCK_SIZE) as Hi by exact (f_equal iv Hun).
  assert (hopKey g = random_bytes (k + AES_BLOCK_SIZE) HOP_KEY_SIZE) as Hh by exact (f_equal hopKey Hun).
  assert (cipher g = cipher_setkey cipher_init key (Z.of_nat AES_KEY_SIZE * 8)) as Hc by exact (f_equal cipher Hun).
  assert (hopInterval g = u32 (hopRate c)) as Hn by exact (f_equal hopInterval Hun).
  assert (baseIP g = baseIP (gate_for d) ∧ mask g = mask (gate_for d)) as Hnet
    by (split; [exact (f_equal baseIP Hun)|exact (f_equal mask Hun)]).
  assert (length key = AES_KEY_SIZE) as Hkl by (rewrite <- Hs; apply Hwf).
  assert (bytes_ok key) as Hkb by apply Hb. clearbody key. clear Hun.
  split; [split|exact Hr| | |exact Hnet].
  - exact Hwf.
  - rewrite Hs, Hi, Hh. split_and!; [exact Hkb|apply Hb..].
  - rewrite Hr. exact Hlen.
  - exact Hlk.
  - rewrite Hc, Hs. apply cipher_setkey_ok. rewrite Hkl. lia.
  - rewrite Hn. apply u32_range.
Qed.

(** The peer's record: its public key, and nothing exchanged yet. *)
Record peer_fresh (d : published) g : Prop := {
  pf_wf : gate_wf g; pf_lock : lock g = false;
  pf_key : rsa_N (rsa g) = rsa_N (pb_key d) ∧ rsa_E (rsa g) = rsa_E (pb_key d) ∧ rsa_len (rsa g) = key_len (pb_key d);
  pf_seq : inSeqNum (proto g) = 0 ∧ outSeqNum (proto g) = 1;
  pf_net : baseIP g = baseIP (gate_for d) ∧ mask g = mask (gate_for d) }.

Lemma peer_started dir d g : published_in dir d → unlinked g = gate_for d → peer_fresh d g.
Proof.
  intros Hp Hun. destruct (unlinked_good g _ Hun) as [(_ & Hwf & _) Hlk]; [split; [by eapply gate_for_good|done]|].
  pose proof (f_equal rsa Hun) as Hr. pose proof (f_equal proto Hun) as Hq.
  change (rsa (unlinked g)) with (rsa g) in Hr. change (proto (unlinked g)) with (proto g) in Hq.
  split; [done|done|rewrite Hr; by split_and!|rewrite Hq; by split_and!|].
  split; [exact (f_equal baseIP Hun)|exact (f_equal mask Hun)].
Qed.

Lemma fresh_pair d g g' :
  peer_fresh d g → own_fresh d g' → rsa_check_privkey (pb_key d <| rsa_len := key_len (pb_key d) |>) = 0 →
  rsa_pair (rsa g) (rsa g').
Proof.
  intros [_ _ (HN & HE & HL) _ _] [[_ _ Hk _] Hr _ _ _] Hchk.
  assert (key_len (pb_key d) = KEY_LEN) as HK by (rewrite <- Hk, Hr; reflexivity).
  unfold rsa_pair. rewrite Hr, HN, HE, HL. split_and!; [done..|]. cbn [rsa_len upd]. by rewrite HK.
Qed.

Lemma fresh_acquainted dA dB la ra lb rb :
  own_fresh dA la → own_fresh dB lb → peer_fresh dB ra → peer_fresh dA rb →
  rsa_check_privkey (pb_key dA <| rsa_len := key_len (pb_key dA) |>) = 0 →
  rsa_check_privkey (pb_key dB <| rsa_len := key_len (pb_key dB) |>) = 0 →
  acquainted la ra lb rb ∧ room 3 ra rb.
Proof.
  intros Hla Hlb Hra Hrb KA KB.
  pose proof (fresh_pair dB ra lb Hra Hlb KB) as PA. pose proof (fresh_pair dA rb la Hrb Hla KA) as PB.
  destruct Hla as [? _ ? ? _], Hlb as [? _ ? ? _], Hra as [? ? _ [Ia Oa] _], Hrb as [? ? _ [Ib Ob] _].
  split; [split; try done; rewrite ?Ia, ?Oa, ?Ib, ?Ob; lia|]. unfold room. rewrite Oa, Ob. lia.
Qed.
End Records.

(** ** A machine with the program on it *)

(** What the program finds when it is loaded: the environment, the arguments of
    its start, the disk and its state. *)
Record machine `{PolarSSL} := Machine {
  m_setup : Setup; m_env : Env; m_pcap : Pcap;
  m_line : list Z; m_conf : config_data; m_gateName : option (list Z);
  m_dir : list Z; m_base : list Z;
  m_name : list Z; m_int : list Z; m_ext : list Z; m_rate : list Z;
  m_before : list published; m_self : published; m_after : list published;
  m_drbg : ctr_drbg_context;
  m_world : world }.

Definition m_start `{PolarSSL} (m : machine) : outcome process Z :=
  @arg_init _ (m_setup m) (m_env m) (m_pcap m) (m_line m) (m_conf m) (m_dir m ++ SLASH :: m_base m) (m_gateName m)
    (boot (m_world m)).

(** Its disk is in order, pcap opens its devices, its key has the size the
    messages are made for, and nothing fails. *)
Record ready `{PolarSSL} (m : machine) : Prop := {
  ry_files : MpiFiles (m_setup m);
  ry_works : works (m_env m);
  ry_conf : config_wf (m_conf m) ∧ length (m_line m) = MAX_CONF_LINE;
  ry_disk : @on_disk _ (m_setup m) (m_dir m) (m_base m) (m_gateName m) (m_name m) (m_int m) (m_ext m) (m_rate m)
    (m_before m) (m_after m) (m_self m) (m_drbg m);
  ry_loaded : loaded (m_world m);
  ry_int : @pcap_works _ (m_pcap m) true (dev_name (m_int m)) (gate_for (m_self m));
  ry_ext : @pcap_works _ (m_pcap m) false (dev_name (m_ext m)) (gate_for (m_self m));
  ry_key : key_len (pb_key (m_self m)) = KEY_LEN }.

(** The gates whose public files are on its disk, but for its own. *)
Definition m_peers `{PolarSSL} (m : machine) : list published := m_before m ++ m_after m.

(** No address of the first network is one of the second. *)
Definition apart `{PolarSSL} (d d' : published) : Prop :=
  ∀ a, length a = ADDR_SIZE → gate_matches (gate_for d) a = true → gate_matches (gate_for d') a = false.

(** Its disk has the public file of [d], whose network overlaps with none of the
    others and not with its own. *)
Definition sees `{PolarSSL} (m : machine) (d : published) : Prop :=
  ∃ pre post, m_peers m = pre ++ d :: post ∧ Forall (apart d) (m_self m :: pre ++ post).

(** ** What a started process has *)

Section Lists.
Context `{PolarSSL}.
Implicit Types gs : gmap loc arg_network_info.

Lemma first_match_at gs a pre r post g :
  (∀ x gx, x ∈ pre → gs !! x = Some gx → gate_matches gx a = false) →
  gs !! r = Some g → gate_matches g a = true → first_match gs a (pre ++ r :: post) = Some r.
Proof.
  unfold first_match. induction pre as [|x pre IH]; cbn [app List.find]; intros Hpre Hr Hm; [by rewrite Hr, Hm|].
  destruct (gs !! x) as [gx|] eqn:Hx; [rewrite (Hpre x gx) by (done || by left)|]; apply IH; try done;
    intros y gy Hy; apply Hpre; by right.
Qed.

(** The record of a published gate in a list of them that are linked in order. *)
Definition listed gs (ls : list loc) (ds : list published) : Prop :=
  Forall2 (λ l d, unlinked <$> gs !! l = Some (gate_for d)) ls ds.

Lemma listed_net gs ls ds x g :
  listed gs ls ds → x ∈ ls → gs !! x = Some g →
  ∃ d, d ∈ ds ∧ baseIP g = baseIP (gate_for d) ∧ mask g = mask (gate_for d).
Proof.
  intros Hls [i Hi]%list_elem_of_lookup Hg. destruct (Forall2_lookup_l _ _ _ _ _ Hls Hi) as (d & Hd & Hu).
  rewrite Hg in Hu. apply (inj Some) in Hu. exists d. split; [by eapply list_elem_of_lookup_2|].
  split; [exact (f_equal baseIP Hu)|exact (f_equal mask Hu)].
Qed.
End Lists.

(** Its own record, and one of every peer that it sees, which it finds by the
    peer's addresses. *)
Record up `{PolarSSL_ok} (m : machine) (p : process) (l : loc) : Prop := {
  up_head : w_gateInfo (p_world p) = Some l;
  up_own : ∃ g, w_gates (p_world p) !! l = Some g ∧ own_fresh (m_self m) g;
  up_peers d : sees m d →
    ∃ r g, r ≠ l ∧ w_gates (p_world p) !! r = Some g ∧ name g = stored_name (pb_name d) ∧ peer_fresh d g
      ∧ routes (p_world p) (gate_for d) r }.

Lemma started_routes `{PolarSSL_ok} w l g self others pre d post :
  chain (w_gates w) (w_gateInfo w) (l :: others) → NoDup (l :: others) → w_gates w !! l = Some g →
  baseIP g = baseIP (gate_for self) → mask g = mask (gate_for self) →
  listed (w_gates w) others (pre ++ d :: post) → Forall (apart d) (self :: pre ++ post) →
  ∃ r gr, r ∈ others ∧ w_gates w !! r = Some gr ∧ unlinked gr = gate_for d ∧ routes w (gate_for d) r.
Proof.
  intros Hc Hnd Hl Eb Em Hls [Hself [Hpre _]%Forall_app]%Forall_cons.
  apply Forall2_app_inv_r in Hls as (xs & rest & Hxs & Hrest & ->).
  apply Forall2_cons_inv_r in Hrest as (r & ys & Hr & _ & ->).
  destruct (w_gates w !! r) as [gr|] eqn:Hgr; [|done]. apply (inj Some) in Hr.
  exists r, gr. split_and!; [apply elem_of_app; right; by left|done|done|]. intros a Ha Hm. rewrite (get_arg_network_run _ _ _ Hc Hnd).
  f_equal. apply (first_match_at _ _ (l :: xs) _ _ gr); [|done|].
  - intros x gx [-> | Hx]%elem_of_cons Hgx.
    + simplify_eq. rewrite (matches_net (gate_for self)) by done. by apply Hself.
    + destruct (listed_net _ _ _ _ _ Hxs Hx Hgx) as (d' & Hd' & Eb' & Em').
      rewrite (matches_net (gate_for d')) by done. rewrite Forall_forall in Hpre. by apply Hpre.
  - rewrite (matches_net (gate_for d)); [done|exact (f_equal baseIP Hr)|exact (f_equal mask Hr)].
Qed.

Lemma start_up `{PolarSSL_ok} (m : machine) : ready m → ∃ p l, m_start m = Done 0 p ∧ up m p l.
Proof.
  intros [Hf [Hm _ _] [Hc Hl] Hd Hld Hi He Hk].
  destruct (@start_run _ (m_setup m) Hf (m_env m) (m_pcap m) (m_line m) (m_conf m) (m_dir m) (m_base m) (m_gateName m)
    (m_name m) (m_int m) (m_ext m) (m_rate m) (m_before m) (m_after m) (m_self m) (m_drbg m) (m_world m)
    Hm Hc Hl Hd Hld Hi He) as (p & c & l & others & hi & he & Hrun & _ & [(k & t & g & Hst & Hun & _) _ _ _ _]).
  pose proof (od_pub _ _ _ _ _ _ _ _ _ _ _ Hd) as Hpub. rewrite Forall_forall in Hpub.
  assert (own_fresh (m_self m) g) as Hof.
  { refine (@own_started _ _ (m_setup m) (m_env m) (m_dir m) c (m_self m) k t (m_drbg m) g _ Hk Hun).
    apply Hpub, elem_of_app. right. by left. }
  exists p, l. split; [exact Hrun|]. destruct Hst as [Hinfo Hlist Hnd Hothers Hown _].
  split; [done|by exists g|]. intros d (pre & post & Hpeers & Hap). destruct (of_net _ _ Hof) as [Eb Em].
  unfold m_peers in Hpeers. rewrite Hpeers in Hothers. rewrite <- Hinfo in Hlist.
  destruct (started_routes (p_world p) l g (m_self m) others pre d post (dlist_chain _ _ _ _ Hlist) Hnd Hown Eb Em Hothers Hap)
    as (r & gr & Hr & Hgr & Hu & Hro).
  exists r, gr. split_and!; [by intros ->; apply NoDup_cons in Hnd as [? _]|done|exact (f_equal name Hu)| |done].
  refine (@peer_started _ (m_setup m) (m_dir m) d gr _ Hu). apply Hpub.
  assert (d ∈ m_before m ++ m_after m) as Hin by (rewrite Hpeers; apply elem_of_app; right; by left).
  apply elem_of_app in Hin. rewrite elem_of_app, elem_of_cons. tauto.
Qed.

(** C2. Two machines whose disks are in order and hold each other's public key
    files, for networks that do not overlap, become two gateways that serve
    their networks: on both [arg_init] succeeds; each list of gateways has its
    own record in front and one of the other that carries the other's name; the
    first gateway asks for the other's connection data, pings it and is pinged
    by it, each datagram behind any link header and in front of any trailing
    bytes, each answered or taken by [direct_inbound] without an error.  From
    then on, whatever packet a host of either network sends to the other
    arrives there unchanged: through the tunnel, and through [direct_outbound]
    and [direct_inbound] with their address checks as long as the clocks are
    within a hop. *)
Theorem gateways_come_up `{Hok : PolarSSL_ok} (A B : machine) linkA trailerA linkB trailerB :
  ready A → ready B → sees A (m_self B) → sees B (m_self A) → link_ok linkA → link_ok linkB →
  ∃ pA pB lA rA lB rB, m_start A = Done 0 pA ∧ m_start B = Done 0 pB
    ∧ w_gateInfo (p_world pA) = Some lA ∧ w_gateInfo (p_world pB) = Some lB
    ∧ name <$> w_gates (p_world pA) !! rA = Some (stored_name (pb_name (m_self B)))
    ∧ name <$> w_gates (p_world pB) !! rB = Some (stored_name (pb_name (m_self A)))
    ∧ session_up (m_env A) (m_env B) lA rA lB rB linkA trailerA linkB trailerB (p_world pA) (p_world pB).
Proof.
  intros HA HB KA KB HlA HlB.
  destruct (start_up A HA) as (pA & lA & RA & [IA (la & Ela & Fla) PA]).
  destruct (start_up B HB) as (pB & lB & RB & [IB (lb & Elb & Flb) PB]).
  destruct (PA _ KA) as (rA & ra & NA & Era & Na & Fra & TA). destruct (PB _ KB) as (rB & rb & NB & Erb & Nb & Frb & TB).
  destruct (fresh_acquainted (m_self A) (m_self B) la ra lb rb) as [Haq Hroom]; [done..| | |].
  { exact (od_key _ _ _ _ _ _ _ _ _ _ _ (ry_disk _ HA)). }
  { exact (od_key _ _ _ _ _ _ _ _ _ _ _ (ry_disk _ HB)). }
  exists pA, pB, lA, rA, lB, rB. rewrite Era, Erb. split_and!; [done|done|done|done|by f_equal/=|by f_equal/=|].
  apply (session_run (m_env A) (m_env B) lA rA lB rB la ra lb rb); [apply HA|apply HB|done|done| |done..].
  destruct (of_net _ _ Fla) as [B1 M1], (of_net _ _ Flb) as [B2 M2], (pf_net _ _ Fra) as [B3 M3], (pf_net _ _ Frb) as [B4 M4].
  split; [done..| |split; congruence|split; congruence].
  split; [apply (routes_nets _ _ (gate_for (m_self A)) la _ (conj eq_refl eq_refl) B1 M1 TB)
         |apply (routes_nets _ _ (gate_for (m_self B)) lb _ (conj eq_refl eq_refl) B2 M2 TA)].
Qed.

(** ** Evaluation: alpha and beta, each with its private key file *)

(** Keys of 1024 bits. *)
Definition big_key (n : Z) : rsa_context := RSA 0 (2 ^ 1023 + n) 17 413 61 53 53 49 38.
Definition alpha_big : published := Published alpha [10; 1; 1; 0] [255; 255; 255; 0] (big_key 3).
Definition beta_big : published := Published beta [10; 2; 2; 0] [255; 255; 255; 0] (big_key 5).

(** Both public files, the private file of one of the two, and the same
    configuration: beta takes its name from the command line. *)
Definition launch_disk (priv : list Z * list Z) : list (list Z * list Z) :=
  [(str "/etc/arg/main.conf", toy_text toy_lines);
   (str "/etc/arg/alpha.pub", toy_public alpha_ip (big_key 3));
   (str "/etc/arg/beta.pub", toy_public beta_ip (big_key 5)); priv].
Definition launch_setup (priv : list Z * list Z) : Setup := {|
  fs_read path :=
    match list_find (λ f, f.1 = path) (launch_disk priv) with Some (_, f) => inr f.2 | None => inl 2 end;
  fs_dir := @fs_dir toy toy_setup; fs_create := @fs_create toy toy_setup;
  mpi_read_file := @mpi_read_file toy toy_setup; mpi_write_file := @mpi_write_file toy toy_setup;
  ctr_drbg_init := (0, tt); rsa_gen_key := @rsa_gen_key toy toy_setup |}.
Lemma launch_mpi_files priv : MpiFiles (launch_setup priv).
Proof. destruct toy_mpi_files as [H1 H2]. by split. Qed.

Definition alpha_setup : Setup := launch_setup (str "/etc/arg/alpha.priv", toy_numbers (big_key 3)).
Definition beta_setup : Setup := launch_setup (str "/etc/arg/beta.priv", toy_numbers (big_key 5)).
Definition alpha_machine : machine :=
  Machine toy alpha_setup toy_env toy_pcap (zeros MAX_CONF_LINE) (toy_config []) None etc_arg main_conf
    alpha eth0 eth1 rate [beta_big] alpha_big [] tt empty_world.
Definition beta_machine : machine :=
  Machine toy beta_setup toy_env toy_pcap (zeros MAX_CONF_LINE) (toy_config []) (Some beta) etc_arg main_conf
    alpha eth0 eth1 rate [] beta_big [alpha_big] tt empty_world.

Lemma toy_works : @works toy toy_env.
Proof.
  split; [done|by intros i|]. intros w. unfold ping_id.
  change (u8 (Z.of_nat (w_random w)) + 256 * (u8 (Z.of_nat (S (w_random w))) + 256 *
    (u8 (Z.of_nat (S (S (w_random w)))) + 256 * (u8 (Z.of_nat (S (S (S (w_random w))))) + 256 * 0))) ≠ 0).
  unfold u8. Z.div_mod_to_equations. lia.
Qed.

Lemma launch_published priv : Forall (@published_in toy (launch_setup priv) etc_arg) [beta_big; alpha_big].
Proof.
  repeat constructor; try by_decide.
  - exists beta_ip, alpha_mask. split_and!; by_decide.
  - exists alpha_ip, alpha_mask. split_and!; by_decide.
Qed.

(** All of it but what is particular to one of the two disks. *)
Lemma toy_ready (m : @machine toy) priv :
  m_setup m = launch_setup priv → m_env m = toy_env → m_pcap m = toy_pcap →
  m_line m = zeros MAX_CONF_LINE → m_conf m = toy_config [] → m_world m = empty_world →
  m_int m = eth0 → m_ext m = eth1 → m_self m = alpha_big ∨ m_self m = beta_big →
  @on_disk toy (m_setup m) (m_dir m) (m_base m) (m_gateName m) (m_name m) (m_int m) (m_ext m) (m_rate m)
    (m_before m) (m_after m) (m_self m) (m_drbg m) →
  ready m.
Proof.
  destruct m as [U E P line conf gn dir base n i e r pre self post drbg w].
  cbn [m_setup m_env m_pcap m_line m_conf m_gateName m_dir m_base m_name m_int m_ext m_rate m_before m_self m_after
    m_drbg m_world].
  intros -> -> -> -> -> -> -> -> Hself Hd. split; [apply launch_mpi_files|apply toy_works| |exact Hd|by split|..];
    cbn [m_pcap m_int m_ext m_self].
  - split; [split|]; by_decide.
  - destruct Hself as [-> | ->]; split; by_decide.
  - destruct Hself as [-> | ->]; split; by_decide.
  - destruct Hself as [-> | ->]; by_decide.
Qed.

Lemma launch_conf priv :
  ∃ ls rest, @fs_read toy (launch_setup priv) (etc_arg ++ SLASH :: main_conf) = inr (text ls) ∧ Forall line_ok ls
    ∧ shown ls = alpha :: eth0 :: eth1 :: rate :: rest.
Proof. exists toy_lines, []. split_and!; by_decide. Qed.

Lemma alpha_ready : ready alpha_machine.
Proof.
  eapply toy_ready; try reflexivity; [by left|].
  split; try by_decide; try done; try apply launch_conf.
  - exists toy_names. split_and!; by_decide.
  - apply launch_published.
Qed.

Lemma beta_ready : ready beta_machine.
Proof.
  eapply toy_ready; try reflexivity; [by right|].
  split; try by_decide; try done; try apply launch_conf.
  - exists toy_names. split_and!; by_decide.
  - apply launch_published.
Qed.

Lemma launch_apart : apart alpha_big beta_big ∧ apart beta_big alpha_big.
Proof.
  assert (∀ a, gate_matches (gate_for alpha_big) a
    = bool_decide (mask_array_cmp ADDR_SIZE [255; 255; 255; 0] [10; 1; 1; 0] a = 0)) as EA by reflexivity.
  assert (∀ a, gate_matches (gate_for beta_big) a
    = bool_decide (mask_array_cmp ADDR_SIZE [255; 255; 255; 0] [10; 2; 2; 0] a = 0)) as EB by reflexivity.
  split; intros a Ha; rewrite EA, EB; intros Hm%bool_decide_eq_true; apply bool_decide_eq_false; [|intros Hm'; revert Hm];
    by apply toy_networks_disjoint.
Qed.

Lemma gateways_come_up_witness :
  ∃ pA pB lA rA lB rB, m_start alpha_machine = Done 0 pA ∧ m_start beta_machine = Done 0 pB
    ∧ w_gateInfo (p_world pA) = Some lA ∧ w_gateInfo (p_world pB) = Some lB
    ∧ name <$> w_gates (p_world pA) !! rA = Some (stored_name (pb_name beta_big))
    ∧ name <$> w_gates (p_world pB) !! rB = Some (stored_name (pb_name alpha_big))
    ∧ @session_up toy toy_env toy_env lA rA lB rB eth_header [1; 2] [] [] (p_world pA) (p_world pB).
Proof.
  apply (gateways_come_up alpha_machine beta_machine eth_header [1; 2] [] []);
    [exact alpha_ready|exact beta_ready|..].
  - exists [], []. split; [done|]. constructor; [apply launch_apart|constructor].
  - exists [], []. split; [done|]. constructor; [apply launch_apart|constructor].
  - intros _. by exists 8.
  - done.
Defined.
