(* ===== verification/Concurrent.v ===== *)
(** * Threads at the granularity of statements (src/hopper.c, src/protocol.c)

    The other files take an operation for one step.  Here the threads interleave
    in a place where the code relies on that without a mutex: the walk of
    [get_arg_network] over the list of gateways while a gateway learned from
    trust data is linked into it.  A step is one C statement on shared memory;
    memory is sequentially consistent. *)

From S2P Require Import Prelude Words Settings ArgError Crypto Packet Gate World Net Layout Hopper HopperFacts Message ArgPacket Protocol ToyCrypto ToyWorld Invariant.

(** ** Lookups while the list grows *)

Section Lookups.
Context `{PolarSSL}.
Context (local : loc).
Implicit Types gs : gmap loc arg_network_info.

(** Where a thread is in the loop of [get_arg_network]: at its condition and the
    comparison, at [curr = curr->next], or done. *)
Inductive walk := Compare (curr : option loc) | Advance (curr : loc) | Found (r : option loc).

(** Its next statement; [None] if it is done, or reads outside the heap. *)
Definition walk_step gs (ip : list Z) (w : walk) : option walk :=
  match w with
  | Compare None => Some (Found None)
  | Compare (Some l) =>
      g ← gs !! l; Some (if gate_matches g ip then Found (Some l) else Advance l)
  | Advance l => g ← gs !! l; Some (Compare (next g))
  | Found _ => None
  end.

(** Where the external receiver is in "Hook it up"; it waits for the mutex. *)
Inductive hook :=
  | HookIdle | HookLock (new : loc) | HookNext (new : loc) | HookPrev (new : loc)
  | HookPublish (new : loc) | HookUnlock (new : loc).

Definition hook_step gs (h : hook) : option (gmap loc arg_network_info * hook) :=
  match h with
  | HookIdle => None
  | HookLock new =>
      l ← gs !! local; if lock l then None else Some (<[local := l <| lock := true |>]> gs, HookNext new)
  | HookNext new =>
      l ← gs !! local; g ← gs !! new; Some (<[new := g <| next := next l |>]> gs, HookPrev new)
  | HookPrev new =>
      g ← gs !! new; Some (<[new := g <| prev := Some local |>]> gs, HookPublish new)
  | HookPublish new =>
      l ← gs !! local; Some (<[local := l <| next := Some new |>]> gs, HookUnlock new)
  | HookUnlock new =>
      l ← gs !! local; Some (<[local := l <| lock := false |>]> gs, HookIdle)
  end.

(** Alone, they are the functions of [Hopper] and [Protocol]. *)
Definition walk_alone gs ip : walk → walk → Prop := λ w w', walk_step gs ip w = Some w'.
Definition hook_alone : gmap loc arg_network_info * hook → gmap loc arg_network_info * hook → Prop :=
  λ c c', hook_step c.1 c.2 = Some c'.

Lemma find_network_walks fuel curr ip (w : world) r :
  find_network fuel curr ip w = Done r w → rtc (walk_alone (w_gates w) ip) (Compare curr) (Found r).
Proof.
  assert ((mret None : prog (option loc)) w = Done r w → rtc (walk_alone (w_gates w) ip) (Compare None) (Found r)) as Hnone.
  { change (Done None w = Done r w → rtc (walk_alone (w_gates w) ip) (Compare None) (Found r)).
    intros [= <-]. by apply rtc_once. }
  revert curr. induction fuel as [|fuel IH]; intros [l|]; cbn [find_network]; try done.
  unfold mbind, proc_bind. destruct (w_gates w !! l) as [g|] eqn:Hg; [|by rewrite gate_get_None].
  rewrite (gate_get_run _ _ _ Hg). destruct (gate_matches g ip) eqn:Hm.
  - change (Done (Some l) w = Done r w → rtc (walk_alone (w_gates w) ip) (Compare (Some l)) (Found r)).
    intros [= <-]. apply rtc_once. unfold walk_alone, walk_step. rewrite Hg. cbn. by rewrite Hm.
  - intros Hf. apply rtc_l with (Advance l); [unfold walk_alone, walk_step; rewrite Hg; cbn; by rewrite Hm|].
    apply rtc_l with (Compare (next g)); [unfold walk_alone, walk_step; by rewrite Hg|by apply IH].
Qed.

Lemma hook_up_hooks new (w : world) w' :
  local ≠ new → hook_up local new w = Done tt w' →
  rtc hook_alone (w_gates w, HookLock new) (w_gates w', HookIdle).
Proof.
  intros Hne. unfold hook_up, mutex_lock, mutex_unlock, mbind, proc_bind.
  destruct (w_gates w !! local) as [l|] eqn:Hl; [|by rewrite gate_get_None].
  rewrite (gate_get_run _ _ _ Hl). destruct (lock l) eqn:Hk; [done|].
  rewrite (gate_upd_run _ _ _ _ Hl). set (w1 := set_gate local _ w).
  assert (w_gates w1 !! local = Some (l <| lock := true |>)) as Hl1 by apply set_gate_same.
  rewrite (gate_get_run _ _ _ Hl1).
  destruct (w_gates w1 !! new) as [g|] eqn:Hg; [|by rewrite gate_upd_None].
  rewrite (gate_upd_run _ _ _ _ Hg). set (w2 := set_gate new _ w1).
  assert (w_gates w2 !! local = Some (l <| lock := true |>)) as Hl2 by (unfold w2; rewrite set_gate_ne by done; exact Hl1).
  rewrite (gate_upd_run _ _ _ _ Hl2). set (w3 := set_gate local _ w2).
  pose proof (set_gate_same local ((l <| lock := true |>) <| next := Some new |>) w2) as Hl3.
  fold w3 in Hl3. rewrite (gate_upd_run _ _ _ _ Hl3). intros [= <-].
  apply rtc_l with (w_gates w1, HookNext new); [unfold hook_alone, hook_step; cbn [fst snd]; by rewrite Hl; cbn [mbind option_bind]; rewrite Hk|].
  apply rtc_l with (<[new := g <| next := next l |>]> (w_gates w1), HookPrev new).
  { unfold hook_alone, hook_step. cbn [fst snd]. rewrite Hl1. cbn [mbind option_bind]. by rewrite Hg. }
  apply rtc_l with (w_gates w2, HookPublish new).
  { unfold hook_alone, hook_step. cbn [fst snd]. rewrite lookup_insert_eq. cbn [mbind option_bind]. by rewrite insert_insert_eq. }
  apply rtc_l with (w_gates w3, HookUnlock new); [unfold hook_alone, hook_step; cbn [fst snd]; by rewrite Hl2|].
  apply rtc_once. unfold hook_alone, hook_step. cbn [fst snd]. by rewrite Hl3.
Qed.

(** ** All threads together *)

(** The list, the external receiver, and the lookups with what they look for. *)
Record config := Config { c_gates : gmap loc arg_network_info; c_hook : hook; c_walks : list (list Z * walk) }.

(** The statements that run next to thread [i] of the lookups are the other
    lookups', the receiver's, and those of the rest of the program: they allocate
    records, and change of the published ones neither the network nor the link. *)
Inductive other_step (i : nat) : config → config → Prop :=
  | step_walk gs h ws j ip w w' :
      j ≠ i → ws !! j = Some (ip, w) → walk_step gs ip w = Some w' →
      other_step i (Config gs h ws) (Config gs h (<[j := (ip, w')]> ws))
  | step_call gs h ws ip :
      other_step i (Config gs h ws) (Config gs h (ws ++ [(ip, Compare (Some local))]))
  | step_hook gs h ws gs' h' :
      hook_step gs h = Some (gs', h') → other_step i (Config gs h ws) (Config gs' h' ws)
  | step_learn gs ws new g :
      gs !! new = None → next g = None →
      other_step i (Config gs HookIdle ws) (Config (<[new := g]> gs) (HookLock new) ws)
  | step_rest gs h ws gs' :
      (network_of <$> gs') = (network_of <$> gs) → other_step i (Config gs h ws) (Config gs' h ws).

(** [n] statements of thread [i], and any number of the others'. *)
Inductive run (i : nat) : nat → config → config → Prop :=
  | run_refl c : run i 0 c c
  | run_own n c gs h ws ip w w' :
      run i n c (Config gs h ws) → ws !! i = Some (ip, w) → walk_step gs ip w = Some w' →
      run i (S n) c (Config gs h (<[i := (ip, w')]> ws))
  | run_other n c c1 c2 : run i n c c1 → other_step i c1 c2 → run i n c c2.

Lemma run_trans i n m c1 c2 c3 : run i n c1 c2 → run i m c2 c3 → run i (m + n) c1 c3.
Proof. intros H1 H2. induction H2; cbn; eauto using run. Qed.

(** ** The list stays a list *)

(** The record being linked is not in it, until it is published. *)
Definition hook_ok gs (h : hook) (ls : list loc) : Prop :=
  match h with
  | HookIdle | HookUnlock _ => True
  | HookLock new | HookNext new => (new ∉ ls) ∧ is_Some (gs !! new)
  | HookPrev new | HookPublish new =>
      (new ∉ ls) ∧ ∃ g l, gs !! new = Some g ∧ gs !! local = Some l ∧ next g = next l
  end.

Record listing (c : config) (ls : list loc) : Prop := {
  li_chain : chain (c_gates c) (Some local) ls;
  li_nodup : NoDup ls;
  li_hook : hook_ok (c_gates c) (c_hook c) ls }.

(** What of a list a step can change. *)
Definition kept gs gs' (ls : list loc) : Prop :=
  ∀ x g, x ∈ ls → gs !! x = Some g → ∃ g', gs' !! x = Some g' ∧ network_of g' = network_of g.

Lemma kept_chain gs gs' p ls : kept gs gs' ls → chain gs p ls → chain gs' p ls.
Proof.
  intros Hk Hc. eapply chain_agree; [exact Hc|]. intros l g Hl Hg.
  destruct (Hk l g Hl Hg) as (g' & Hg' & [= _ _ Hn]). by exists g'.
Qed.

Lemma matches_network g g' ip : network_of g' = network_of g → gate_matches g' ip = gate_matches g ip.
Proof. unfold gate_matches. by intros [= -> -> _]. Qed.

Lemma kept_first gs gs' ip p ls : kept gs gs' ls → chain gs p ls → first_match gs' ip ls = first_match gs ip ls.
Proof.
  unfold first_match. revert p. induction ls as [|l ls IH]; intros p Hk; [done|].
  intros (-> & g & Hg & Hc). cbn [List.find]. destruct (Hk l g) as (g' & Hg' & Hn); [by left|done|].
  rewrite Hg, Hg', (matches_network _ _ _ Hn). destruct (gate_matches g ip); [done|].
  eapply IH; [|exact Hc]. intros x gx Hx. apply Hk. by right.
Qed.

Lemma kept_network gs gs' ls : (network_of <$> gs') = (network_of <$> gs) → kept gs gs' ls.
Proof.
  intros He x g _ Hg. apply (f_equal (λ m, m !! x)) in He. rewrite !lookup_fmap, Hg in He.
  destruct (gs' !! x) as [g'|]; [|done]. exists g'. split; [done|]. exact (inj Some _ _ He).
Qed.

Lemma kept_insert gs ls l g : (l ∈ ls → ∃ g0, gs !! l = Some g0 ∧ network_of g = network_of g0) → kept gs (<[l := g]> gs) ls.
Proof.
  intros Hl x gx Hx Hgx. destruct (decide (l = x)) as [<-|Hne].
  - destruct (Hl Hx) as (g0 & Hg0 & Hn). exists g. rewrite lookup_insert_eq. split; [done|]. congruence.
  - exists gx. by rewrite lookup_insert_ne.
Qed.

(** [gs'] has the list [ls'] in which [ls] is contained, and what comes after
    [local] in [ls] is as it was. *)
Record grows gs gs' (ls ls' : list loc) : Prop := {
  gr_sub : ls ⊆ ls';
  gr_len : (length ls ≤ length ls')%nat;
  gr_kept rest : local ∉ rest → rest ⊆ ls → kept gs gs' rest;
  gr_local l : gs !! local = Some l →
    ∃ l', gs' !! local = Some l' ∧ ∀ ip, gate_matches l' ip = gate_matches l ip }.

Lemma listing_head c ls : listing c ls → ∃ rest l, ls = local :: rest ∧ (local ∉ rest)
  ∧ c_gates c !! local = Some l ∧ chain (c_gates c) (next l) rest.
Proof.
  intros [Hc Hnd _]. destruct ls as [|x rest]; [done|]. destruct Hc as ([= <-] & l & Hl & Hc).
  apply NoDup_cons in Hnd as [Hx _]. by exists rest, l.
Qed.

Lemma kept_grows gs gs' ls : local ∈ ls → kept gs gs' ls → grows gs gs' ls ls.
Proof.
  intros Hin Hk. split; [done|done| |].
  - intros rest _ Hs x g Hx. by apply Hk, Hs.
  - intros l Hl. destruct (Hk local l Hin Hl) as (l' & Hl' & Hn). exists l'. split; [done|].
    intros ip. by apply matches_network.
Qed.

Lemma listing_local c ls : listing c ls → local ∈ ls.
Proof. intros (rest & l & -> & _)%listing_head. by left. Qed.

Lemma chain_insert gs p ls new g : chain gs p ls → new ∉ ls → chain (<[new := g]> gs) p ls.
Proof.
  intros Hc Hn. eapply kept_chain; [|exact Hc]. apply kept_insert. by intros ?.
Qed.

Lemma listing_kept gs gs' h h' ws ws' ls :
  kept gs gs' ls → hook_ok gs' h' ls → listing (Config gs h ws) ls → listing (Config gs' h' ws') ls.
Proof. intros Hk Hh [Hc Hnd _]. split; [by eapply kept_chain|done|done]. Qed.

Lemma hook_ok_networks gs gs' h ls :
  (network_of <$> gs') = (network_of <$> gs) → hook_ok gs h ls → hook_ok gs' h ls.
Proof.
  intros He. assert (∀ x g, gs !! x = Some g → ∃ g', gs' !! x = Some g' ∧ network_of g' = network_of g) as Hk.
  { intros x g Hg. apply (kept_network gs gs' [x] He x g); [by left|done]. }
  destruct h; cbn; try done.
  1, 2: intros [? [g Hg]]; split; [done|]; destruct (Hk _ _ Hg) as (g' & ? & _); by exists g'.
  all: intros (? & g & l & Hg & Hl & Hn); split; [done|];
    destruct (Hk _ _ Hg) as (g' & ? & [= _ _ E1]), (Hk _ _ Hl) as (l' & ? & [= _ _ E2]);
    exists g', l'; split_and!; [done|done|congruence].
Qed.

(** ** Linking a record *)

Lemma hook_grows gs h gs' h' ws ls :
  hook_step gs h = Some (gs', h') → listing (Config gs h ws) ls →
  ∃ ls', listing (Config gs' h' ws) ls' ∧ grows gs gs' ls ls'.
Proof.
  intros Hstep Hli. destruct (listing_head _ _ Hli) as (rest & l & -> & Hlr & Hl & Hc). cbn [c_gates] in *.
  pose proof Hli as [_ Hnd Hh]. cbn [c_hook c_gates] in Hh.
  destruct h as [|new|new|new|new|new]; cbn [hook_step] in Hstep; rewrite ?Hl in Hstep; cbn [mbind option_bind] in Hstep; [done|..].
  - (* the mutex *)
    destruct (lock l); [done|]. injection Hstep as <- <-. destruct Hh as [Hn [g Hg]].
    assert (kept gs (<[local := l <| lock := true |>]> gs) (local :: rest)) as Hk by (apply kept_insert; intros _; by exists l).
    exists (local :: rest). split; [|apply kept_grows; [by eapply listing_local|done]]. eapply listing_kept; [done| |exact Hli].
    split; [done|]. exists g. rewrite lookup_insert_ne; [done|]. intros <-. apply Hn. by left.
  - (* [newGate->next] *)
    destruct Hh as [Hn [g Hg]]. rewrite Hg in Hstep. injection Hstep as <- <-.
    assert (local ≠ new) as Hne by (intros <-; apply Hn; by left).
    assert (kept gs (<[new := g <| next := next l |>]> gs) (local :: rest)) as Hk by (apply kept_insert; by intros ?).
    exists (local :: rest). split; [|apply kept_grows; [by eapply listing_local|done]]. eapply listing_kept; [done| |exact Hli].
    split; [done|]. exists (g <| next := next l |>), l. rewrite lookup_insert_eq, lookup_insert_ne by done. done.
  - (* [newGate->prev] *)
    destruct Hh as (Hn & g & l' & Hg & Hl' & Hnx). rewrite Hg in Hstep. injection Hstep as <- <-.
    assert (local ≠ new) as Hne by (intros <-; apply Hn; by left).
    assert (kept gs (<[new := g <| prev := Some local |>]> gs) (local :: rest)) as Hk by (apply kept_insert; by intros ?).
    exists (local :: rest). split; [|apply kept_grows; [by eapply listing_local|done]]. eapply listing_kept; [done| |exact Hli].
    split; [done|]. exists (g <| prev := Some local |>), l'. by rewrite lookup_insert_eq, lookup_insert_ne.
  - (* [local->next] *)
    destruct Hh as (Hn & g & l' & Hg & Hl' & Hnx). injection Hstep as <- <-. assert (l' = l) as -> by congruence.
    assert (local ≠ new) as Hne by (intros <-; apply Hn; by left). apply not_elem_of_cons in Hn as [_ Hn].
    exists (local :: new :: rest). split; [split; cbn [c_gates c_hook]; [|constructor; [|by constructor; [|apply NoDup_cons in Hnd as [_ ?]]]|done]|split].
    + split; [done|]. eexists. rewrite lookup_insert_eq. split; [done|]. split; [done|]. exists g.
      rewrite lookup_insert_ne by done. split; [done|]. cbn [next]. rewrite Hnx. by apply chain_insert.
    + apply not_elem_of_cons. by split.
    + intros x. rewrite !elem_of_cons. tauto.
    + cbn. lia.
    + intros r Hr _. by apply kept_insert.
    + intros l0 Hl0. exists (l <| next := Some new |>). rewrite lookup_insert_eq. split; [done|].
      intros ip. by assert (l0 = l) as -> by congruence.
  - (* the mutex again *)
    injection Hstep as <- <-.
    assert (kept gs (<[local := l <| lock := false |>]> gs) (local :: rest)) as Hk by (apply kept_insert; intros _; by exists l).
    exists (local :: rest). split; [|apply kept_grows; [by eapply listing_local|done]]. by eapply listing_kept.
Qed.

Lemma other_grows i c c' ls :
  other_step i c c' → listing c ls → ∃ ls', listing c' ls' ∧ grows (c_gates c) (c_gates c') ls ls'.
Proof.
  intros Hstep Hli. destruct Hstep as [gs h ws j ip w w'|gs h ws ip|gs h ws gs' h' Hh|gs ws new g Hnew Hg|gs h ws gs' He].
  - exists ls. split; [by destruct Hli|]. apply kept_grows; [by eapply listing_local|]. intros x g _ Hg. by exists g.
  - exists ls. split; [by destruct Hli|]. apply kept_grows; [by eapply listing_local|]. intros x g _ Hg. by exists g.
  - by eapply hook_grows.
  - assert (new ∉ ls) as Hn.
    { intros Hin. destruct (chain_lookup _ _ _ _ (li_chain _ _ Hli) Hin) as [? Hx]. cbn in Hx. congruence. }
    assert (kept gs (<[new := g]> gs) ls) as Hk by (apply kept_insert; by intros ?).
    exists ls. split; [|apply kept_grows; [by eapply listing_local|done]]. eapply listing_kept; [done| |exact Hli].
    split; [done|]. rewrite lookup_insert_eq. by eexists.
  - pose proof (kept_network gs gs' ls He) as Hk. exists ls. split; [|apply kept_grows; [by eapply listing_local|done]].
    eapply listing_kept; [done| |exact Hli]. eapply hook_ok_networks; [exact He|]. apply Hli.
Qed.

(** ** What a lookup will find *)

(** Past [local] the answer is settled, and it takes [left] more statements at
    most. *)
Definition course gs (ls : list loc) ip (w : walk) (r : option loc) (left : nat) : Prop :=
  match w with
  | Found r' => r' = r
  | Compare curr => ∃ rest, chain gs curr rest ∧ (local ∉ rest) ∧ rest ⊆ ls ∧ first_match gs ip rest = r
      ∧ (2 * length rest + 1 ≤ left)%nat
  | Advance l => ∃ rest, chain gs (Some l) (l :: rest) ∧ (local ∉ l :: rest) ∧ l :: rest ⊆ ls
      ∧ first_match gs ip rest = r ∧ (2 * length rest + 2 ≤ left)%nat
  end.

Lemma chain_tail gs l rest : chain gs (Some l) (l :: rest) → ∃ g, gs !! l = Some g ∧ chain gs (next g) rest.
Proof. by intros [_ ?]. Qed.

Lemma course_grows gs gs' ls ls' ip w r left :
  grows gs gs' ls ls' → course gs ls ip w r left → course gs' ls' ip w r left.
Proof.
  intros [Hsub _ Hk]. destruct w as [curr|l|r']; unfold course; [| |done].
  - intros (rest & Hc & Hl & Hs & Hf & Hn). specialize (Hk rest Hl Hs). exists rest.
    split_and!; [by eapply kept_chain|done|by etrans|by erewrite kept_first|done].
  - intros (rest & Hc & Hl & Hs & Hf & Hn). pose proof (Hk _ Hl Hs) as Hk'. exists rest.
    split_and!; [by eapply kept_chain|done|by etrans| |done].
    apply chain_tail in Hc as (g & _ & Hc). erewrite kept_first; [exact Hf| |exact Hc].
    intros x gx Hx. apply Hk'. by right.
Qed.

Lemma first_match_cons gs ip l g ls :
  gs !! l = Some g → first_match gs ip (l :: ls) = if gate_matches g ip then Some l else first_match gs ip ls.
Proof. intros Hg. unfold first_match. cbn [List.find]. by rewrite Hg. Qed.

(** One statement further. *)
Lemma course_step gs ls ip w w' r left :
  walk_step gs ip w = Some w' → course gs ls ip w r left →
  (0 < left)%nat ∧ course gs ls ip w' r (pred left).
Proof.
  destruct w as [[l|]|l|r']; cbn [walk_step]; [| | |done].
  - intros Hw (rest & Hc & Hl & Hs & Hf & Hn). destruct rest as [|x rest]; [done|].
    assert (x = l) as -> by (destruct Hc as [[= <-] _]; done).
    apply chain_tail in Hc as Hc'. destruct Hc' as (g & Hg & Hc').
    rewrite Hg in Hw. cbn [mbind option_bind] in Hw. rewrite (first_match_cons _ _ _ _ _ Hg) in Hf. cbn [length] in Hn.
    split; [lia|]. destruct (gate_matches g ip); injection Hw as <-; [done|].
    exists rest. split; [exact Hc|]. split_and!; [exact Hl|exact Hs|exact Hf|lia].
  - intros [= <-] (rest & Hc & _ & _ & Hf & Hn). split; [lia|]. destruct rest as [|x rest]; [exact Hf|by destruct Hc].
  - intros Hw (rest & Hc & Hl & Hs & Hf & Hn). apply chain_tail in Hc as (g & Hg & Hc).
    rewrite Hg in Hw. cbn [mbind option_bind] in Hw. injection Hw as <-. split; [lia|].
    exists rest. apply not_elem_of_cons in Hl as [_ Hl]. split_and!; [done|done| |done|lia].
    intros x Hx. apply Hs. by right.
Qed.

(** What an uninterrupted [get_arg_network] returns in a state. *)
Definition lookup_now (c : config) ip (r : option loc) : Prop :=
  ∀ w, w_gates w = c_gates c → w_gateInfo w = Some local → get_arg_network ip w = Done r w.

Lemma listing_lookup c ls ip : listing c ls → lookup_now c ip (first_match (c_gates c) ip ls).
Proof.
  intros [Hc Hnd _] w Hw Hi. rewrite <- Hw. apply get_arg_network_run; [by rewrite Hw, Hi|done].
Qed.

(** Where a lookup can be: not past [local] yet, or on the course to what a
    lookup returned at some state since it was called. *)
Definition under_way i (c0 c : config) (ls : list loc) ip (w : walk) (n : nat) : Prop :=
  (w = Compare (Some local) ∧ n = 0%nat)
  ∨ (w = Advance local ∧ n = 1%nat ∧ ∃ l, c_gates c !! local = Some l ∧ gate_matches l ip = false)
  ∨ ∃ c1 r left n1 n2, run i n1 c0 c1 ∧ run i n2 c1 c ∧ lookup_now c1 ip r
      ∧ course (c_gates c) ls ip w r left ∧ (n + left ≤ 2 * length ls + 1)%nat.

Lemma under_way_step i c0 gs h ws ls ip w w' n :
  listing (Config gs h ws) ls → ws !! i = Some (ip, w) → walk_step gs ip w = Some w' →
  run i n c0 (Config gs h ws) →
  under_way i c0 (Config gs h ws) ls ip w n →
  under_way i c0 (Config gs h (<[i := (ip, w')]> ws)) ls ip w' (S n).
Proof.
  intros Hli Hi Hw Hrun Hu. set (c := Config gs h ws) in *. set (c' := Config gs h _).
  assert (run i 1 c c') as Hstep by (eapply run_own; [apply run_refl|exact Hi|exact Hw]).
  destruct (listing_head _ _ Hli) as (rest & l & -> & Hlr & Hl & Hc). cbn [c_gates c] in Hl, Hc.
  pose proof (listing_lookup _ _ ip Hli) as Hlook. cbn [c_gates c] in Hlook.
  rewrite (first_match_cons _ _ _ _ _ Hl) in Hlook.
  destruct Hu as [[-> ->]|[(-> & -> & l' & Hl' & Hm)|(c1 & r & lf & n1 & n2 & H1 & H2 & Hr & Hco & Hn)]].
  - cbn [walk_step] in Hw. rewrite Hl in Hw. cbn [mbind option_bind] in Hw.
    destruct (gate_matches l ip) eqn:Hm; injection Hw as <-.
    + right. right. exists c, (Some local), 0%nat, 0%nat, 1%nat. split_and!; [done|done|done|done|cbn; lia].
    + right. left. split_and!; [done|done|]. by exists l.
  - cbn [walk_step] in Hw. rewrite Hl in Hw. cbn [mbind option_bind] in Hw. injection Hw as <-.
    assert (l' = l) as -> by (cbn in Hl'; congruence). rewrite Hm in Hlook.
    right. right. exists c, (first_match gs ip rest), (2 * length rest + 1)%nat, 1%nat, 1%nat.
    split_and!; [done|done|done| |cbn; lia]. exists rest. split_and!; [done..| |done|lia].
    intros x Hx. by right.
  - destruct (course_step _ _ _ _ _ _ _ Hw Hco) as [Hpos Hco'].
    right. right. exists c1, r, (pred lf), n1, (1 + n2)%nat.
    split_and!; [done|by eapply (run_trans i n2 1)|done|done|lia].
Qed.

Lemma other_walk i c c' x : other_step i c c' → c_walks c !! i = Some x → c_walks c' !! i = Some x.
Proof.
  intros [] Hx; cbn [c_walks] in *; try done; [by rewrite list_lookup_insert_ne|].
  rewrite lookup_app_l; [done|]. by eapply lookup_lt_Some.
Qed.

Lemma under_way_other i c0 c c' ls ls' ip w n :
  other_step i c c' → grows (c_gates c) (c_gates c') ls ls' →
  under_way i c0 c ls ip w n → under_way i c0 c' ls' ip w n.
Proof.
  intros Hstep Hg [?|[(-> & -> & l & Hl & Hm)|(c1 & r & lf & n1 & n2 & H1 & H2 & Hr & Hco & Hn)]]; [by left| |].
  - right. left. split_and!; [done|done|]. destruct (gr_local _ _ _ _ Hg l Hl) as (l' & Hl' & Hm').
    exists l'. split; [done|]. by rewrite Hm'.
  - right. right. exists c1, r, lf, n1, n2. pose proof (gr_len _ _ _ _ Hg).
    split_and!; [done|by eapply run_other|done|by eapply course_grows|lia].
Qed.

Lemma run_under_way i n c0 c ls0 ip :
  run i n c0 c → listing c0 ls0 → c_walks c0 !! i = Some (ip, Compare (Some local)) →
  ∃ ls w, listing c ls ∧ c_walks c !! i = Some (ip, w) ∧ under_way i c0 c ls ip w n.
Proof.
  intros Hrun Hli Hi. induction Hrun as [c|n c gs h ws ip' w w' Hrun IH Hw Hs|n c c1 c2 Hrun IH Hs].
  - exists ls0, (Compare (Some local)). split_and!; [done|done|by left].
  - destruct (IH Hli Hi) as (ls & w0 & Hli' & Hw0 & Hu). cbn [c_walks] in Hw0. simplify_eq.
    exists ls, w'. split_and!; [by destruct Hli'| |by eapply under_way_step].
    cbn [c_walks]. apply list_lookup_insert_eq. by eapply lookup_lt_Some.
  - destruct (IH Hli Hi) as (ls & w0 & Hli' & Hw0 & Hu). destruct (other_grows _ _ _ _ Hs Hli') as (ls' & Hli2 & Hg).
    exists ls', w0. split_and!; [done|by eapply other_walk|by eapply under_way_other].
Qed.

(** A lookup under way reads no dangling pointer. *)
Lemma under_way_goes_on i c0 c ls ip w n :
  listing c ls → under_way i c0 c ls ip w n → (∀ r, w ≠ Found r) →
  is_Some (walk_step (c_gates c) ip w) ∧ (n ≤ 2 * length ls)%nat.
Proof.
  intros Hli Hu Hw. destruct (listing_head _ _ Hli) as (rest0 & l & -> & _ & Hl & _).
  destruct Hu as [[-> ->]|[(-> & -> & _)|(c1 & r & lf & n1 & n2 & _ & _ & _ & Hco & Hn)]].
  - cbn [walk_step]. rewrite Hl. split; [by eexists|lia].
  - cbn [walk_step]. rewrite Hl. cbn [length]. split; [by eexists|lia].
  - destruct w as [[x|]|x|r']; cbn [walk_step].
    + destruct Hco as (rest & Hc & _ & _ & _ & Hle). destruct rest as [|y rest]; [done|].
      assert (y = x) as -> by (destruct Hc as [[= <-] _]; done).
      apply chain_tail in Hc as (g & Hg & _). rewrite Hg. split; [by eexists|lia].
    + destruct Hco as (rest & Hc & _ & _ & _ & Hle). split; [by eexists|lia].
    + destruct Hco as (rest & Hc & _ & _ & _ & Hle). apply chain_tail in Hc as (g & Hg & _). rewrite Hg.
      split; [by eexists|lia].
    + by destruct (Hw r').
Qed.

(** C21. A lookup needs no mutex: however its statements interleave with the
    linking of new gateways, with other lookups and with the rest of the
    program, it reads no dangling pointer, ends after at most two statements per
    gateway and one more, and returns what an uninterrupted [get_arg_network]
    would have returned at some moment between call and return. *)
Theorem lookup_linearizes i n c0 c ls ip :
  listing c0 ls → c_walks c0 !! i = Some (ip, Compare (Some local)) → run i n c0 c →
  ∃ w, c_walks c !! i = Some (ip, w) ∧
    match w with
    | Found r => ∃ c1 n1 n2, run i n1 c0 c1 ∧ run i n2 c1 c ∧ lookup_now c1 ip r
    | _ => is_Some (walk_step (c_gates c) ip w) ∧ (n ≤ 2 * size (c_gates c))%nat
    end.
Proof.
  intros Hli Hi Hrun. destruct (run_under_way i n c0 c ls ip Hrun Hli Hi) as (ls' & w & Hli' & Hw & Hu).
  exists w. split; [done|].
  assert ((∀ r, w ≠ Found r) → is_Some (walk_step (c_gates c) ip w) ∧ (n ≤ 2 * size (c_gates c))%nat) as Hgo.
  { intros Hne. destruct (under_way_goes_on _ _ _ _ _ _ _ Hli' Hu Hne) as [? ?].
    pose proof (chain_length _ _ _ (li_chain _ _ Hli') (li_nodup _ _ Hli')). split; [done|lia]. }
  destruct w as [?|?|r]; [by apply Hgo|by apply Hgo|].
  destruct Hu as [[? _]|[(? & _)|(c1 & r' & lf & n1 & n2 & H1 & H2 & Hr & Hco & _)]]; [done|done|].
  assert (r = r') as -> by exact Hco. by exists c1, n1, n2.
Qed.
End Lookups.

(** ** Schedules *)

Section Schedules.
Context `{PolarSSL}.
Context (local : loc).

Inductive event := DoWalk (j : nat) | DoCall (ip : list Z) | DoHook | DoLearn (new : loc) (g : arg_network_info).

Definition perform (c : config) (e : event) : option config :=
  let '(Config gs h ws) := c in
  match e with
  | DoWalk j => '(ip, w) ← ws !! j; w' ← walk_step gs ip w; Some (Config gs h (<[j := (ip, w')]> ws))
  | DoCall ip => Some (Config gs h (ws ++ [(ip, Compare (Some local))]))
  | DoHook => '(gs', h') ← hook_step local gs h; Some (Config gs' h' ws)
  | DoLearn new g =>
      match h, gs !! new, next g with
      | HookIdle, None, None => Some (Config (<[new := g]> gs) (HookLock new) ws)
      | _, _, _ => None
      end
  end.
Fixpoint schedule (es : list event) (c : config) : option config :=
  match es with
  | [] => Some c
  | e :: es => c' ← perform c e; schedule es c'
  end.

(** Statements of thread [i] in a schedule. *)
Definition own_event (i : nat) (e : event) : nat :=
  match e with DoWalk j => if decide (j = i) then 1 else 0 | _ => 0 end.

Lemma perform_run i e c c' : perform c e = Some c' → run local i (own_event i e) c c'.
Proof.
  destruct c as [gs h ws], e as [j|ip| |new g]; cbn [perform own_event].
  - destruct (ws !! j) as [[ip w]|] eqn:Hj; [|done]. cbn [mbind option_bind].
    destruct (walk_step gs ip w) as [w'|] eqn:Hw; [|done]. intros [= <-].
    destruct (decide (j = i)) as [->|Hne]; [by eapply run_own; [apply run_refl|..]|].
    eapply run_other; [apply run_refl|by eapply step_walk].
  - intros [= <-]. eapply run_other; [apply run_refl|apply step_call].
  - destruct (hook_step local gs h) as [[gs' h']|] eqn:Hh; [|done]. intros [= <-].
    eapply run_other; [apply run_refl|by apply step_hook].
  - destruct h; try done. destruct (gs !! new) eqn:Hn; [done|]. destruct (next g) eqn:Hg; [done|]. intros [= <-].
    eapply run_other; [apply run_refl|by apply step_learn].
Qed.

Lemma schedule_run i es c c' :
  schedule es c = Some c' → run local i (foldr (λ e n, n + own_event i e)%nat 0%nat es) c c'.
Proof.
  revert c. induction es as [|e es IH]; intros c; cbn [schedule foldr]; [intros [= <-]; apply run_refl|].
  destruct (perform c e) as [c1|] eqn:He; [|done]. cbn [mbind option_bind]. intros Hs.
  eapply run_trans; [by apply perform_run|by apply IH].
Qed.
End Schedules.

(** ** Evaluation: an address of a gateway that is learned while it is looked up *)

Definition learned : @arg_network_info toy := toy_gate 5 7 [10; 3; 3; 0] None None.
Definition racing : @config toy := Config (w_gates worldA) HookIdle [([10; 3; 3; 9], Compare (Some 1%positive))].
(** The lookup passes the first record's comparison before the new record is
    linked behind it. *)
Definition race_schedule : list event :=
  [DoWalk 0; DoLearn 3%positive learned; DoHook; DoHook; DoHook; DoHook; DoWalk 0; DoCall [10; 2; 2; 1]; DoHook;
   DoWalk 1; DoWalk 0].
Definition raced : @config toy := default racing (schedule 1%positive race_schedule racing).

Lemma racing_listing : listing 1%positive racing [1%positive; 2%positive].
Proof.
  split; [|by apply (bool_decide_unpack _)|done]. split; [done|]. eexists. split; [reflexivity|].
  split; [done|]. eexists. by split.
Qed.

Lemma raced_runs : schedule 1%positive race_schedule racing = Some raced.
Proof.
  assert (bool_decide (is_Some (schedule 1%positive race_schedule racing)) = true) as [c Hc]%bool_decide_eq_true
    by (vm_compute; reflexivity).
  unfold raced. by rewrite Hc.
Qed.

Lemma lookup_linearizes_witness :
  ∃ w, c_walks raced !! 0%nat = Some ([10; 3; 3; 9], w) ∧
    match w with
    | Found r => ∃ c1 n1 n2, run 1%positive 0 n1 racing c1 ∧ run 1%positive 0 n2 c1 raced
        ∧ lookup_now 1%positive c1 [10; 3; 3; 9] r
    | _ => is_Some (walk_step (c_gates raced) [10; 3; 3; 9] w) ∧ (3 ≤ 2 * size (c_gates raced))%nat
    end.
Proof.
  apply (lookup_linearizes 1%positive 0 3 racing raced [1%positive; 2%positive]); [apply racing_listing|reflexivity|].
  exact (schedule_run 1%positive 0 race_schedule racing raced raced_runs).
Defined.

Lemma raced_finds : snd <$> c_walks raced !! 0%nat = Some (Found (Some 3%positive)).
Proof. by vm_compute. Qed.
