(* ===== verification/HashList.v ===== *)
(** * The pointers of a hash table (src/uthash.h)

    [Uthash] has lists for the application order and for the chains of the
    buckets.  Here they are what they are in C: handles that point to the next
    and the previous one.  An element and its handle have one address, since
    [ELMT_FROM_HH] only takes off a constant. *)

From S2P Require Import Prelude Words.

Record links := Links { l_prev : option loc; l_next : option loc }.
#[export] Instance links_eta : Eta links := λ l, Links (l_prev l) (l_next l).

(** The application order: the program's [head], [tbl->tail] and the handles
    ([prev], [next]). *)
Record app_list := AppList { a_head : option loc; a_tail : option loc; a_links : gmap loc links }.
#[export] Instance app_list_eta : Eta app_list := λ s, AppList (a_head s) (a_tail s) (a_links s).
Abbreviation order := (proc app_list).

Definition link_get (l : loc) : order links := h ← gets a_links; lift_opt (h !! l).
Definition link_upd (l : loc) (f : links → links) : order unit :=
  e ← link_get l; modify (λ s, s <| a_links ::= (λ h, <[l := f e]> h) |>).
Definition link_upd_opt (p : option loc) (f : links → links) : order unit :=
  match p with None => mret tt | Some l => link_upd l f end.
Definition link_next (l : loc) : order (option loc) := e ← link_get l; mret (l_next e).
Definition set_head (p : option loc) : order unit := modify (λ s, s <| a_head := p |>).
Definition set_tail (p : option loc) : order unit := modify (λ s, s <| a_tail := p |>).

(** ** Adding and deleting *)

(** [HASH_ADD_KEYPTR] appends; the first element makes the table, whose tail
    it is. *)
Definition order_add (add : loc) : order unit :=
  link_upd add (λ e, e <| l_next := None |>);;
  head ← gets a_head;
  match head with
  | None => set_head (Some add);; link_upd add (λ e, e <| l_prev := None |>);; set_tail (Some add)
  | Some _ =>
      tail ← gets a_tail;
      match tail with
      | None => fault
      | Some t =>
          link_upd t (λ e, e <| l_next := Some add |>);;
          link_upd add (λ e, e <| l_prev := Some t |>);; set_tail (Some add)
      end
  end.

(** [HASH_DELETE]; with the last element the table goes. *)
Definition order_delete (del : loc) : order unit :=
  d ← link_get del;
  if decide (l_prev d = None ∧ l_next d = None) then set_head None;; set_tail None else
  tail ← gets a_tail;
  (if decide (Some del = tail) then set_tail (l_prev d) else mret tt);;
  (match l_prev d with
   | Some p => link_upd p (λ e, e <| l_next := l_next d |>)
   | None => set_head (l_next d)
   end);;
  d ← link_get del;
  link_upd_opt (l_next d) (λ e, e <| l_prev := l_prev d |>).

(** ** [HASH_ITER]: the successor is read before the body runs, so the body may
    delete the element; fuel is the number of handles. *)

Fixpoint iter_from (fuel : nat) (body : loc → order unit) (el tmp : option loc) : order unit :=
  match el with
  | None => mret tt
  | Some l =>
      match fuel with
      | O => stuck
      | S fuel =>
          body l;;
          tmp' ← match tmp with None => mret None | Some t => link_next t end;
          iter_from fuel body tmp tmp'
      end
  end.
Definition HASH_ITER (body : loc → order unit) : order unit :=
  head ← gets a_head;
  tmp ← match head with None => mret None | Some l => link_next l end;
  s ← gets a_links;
  iter_from (size s) body head tmp.

(** The application order's part of [HASH_FSCK]: every [prev] is the handle
    before; the result is the number of handles, [None] for [HASH_OOPS]. *)
Fixpoint fsck_from (fuel : nat) (prev thh : option loc) (count : Z) : order (option Z) :=
  match thh with
  | None => mret (Some count)
  | Some l =>
      match fuel with
      | O => stuck
      | S fuel =>
          e ← link_get l;
          if decide (prev = l_prev e) then fsck_from fuel (Some l) (l_next e) (u32 (count + 1))
          else mret None
      end
  end.
Definition fsck_order : order (option Z) :=
  head ← gets a_head; s ← gets a_links; fsck_from (size s) None head 0.

(** ** [HASH_SRT]: merging runs of doubling length *)

Section Sort.
Context (cmpfcn : loc → loc → Z).

(** [for (_hs_i = 0; ...)]: past the run that starts at [q], and its length. *)
Fixpoint advance (n : nat) (q : loc) (psize : Z) : order (option loc * Z) :=
  match n with
  | O => mret (Some q, psize)
  | S n =>
      let psize := u32 (psize + 1) in
      q ← link_next q;
      match q with
      | None => mret (None, psize)
      | Some q => advance n q psize
      end
  end.

(** Which run the next element comes from. *)
Definition from_p (p q : option loc) (psize qsize : Z) : order bool :=
  if decide (psize = 0) then mret false else
  if decide (qsize = 0 ∨ q = None) then mret true else
  match p, q with
  | Some p, Some q => mret (bool_decide (cmpfcn p q ≤ 0))
  | _, _ => fault
  end.

(** Behind [tail], or as the first; the result is [_hs_list]. *)
Definition append_to (list tail : option loc) (e : loc) : order (option loc) :=
  list ← match tail with
         | Some t => link_upd t (λ x, x <| l_next := Some e |>);; mret list
         | None => mret (Some e)
         end;
  link_upd e (λ x, x <| l_prev := tail |>);;
  mret list.

(** The loop that merges the run of [psize] handles at [p] and the one of at
    most [qsize] at [q]; the result is [_hs_q], [_hs_list] and [_hs_tail]. *)
Fixpoint merge_runs (fuel : nat) (p q : option loc) (psize qsize : Z) (list tail : option loc)
    : order (option loc * option loc * option loc) :=
  if decide (psize > 0 ∨ qsize > 0 ∧ q ≠ None) then
    match fuel with
    | O => stuck
    | S fuel =>
        take_p ← from_p p q psize qsize;
        match (if take_p : bool then p else q) with
        | None => fault
        | Some e =>
            next ← link_next e;
            list ← append_to list tail e;
            if take_p then merge_runs fuel next q (psize - 1) qsize list (Some e)
            else merge_runs fuel p next psize (qsize - 1) list (Some e)
        end
    end
  else mret (q, list, tail).

(** One pass over the list; the result is [_hs_list], [_hs_tail] and
    [_hs_nmerges]. *)
Fixpoint sort_pass (fuel : nat) (p : option loc) (insize : Z) (list tail : option loc) (nmerges : Z)
    : order (option loc * option loc * Z) :=
  match p with
  | None => mret (list, tail, nmerges)
  | Some l =>
      match fuel with
      | O => stuck
      | S fuel =>
          '(q, psize) ← advance (Z.to_nat insize) l 0;
          '(q, list, tail) ← merge_runs (Z.to_nat (psize + insize)) p q psize insize list tail;
          sort_pass fuel q insize list tail (u32 (nmerges + 1))
      end
  end.

Fixpoint sort_loop (fuel : nat) (list : option loc) (insize : Z) : order unit :=
  match fuel with
  | O => stuck
  | S fuel =>
      s ← gets a_links;
      '(list, tail, nmerges) ← sort_pass (size s) list insize None None 0;
      match tail with
      | None => fault
      | Some t =>
          link_upd t (λ e, e <| l_next := None |>);;
          if decide (nmerges ≤ 1) then set_tail tail;; set_head list
          else sort_loop fuel list (u32 (insize * 2))
      end
  end.

(** 32 rounds double [_hs_insize] through all its values; in the 33rd it is
    zero, and the pass does not end. *)
Definition HASH_SRT : order unit :=
  head ← gets a_head;
  match head with
  | None => mret tt
  | Some _ => sort_loop 33 head 1
  end.
End Sort.
