(* ===== verification/HashListFacts.v ===== *)
(** * The application order as a list (src/uthash.h)

    On a list of handles, [order_add], [order_delete], [HASH_ITER] and the
    integrity check do what [Uthash] says of lists. *)

From S2P Require Import Prelude Words Linked Uthash UthashFacts HashList.

Implicit Types (h : gmap loc links) (s : app_list) (es : list loc).

(** [es] is the list of handles from [head] to [tail]. *)
Abbreviation linked h prv p es nxt := (dseg l_next l_prev (λ _, True) h prv p es nxt).
Record ordered s es : Prop := {
  od_links : linked (a_links s) None (a_head s) es None;
  od_nodup : NoDup es;
  od_tail : a_tail s = last es }.

Lemma ordered_head s es : ordered s es → a_head s = hd_error es.
Proof. intros []. by eapply hd_error_dseg. Qed.

Lemma ordered_nil s : ordered s [] ↔ a_head s = None ∧ a_tail s = None.
Proof.
  split; [intros [H1 _ H2]; by split|]. intros [H1 H2]. split; [done|constructor|done].
Qed.

Lemma ordered_size s es : ordered s es → (length es ≤ size (a_links s))%nat.
Proof. intros [Hl Hnd _]. apply path_fuel; [done|]. intros l Hin. by eapply dseg_lookup. Qed.

(** ** Access *)

Definition set_link (l : loc) (e : links) s : app_list := s <| a_links ::= (λ h, <[l := e]> h) |>.

Lemma link_get_run l e s : a_links s !! l = Some e → link_get l s = Done e s.
Proof. intros He. unfold link_get, mbind, proc_bind, gets. by rewrite He. Qed.
Lemma link_next_run l e s : a_links s !! l = Some e → link_next l s = Done (l_next e) s.
Proof. intros He. unfold link_next, mbind, proc_bind. by rewrite (link_get_run l e). Qed.
Lemma link_upd_run l f e s : a_links s !! l = Some e → link_upd l f s = Done tt (set_link l (f e) s).
Proof. intros He. unfold link_upd, mbind, proc_bind. by rewrite (link_get_run l e). Qed.

(** A first statement that returns. *)
Lemma then_run {A B} (m : order A) (k : A → order B) s a s' : m s = Done a s' → (m ≫= k) s = k a s'.
Proof. unfold mbind, proc_bind. by intros ->. Qed.

(** An update of an optional object, as in [Linked]. *)
Lemma link_upd_opt_run p f s :
  (∀ l, p = Some l → is_Some (a_links s !! l)) →
  link_upd_opt p f s = Done tt (s <| a_links ::= opt_alter f p |>).
Proof.
  destruct p as [l|]; [|by destruct s]. intros Hs. destruct (Hs l eq_refl) as [e He]. cbn [link_upd_opt].
  rewrite (link_upd_run l f e s He). destruct s as [hd tl h]. unfold set_link. cbn in *. do 2 f_equal.
  apply map_eq. intros x. destruct (decide (l = x)) as [<-|Hne].
  - by rewrite lookup_insert_eq, lookup_alter_eq, He.
  - by rewrite lookup_insert_ne, lookup_alter_ne.
Qed.

(** ** Adding *)

Lemma NoDup_snoc {A} (es : list A) x : NoDup es → x ∉ es → NoDup (es ++ [x]).
Proof.
  intros Hnd Hx. apply NoDup_app. split_and!; [done| |apply NoDup_singleton].
  by intros y Hy ->%list_elem_of_singleton.
Qed.

Lemma dseg_fresh {h prv p es nxt} l e : l ∉ es → linked h prv p es nxt → linked (<[l := e]> h) prv p es nxt.
Proof. intros Hl. apply dseg_agree. intros x Hx. apply lookup_insert_ne. by intros <-. Qed.

Lemma NoDup_without {A} (pre : list A) l post : NoDup (pre ++ l :: post) → NoDup (pre ++ post).
Proof.
  intros (? & Hd & [_ ?]%NoDup_cons)%NoDup_app. apply NoDup_app. split_and!; [done| |done].
  intros x Hx Hx'. apply (Hd x Hx). by right.
Qed.

Lemma order_add_ordered s es add :
  ordered s es → add ∉ es → is_Some (a_links s !! add) →
  ∃ s', order_add add s = Done tt s' ∧ ordered s' (es ++ [add])
    ∧ dom (a_links s') = dom (a_links s).
Proof.
  intros Hod Hnew [e He]. pose proof (ordered_head _ _ Hod) as Hh. destruct Hod as [Hl Hnd Ht].
  unfold order_add. rewrite (then_run _ _ _ _ _ (link_upd_run _ _ e _ He)), (then_run (gets _) _ _ _ _ eq_refl).
  destruct s as [hd tl h]. cbn [a_head a_tail a_links set_link upd] in *. subst hd tl.
  destruct (last es) as [t|] eqn:Hlast.
  - assert (es ≠ []) as Hne by (by intros ->). assert (t ∈ es) as Hin by (by apply last_elem).
    assert (add ≠ t) as Hat by (by intros ->).
    assert (is_Some (hd_error es)) as [x Hx] by (destruct es; [done|by eexists]). rewrite Hx in *.
    destruct (dseg_lookup Hl Hin) as [et Het].
    assert (<[add:=e <| l_next := None |>]> h !! t = Some et) as Het' by (by rewrite lookup_insert_ne).
    rewrite (then_run (gets _) _ _ _ _ eq_refl). unfold set_link. cbn [a_tail a_links upd].
    rewrite (then_run _ _ _ _ _ (link_upd_run t _ et (AppList _ _ _) Het')). unfold set_link. cbn [a_links upd].
    erewrite then_run by (apply link_upd_run; cbn; rewrite lookup_insert_ne, lookup_insert_eq by done; reflexivity).
    eexists. split; [reflexivity|]. cbn. split.
    + split; [|by apply NoDup_snoc|by rewrite last_snoc].
      cbn [a_links a_head]. apply dseg_app. exists (Some add). split.
      * apply dseg_fresh; [done|].
        pose proof (dseg_relink_end (nx := l_next) (pv := l_prev) (P := λ _, True) (Some add) (λ x, x <| l_next := Some add |>)
          (λ _, eq_refl) (λ _, eq_refl) (λ _ _, I) Hnd (dseg_fresh add (e <| l_next := None |>) Hnew Hl)) as Hr.
        rewrite Hlast in Hr. cbn [opt_alter] in Hr.
        replace (match es with [] => Some add | _ => Some x end) with (Some x) in Hr by (by destruct es).
        eapply dseg_agree; [|exact Hr].
        intros y _. destruct (decide (t = y)) as [<-|Hty].
        -- by rewrite lookup_insert_eq, lookup_alter_eq, Het'.
        -- by rewrite lookup_insert_ne, lookup_alter_ne.
      * split; [done|]. eexists. rewrite lookup_insert_eq. split; [reflexivity|]. unfold last_or. by rewrite Hlast.
    + rewrite !dom_insert_lookup_L; [done|..]; rewrite ?lookup_insert_is_Some; eauto; destruct (decide (add = t)); eauto.
  - apply last_None in Hlast as ->. cbn [hd_error].
    rewrite (then_run (set_head _) _ _ _ _ eq_refl).
    erewrite then_run by (apply link_upd_run; cbn; rewrite lookup_insert_eq; reflexivity).
    eexists. split; [reflexivity|]. cbn. split.
    + split; [|apply NoDup_singleton|done]. cbn. split; [done|]. eexists. rewrite lookup_insert_eq. split; [reflexivity|done].
    + rewrite insert_insert_eq, dom_insert_lookup_L; [done|by eexists].
Qed.

(** ** Deleting *)

Definition bridge_links (a b : option loc) h : gmap loc links :=
  bridged (λ p x, x <| l_next := p |>) (λ p x, x <| l_prev := p |>) a b h.

Lemma dseg_prev {h prv p pre l post nxt e} :
  linked h prv p (pre ++ l :: post) nxt → h !! l = Some e → l_prev e = last_or prv pre.
Proof. intros (m & _ & -> & e' & He & Hp & _)%dseg_app Hl. by simplify_eq. Qed.

Lemma opt_alter_dom {A} (f : A → A) p (h : gmap loc A) : dom (opt_alter f p h) = dom h.
Proof. destruct p; [|done]. cbn. apply dom_alter_L. Qed.

Lemma list_del_decomp es del : del ∈ es → NoDup es →
  ∃ pre post, es = pre ++ del :: post ∧ filter (λ x, x ≠ del) es = pre ++ post.
Proof.
  intros (pre & post & ->)%list_elem_of_split Hnd. exists pre, post. split; [done|].
  apply NoDup_app in Hnd as (_ & Hd & [Hl Hpost]%NoDup_cons). rewrite filter_app, filter_cons_False by tauto.
  f_equal; apply filter_all, Forall_forall; intros x Hx ->; [by apply (Hd del Hx); left|done].
Qed.

Lemma order_delete_ordered s es del :
  ordered s es → del ∈ es →
  ∃ s', order_delete del s = Done tt s' ∧ ordered s' (filter (λ x, x ≠ del) es)
    ∧ dom (a_links s') = dom (a_links s) ∧ a_links s' !! del = a_links s !! del.
Proof.
  intros Hod Hin. pose proof (ordered_head _ _ Hod) as Hh. destruct Hod as [Hl Hnd Ht].
  destruct (list_del_decomp es del Hin Hnd) as (pre & post & -> & ->).
  pose proof Hl as (m & H1 & -> & d & Hd & Hp & _ & H2)%dseg_app.
  pose proof (hd_error_dseg H2) as Hn. unfold last_or in Hp.
  assert (l_prev d = last pre) as Hp' by (rewrite Hp; by destruct (last pre)).
  destruct s as [hd tl h]. cbn [a_head a_tail a_links] in *.
  unfold order_delete. rewrite (then_run _ _ _ _ _ (link_get_run del d (AppList _ _ _) Hd)), Hp', Hn.
  destruct (decide (last pre = None ∧ hd_error post = None)) as [[->%last_None He]|Hne].
  - destruct post; [|done]. eexists. split; [reflexivity|]. split; [by apply ordered_nil|done].
  - rewrite (then_run (gets _) _ _ _ _ eq_refl). cbn [a_tail].
    rewrite (then_run _ _ _ tt (AppList hd (last (pre ++ post)) h)).
    2:{ rewrite Ht, !last_app, last_cons. destruct (last post) as [z|] eqn:Hz.
        - rewrite decide_False; [by destruct (last pre)|]. intros [= <-].
          apply NoDup_app in Hnd as (_ & _ & [Hx _]%NoDup_cons). by apply Hx, last_elem.
        - rewrite decide_True by done. by destruct (last pre). }
    rewrite (then_run _ _ _ tt (AppList (match pre with [] => hd_error post | _ => hd end) (last (pre ++ post))
               (opt_alter (λ x, x <| l_next := hd_error post |>) (last pre) h))).
    2:{ destruct (last pre) as [y|] eqn:Hy.
        - change (link_upd y) with (link_upd_opt (Some y)). rewrite link_upd_opt_run.
          + destruct pre; [done|]. by destruct post.
          + intros ? [= <-]. apply (dseg_lookup H1). by apply last_elem.
        - apply last_None in Hy as ->. done. }
    assert (opt_alter (λ x, x <| l_next := hd_error post |>) (last pre) h !! del = Some d) as Hd'.
    { rewrite opt_alter_ne; [done|]. intros Hy%last_elem. apply NoDup_app in Hnd as (_ & Hx & _).
      apply (Hx del Hy). by left. }
    rewrite (then_run _ _ _ _ _ (link_get_run del d (AppList _ _ _) Hd')), Hn, link_upd_opt_run.
    2:{ intros y Hy. assert (y ∈ post) as Hin' by (by apply hd_elem).
        assert (y ∉ pre) as Hny by (intros Hyp; apply NoDup_app in Hnd as (_ & Hx & _); apply (Hx y Hyp); by right).
        cbn [a_links]. rewrite opt_alter_ne by (by intros ?%last_elem). by apply (dseg_lookup H2). }
    eexists. split; [reflexivity|]. cbn [a_links upd]. rewrite Hp'. split; [split; cbn [a_links a_head a_tail upd]|split].
    + exact (bridged_list (nx := l_next) (pv := l_prev) (P := λ _, True)
        (λ p x, x <| l_next := p |>) (λ p x, x <| l_prev := p |>) (λ _ _, eq_refl) (λ _ _, eq_refl)
        (λ _ _, eq_refl) (λ _ _, eq_refl) (λ _ _ _, I) (λ _ _ _, I) Hnd Hd H1 H2).
    + by eapply NoDup_without.
    + done.
    + by rewrite !opt_alter_dom.
    + rewrite opt_alter_ne; [by etrans; [exact Hd'|]|]. intros Hy%hd_elem.
      apply NoDup_app in Hnd as (_ & _ & [Hx _]%NoDup_cons). by apply Hx.
Qed.

(** ** Walking *)

Lemma ordered_mid s pre l post :
  ordered s (pre ++ l :: post) →
  ∃ e, a_links s !! l = Some e ∧ l_prev e = last pre ∧ l_next e = hd_error post.
Proof.
  intros [Hl _ _]. pose proof Hl as (m & _ & -> & e & He & Hp & _ & H2)%dseg_app.
  exists e. split_and!; [done| |by apply (hd_error_dseg H2)]. rewrite Hp. unfold last_or. by destruct (last pre).
Qed.

Definition opt_next (p : option loc) : order (option loc) :=
  match p with None => mret None | Some l => link_next l end.

Lemma opt_next_run s pre post : ordered s (pre ++ post) → opt_next (hd_error post) s = Done (hd_error (tail post)) s.
Proof.
  destruct post as [|l post]; [done|]. intros (e & He & _ & Hn)%ordered_mid. cbn [hd_error opt_next tail].
  by rewrite (link_next_run l e) by done; rewrite Hn.
Qed.

(** Deleting, on the way, the elements that fail a test. *)
Definition keep_if (test : loc → bool) (l : loc) : order unit :=
  if test l then mret tt else order_delete l.

Lemma iter_from_keep test fuel s kept post :
  ordered s (kept ++ post) → (length post ≤ fuel)%nat →
  ∃ s', iter_from fuel (keep_if test) (hd_error post) (hd_error (tail post)) s = Done tt s'
    ∧ ordered s' (kept ++ filter (λ x, test x = true) post).
Proof.
  revert s kept post. induction fuel as [|fuel IH]; intros s kept [|l post] Hod Hf; [|cbn in Hf; lia| |].
  1, 2: exists s; cbn [filter]; by rewrite app_nil_r in *.
  cbn [iter_from hd_error tail]. change (hd_error post) with (hd_error post).
  assert (∃ s', keep_if test l s = Done tt s' ∧ ordered s' ((kept ++ if test l then [l] else []) ++ post)) as (s1 & H1 & Hod1).
  { unfold keep_if. destruct (test l); [exists s; rewrite <- app_assoc; by split|].
    destruct (order_delete_ordered s (kept ++ l :: post) l Hod) as (s1 & H1 & Hod1 & _); [set_solver|].
    exists s1. split; [done|]. rewrite app_nil_r.
    destruct (list_del_decomp (kept ++ l :: post) l) as (pre & post' & E & F); [set_solver|by destruct Hod|].
    pose proof (od_nodup _ _ Hod) as (_ & Hd & [Hx Hnd]%NoDup_cons)%NoDup_app.
    assert (filter (λ x, x ≠ l) (kept ++ l :: post) = kept ++ post) as Hfl; [|by rewrite Hfl in Hod1].
    rewrite filter_app, filter_cons_False by tauto. f_equal; apply filter_all, Forall_forall; intros x Hin ->; [|done].
    apply (Hd l Hin). by left. }
  rewrite (then_run _ _ _ _ _ H1).
  change (match hd_error post with None => mret None | Some t => link_next t end) with (opt_next (hd_error post)).
  rewrite (then_run _ _ _ _ _ (opt_next_run _ _ _ Hod1)).
  destruct (IH s1 _ _ Hod1) as (s2 & H2 & Hod2); [cbn in Hf; lia|]. exists s2. split; [done|].
  rewrite filter_cons. rewrite <- app_assoc in Hod2. destruct (test l); [by rewrite decide_True|by rewrite decide_False].
Qed.

Lemma HASH_ITER_keep test s es :
  ordered s es →
  ∃ s', HASH_ITER (keep_if test) s = Done tt s' ∧ ordered s' (filter (λ x, test x = true) es).
Proof.
  intros Hod. unfold HASH_ITER. rewrite (then_run (gets _) _ _ _ _ eq_refl), (ordered_head _ _ Hod).
  change (match hd_error es with None => mret None | Some t => link_next t end) with (opt_next (hd_error es)).
  rewrite (then_run _ _ _ _ _ (opt_next_run s [] es Hod)), (then_run (gets _) _ _ _ _ eq_refl).
  apply (iter_from_keep test _ s [] es Hod). by apply ordered_size.
Qed.

Lemma fsck_from_ordered fuel s pre post count :
  ordered s (pre ++ post) → (length post ≤ fuel)%nat → count = u32 (Z.of_nat (length pre)) →
  fsck_from fuel (last pre) (hd_error post) count s = Done (Some (u32 (Z.of_nat (length (pre ++ post))))) s.
Proof.
  revert pre post count. induction fuel as [|fuel IH]; intros pre [|l post] count Hod Hf ->; [|cbn in Hf; lia| |].
  1, 2: cbn; by rewrite app_nil_r.
  destruct (ordered_mid _ _ _ _ Hod) as (e & He & Hp & Hn). cbn [fsck_from hd_error].
  rewrite (then_run _ _ _ _ _ (link_get_run l e s He)), decide_True, Hn by done.
  rewrite <- (last_snoc l pre), (cons_middle l pre post), app_assoc in *. apply IH; [done|cbn in Hf; lia|].
  rewrite length_app. unfold u32. rewrite Zplus_mod_idemp_l. cbn. f_equal. lia.
Qed.

Lemma fsck_order_ordered s es : ordered s es → fsck_order s = Done (Some (u32 (Z.of_nat (length es)))) s.
Proof.
  intros Hod. unfold fsck_order. rewrite (then_run (gets _) _ _ _ _ eq_refl), (then_run (gets _) _ _ _ _ eq_refl), (ordered_head _ _ Hod).
  apply (fsck_from_ordered _ s [] es); [done|by apply ordered_size|done].
Qed.

(** ** Histories: the pointers follow the table *)

Definition order_op (op : hash_op) : order unit :=
  match op with OpAdd _ elt => order_add elt | OpDel elt => order_delete elt end.
Fixpoint order_ops (ops : list hash_op) : order unit :=
  match ops with [] => mret tt | op :: ops => order_op op;; order_ops ops end.

(** The elements that are added are objects of the heap. *)
Definition allocated s (ops : list hash_op) : Prop :=
  ∀ key elt, OpAdd key elt ∈ ops → elt ∈ dom (a_links s).

Lemma without_elts elt (items : list (Z * loc)) : (without elt items).*2 = filter (λ x, x ≠ elt) items.*2.
Proof.
  unfold without. induction items as [|[k e] items IH]; [done|]. rewrite fmap_cons. cbn [snd].
  destruct (decide (e = elt)).
  - by rewrite !filter_cons_False by (cbn; tauto).
  - rewrite !filter_cons_True, fmap_cons by done. by rewrite IH.
Qed.

Lemma order_ops_ordered ops : ∀ s items,
  ordered s items.*2 → ops_ok items ops = true → allocated s ops →
  ∃ s', order_ops ops s = Done tt s' ∧ ordered s' (foldl spec_op items ops).*2
    ∧ dom (a_links s') = dom (a_links s).
Proof.
  induction ops as [|op ops IH]; intros s items Hod Hok Hall; [by exists s|].
  cbn [ops_ok foldl order_ops] in *. apply andb_true_iff in Hok as [Hop Hok].
  assert (∃ s1, order_op op s = Done tt s1 ∧ ordered s1 (spec_op items op).*2 ∧ dom (a_links s1) = dom (a_links s))
    as (s1 & H1 & Hod1 & Hd1).
  { destruct op as [key elt|elt]; cbn [order_op spec_op]; rewrite ?andb_true_iff, ?bool_decide_eq_true in Hop.
    - rewrite fmap_app. cbn [fmap list_fmap snd]. apply order_add_ordered; [done|tauto|].
      apply elem_of_dom, (Hall key). by left.
    - rewrite without_elts. destruct (order_delete_ordered s _ elt Hod Hop) as (s1 & ? & ? & ? & _). by exists s1. }
  destruct (IH s1 _ Hod1 Hok) as (s' & H2 & Hod2 & Hd2); [intros key elt Hin; rewrite Hd1; apply (Hall key); by right|].
  exists s'. rewrite (then_run _ _ _ _ _ H1), Hd2. by split.
Qed.
