(* ===== verification/HashSort.v ===== *)
(** * Sorting a hash table (src/uthash.h)

    [HASH_SRT] merges runs of the application order in place, doubling their
    length until one is left.  It ends, and leaves the stable sorting of the
    list. *)

From stdpp Require Import sorting.
From S2P Require Import Prelude Words Linked Uthash UthashFacts HashList HashListFacts.

Implicit Types (h : gmap loc links) (s : app_list) (es xs ys out : list loc).

Lemma filter_none {A} (P : A → Prop) `{∀ x, Decision (P x)} (l : list A) : Forall (λ x, ¬ P x) l → filter P l = [].
Proof. induction 1; [done|]. by rewrite filter_cons_False. Qed.

(** ** What a pass does to the list *)

Section Passes.
Context (R : relation loc) `{!∀ x y, Decision (R x y)}.

(** The merged runs of length [k], two by two. *)
Fixpoint merged (fuel k : nat) es : list (list loc) :=
  match fuel, es with
  | S fuel, _ :: _ => list_merge R (take k es) (take k (drop k es)) :: merged fuel k (drop k (drop k es))
  | _, _ => []
  end.
Definition runs (k : nat) es : list (list loc) := merged (length es) k es.
Definition pass (k : nat) es : list loc := mjoin (runs k es).

Lemma merged_fuel fuel fuel' k es :
  (0 < k)%nat → (length es ≤ fuel)%nat → (length es ≤ fuel')%nat → merged fuel k es = merged fuel' k es.
Proof.
  intros Hk. revert fuel' es. induction fuel as [|fuel IH]; intros [|fuel'] [|x es] H1 H2; try done; cbn in H1, H2; try lia.
  cbn [merged]. f_equal. apply IH; rewrite !length_drop; cbn; lia.
Qed.

Lemma runs_step k es :
  (0 < k)%nat → es ≠ [] → runs k es = list_merge R (take k es) (take k (drop k es)) :: runs k (drop k (drop k es)).
Proof.
  intros Hk. unfold runs. destruct es as [|x es]; [done|]. intros _. cbn [length merged]. f_equal.
  apply merged_fuel; rewrite ?length_drop; cbn; lia.
Qed.

Lemma pass_step k es :
  (0 < k)%nat → es ≠ [] → pass k es = list_merge R (take k es) (take k (drop k es)) ++ pass k (drop k (drop k es)).
Proof. intros Hk Hne. unfold pass. by rewrite (runs_step k es Hk Hne). Qed.

(** Two runs at a time. *)
Lemma pass_ind (k : nat) (P : list loc → Prop) :
  (0 < k)%nat → P [] → (∀ es, es ≠ [] → P (drop k (drop k es)) → P es) → ∀ es, P es.
Proof.
  intros Hk H0 HS es. remember (length es) as n eqn:Hn. revert es Hn.
  induction n as [n IH] using lt_wf_ind. intros es ->. destruct es as [|x es]; [done|].
  apply HS; [done|]. eapply IH; [|done]. rewrite !length_drop. cbn. lia.
Qed.

Lemma runs_length k es : (0 < k)%nat →
  (length (runs k es) ≤ length es)%nat ∧ ((length (runs k es) ≤ 1)%nat ↔ (length es ≤ 2 * k)%nat).
Proof.
  intros Hk. revert es. refine (pass_ind k _ Hk _ _); [cbn; lia|intros es Hne [H1 H2]].
  rewrite runs_step by done. cbn [length]. rewrite !length_drop in *. destruct es as [|x es]; [done|]. cbn [length] in *.
  split; [lia|]. split.
  - intros Hl. destruct (drop k (drop k (x :: es))) as [|y l] eqn:E.
    + apply (f_equal length) in E. revert E. rewrite !length_drop. cbn. lia.
    + rewrite runs_step in Hl by done. cbn in Hl. lia.
  - intros Hl. rewrite drop_drop, drop_ge by (cbn; lia). done.
Qed.

Lemma pass_perm k es : (0 < k)%nat → pass k es ≡ₚ es.
Proof.
  intros Hk. revert es. refine (pass_ind k _ Hk _ _); [done|intros es Hne IH].
  rewrite pass_step, IH, merge_Permutation, <- app_assoc, !take_drop by done. done.
Qed.

(** The whole sort: passes over runs of length [k], 2 [k], ... *)
Fixpoint passes (fuel k : nat) es : list loc :=
  match fuel with
  | O => es
  | S fuel =>
      let es' := pass k es in
      if decide (length es ≤ 2 * k)%nat then es' else passes fuel (2 * k) es'
  end.

Lemma passes_perm fuel k es : (0 < k)%nat → passes fuel k es ≡ₚ es.
Proof.
  revert k es. induction fuel as [|fuel IH]; intros k es Hk; [done|]. cbn [passes].
  destruct (decide _); [by apply pass_perm|]. rewrite IH by lia. by apply pass_perm.
Qed.

(** Sorted runs of length [k], the last of at most that. *)
Inductive in_runs (k : nat) : list loc → Prop :=
  | in_runs_last es : (length es ≤ k)%nat → StronglySorted R es → in_runs k es
  | in_runs_cons xs es : length xs = k → StronglySorted R xs → in_runs k es → in_runs k (xs ++ es).

Context `{!Transitive R, !Total R}.

Lemma merge_sorted xs ys : StronglySorted R xs → StronglySorted R ys → StronglySorted R (list_merge R xs ys).
Proof.
  intros H1 H2. apply Sorted_StronglySorted; [done|]. by apply Sorted_list_merge; [done|apply StronglySorted_Sorted..].
Qed.

Lemma in_runs_split k es : in_runs k es →
  StronglySorted R (take k es) ∧ in_runs k (drop k es).
Proof.
  destruct 1 as [es Hl Hs|xs es <- Hs Hr].
  - rewrite take_ge, drop_ge by done. split; [done|]. constructor; [cbn; lia|constructor].
  - by rewrite take_app_length, drop_app_length.
Qed.

Lemma in_runs_short k es : in_runs k es → (length es ≤ k)%nat → StronglySorted R es.
Proof.
  destruct 1 as [|xs es Hx Hs _]; [done|]. rewrite length_app. intros Hl.
  destruct es; [by rewrite app_nil_r|cbn in Hl; lia].
Qed.

Lemma pass_in_runs k es : (0 < k)%nat → in_runs k es → in_runs (2 * k) (pass k es).
Proof.
  intros Hk. revert es. refine (pass_ind k _ Hk _ _); [intros ?; constructor; [cbn; lia|constructor]|intros es Hne IH].
  intros [Hs1 [Hs2 Hr]%in_runs_split]%in_runs_split. rewrite pass_step by done.
  set (m := list_merge R _ _). assert (StronglySorted R m) as Hm by (by apply merge_sorted).
  assert (length m = (length (take k es) + length (take k (drop k es)))%nat) as Hl
    by (unfold m; by rewrite merge_Permutation, length_app).
  rewrite !length_take, length_drop in Hl.
  destruct (decide (length es < 2 * k)%nat).
  - rewrite (drop_ge (drop k es)) by (rewrite length_drop; lia). rewrite app_nil_r. constructor; [lia|done].
  - apply in_runs_cons; [lia|done|by apply IH].
Qed.

(** Merging keeps what is equal in order. *)
Definition alike (x y : loc) : Prop := R x y ∧ R y x.
#[local] Instance alike_dec x y : Decision (alike x y).
Proof. unfold alike. apply _. Defined.

Lemma merge_alike x xs ys : StronglySorted R xs →
  filter (alike x) (list_merge R xs ys) = filter (alike x) xs ++ filter (alike x) ys.
Proof.
  revert ys. induction xs as [|y xs IH]; intros ys Hs; [by rewrite list_merge_nil_l|].
  pose proof Hs as [Hxs Hall]%StronglySorted_inv.
  induction ys as [|z ys IHy]; [by rewrite list_merge_nil_r, app_nil_r|]. rewrite list_merge_cons.
  destruct (decide (R y z)) as [Hr|Hr].
  - rewrite !(filter_cons _ y), (IH (z :: ys) Hxs). by destruct (decide (alike x y)).
  - rewrite (filter_cons _ z), IHy, (filter_cons _ z). destruct (decide (alike x z)) as [[Ha Hb]|]; [|done].
    assert (filter (alike x) (y :: xs) = []) as ->; [|done].
    apply filter_none, Forall_forall. intros w Hw [H1 H2]. apply Hr.
    transitivity w; [|by transitivity x]. apply elem_of_cons in Hw as [->|Hw]; [by destruct (total R y y)|].
    by rewrite Forall_forall in Hall; apply Hall.
Qed.

Lemma pass_alike k x es : (0 < k)%nat → in_runs k es → filter (alike x) (pass k es) = filter (alike x) es.
Proof.
  intros Hk. revert es. refine (pass_ind k _ Hk _ _); [done|intros es Hne IH].
  intros [Hs1 [Hs2 Hr]%in_runs_split]%in_runs_split.
  rewrite pass_step, filter_app, merge_alike, (IH Hr) by done.
  by rewrite <- !filter_app, <- app_assoc, !take_drop.
Qed.

Lemma passes_sorted fuel k es :
  (0 < k)%nat → Z.of_nat (length es) ≤ Z.of_nat k * 2 ^ Z.of_nat fuel → fuel ≠ 0%nat → in_runs k es →
  StronglySorted R (passes fuel k es) ∧ ∀ x, filter (alike x) (passes fuel k es) = filter (alike x) es.
Proof.
  revert k es. induction fuel as [|fuel IH]; intros k es Hk Hl Hf Hr; [done|]. cbn [passes].
  pose proof (pass_in_runs k es Hk Hr) as Hr'. pose proof (pass_perm k es Hk) as Hp.
  destruct (decide (length es ≤ 2 * k)%nat) as [Hle|Hgt].
  - split; [|intros x; by apply pass_alike]. rewrite <- Hp in Hle. by eapply in_runs_short.
  - rewrite Nat2Z.inj_succ, Z.pow_succ_r in Hl by lia.
    destruct (IH (2 * k)%nat (pass k es)) as [H1 H2]; [lia|rewrite Hp; lia|intros ->; lia|done|].
    split; [done|]. intros x. rewrite H2. by apply pass_alike.
Qed.
End Passes.

(** ** Runs in the heap *)

(** Handles that follow each other, whatever their back pointers. *)
Fixpoint path h (p : option loc) es (nxt : option loc) : Prop :=
  match es with
  | [] => p = nxt
  | l :: es => p = Some l ∧ ∃ e, h !! l = Some e ∧ path h (l_next e) es nxt
  end.

Lemma linked_path h prv p es nxt : linked h prv p es nxt → path h p es nxt.
Proof.
  revert prv p. induction es as [|l es IH]; intros prv p; [done|].
  intros (-> & e & He & _ & _ & Hs). split; [done|]. exists e. split; [done|]. by eapply IH.
Qed.

Lemma path_app h p xs ys nxt : path h p (xs ++ ys) nxt ↔ ∃ m, path h p xs m ∧ path h m ys nxt.
Proof.
  revert p. induction xs as [|x xs IH]; intros p; cbn [app path]; [naive_solver|].
  split; [intros (-> & e & He & (m & ? & ?)%IH)|intros (m & (-> & e & He & ?) & ?)]; [exists m; eauto|].
  split; [done|]. exists e. split; [done|]. apply IH. by exists m.
Qed.

Lemma path_agree h h' p es nxt :
  (∀ l, l ∈ es → l_next <$> h' !! l = l_next <$> h !! l) → path h p es nxt → path h' p es nxt.
Proof.
  revert p. induction es as [|l es IH]; intros p Hag; [done|]. intros (-> & e & He & Hp). split; [done|].
  pose proof (Hag l ltac:(by left)) as Hl. rewrite He in Hl. destruct (h' !! l) as [e'|]; [|done].
  injection Hl as Hl. exists e'. rewrite Hl. split; [done|]. apply IH; [|done]. intros x Hx. apply Hag. by right.
Qed.

Lemma path_head h p es : path h p es None → p = hd_error es.
Proof. destruct es; [done|]. by intros [-> _]. Qed.

Lemma path_lookup h p es nxt l : path h p es nxt → l ∈ es → is_Some (h !! l).
Proof.
  revert p. induction es as [|x es IH]; intros p; [set_solver|].
  intros (-> & e & He & Hp) [->|Hl]%elem_of_cons; [by eexists|by eapply IH].
Qed.

(** What a pass has written: a list, once its last handle is closed. *)
Definition closed (p : option loc) h := opt_alter (λ e, e <| l_next := None |>) p h.
Definition written h out : Prop := linked (closed (last out) h) None (hd_error out) out None.
Definition with_links h s : app_list := AppList (a_head s) (a_tail s) h.

Lemma written_agree h h' out : (∀ l, l ∈ out → h' !! l = h !! l) → written h out → written h' out.
Proof.
  intros Hag. apply dseg_agree. intros l Hl. unfold closed.
  destruct (last out) as [x|]; [|by apply Hag]. cbn. destruct (decide (x = l)) as [->|Hne].
  - by rewrite !lookup_alter_eq, Hag.
  - rewrite !lookup_alter_ne by done. by apply Hag.
Qed.

Definition append_links out (e : loc) h : gmap loc links :=
  alter (λ x, x <| l_prev := last out |>) e (opt_alter (λ x, x <| l_next := Some e |>) (last out) h).

Lemma append_links_written out e h :
  NoDup out → e ∉ out → is_Some (h !! e) → written h out → written (append_links out e h) (out ++ [e]).
Proof.
  intros Hnd He [x Hx] Hw. unfold written, closed, append_links. rewrite last_snoc. cbn [opt_alter].
  assert (last out ≠ Some e) as Hne by (by intros ?%last_elem).
  apply dseg_app. exists (Some e). split.
  - pose proof (dseg_relink_end (nx := l_next) (pv := l_prev) (P := λ _, True) (Some e)
      (λ x, x <| l_next := Some e |>) (λ _, eq_refl) (λ _, eq_refl) (λ _ _, I) Hnd Hw) as Hr.
    destruct out as [|y out]; [done|]. eapply dseg_agree; [|exact Hr]. intros l Hl.
    assert (l ≠ e) as Hle by (by intros ->). rewrite !lookup_alter_ne by done.
    unfold closed. destruct (last (y :: out)) as [z|]; [|done]. cbn [opt_alter].
    destruct (decide (z = l)) as [->|Hz]; [|by rewrite !lookup_alter_ne].
    rewrite !lookup_alter_eq. by destruct (h !! l).
  - split; [done|].
    eexists. rewrite !lookup_alter_eq, opt_alter_ne, Hx by done. split; [reflexivity|]. cbn.
    split_and!; [|done|done]. unfold last_or. by destruct (last out).
Qed.

Lemma written_lookup h out l : written h out → l ∈ out → is_Some (h !! l).
Proof.
  intros Hw [x Hx]%(dseg_lookup Hw). apply elem_of_dom. apply elem_of_dom_2 in Hx.
  unfold closed in Hx. by rewrite opt_alter_dom in Hx.
Qed.

Lemma append_to_run s out e :
  NoDup out → e ∉ out → is_Some (a_links s !! e) → written (a_links s) out →
  append_to (hd_error out) (last out) e s = Done (hd_error (out ++ [e])) (with_links (append_links out e (a_links s)) s).
Proof.
  intros Hnd He Hs Hw. unfold append_to.
  assert (last out ≠ Some e) as Hne by (by intros ?%last_elem).
  rewrite (then_run _ _ _ (hd_error (out ++ [e])) (with_links (opt_alter (λ x, x <| l_next := Some e |>) (last out) (a_links s)) s)).
  - rewrite (then_run _ _ _ tt (with_links (append_links out e (a_links s)) s)); [done|].
    change (link_upd e) with (link_upd_opt (Some e)). rewrite link_upd_opt_run; [done|].
    intros l [= <-]. cbn [a_links with_links]. by rewrite opt_alter_ne.
  - destruct out as [|y out]; [by destruct s|]. destruct (last (y :: out)) as [t|] eqn:Ht; [|by apply last_None in Ht].
    assert (is_Some (a_links s !! t)) as [x Hx] by (eapply written_lookup; [done|by apply last_elem]).
    change (link_upd t) with (link_upd_opt (Some t)).
    rewrite (then_run _ _ _ tt (with_links (opt_alter (λ x, x <| l_next := Some e |>) (Some t) (a_links s)) s)); [done|].
    rewrite link_upd_opt_run; [done|]. intros l [= <-]. by eexists.
Qed.

Lemma append_links_next out e h l : l ∉ out → l_next <$> append_links out e h !! l = l_next <$> h !! l.
Proof.
  intros Hl. unfold append_links. assert (last out ≠ Some l) by (by intros ?%last_elem).
  destruct (decide (e = l)) as [->|Hne].
  - rewrite lookup_alter_eq, opt_alter_ne by done. by destruct (h !! l).
  - by rewrite lookup_alter_ne, opt_alter_ne.
Qed.

Lemma append_links_other out e h l : l ∉ out → l ≠ e → append_links out e h !! l = h !! l.
Proof.
  intros Hl Hne. unfold append_links. rewrite lookup_alter_ne by done. apply opt_alter_ne. by intros ?%last_elem.
Qed.

Lemma append_links_dom out e h : dom (append_links out e h) = dom h.
Proof. unfold append_links. by rewrite dom_alter_L, opt_alter_dom. Qed.

(** ** The loops *)

Section Loops.
Context (cmpfcn : loc → loc → Z).
Definition no_after (x y : loc) : Prop := cmpfcn x y ≤ 0.
#[export] Instance no_after_dec x y : Decision (no_after x y).
Proof. unfold no_after. apply _. Defined.

(** What a loop that has written [out'] leaves of the heap [h]; it touched
    only [es]. *)
Record writes h h' out' es : Prop := {
  ws_written : written h' out';
  ws_dom : dom h' = dom h;
  ws_other l : l ∉ es → h' !! l = h !! l }.

Lemma advance_run n l es ps s :
  path (a_links s) (Some l) (l :: es) None → 0 ≤ ps → ps + Z.of_nat (n `min` length (l :: es)) < 2 ^ 32 →
  advance n l ps s = Done (hd_error (drop n (l :: es)), ps + Z.of_nat (n `min` length (l :: es))) s.
Proof.
  revert l es ps. induction n as [|n IH]; intros l es ps Hp H0 Hb; [cbn; by rewrite Z.add_0_r|].
  destruct Hp as (_ & e & He & Hp). pose proof (path_head _ _ _ Hp) as Hn. cbn [advance].
  rewrite (then_run _ _ _ _ _ (link_next_run l e s He)), Hn, u32_small by (cbn in Hb; lia).
  destruct es as [|x es]; cbn [hd_error].
  - cbn [drop]. rewrite drop_nil. apply (f_equal (λ z, Done (None, z) s)). cbn. by rewrite Nat.min_0_r.
  - rewrite Hn in Hp. rewrite (IH x es); [|done|lia|cbn in Hb |- *; lia]. cbn [drop length]. do 2 f_equal. lia.
Qed.

Lemma from_p_run p q xs ys rest qsize s :
  p = hd_error xs ∨ xs = [] → q = hd_error (ys ++ rest) → xs ≠ [] ∨ ys ≠ [] →
  (Z.of_nat (length ys) = qsize ∨ Z.of_nat (length ys) ≤ qsize ∧ rest = []) →
  from_p cmpfcn p q (Z.of_nat (length xs)) qsize s = Done
    (match xs, ys with
     | [], _ => false
     | _, [] => true
     | x :: _, y :: _ => bool_decide (no_after x y)
     end) s.
Proof.
  intros Hp -> Hne Hq. unfold from_p. destruct xs as [|x xs]; [done|].
  rewrite decide_False by (cbn; lia). destruct Hp as [->|]; [|done]. destruct ys as [|y ys].
  - rewrite decide_True; [done|]. destruct Hq as [<-|[_ ->]]; [by left|by right].
  - rewrite decide_False; [done|]. cbn [length] in Hq. intros [->|]; [|done]. lia.
Qed.

Lemma with_links_id s : with_links (a_links s) s = s.
Proof. by destruct s. Qed.

(** The statements that append the next handle. *)
Lemma append_step {B} s out es e nx (k : option loc → option loc → order B) :
  NoDup (out ++ es) → e ∈ es → written (a_links s) out →
  (∃ e', a_links s !! e = Some e' ∧ l_next e' = nx) →
  (next ← link_next e; list ← append_to (hd_error out) (last out) e; k next list) s
  = k nx (hd_error (out ++ [e])) (with_links (append_links out e (a_links s)) s).
Proof.
  intros Hnd He Hw (e' & He' & Hn).
  apply NoDup_app in Hnd as (Ho & Hd & _). assert (e ∉ out) as Hout by (by intros ?%Hd).
  rewrite (then_run _ _ _ _ _ (link_next_run e e' s He')), Hn.
  by rewrite (then_run _ _ _ _ _ (append_to_run s out e Ho Hout ltac:(by eexists) Hw)).
Qed.

Lemma append_path h out e p es nxt :
  (∀ l, l ∈ es → l ∉ out) → path h p es nxt → path (append_links out e h) p es nxt.
Proof. intros Hd. apply path_agree. intros l Hl. by apply append_links_next, Hd. Qed.

Lemma append_writes h h' out e out' es0 es :
  e ∈ es → es0 ⊆ es → writes (append_links out e h) h' out' ((out ++ [e]) ++ es0) → writes h h' out' (out ++ es).
Proof.
  intros He Hs [H1 H2 H3]. split; [done|by rewrite H2, append_links_dom|].
  intros l Hl. rewrite H3 by set_solver. apply append_links_other; set_solver.
Qed.

(** In the middle of merging: [out] is written, [xs] comes next from [p] and
    [ys] from [q], where [rest] follows. *)
Record merging s out xs ys rest (p q : option loc) : Prop := {
  mg_p : ∃ nx, path (a_links s) p xs nx;
  mg_q : path (a_links s) q (ys ++ rest) None;
  mg_nodup : NoDup (out ++ xs ++ ys ++ rest);
  mg_written : written (a_links s) out }.

Lemma merging_out s out xs ys rest p q l es :
  merging s out xs ys rest p q → es ⊆ xs ++ ys ++ rest → l ∈ es → l ∉ out.
Proof. intros [_ _ Hnd _] Hes Hl Ho. apply NoDup_app in Hnd as (_ & Hd & _). by apply (Hd l Ho), Hes. Qed.

(** The next handle comes from [p]. *)
Lemma merging_take_p s out x xs ys rest p q :
  merging s out (x :: xs) ys rest p q →
  ∃ next, p = Some x
    ∧ (∀ B (k : option loc → option loc → order B),
        (next ← link_next x; list ← append_to (hd_error out) (last out) x; k next list) s
        = k next (hd_error (out ++ [x])) (with_links (append_links out x (a_links s)) s))
    ∧ merging (with_links (append_links out x (a_links s)) s) (out ++ [x]) xs ys rest next q.
Proof.
  intros Hm. pose proof Hm as [[nx (-> & ex & Hex & Hp)] Hq Hnd Hw]. exists (l_next ex). split; [done|]. split.
  - intros B k. apply (append_step s out ((x :: xs) ++ ys ++ rest)); done || set_solver || by eexists.
  - split; [exists nx; apply append_path; [|done]|apply append_path; [|done]|by rewrite <- app_assoc|].
    + intros l. apply (merging_out _ _ _ _ _ _ _ l xs Hm). set_solver.
    + intros l. apply (merging_out _ _ _ _ _ _ _ l (ys ++ rest) Hm). set_solver.
    + apply append_links_written; [by apply NoDup_app in Hnd as (? & _)| |by eexists|done].
      apply (merging_out _ _ _ _ _ _ _ x [x] Hm); set_solver.
Qed.

(** The next handle comes from [q]. *)
Lemma merging_take_q s out xs y ys rest p q :
  merging s out xs (y :: ys) rest p q →
  ∃ next, q = Some y
    ∧ (∀ B (k : option loc → option loc → order B),
        (next ← link_next y; list ← append_to (hd_error out) (last out) y; k next list) s
        = k next (hd_error (out ++ [y])) (with_links (append_links out y (a_links s)) s))
    ∧ merging (with_links (append_links out y (a_links s)) s) (out ++ [y]) xs ys rest p next.
Proof.
  intros Hm. pose proof Hm as [[nx Hp] (-> & ey & Hey & Hq) Hnd Hw]. exists (l_next ey). split; [done|]. split.
  - intros B k. apply (append_step s out (xs ++ (y :: ys) ++ rest)); done || set_solver || by eexists.
  - split; [exists nx; apply append_path; [|done]|apply append_path; [|done]| |].
    + intros l. apply (merging_out _ _ _ _ _ _ _ l xs Hm). set_solver.
    + intros l. apply (merging_out _ _ _ _ _ _ _ l (ys ++ rest) Hm). set_solver.
    + assert ((out ++ [y]) ++ xs ++ ys ++ rest ≡ₚ out ++ xs ++ (y :: ys) ++ rest) as ->; [|exact Hnd].
      rewrite <- app_assoc. cbn. f_equiv. apply Permutation_middle.
    + apply append_links_written; [by apply NoDup_app in Hnd as (? & _)| |by eexists|done].
      apply (merging_out _ _ _ _ _ _ _ y [y] Hm); set_solver.
Qed.

(** The loop goes on exactly as long as one of the runs has a handle. *)
Lemma merging_test s out xs ys rest p q qsize :
  merging s out xs ys rest p q →
  (Z.of_nat (length ys) = qsize ∨ Z.of_nat (length ys) ≤ qsize ∧ rest = []) →
  Z.of_nat (length xs) > 0 ∨ qsize > 0 ∧ q ≠ None ↔ xs ≠ [] ∨ ys ≠ [].
Proof.
  intros [_ Hq _ _] Hsz. apply path_head in Hq as ->. split.
  - intros [Hx|[Hq Hne]]; [left; by destruct xs|]. right. intros ->. cbn [length] in Hsz.
    destruct Hsz as [<-|[_ ->]]; [lia|done].
  - intros [Hne|Hne]; [left; destruct xs; [done|cbn; lia]|]. destruct ys as [|y ys]; [done|]. right.
    cbn [length] in Hsz. split; [lia|done].
Qed.

Lemma merge_runs_run fuel : ∀ s out xs ys rest p q qsize,
  merging s out xs ys rest p q →
  (Z.of_nat (length ys) = qsize ∨ Z.of_nat (length ys) ≤ qsize ∧ rest = []) →
  (length xs + length ys ≤ fuel)%nat →
  ∃ h', merge_runs cmpfcn fuel p q (Z.of_nat (length xs)) qsize (hd_error out) (last out) s
      = Done (hd_error rest, hd_error (out ++ list_merge no_after xs ys), last (out ++ list_merge no_after xs ys)) (with_links h' s)
    ∧ writes (a_links s) h' (out ++ list_merge no_after xs ys) (out ++ xs ++ ys).
Proof.
  induction fuel as [|fuel IH]; intros s out xs ys rest p q qsize Hm Hsz Hf.
  all: pose proof (merging_test _ _ _ _ _ _ _ _ Hm Hsz) as Ht; cbn [merge_runs].
  all: destruct (decide (xs = [] ∧ ys = [])) as [[-> ->]|Hne].
  1, 3: exists (a_links s); rewrite app_nil_r, with_links_id, decide_False by (rewrite Ht; tauto);
    split; [by rewrite (path_head _ _ _ (mg_q _ _ _ _ _ _ _ Hm))|by split; destruct Hm].
  { destruct xs, ys; cbn [length] in Hf; lia || by destruct Hne. }
  assert (xs ≠ [] ∨ ys ≠ []) as Hne' by (destruct xs, ys; (by left) || (by right) || by destruct Hne).
  rewrite decide_True by (by apply Ht).
  erewrite then_run by (apply (from_p_run p q xs ys rest); [|by eapply path_head, mg_q|done|done];
    destruct Hm as [[nx Hp] _ _ _], xs; [by right|left; by destruct Hp]).
  assert (∀ x xs', xs = x :: xs' → p = Some x ∧ ∃ h', (next ← link_next x; list ← append_to (hd_error out) (last out) x;
           merge_runs cmpfcn fuel next q (Z.of_nat (length xs) - 1) qsize list (Some x)) s
      = Done (hd_error rest, hd_error (out ++ x :: list_merge no_after xs' ys), last (out ++ x :: list_merge no_after xs' ys)) (with_links h' s)
    ∧ writes (a_links s) h' (out ++ x :: list_merge no_after xs' ys) (out ++ xs ++ ys)) as Htake_p.
  { intros x xs' ->. destruct (merging_take_p _ _ _ _ _ _ _ _ Hm) as (next & Hpx & Hrun & Hm'). split; [done|].
    rewrite Hrun. replace (Z.of_nat (length (x :: xs')) - 1) with (Z.of_nat (length xs')) by (cbn; lia).
    destruct (IH _ _ _ _ _ _ _ qsize Hm' Hsz) as (h' & Hr & Hws); [cbn in Hf; lia|].
    rewrite last_snoc, <- (app_assoc out [x]) in Hr. rewrite <- (app_assoc out [x]) in Hws.
    exists h'. split; [exact Hr|]. eapply append_writes; [| |exact Hws]; set_solver. }
  assert (∀ y ys', ys = y :: ys' → q = Some y ∧ ∃ h', (next ← link_next y; list ← append_to (hd_error out) (last out) y;
           merge_runs cmpfcn fuel p next (Z.of_nat (length xs)) (qsize - 1) list (Some y)) s
      = Done (hd_error rest, hd_error (out ++ y :: list_merge no_after xs ys'), last (out ++ y :: list_merge no_after xs ys')) (with_links h' s)
    ∧ writes (a_links s) h' (out ++ y :: list_merge no_after xs ys') (out ++ xs ++ ys)) as Htake_q.
  { intros y ys' ->. destruct (merging_take_q _ _ _ _ _ _ _ _ Hm) as (next & Hqy & Hrun & Hm'). split; [done|].
    rewrite Hrun. destruct (IH _ _ _ _ _ _ _ (qsize - 1) Hm') as (h' & Hr & Hws); [cbn [length] in Hsz; destruct Hsz as [?|[? ?]]; [left|right; split; [|done]]; lia|cbn in Hf; lia|].
    rewrite last_snoc, <- (app_assoc out [y]) in Hr. rewrite <- (app_assoc out [y]) in Hws.
    exists h'. split; [exact Hr|]. eapply append_writes; [| |exact Hws]; set_solver. }
  destruct xs as [|x xs], ys as [|y ys]; [by destruct Hne|..].
  - destruct (Htake_q y ys) as [-> Hr]; [done|]. by rewrite !list_merge_nil_l in *.
  - destruct (Htake_p x xs) as [-> Hr]; [done|]. by rewrite !list_merge_nil_r in *.
  - rewrite list_merge_cons. case_bool_decide; [rewrite decide_True by done; by destruct (Htake_p x xs) as [-> Hr]|].
    rewrite decide_False by done. by destruct (Htake_q y ys) as [-> Hr].
Qed.

Lemma writes_trans h h1 h2 out1 out2 es1 es2 es :
  writes h h1 out1 es1 → writes h1 h2 out2 es2 → es1 ⊆ es → es2 ⊆ es → writes h h2 out2 es.
Proof.
  intros [_ H1 H2] [H3 H4 H5] Hs1 Hs2. split; [done|congruence|]. intros l Hl.
  rewrite H5, H2; [done|by intros ?%Hs1|by intros ?%Hs2].
Qed.

(** The start of a merge: two runs of at most [k] handles. *)
Lemma merging_start s out k es :
  path (a_links s) (hd_error es) es None → NoDup (out ++ es) → written (a_links s) out →
  merging s out (take k es) (take k (drop k es)) (drop k (drop k es)) (hd_error es) (hd_error (drop k es)).
Proof.
  intros Hp Hnd Hw. rewrite <- (take_drop k es) in Hp at 2. apply path_app in Hp as (m & H1 & H2).
  pose proof (path_head _ _ _ H2) as ->. split; [by eexists|by rewrite take_drop|by rewrite !take_drop|done].
Qed.

Lemma sort_pass_run fuel : ∀ s out es nm k,
  path (a_links s) (hd_error es) es None → NoDup (out ++ es) → written (a_links s) out →
  (0 < k)%nat → Z.of_nat k < 2 ^ 32 → Z.of_nat (length es) < 2 ^ 32 → (length es ≤ fuel)%nat →
  0 ≤ nm → nm + Z.of_nat (length (runs no_after k es)) < 2 ^ 32 →
  ∃ h', sort_pass cmpfcn fuel (hd_error es) (Z.of_nat k) (hd_error out) (last out) nm s
      = Done (hd_error (out ++ pass no_after k es), last (out ++ pass no_after k es),
              nm + Z.of_nat (length (runs no_after k es))) (with_links h' s)
    ∧ writes (a_links s) h' (out ++ pass no_after k es) (out ++ es).
Proof.
  induction fuel as [|fuel IH]; intros s out es nm k Hp Hnd Hw Hk Hk32 He32 Hf H0 Hb;
    (destruct (decide (es = [])) as [->|Hne];
      [exists (a_links s); rewrite with_links_id, !app_nil_r, Z.add_0_r; split; [done|by split]|]).
  { destruct es; [done|cbn in Hf; lia]. }
  pose proof (merging_start s out k es Hp Hnd Hw) as Hm.
  rewrite runs_step in Hb |- * by done. rewrite pass_step by done. cbn [length] in Hb |- *.
  assert (∃ l es0, es = l :: es0) as (l & es0 & Hes) by (destruct es; [done|by eauto]).
  assert (hd_error es = Some l) as Hl by (by rewrite Hes). rewrite Hl in Hp, Hm |- *. cbn [sort_pass].
  rewrite Nat2Z.id, (then_run _ _ _ (hd_error (drop k es), Z.of_nat (length (take k es))) s).
  2:{ rewrite Hes in *. rewrite (advance_run k l es0 0 s Hp) by lia. by rewrite length_take. }
  destruct (merge_runs_run (Z.to_nat (Z.of_nat (length (take k es)) + Z.of_nat k)) _ _ _ _ _ _ _ (Z.of_nat k) Hm)
    as (h1 & Hr1 & Hw1).
  { rewrite !length_take, length_drop. destruct (decide (k ≤ length es - k)%nat); [left; lia|right].
    split; [lia|]. apply drop_ge. rewrite length_drop. lia. }
  { rewrite !length_take, length_drop. lia. }
  rewrite (then_run _ _ _ _ _ Hr1), u32_small by lia.
  set (m := list_merge no_after _ _) in *. set (rest := drop k (drop k es)) in *.
  assert ((out ++ m) ++ rest ≡ₚ out ++ es) as Hperm.
  { rewrite <- app_assoc. unfold m, rest. by rewrite merge_Permutation, <- app_assoc, !take_drop. }
  assert (out ++ take k es ++ take k (drop k es) ⊆ out ++ es) as Hsub.
  { rewrite <- Hperm. unfold m. rewrite merge_Permutation. set_solver. }
  destruct (IH (with_links h1 s) (out ++ m) rest (nm + 1) k) as (h2 & Hr2 & Hw2); try done; try lia.
  - eapply path_agree; [|by destruct Hm as [_ (? & _ & Hq)%path_app _ _]; rewrite <- (path_head _ _ _ Hq)].
    intros l' Hl'. cbn [a_links with_links]. rewrite (ws_other _ _ _ _ Hw1); [done|]. intros Hin.
    rewrite <- Hperm in Hnd. apply NoDup_app in Hnd as (_ & Hd & _). apply (Hd l'); [|done].
    unfold m. by rewrite merge_Permutation.
  - by rewrite Hperm.
  - by destruct Hw1.
  - unfold rest. rewrite !length_drop. lia.
  - unfold rest. rewrite !length_drop. rewrite Hes in *. cbn [length] in *. lia.
  - rewrite <- app_assoc in Hr2, Hw2. exists h2. split; [rewrite Hr2; do 2 f_equal; lia|].
    eapply writes_trans; [exact Hw1|exact Hw2|done|]. by rewrite Hperm.
Qed.

Lemma sort_loop_run fuel : ∀ s es k,
  path (a_links s) (hd_error es) es None → NoDup es → es ≠ [] →
  (0 < k)%nat → Z.of_nat k * 2 ^ Z.of_nat fuel = 2 ^ 33 → Z.of_nat (length es) < 2 ^ 32 → Z.of_nat k ≤ 2 ^ 31 →
  ∃ s', sort_loop cmpfcn fuel (hd_error es) (Z.of_nat k) s = Done tt s'
    ∧ ordered s' (passes no_after fuel k es)
    ∧ dom (a_links s') = dom (a_links s) ∧ ∀ l, l ∉ es → a_links s' !! l = a_links s !! l.
Proof.
  induction fuel as [|fuel IH]; intros s es k Hp Hnd Hne Hk Hpow Hlen Hk31; [cbn in Hpow; lia|].
  destruct (runs_length no_after k es Hk) as [Hr1 Hr2]. pose proof (pass_perm no_after k es Hk) as Hperm.
  cbn [sort_loop]. rewrite (then_run (gets _) _ _ _ _ eq_refl).
  destruct (sort_pass_run (size (a_links s)) s [] es 0 k) as (h & Hrun & Hws); try done; try lia.
  { apply path_fuel; [done|]. intros l Hl. by eapply path_lookup. }
  cbn [hd_error last app] in Hrun, Hws. rewrite (then_run _ _ _ _ _ Hrun). clear Hrun.
  set (es' := pass no_after k es) in *. destruct (last es') as [t|] eqn:Ht.
  2:{ apply last_None in Ht. rewrite Ht in Hperm. by apply Permutation_nil_l in Hperm. }
  rewrite (then_run _ _ _ tt (with_links (closed (last es') h) s)).
  2:{ change (link_upd t) with (link_upd_opt (Some t)). rewrite link_upd_opt_run; [by rewrite Ht|].
      intros l [= <-]. apply (written_lookup _ _ _ (ws_written _ _ _ _ Hws)). by apply last_elem. }
  assert (linked (closed (last es') h) None (hd_error es') es' None) as Hlk by apply Hws.
  assert (NoDup es') as Hnd' by (by rewrite Hperm).
  assert (∀ l, l ∉ es → closed (last es') h !! l = a_links s !! l) as Hother.
  { intros l Hl. unfold closed. rewrite opt_alter_ne; [by apply Hws|]. intros Hx%last_elem. by rewrite Hperm in Hx. }
  assert (dom (closed (last es') h) = dom (a_links s)) as Hdom by (unfold closed; rewrite opt_alter_dom; apply Hws).
  cbn [passes]. fold es'. rewrite <- Ht in *. destruct (decide (length es ≤ 2 * k)%nat) as [Hle|Hgt].
  - rewrite decide_True by lia. eexists. split; [reflexivity|]. by split.
  - rewrite decide_False by lia. rewrite u32_small by lia. rewrite Nat2Z.inj_succ, Z.pow_succ_r in Hpow by lia.
    replace (Z.of_nat k * 2) with (Z.of_nat (2 * k)) by lia.
    destruct (IH (with_links (closed (last es') h) s) es' (2 * k)%nat) as (s' & Hrun & Hod & Hd & Ho); try done; try lia.
    + by eapply linked_path.
    + intros ->. by apply Permutation_nil_l in Hperm.
    + by rewrite Hperm.
    + destruct fuel as [|[|fuel]]; [cbn in Hpow; lia..|]. rewrite !Nat2Z.inj_succ, !Z.pow_succ_r in Hpow by lia.
      pose proof (Z.pow_pos_nonneg 2 (Z.of_nat fuel)). nia.
    + exists s'. split; [done|]. split; [done|]. split; [by rewrite Hd|].
      intros l Hl. rewrite Ho; [by apply Hother|]. by rewrite Hperm.
Qed.

(** What [HASH_SRT] makes of the application order. *)
Definition hash_sort es : list loc := passes no_after 33 1 es.

Lemma hash_sort_perm es : hash_sort es ≡ₚ es.
Proof. apply passes_perm. lia. Qed.

Lemma HASH_SRT_run s es :
  ordered s es → Z.of_nat (length es) < 2 ^ 32 →
  ∃ s', HASH_SRT cmpfcn s = Done tt s' ∧ ordered s' (hash_sort es)
    ∧ dom (a_links s') = dom (a_links s) ∧ ∀ l, l ∉ es → a_links s' !! l = a_links s !! l.
Proof.
  intros Hod Hlen. unfold HASH_SRT. rewrite (then_run (gets _) _ _ _ _ eq_refl), (ordered_head _ _ Hod).
  destruct (decide (es = [])) as [->|Hne]; [by exists s|].
  assert (is_Some (hd_error es)) as [x Hx] by (destruct es; [done|by eexists]). rewrite Hx.
  destruct Hod as [Hl Hnd Ht]. pose proof (hd_error_dseg Hl) as Hh. rewrite Hh in Hl.
  rewrite <- Hx. apply (sort_loop_run 33 s es 1); try done; [by eapply linked_path|lia].
Qed.

Lemma hash_sort_sorted es `{!Transitive no_after, !Total no_after} :
  Z.of_nat (length es) < 2 ^ 32 →
  StronglySorted no_after (hash_sort es)
  ∧ ∀ x, filter (λ y, no_after x y ∧ no_after y x) (hash_sort es) = filter (λ y, no_after x y ∧ no_after y x) es.
Proof.
  intros Hlen. apply (passes_sorted no_after 33 1); [done..|lia|change (2 ^ Z.of_nat 33) with (2 ^ 33); lia|done|].
  assert (∀ l, in_runs no_after 1 l) as Hone; [|apply Hone].
  induction l as [|x l IH]; [constructor; [cbn; lia|constructor]|].
  apply (in_runs_cons _ 1 [x]); [done|by repeat constructor|done].
Qed.
End Loops.

(** ** The table *)

(** No handle is linked yet. *)
Definition unused (n : nat) : app_list :=
  AppList None None (list_to_map ((λ i, (Pos.of_succ_nat i, Links None None)) <$> seq 0 n)).

Lemma spec_ops_length ops items : (length (foldl spec_op items ops) ≤ length items + length ops)%nat.
Proof.
  revert items. induction ops as [|op ops IH]; intros items; cbn [foldl length]; [lia|].
  etrans; [apply IH|]. destruct op as [key elt|elt]; cbn [spec_op]; [rewrite length_app; cbn; lia|].
  unfold without. pose proof (length_filter (λ x : Z * loc, x.2 ≠ elt) items). lia.
Qed.

(** C11. The handles of a table that was built by any history of additions and
    deletions are linked in the table's order, and [HASH_SRT] ends, whatever
    the number of elements: it leaves a sound list of the same elements, sorted
    for any comparison that is a total preorder, elements that compare equal in
    the order they had. *)
Theorem hash_table_sorts cmpfcn malloc ops head n s0 :
  ops_ok [] ops = true → run_ops malloc None ops 0%nat = Done head n → ordered s0 [] → allocated s0 ops → Z.of_nat (length ops) < 2 ^ 32 →
  Transitive (no_after cmpfcn) → Total (no_after cmpfcn) →
  let es := hash_order head in
  ∃ s s' es',
    order_ops ops s0 = Done tt s ∧ ordered s es ∧ HASH_SRT cmpfcn s = Done tt s' ∧ ordered s' es'
    ∧ es' ≡ₚ es ∧ StronglySorted (no_after cmpfcn) es'
    ∧ (∀ x, let same y := no_after cmpfcn x y ∧ no_after cmpfcn y x in filter same es' = filter same es)
    ∧ fsck_order s' = Done (Some (from_option num_items 0 head)) s'.
Proof.
  intros Hok Hops Hnil Hall Hlen Htr Htot es. pose proof (run_ops_done malloc ops None [] _ _ _ models_nil Hok Hops) as Hm.
  assert (es = (foldl spec_op [] ops).*2) as Hes by (by apply models_order).
  destruct (order_ops_ordered ops s0 [] Hnil Hok Hall) as (s & Hrun & Hod & _). rewrite <- Hes in Hod.
  assert (Z.of_nat (length es) < 2 ^ 32) as Hl
    by (rewrite Hes, length_fmap; pose proof (spec_ops_length ops []); cbn [length] in *; lia).
  destruct (HASH_SRT_run cmpfcn s es Hod Hl) as (s' & Hs & Hod' & _).
  destruct (hash_sort_sorted cmpfcn es Hl) as [H1 H2]. exists s, s', (hash_sort cmpfcn es).
  split_and!; try done; [apply hash_sort_perm|].
  rewrite (fsck_order_ordered s' _ Hod'), hash_sort_perm, u32_small by lia. do 2 f_equal.
  destruct Hm as [Ht _ _]. unfold es, hash_order. destruct head as [tbl|]; [|done].
  destruct Ht as ([_ _ Hn _ _ _] & _). cbn [from_option]. rewrite length_fmap, Hn. symmetry. apply u32_small. unfold es, hash_order in Hl. rewrite length_fmap in Hl. lia.
Qed.

(** Sorting by the last two bits of an address. *)
Definition by_class (x y : loc) : Z := Z.pos x mod 4 - Z.pos y mod 4.
Definition sort_history : list hash_op :=
  [OpAdd 50 5; OpAdd 30 3; OpAdd 90 9; OpAdd 20 2; OpAdd 70 7; OpAdd 10 1; OpDel 3; OpDel 2; OpAdd 60 6]%positive.

Lemma hash_table_sorts_witness :
  wp (run_ops small_machine None sort_history) (λ head _,
    let es := hash_order head in
    ∃ s s' es',
      order_ops sort_history (unused 16) = Done tt s ∧ ordered s es ∧ HASH_SRT by_class s = Done tt s' ∧ ordered s' es'
      ∧ es' ≡ₚ es ∧ StronglySorted (no_after by_class) es'
      ∧ (∀ x, let same y := no_after by_class x y ∧ no_after by_class y x in filter same es' = filter same es)
      ∧ fsck_order s' = Done (Some (from_option num_items 0 head)) s') 0%nat.
Proof.
  assert (match run_ops small_machine None sort_history 0%nat with Done _ _ => true | _ => false end = true) as Hrun by by vm_compute.
  unfold wp. destruct (run_ops small_machine None sort_history 0%nat) as [head n| | |] eqn:Hr; [|done..].
  apply (hash_table_sorts by_class small_machine sort_history head n (unused 16)).
  - by vm_compute.
  - exact Hr.
  - clear Hr. by apply ordered_nil.
  - clear Hr. intros key elt Hin. apply elem_of_dom.
    assert (Forall (λ op, match op with OpAdd _ e => bool_decide (is_Some (a_links (unused 16) !! e)) | OpDel _ => true end = true) sort_history)
      as Hall by (by repeat constructor).
    rewrite Forall_forall in Hall. specialize (Hall _ Hin). by apply bool_decide_eq_true in Hall.
  - clear Hr. done.
  - clear Hr. intros x y z. unfold no_after, by_class. lia.
  - clear Hr. intros x y. unfold no_after, by_class. lia.
Defined.

(** Evaluation: classes 1 (5, 9, 1), 2 (6) and 3 (7), each in the order of
    insertion. *)
Lemma sorted_history :
  match (order_ops sort_history;; HASH_SRT by_class) (unused 16) with
  | Done _ s => (a_head s, a_tail s, (λ l, l_next <$> a_links s !! l) <$> [5; 9; 1; 6; 7])
  | _ => (None, None, [])
  end%positive = (Some 5, Some 7, [Some (Some 9); Some (Some 1); Some (Some 6); Some (Some 7); Some None])%positive.
Proof. by vm_compute. Qed.
