(* ===== verification/HashFns.v ===== *)
(** * What else src/uthash.h offers

    The hash functions a build can choose instead of Jenkins', the Bloom filter
    that [-DHASH_BLOOM] puts in front of lookups, selection into a second table,
    and the small macros.  The program is built with the defaults and uses none
    of them. *)

From S2P Require Import Prelude Words Linked Uthash UthashFacts HashList HashListFacts HashSort.

(** ** Hash functions

    Keys are bytes; [char] is signed ([sx8]), and a negative one is converted to
    [unsigned]. *)

Definition schar (b : Z) : Z := u32 (sx8 b).

(** Bernstein *)
Definition HASH_BER (key : list Z) : Z := foldl (λ h b, u32 (u32 (h * 33) + schar b)) 0 key.

(** Shift-add-xor *)
Definition HASH_SAX (key : list Z) : Z :=
  foldl (λ h b, Z.lxor h (u32 (u32 (Z.shiftl h 5) + Z.shiftr h 2 + schar b))) 0 key.

(** Fowler, Noll, Vo *)
Definition HASH_FNV (key : list Z) : Z := foldl (λ h b, Z.lxor (u32 (h * 16777619)) (schar b)) 2166136261 key.

(** One at a time *)
Definition oat_step (h b : Z) : Z :=
  let h := u32 (h + schar b) in
  let h := u32 (h + u32 (Z.shiftl h 10)) in
  Z.lxor h (Z.shiftr h 6).
Definition HASH_OAT (key : list Z) : Z :=
  let h := foldl oat_step 0 key in
  let h := u32 (h + u32 (Z.shiftl h 3)) in
  let h := Z.lxor h (Z.shiftr h 11) in
  u32 (h + u32 (Z.shiftl h 15)).

(** Paul Hsieh; [get16bits] reads two unsigned bytes, the other bytes are
    signed (shifting a negative one is undefined in C; the compilers shift its
    two's complement). *)
Definition get16bits (key : list Z) (o : nat) : Z := Z.shiftl (nth (o + 1) key 0) 8 + nth o key 0.

Fixpoint sfh_blocks (n : nat) (key : list Z) (h : Z) : list Z * Z :=
  match n with
  | O => (key, h)
  | S n =>
      let h := u32 (h + get16bits key 0) in
      let tmp := Z.lxor (u32 (Z.shiftl (get16bits key 2) 11)) h in
      let h := Z.lxor (u32 (Z.shiftl h 16)) tmp in
      sfh_blocks n (drop 4 key) (u32 (h + Z.shiftr h 11))
  end.

Definition sfh_rest (rem : nat) (key : list Z) (h : Z) : Z :=
  match rem with
  | 3%nat =>
      let h := u32 (h + get16bits key 0) in
      let h := Z.lxor h (u32 (Z.shiftl h 16)) in
      let h := Z.lxor h (u32 (Z.shiftl (sx8 (nth 2 key 0)) 18)) in
      u32 (h + Z.shiftr h 11)
  | 2%nat =>
      let h := u32 (h + get16bits key 0) in
      let h := Z.lxor h (u32 (Z.shiftl h 11)) in
      u32 (h + Z.shiftr h 17)
  | 1%nat =>
      let h := u32 (h + schar (nth 0 key 0)) in
      let h := Z.lxor h (u32 (Z.shiftl h 10)) in
      u32 (h + Z.shiftr h 1)
  | _ => h
  end.

Definition HASH_SFH (key : list Z) : Z :=
  let '(rest, h) := sfh_blocks (length key / 4) key 0xcafebabe in
  let h := sfh_rest (length key mod 4) rest h in
  let h := Z.lxor h (u32 (Z.shiftl h 3)) in
  let h := u32 (h + Z.shiftr h 5) in
  let h := Z.lxor h (u32 (Z.shiftl h 4)) in
  let h := u32 (h + Z.shiftr h 17) in
  let h := Z.lxor h (u32 (Z.shiftl h 25)) in
  u32 (h + Z.shiftr h 6).

(** Murmur; [MUR_GETBLOCK] reads a little-endian word. *)
Definition MUR_ROTL32 (x r : Z) : Z := Z.lor (u32 (Z.shiftl x r)) (Z.shiftr x (32 - r)).
Definition MUR_FMIX (h : Z) : Z :=
  let h := Z.lxor h (Z.shiftr h 16) in
  let h := u32 (h * 0x85ebca6b) in
  let h := Z.lxor h (Z.shiftr h 13) in
  let h := u32 (h * 0xc2b2ae35) in
  Z.lxor h (Z.shiftr h 16).
Definition mur_mix (k : Z) : Z := u32 (MUR_ROTL32 (u32 (k * 0xcc9e2d51)) 15 * 0x1b873593).

Fixpoint mur_blocks (n : nat) (key : list Z) (h : Z) : list Z * Z :=
  match n with
  | O => (key, h)
  | S n =>
      let h := Z.lxor h (mur_mix (le_val (take 4 key))) in
      mur_blocks n (drop 4 key) (u32 (MUR_ROTL32 h 13 * 5 + 0xe6546b64))
  end.

(** The switch falls through from [_mur_tail[2]] to [_mur_tail[0]]. *)
Definition mur_tail (rem : nat) (key : list Z) : Z :=
  let k := if decide (3 ≤ rem)%nat then Z.shiftl (nth 2 key 0) 16 else 0 in
  let k := if decide (2 ≤ rem)%nat then Z.lxor k (Z.shiftl (nth 1 key 0) 8) else k in
  Z.lxor k (nth 0 key 0).

Definition HASH_MUR (key : list Z) : Z :=
  let '(rest, h) := mur_blocks (length key / 4) key 0xf88d5353 in
  let rem := (length key mod 4)%nat in
  let h := if decide (rem = 0)%nat then h else Z.lxor h (mur_mix (mur_tail rem rest)) in
  MUR_FMIX (Z.lxor h (Z.of_nat (length key))).

(** Known values, of keys in ASCII ("a", "foobar", "abc"). *)
Example fnv_a : HASH_FNV [97] = 0x050c5d7e. Proof. reflexivity. Qed.
Example fnv_foobar : HASH_FNV [102; 111; 111; 98; 97; 114] = 0x31f0b262. Proof. reflexivity. Qed.
Example oat_a : HASH_OAT [97] = 0xca2e9442. Proof. reflexivity. Qed.

(** All of them are [unsigned]. *)
Definition is_u32 (h : Z) : Prop := 0 ≤ h < 2 ^ 32.

Lemma is_u32_bits h : 0 ≤ h → (∀ i, 32 ≤ i → Z.testbit h i = false) → is_u32 h.
Proof.
  intros H0 Hb. split; [done|]. destruct (decide (h = 0)) as [->|Hne]; [done|].
  apply Z.log2_lt_pow2; [lia|]. apply Z.nle_gt. intros Hl. pose proof (Z.bit_log2 h ltac:(lia)). by rewrite Hb in *.
Qed.
Lemma is_u32_testbit h i : is_u32 h → 32 ≤ i → Z.testbit h i = false.
Proof.
  intros [H0 H1] Hi. destruct (decide (h = 0)) as [->|Hne]; [apply Z.testbit_0_l|].
  apply Z.bits_above_log2; [done|]. apply Z.log2_lt_pow2 in H1; lia.
Qed.
Lemma is_u32_lxor a b : is_u32 a → is_u32 b → is_u32 (Z.lxor a b).
Proof.
  intros Ha Hb. apply is_u32_bits; [apply Z.lxor_nonneg; split; intros; [apply Hb|apply Ha]|].
  intros i Hi. by rewrite Z.lxor_spec, !is_u32_testbit.
Qed.
Lemma is_u32_lor a b : is_u32 a → is_u32 b → is_u32 (Z.lor a b).
Proof.
  intros Ha Hb. apply is_u32_bits; [apply Z.lor_nonneg; split; [apply Ha|apply Hb]|].
  intros i Hi. by rewrite Z.lor_spec, !is_u32_testbit.
Qed.
Lemma is_u32_shiftr a n : 0 ≤ n → is_u32 a → is_u32 (Z.shiftr a n).
Proof.
  intros Hn Ha. apply is_u32_bits; [apply Z.shiftr_nonneg, Ha|].
  intros i Hi. rewrite Z.shiftr_spec by lia. apply is_u32_testbit; [done|lia].
Qed.
Lemma is_u32_schar b : is_u32 (schar b).
Proof. apply u32_range. Qed.
Create HintDb hashes.
#[local] Hint Resolve is_u32_lxor is_u32_lor is_u32_shiftr is_u32_schar : hashes.
#[local] Hint Extern 1 (0 ≤ _) => lia : hashes.
#[local] Hint Extern 1 (is_u32 (u32 _)) => apply u32_range : hashes.

Lemma foldl_u32 {A} (f : Z → A → Z) (l : list A) h : (∀ h x, is_u32 h → is_u32 (f h x)) → is_u32 h → is_u32 (foldl f h l).
Proof. intros Hf. revert h. induction l as [|x l IH]; intros h Hh; [done|]. apply IH, Hf, Hh. Qed.

Lemma key_byte_range key i : bytes_ok key → 0 ≤ nth i key 0 < 256.
Proof.
  intros Hk. destruct (decide (i < length key)%nat) as [Hi|Hi]; [|rewrite nth_overflow by lia; lia].
  apply (proj1 (Forall_forall _ _) Hk), list_elem_of_In, nth_In. lia.
Qed.

(** The words of the key that Hsieh's function reads need no bound: every use
    is wrapped around. *)
Lemma sfh_blocks_u32 n key h : is_u32 h → is_u32 (sfh_blocks n key h).2.
Proof. revert key h. induction n as [|n IH]; intros key h Hh; [done|]. cbn [sfh_blocks]. apply IH. auto with hashes. Qed.
Lemma sfh_rest_u32 n key h : is_u32 h → is_u32 (sfh_rest n key h).
Proof. destruct n as [|[|[|[|n]]]]; cbn [sfh_rest]; auto with hashes. Qed.

Lemma mur_rotl_u32 x r : 0 ≤ r ≤ 32 → is_u32 x → is_u32 (MUR_ROTL32 x r).
Proof. intros Hr Hx. unfold MUR_ROTL32. auto with hashes. Qed.
Lemma mur_fmix_u32 h : is_u32 h → is_u32 (MUR_FMIX h).
Proof. intros Hh. unfold MUR_FMIX. auto with hashes. Qed.
Lemma mur_blocks_u32 n key h : is_u32 h → is_u32 (mur_blocks n key h).2.
Proof. revert key h. induction n as [|n IH]; intros key h Hh; [done|]. cbn [mur_blocks]. apply IH. auto with hashes. Qed.

Lemma hash_mur_u32 key : Z.of_nat (length key) < 2 ^ 32 → is_u32 (HASH_MUR key).
Proof.
  intros Hlen. unfold HASH_MUR. pose proof (mur_blocks_u32 (length key / 4) key 0xf88d5353 ltac:(done)) as Hb.
  destruct (mur_blocks _ _ _) as [rest h]. apply mur_fmix_u32, is_u32_lxor; [|by split; [lia|]].
  destruct (decide _); [done|]. apply is_u32_lxor; [done|apply u32_range].
Qed.

Lemma hash_functions_unsigned key :
  Z.of_nat (length key) < 2 ^ 32 →
  Forall is_u32 [HASH_BER key; HASH_SAX key; HASH_FNV key; HASH_OAT key; HASH_SFH key; HASH_MUR key].
Proof.
  intros Hlen. rewrite !Forall_cons. split_and!; [..|done].
  1-3: apply foldl_u32; [intros; auto with hashes|done].
  - apply u32_range.
  - unfold HASH_SFH. destruct (sfh_blocks _ _ _). apply u32_range.
  - by apply hash_mur_u32.
Qed.


(** ** The Bloom filter: [nbits] is [HASH_BLOOM] *)

Definition HASH_BLOOM_BYTELEN (nbits : Z) : Z := 2 ^ nbits / 8 + (if decide (2 ^ nbits mod 8 = 0) then 0 else 1).
Definition HASH_BLOOM_MAKE (nbits : Z) : list Z := zeros (Z.to_nat (HASH_BLOOM_BYTELEN nbits)).
Definition bloom_index (nbits hashv : Z) : Z := Z.land hashv (u32 (2 ^ nbits - 1)).
Definition HASH_BLOOM_BITSET (bv : list Z) (idx : Z) : option (list Z) :=
  b ← bv !! Z.to_nat (idx / 8); Some (<[Z.to_nat (idx / 8) := Z.lor b (Z.shiftl 1 (idx mod 8))]> bv).
Definition HASH_BLOOM_BITTEST (bv : list Z) (idx : Z) : option Z :=
  b ← bv !! Z.to_nat (idx / 8); Some (Z.land b (Z.shiftl 1 (idx mod 8))).
Definition HASH_BLOOM_ADD (nbits : Z) (bv : list Z) (hashv : Z) : option (list Z) :=
  HASH_BLOOM_BITSET bv (bloom_index nbits hashv).
Definition HASH_BLOOM_TEST (nbits : Z) (bv : list Z) (hashv : Z) : option Z :=
  HASH_BLOOM_BITTEST bv (bloom_index nbits hashv).

(** Lookup with a filter in front. *)
Definition HASH_FIND_BLOOM (nbits : Z) (head : option ut_table) (bv : list Z) (key : Z) : option (option loc) :=
  match head with
  | None => Some None
  | Some _ =>
      t ← HASH_BLOOM_TEST nbits bv (hash_int key);
      Some (if decide (t = 0) then None else HASH_FIND_INT head key)
  end.

(** The operations of a table with a filter: it is made with the table, added
    to with each element, and freed with the table; deletion leaves it. *)
Definition bloom_op (malloc : nat → Z → bool) (nbits : Z) (c : option ut_table * list Z) (op : hash_op)
    : proc nat (option ut_table * list Z) :=
  let '(head, bv) := c in
  match op with
  | OpAdd key elt =>
      head' ← HASH_ADD_INT malloc head key elt;
      bv ← (match head with
            | None => uthash_malloc malloc (HASH_BLOOM_BYTELEN nbits);; mret (HASH_BLOOM_MAKE nbits)
            | Some _ => mret bv
            end);
      bv ← lift_opt (HASH_BLOOM_ADD nbits bv (hash_int key));
      mret (head', bv)
  | OpDel elt => mret (HASH_DEL head elt, bv)
  end.
Fixpoint bloom_ops (malloc : nat → Z → bool) (nbits : Z) (ops : list hash_op) (c : option ut_table * list Z)
    : proc nat (option ut_table * list Z) :=
  match ops with [] => mret c | op :: ops => c ← bloom_op malloc nbits c op; bloom_ops malloc nbits ops c end.

Section Bloom.
Context (nbits : Z) (Hbits : 0 ≤ nbits ≤ 32).

Lemma bloom_index_range hashv : 0 ≤ bloom_index nbits hashv < 2 ^ nbits.
Proof using Hbits.
  unfold bloom_index. pose proof (Z.pow_le_mono_r 2 nbits 32 ltac:(lia) ltac:(lia)).
  pose proof (Z.pow_pos_nonneg 2 nbits ltac:(lia) ltac:(lia)).
  rewrite u32_small, Z.sub_1_r, <- Z.ones_equiv, Z.land_ones by lia. by apply Z.mod_pos_bound.
Qed.

Definition bv_ok (bv : list Z) : Prop := Z.of_nat (length bv) = HASH_BLOOM_BYTELEN nbits.

Lemma bv_ok_make : bv_ok (HASH_BLOOM_MAKE nbits).
Proof.
  unfold bv_ok, HASH_BLOOM_MAKE, zeros. rewrite length_replicate, Z2Nat.id; [done|].
  unfold HASH_BLOOM_BYTELEN. pose proof (Z.pow_pos_nonneg 2 nbits). pose proof (Z.div_pos (2 ^ nbits) 8).
  destruct (decide _); lia.
Qed.

Lemma bv_ok_lookup bv hashv : bv_ok bv → ∃ b, bv !! Z.to_nat (bloom_index nbits hashv / 8) = Some b.
Proof using Hbits.
  intros Hbv. apply lookup_lt_is_Some_2. unfold bv_ok, HASH_BLOOM_BYTELEN in Hbv.
  pose proof (bloom_index_range hashv) as Hi. revert Hi Hbv. generalize (2 ^ nbits), (bloom_index nbits hashv).
  intros m i Hi Hbv. destruct (decide _); Z.to_euclidean_division_equations; lia.
Qed.

Lemma land_bit x k : 0 ≤ k → Z.land x (Z.shiftl 1 k) ≠ 0 ↔ Z.testbit x k = true.
Proof.
  intros Hk. rewrite Z.shiftl_1_l. split.
  - intros Hne. destruct (Z.testbit x k) eqn:Hb; [done|]. destruct Hne. apply Z.bits_inj'. intros i Hi.
    rewrite Z.land_spec, Z.pow2_bits_eqb, Z.testbit_0_l by done. destruct (Z.eqb_spec k i) as [<-|]; [by rewrite Hb|apply andb_false_r].
  - intros Hb Hz. apply (f_equal (λ z, Z.testbit z k)) in Hz.
    by rewrite Z.land_spec, Z.pow2_bits_true, Hb, Z.testbit_0_l in Hz.
Qed.

(** The filter has the hash value. *)
Definition bloom_has (bv : list Z) (hashv : Z) : Prop := ∃ t, HASH_BLOOM_TEST nbits bv hashv = Some t ∧ t ≠ 0.

Lemma bloom_has_bit bv hashv :
  bloom_has bv hashv ↔ ∃ b, bv !! Z.to_nat (bloom_index nbits hashv / 8) = Some b
    ∧ Z.testbit b (bloom_index nbits hashv mod 8) = true.
Proof.
  unfold bloom_has, HASH_BLOOM_TEST, HASH_BLOOM_BITTEST.
  pose proof (Z.mod_pos_bound (bloom_index nbits hashv) 8 ltac:(lia)). destruct (bv !! _) as [b|].
  - cbn. split; [intros (t & [= <-] & Ht)|intros (b' & [= ->] & Hb)].
    + exists b. split; [done|]. apply land_bit; [lia|done].
    + eexists. split; [reflexivity|]. apply land_bit; [lia|done].
  - split; [by intros (t & [=] & _)|by intros (b & [=] & _)].
Qed.

Lemma bloom_add_ok bv hashv :
  bv_ok bv → ∃ bv', HASH_BLOOM_ADD nbits bv hashv = Some bv' ∧ bv_ok bv' ∧ bloom_has bv' hashv
    ∧ ∀ h, bloom_has bv h → bloom_has bv' h.
Proof using Hbits.
  intros Hbv. destruct (bv_ok_lookup bv hashv Hbv) as [b Hb]. unfold HASH_BLOOM_ADD, HASH_BLOOM_BITSET. rewrite Hb.
  pose proof (Z.mod_pos_bound (bloom_index nbits hashv) 8 ltac:(lia)) as Hm.
  eexists. split; [reflexivity|]. split_and!.
  - unfold bv_ok. by rewrite length_insert.
  - apply bloom_has_bit. eexists. rewrite list_lookup_insert_eq by (by eapply lookup_lt_Some). split; [done|].
    rewrite Z.lor_spec, Z.shiftl_1_l, Z.pow2_bits_true by lia. apply orb_true_r.
  - intros h (b' & Hb' & Ht)%bloom_has_bit. apply bloom_has_bit.
    destruct (decide (Z.to_nat (bloom_index nbits hashv / 8) = Z.to_nat (bloom_index nbits h / 8))) as [E|Hne].
    + rewrite <- E in Hb' |- *. rewrite list_lookup_insert_eq by (by eapply lookup_lt_Some). eexists. split; [done|].
      assert (b' = b) as -> by congruence. by rewrite Z.lor_spec, Ht.
    + exists b'. by rewrite list_lookup_insert_ne.
Qed.

(** What is in the table is in the filter. *)
Definition filtered (head : option ut_table) (bv : list Z) (items : list (Z * loc)) : Prop :=
  head = None ∨ bv_ok bv ∧ ∀ key, key ∈ items.*1 → bloom_has bv (hash_int key).

Section History.
Context (malloc : nat → Z → bool) (below_32G : ∀ i size, malloc i size = true → size < 2 ^ 35).

Lemma bloom_op_run op head bv items n :
  models head items → table_log2 head ≤ 30 → ops_ok items [op] = true → filtered head bv items →
  match bloom_op malloc nbits (head, bv) op n with
  | Done (head', bv') _ => models head' (spec_op items op) ∧ table_log2 head' ≤ 30 ∧ filtered head' bv' (spec_op items op)
  | Exited => ∃ i size, malloc i size = false
  | Fault | Stuck => False
  end.
Proof using Hbits below_32G.
  intros Hm Hlog Hop Hf. pose proof (run_op_models malloc below_32G op head items n Hm Hlog Hop) as H1.
  destruct op as [key elt|elt]; cbn [bloom_op run_op spec_op] in *.
  - unfold mbind, proc_bind. destruct (HASH_ADD_INT _ _ _ _ _) as [head' n'| | |]; [|done..]. destruct H1 as [Hm' Hl'].
    assert (match (match head with None => n0 ← uthash_malloc malloc (HASH_BLOOM_BYTELEN nbits); mret (HASH_BLOOM_MAKE nbits)
        | Some _ => mret bv end) n' with
      | Done bv0 _ => bv_ok bv0 ∧ ∀ k, k ∈ items.*1 → bloom_has bv0 (hash_int k)
      | Exited => ∃ i size, malloc i size = false | _ => False end) as Hbv0.
    { destruct head; [by destruct Hf as [|]|]. unfold uthash_malloc, mbind, proc_bind. destruct (malloc _ _) eqn:?; [|by eauto].
      split; [apply bv_ok_make|]. destruct Hm as [-> _ _]. by intros k ?%elem_of_nil. }
    unfold mbind, proc_bind in Hbv0. destruct (_ n') as [bv0 n1| | |]; [|done..]. destruct Hbv0 as [Hbv0 Hhas].
    destruct (bloom_add_ok bv0 (hash_int key) Hbv0) as (bv1 & -> & Hok1 & Hnew & Hold). cbn.
    split; [done|]. split; [done|]. right. split; [done|]. intros k. rewrite fmap_app, elem_of_app. intros [Hk|Hk]; [by apply Hold, Hhas|].
    apply list_elem_of_singleton in Hk as ->. done.
  - cbn in *. destruct H1. split; [done|]. split; [done|]. destruct Hf as [->|[Hbv Hhas]]; [by left|right]. split; [done|].
    intros k (x & -> & Hx)%list_elem_of_fmap. apply Hhas, list_elem_of_fmap_2. by apply list_elem_of_filter in Hx as [_ ?].
Qed.

Lemma bloom_ops_run ops : ∀ head bv items n,
  models head items → table_log2 head ≤ 30 → ops_ok items ops = true → filtered head bv items →
  match bloom_ops malloc nbits ops (head, bv) n with
  | Done (head', bv') _ => models head' (foldl spec_op items ops) ∧ filtered head' bv' (foldl spec_op items ops)
  | Exited => ∃ i size, malloc i size = false
  | Fault | Stuck => False
  end.
Proof using Hbits below_32G.
  induction ops as [|op ops IH]; intros head bv items n Hm Hl Hok Hf; [done|].
  apply ops_ok_cons in Hok as [Hop Hok]. pose proof (bloom_op_run op head bv items n Hm Hl Hop Hf) as H1.
  cbn [bloom_ops foldl]. unfold mbind, proc_bind. destruct (bloom_op _ _ _ _ _) as [[head' bv'] n'| | |]; [|done..].
  destruct H1 as (? & ? & ?). by apply IH.
Qed.

(** The filter never hides an element: for any number of bits, a table built
    by any history answers every lookup as the table without it. *)
Theorem bloom_transparent ops :
  ops_ok [] ops = true →
  match bloom_ops malloc nbits ops (None, []) 0%nat with
  | Done (head, bv) _ => ∀ key, HASH_FIND_BLOOM nbits head bv key = Some (HASH_FIND_INT head key)
  | Exited => ∃ i size, malloc i size = false
  | Fault | Stuck => False
  end.
Proof using Hbits below_32G.
  intros Hok. pose proof (bloom_ops_run ops None [] [] 0%nat models_nil ltac:(cbn; lia) Hok ltac:(by left)) as Hrun.
  destruct (bloom_ops _ _ _ _ _) as [[head bv] n| | |]; [|done..]. destruct Hrun as [Hm Hf]. intros key.
  destruct head as [tbl|]; [|done]. destruct Hf as [|[Hbv Hhas]]; [done|].
  cbn [HASH_FIND_BLOOM]. destruct (decide (key ∈ (foldl spec_op [] ops).*1)) as [Hin|Hni].
  - destruct (Hhas key Hin) as (t & -> & Ht). cbn [mbind option_bind]. by rewrite decide_False.
  - destruct (bv_ok_lookup bv (hash_int key) Hbv) as [b Hb]. unfold HASH_BLOOM_TEST, HASH_BLOOM_BITTEST. rewrite Hb.
    cbn [mbind option_bind]. rewrite (models_find _ _ key Hm), not_elem_of_list_to_map_1 by done. by destruct (decide _).
Qed.
End History.

(** An element that was not added to the filter, as those that [HASH_SELECT]
    puts into a table, is not found. *)
Lemma unfiltered_not_found tbl key :
  HASH_FIND_BLOOM nbits (Some tbl) (HASH_BLOOM_MAKE nbits) key = Some None.
Proof using Hbits.
  destruct (bv_ok_lookup _ (hash_int key) bv_ok_make) as [b Hb]. cbn [HASH_FIND_BLOOM].
  unfold HASH_BLOOM_TEST, HASH_BLOOM_BITTEST. rewrite Hb. unfold HASH_BLOOM_MAKE, zeros in Hb.
  apply lookup_replicate in Hb as [-> _]. cbn [mbind option_bind]. by rewrite Z.land_0_l, decide_True.
Qed.
End Bloom.

(** ** Selection into a second table

    The elements of [src] that satisfy a condition, in the order of the buckets,
    are linked through their second handles.  [dst] is empty before. *)

Section Select.
Context (cond : loc → bool).

Fixpoint select_from (elts : list loc) (last_elt : option loc) : order unit :=
  match elts with
  | [] => mret tt
  | elt :: elts =>
      if cond elt then
        link_upd elt (λ e, e <| l_prev := last_elt |> <| l_next := None |>);;
        link_upd_opt last_elt (λ e, e <| l_next := Some elt |>);;
        dst ← gets a_head;
        (match dst with
         | None => set_head (Some elt);; set_tail (Some elt)
         | Some _ => mret tt
         end);;
        select_from elts (Some elt)
      else select_from elts last_elt
  end.

Definition bucket_order (src : option ut_table) : list loc :=
  match src with None => [] | Some tbl => h_elt <$> mjoin (hh_chain <$> buckets tbl) end.

Definition HASH_SELECT (src : option ut_table) : order unit := select_from (bucket_order src) None.

(** The buckets and the count of [dst]. *)
Definition select_item (malloc : nat → Z → bool) (dst : ut_table) (h : hash_handle) : proc nat ut_table :=
  dst ← HASH_ADD_TO_BKT malloc dst (HASH_TO_BKT (h_hashv h) (num_buckets dst)) h;
  mret (dst <| num_items ::= (λ n, u32 (n + 1)) |>).
Fixpoint select_items (malloc : nat → Z → bool) (dst : ut_table) (hs : list hash_handle) : proc nat ut_table :=
  match hs with [] => mret dst | h :: hs => dst ← select_item malloc dst h; select_items malloc dst hs end.

Lemma linked_written h out : linked h None (hd_error out) out None → written h out.
Proof.
  intros Hl. unfold written, closed. destruct (last out) as [x|] eqn:Hx; [|done].
  apply last_Some in Hx as [pre ->]. pose proof Hl as (m & _ & -> & e & He & _ & _ & Hn)%dseg_app.
  eapply dseg_agree; [|exact Hl]. intros y _. cbn. destruct (decide (x = y)) as [<-|Hne]; [|by rewrite lookup_alter_ne].
  rewrite lookup_alter_eq, He. cbn in Hn |- *. destruct e. cbn in *. by subst.
Qed.

Definition select_links out (elt : loc) h : gmap loc links :=
  opt_alter (λ e, e <| l_next := Some elt |>) (last out) (alter (λ e, e <| l_prev := last out |> <| l_next := None |>) elt h).

Lemma select_links_linked out elt h :
  NoDup out → elt ∉ out → is_Some (h !! elt) → linked h None (hd_error out) out None →
  linked (select_links out elt h) None (hd_error (out ++ [elt])) (out ++ [elt]) None.
Proof.
  intros Hnd Hne He Hl. pose proof (append_links_written out elt h Hnd Hne He (linked_written _ _ Hl)) as Hw.
  unfold written, closed in Hw. rewrite last_snoc in Hw. eapply dseg_agree; [|exact Hw].
  intros x _. unfold select_links, append_links. cbn [opt_alter].
  assert (last out ≠ Some elt) as Hx by (by intros ?%last_elem).
  destruct (decide (x = elt)) as [->|Hxe].
  - rewrite opt_alter_ne, !lookup_alter_eq, opt_alter_ne by done. by destruct (h !! elt) as [[]|].
  - rewrite lookup_alter_ne by done. rewrite lookup_alter_ne by done.
    destruct (last out) as [y|]; [|by cbn; rewrite lookup_alter_ne]. cbn. destruct (decide (y = x)) as [->|Hyx].
    + by rewrite !lookup_alter_eq, lookup_alter_ne.
    + by rewrite !lookup_alter_ne.
Qed.

(** The list is sound, but [tail] stays at its first element. *)
Record selected s out : Prop := {
  se_links : linked (a_links s) None (hd_error out) out None;
  se_head : a_head s = hd_error out;
  se_tail : a_tail s = hd_error out }.

Lemma select_from_run elts : ∀ s out,
  selected s out → NoDup (out ++ elts) → (∀ l, l ∈ elts → l ∈ dom (a_links s)) →
  ∃ s', select_from elts (last out) s = Done tt s' ∧ selected s' (out ++ filter (λ l, cond l = true) elts)
    ∧ dom (a_links s') = dom (a_links s).
Proof.
  induction elts as [|elt elts IH]; intros s out Hs Hnd Hall.
  { exists s. rewrite filter_nil, app_nil_r. done. }
  cbn [select_from]. rewrite filter_cons. destruct (cond elt) eqn:Hc; [rewrite decide_True by done|rewrite decide_False by done].
  2:{ apply IH; [done|by eapply NoDup_without|intros l Hl; apply Hall; by right]. }
  assert (is_Some (a_links s !! elt)) as [e He] by (apply elem_of_dom, Hall; by left).
  pose proof Hnd as (Ho & Hd & _)%NoDup_app. assert (elt ∉ out) as Hout by (intros Hx; apply (Hd elt Hx); by left).
  destruct Hs as [Hl Hh Ht]. set (s1 := with_links (select_links out elt (a_links s)) s).
  rewrite (then_run _ _ _ tt (with_links (alter (λ e, e <| l_prev := last out |> <| l_next := None |>) elt (a_links s)) s)).
  2:{ change (link_upd elt) with (link_upd_opt (Some elt)). rewrite link_upd_opt_run; [done|]. intros l [= <-]. by eexists. }
  rewrite (then_run _ _ _ tt s1).
  2:{ rewrite link_upd_opt_run; [done|]. intros l Hx%last_elem. cbn [a_links with_links].
      rewrite lookup_alter_ne by (by intros ->). by apply (dseg_lookup Hl). }
  rewrite (then_run (gets _) _ _ _ _ eq_refl). cbn [a_head s1 with_links]. rewrite Hh.
  destruct (IH (AppList (hd_error (out ++ [elt])) (hd_error (out ++ [elt])) (a_links s1)) (out ++ [elt])) as (s' & Hr & Hs' & Hd').
  - split; [|done|done]. by apply select_links_linked; [..|by eexists|].
  - by rewrite <- app_assoc.
  - intros l Hl'. cbn [a_links s1 with_links]. unfold select_links. rewrite opt_alter_dom, dom_alter_L. apply Hall. by right.
  - rewrite last_snoc in Hr. rewrite <- app_assoc in Hs'. exists s'. split_and!; [|done|].
    + destruct out as [|x out]; [exact Hr|]. clear IH. destruct s as [hd tl h]. cbn [a_head a_tail] in Hh, Ht.
      subst hd tl. exact Hr.
    + rewrite Hd'. cbn [a_links s1 with_links]. unfold select_links. by rewrite opt_alter_dom, dom_alter_L.
Qed.

(** ** The buckets of the selection *)

Record filled (tbl : ut_table) (l : list hash_handle) : Prop := {
  fi_log2 : 0 ≤ log2_num_buckets tbl ≤ 31;
  fi_num : num_buckets tbl = 2 ^ log2_num_buckets tbl;
  fi_items : num_items tbl = u32 (Z.of_nat (length l));
  fi_holds : holds (num_buckets tbl) (buckets tbl) l }.

(** The bucket array may double before the item is counted. *)
Lemma select_item_filled malloc tbl l h n :
  filled tbl l →
  match select_item malloc tbl h n with Done t _ => filled t (h :: l) | Stuck => False | Fault | Exited => True end.
Proof.
  intros [Hlog Hnum Hitems Hh]. unfold select_item, HASH_ADD_TO_BKT.
  destruct (holds_slot _ _ _ _ h Hh Hlog Hnum) as [b Hb]. erewrite lift_bind by exact Hb. cbv zeta.
  set (b' := b <| count ::= (λ c, u32 (c + 1)) |> <| hh_chain ::= cons h |>).
  set (t := tbl <| buckets ::= <[HASH_TO_BKT (h_hashv h) (num_buckets tbl) := b']> |>).
  assert (holds (num_buckets t) (buckets t) (h :: l)) as Ht by by eapply holds_insert.
  assert (∀ t', 0 ≤ log2_num_buckets t' ≤ 31 → num_buckets t' = 2 ^ log2_num_buckets t' → num_items t' = num_items tbl →
      holds (num_buckets t') (buckets t') (h :: l) → filled (t' <| num_items ::= (λ n, u32 (n + 1)) |>) (h :: l)) as Hfin.
  { intros t' ? ? Hi ?. split; cbn; [done|done|by rewrite Hi, Hitems, u32_succ, Nat.add_1_r|done]. }
  case_decide; [|by apply Hfin].
  pose proof (HASH_EXPAND_BUCKETS_holds malloc t (h :: l) n Hlog Hnum ltac:(cbn; rewrite Hitems; apply u32_range) Ht) as He.
  unfold mbind, proc_bind. destruct (HASH_EXPAND_BUCKETS _ _ _) as [t' n'| | |]; [|done..].
  destruct He as (? & ? & ? & _ & ? & _). by apply Hfin.
Qed.

Lemma select_items_filled malloc xs : ∀ tbl l n,
  filled tbl l →
  match select_items malloc tbl xs n with Done t _ => filled t (reverse xs ++ l) | Stuck => False | Fault | Exited => True end.
Proof.
  induction xs as [|x xs IH]; intros tbl l n Hf; [done|]. pose proof (select_item_filled malloc tbl l x n Hf) as H1.
  cbn [select_items]. unfold mbind, proc_bind. destruct (select_item _ _ _ _) as [t n'| | |]; [|done..].
  rewrite reverse_cons, <- app_assoc. by apply IH.
Qed.

(** Lookups in the selection find what was selected. *)
Lemma select_table_ok malloc src n :
  table_ok src →
  let hs := filter (λ h, cond (h_elt h) = true) (mjoin (hh_chain <$> buckets src)) in
  match select_items malloc empty_table hs n with
  | Done t _ => table_ok (t <| app_order := hs |>) | Stuck => False | Fault | Exited => True end.
Proof.
  intros [Hlog Hnum Hitems Hhash Helts Hholds] hs.
  assert (filled empty_table []) as H0 by (split; [by vm_compute|done|done|by apply (holds_empty _ 5)]).
  pose proof (select_items_filled malloc hs empty_table [] n H0) as Hf.
  destruct (select_items _ _ _ _) as [t n'| | |]; [|done..]. destruct Hf as [H1 H2 H3 H4].
  rewrite app_nil_r in *. rewrite length_reverse in H3.
  pose proof (holds_join _ _ _ _ Hholds Hlog Hnum) as Hj.
  split; cbn [log2_num_buckets num_buckets num_items buckets app_order upd]; try done.
  - apply Forall_forall. intros h [_ Hh]%list_elem_of_filter. rewrite Hj in Hh.
    by apply (proj1 (Forall_forall _ _) Hhash).
  - apply NoDup_fmap_filter. by rewrite Hj.
  - apply (holds_perm _ _ (reverse hs)); [by rewrite reverse_Permutation|done].
Qed.

(** Selection into an empty table leaves a sound list of the selected elements
    behind its head.  But [tail] is still the first of them: adding an element
    links it there, and the others are no longer reached from the head. *)
Theorem select_stale_tail src s x :
  a_head s = None → a_tail s = None → NoDup (bucket_order src) →
  (∀ l, l ∈ bucket_order src → l ∈ dom (a_links s)) → x ∈ dom (a_links s) → x ∉ bucket_order src →
  let out := filter (λ l, cond l = true) (bucket_order src) in
  ∃ s1, HASH_SELECT src s = Done tt s1 ∧ linked (a_links s1) None (a_head s1) out None
    ∧ ∀ e e' out', out = e :: e' :: out' →
        ∃ s2, order_add x s1 = Done tt s2 ∧ path (a_links s2) (a_head s2) [e; x] None.
Proof.
  intros Hh Ht Hnd Hall Hx Hnx out.
  destruct (select_from_run (bucket_order src) s []) as (s1 & Hr & [Hl1 Hh1 Ht1] & Hd); [by split|done|done|].
  exists s1. split; [done|]. cbn [app] in *. fold out in Hl1, Hh1, Ht1. rewrite Hh1. split; [done|].
  intros e e' out' Ho. rewrite Ho in Hl1, Hh1, Ht1. destruct Hl1 as (_ & ee & He & _).
  assert (is_Some (a_links s1 !! x)) as [ex Hex] by (apply elem_of_dom; by rewrite Hd).
  assert (x ≠ e) as Hne.
  { intros ->. apply Hnx. assert (e ∈ out) as Hin by (rewrite Ho; by left). by apply list_elem_of_filter in Hin as [_ ?]. }
  destruct s1 as [hd tl h]. cbn [a_head a_tail a_links hd_error] in *. subst hd tl.
  unfold order_add. rewrite (then_run _ _ _ _ _ (link_upd_run x _ ex (AppList _ _ _) Hex)), (then_run (gets _) _ _ _ _ eq_refl).
  unfold set_link. cbn [a_links a_head upd]. rewrite (then_run (gets _) _ _ _ _ eq_refl). cbn [a_tail].
  rewrite (then_run _ _ _ _ _ (link_upd_run e _ ee (AppList _ _ _) ltac:(cbn; by rewrite lookup_insert_ne))).
  unfold set_link. cbn [a_links upd].
  erewrite then_run by (apply link_upd_run; cbn; rewrite lookup_insert_ne, lookup_insert_eq by done; reflexivity).
  eexists. split; [reflexivity|]. cbn. split; [done|]. eexists. rewrite lookup_insert_ne, lookup_insert_eq by done.
  split; [reflexivity|]. cbn. split; [done|]. eexists. rewrite lookup_insert_eq. by split.
Qed.
End Select.

(** ** Small macros *)

Definition HASH_CLEAR (head : option ut_table) : option ut_table := None.
Definition HASH_CNT (head : option ut_table) : Z := from_option num_items 0 head.

(** The count is the number of elements, in 32 bits. *)
Lemma HASH_CNT_items head items : models head items → HASH_CNT head = u32 (Z.of_nat (length items)).
Proof.
  intros [Ht _ _]. destruct head as [tbl|]; [|by subst]. destruct Ht as ([_ _ Hn _ _ _] & -> & _).
  cbn. by rewrite Hn, length_fmap.
Qed.
