(* ===== verification/NatRace.v ===== *)
(** * NAT threads between their critical sections (src/nat.c)

    Both rewriting functions give [natTableLock] back before they read the entry
    they found, and [clean_nat_table] reads the table's head before it takes the
    mutex.  Here each function is cut where its critical section begins and
    ends, and the sections of all threads interleave.  An entry outlives its use
    as long as a packet takes no longer than [NAT_CLEAN_TIME]; after that the
    cleaner frees it under the thread that is using it. *)

From S2P Require Import Prelude Linked Words Settings ArgError Utility Crypto Packet Gate Uthash UthashFacts NatData World Net ToyCrypto ToyWorld Layout HopperFacts Hopper Nat NatFacts NatClean NatTable NatRoundTrip NatSafe.

Lemma app_order_expand malloc tbl n t n' : HASH_EXPAND_BUCKETS malloc tbl n = Done t n' → app_order t = app_order tbl.
Proof.
  unfold HASH_EXPAND_BUCKETS. intros ([] & n1 & _ & Hr)%bind_done. apply bind_done in Hr as (c & n2 & _ & Hr).
  apply bind_done in Hr as (m & n3 & _ & Hr). by injection Hr as <- _.
Qed.
Lemma app_order_add_to_bkt malloc tbl i h n t n' : HASH_ADD_TO_BKT malloc tbl i h n = Done t n' → app_order t = app_order tbl.
Proof.
  unfold HASH_ADD_TO_BKT. intros (b & n1 & _ & Hr)%bind_done. revert Hr. cbv zeta. case_decide.
  - by intros ->%app_order_expand.
  - by intros [= <- _].
Qed.
Lemma hash_order_add malloc t key elt n t' n' : HASH_ADD_INT malloc t key elt n = Done t' n' → hash_order t' = hash_order t ++ [elt].
Proof.
  unfold HASH_ADD_INT. intros (tbl & n1 & Hs & Hr)%bind_done. unfold fmap, proc_fmap in Hr.
  apply bind_done in Hr as (t1 & n2 & Ha%app_order_add_to_bkt & [= <- _]). cbn [hash_order]. rewrite Ha. cbn. rewrite fmap_app.
  f_equal. destruct t as [t|]; [by injection Hs as <- _|]. unfold HASH_MAKE_TABLE in Hs.
  apply bind_done in Hs as ([] & m1 & _ & Hs). apply bind_done in Hs as ([] & m2 & _ & Hs). by injection Hs as <- _.
Qed.

Section Race.
Context `{PolarSSL, Env}.
Implicit Types w : world.

(** ** The critical sections: a return value, or the entry to go on with *)

Definition inbound_section (p : packet_data) : prog (Z + loc) :=
  ip ← lift_opt (p_ipv4 p);
  nat_lock;;
  saddr ← load (ip + 12) ADDR_SIZE p;
  sport ← lift_opt (get_source_port p);
  n ← gets w_nat;
  match HASH_FIND_INT (natTable n) (create_nat_bucket_key saddr sport) with
  | None => nat_unlock;; mret (inl (- ARG_BUCKET_NOT_FOUND))
  | Some bucket =>
      port ← lift_opt (get_dest_port p);
      protocol ← lift_opt (ip_protocol ip (p_data p));
      daddr ← load (ip + 16) ADDR_SIZE p;
      e ← search (inbound_test protocol port daddr) bucket;
      match e with
      | None => nat_unlock;; mret (inl (- ARG_ENTRY_NOT_FOUND))
      | Some e => update_nat_entry_time e;; nat_unlock;; mret (inr e)
      end
  end.

Definition outbound_section (p : packet_data) : prog (Z + loc) :=
  ip ← lift_opt (p_ipv4 p);
  nat_lock;;
  daddr ← load (ip + 16) ADDR_SIZE p;
  dport ← lift_opt (get_dest_port p);
  n ← gets w_nat;
  let key := create_nat_bucket_key daddr dport in
  bucket ← (match HASH_FIND_INT (natTable n) key with
            | Some b => mret (Some b)
            | None => create_nat_bucket daddr dport key
            end);
  match bucket with
  | None => nat_unlock;; mret (inl (- ENOMEM))
  | Some bucket =>
      port ← lift_opt (get_source_port p);
      protocol ← lift_opt (ip_protocol ip (p_data p));
      saddr ← load (ip + 12) ADDR_SIZE p;
      e ← search (outbound_test protocol port saddr) bucket;
      e ← (match e with
           | Some e => mret (Some e)
           | None => create_nat_entry saddr port protocol bucket
           end);
      match e with
      | None => nat_unlock;; mret (inl (- ENOMEM))
      | Some e => update_nat_entry_time e;; nat_unlock;; mret (inr e)
      end
  end.

(** [clean_nat_table] from its mutex on, with the head it has read before. *)
Definition clean_section (b : option loc) (now : timespec) : prog unit :=
  nat_lock;;
  n ← gets w_nat;
  clean_buckets (length (hash_order (natTable n))) now b;;
  nat_unlock.

(** What follows a section of a rewriting function. *)
Definition after_section (rewrite : nat_entry → packet_data → prog packet_data) (p : packet_data) (r : Z + loc) : prog Z :=
  match r with inl ret => mret ret | inr e => send_rewritten rewrite e p end.

(** Put together again they are the functions of [Nat]. *)
Definition same_prog {A} (m m' : prog A) : Prop := ∀ w, m w = m' w.

Lemma same_bind {A B} (m : prog A) (k k' : A → prog B) : (∀ a, same_prog (k a) (k' a)) → same_prog (m ≫= k) (m ≫= k').
Proof using Type. intros Hk w. unfold mbind, proc_bind. destruct (m w); [apply Hk|done..]. Qed.
Lemma same_assoc {A B C} (m : prog A) (k : A → prog B) (k' : B → prog C) (m2 : A → prog C) :
  (∀ a, same_prog (m2 a) (k a ≫= k')) → same_prog (m ≫= m2) ((m ≫= k) ≫= k').
Proof using Type. intros Hk w. unfold mbind, proc_bind in *. destruct (m w) as [a w1| | |]; [apply (Hk a w1)|done..]. Qed.

Ltac cut_section :=
  repeat match goal with
  | |- same_prog (_ ≫= _) ((_ ≫= _) ≫= _) => apply same_assoc; intros ?
  | |- same_prog (match ?x with _ => _ end) _ => destruct x
  | |- same_prog _ _ => by intros w
  end.

Lemma inbound_is_section p : same_prog (do_nat_inbound_rewrite p) (inbound_section p ≫= after_section rewrite_dest p).
Proof using Type. unfold do_nat_inbound_rewrite, inbound_section. cut_section. Qed.
Lemma outbound_is_section p : same_prog (do_nat_outbound_rewrite p) (outbound_section p ≫= after_section rewrite_source p).
Proof using Type. unfold do_nat_outbound_rewrite, outbound_section. cut_section. Qed.
Lemma clean_is_section :
  same_prog clean_nat_table (n ← gets w_nat; now ← current_time; clean_section (hash_head (natTable n)) now).
Proof using Type.
  intros w. unfold clean_nat_table, clean_section, gets, nat_lock, gets, current_time, nat_modify, modify, mbind, proc_bind.
  cbn [w_nat upd]. by destruct (natTableLock _).
Qed.

(** ** What a section does to the entries of others *)

(** Entries stay, for the same connection; [lastUsed] changes to a later
    reading of the clock only.  The first bucket stays the first. *)
Record keeps_entries w w' : Prop := {
  ke_clock : (w_clock w ≤ w_clock w')%nat;
  ke_entry l x : n_entries (w_nat w) !! l = Some x →
    ∃ x', n_entries (w_nat w') !! l = Some x' ∧ same_conn x' x
      ∧ (lastUsed x' = lastUsed x ∨ ∃ i, (w_clock w ≤ i < w_clock w')%nat ∧ lastUsed x' = env_clock i);
  ke_head l : hash_head (natTable (w_nat w)) = Some l → hash_head (natTable (w_nat w')) = Some l }.

Lemma conn_trans x y z : same_conn x y → same_conn y z → same_conn x z.
Proof using Type. unfold same_conn. intuition congruence. Qed.

#[export] Instance keeps_entries_preorder : PreOrder keeps_entries.
Proof using Type.
  split; [intros w; split; [done| |done]; intros l x Hx; exists x; split_and!; [done..|by left]|].
  intros w1 w2 w3 [H1 H2 H2'] [H3 H4 H4']. split; [lia| |by eauto]. intros l x Hx.
  destruct (H2 l x Hx) as (x2 & Hx2 & Hc2 & Hu2), (H4 l x2 Hx2) as (x3 & Hx3 & Hc3 & Hu3).
  exists x3. split; [done|]. split; [by eapply conn_trans|].
  destruct Hu3 as [->|(i & ? & ->)]; [|right; exists i; split; [lia|done]].
  destruct Hu2 as [->|(i & ? & ->)]; [by left|right; exists i; split; [lia|done]].
Qed.

Lemma entries_table w w' :
  (w_clock w ≤ w_clock w')%nat → n_entries (w_nat w') = n_entries (w_nat w) →
  natTable (w_nat w') = natTable (w_nat w) → keeps_entries w w'.
Proof using Type. intros Hc He Ht. split; [done| |by rewrite Ht]. rewrite He. intros l x Hx. exists x. split_and!; [done..|by left]. Qed.

Lemma entries_lock : respects keeps_entries nat_lock.
Proof using Type. unfold nat_lock. proc_walk. apply respects_modify. intros w. by apply entries_table. Qed.
Lemma entries_unlock : respects keeps_entries nat_unlock.
Proof using Type. apply respects_modify. intros w. by apply entries_table. Qed.
Lemma entries_time : respects keeps_entries current_time.
Proof using Type. intros w a w' [= <- <-]. apply entries_table; [cbn; lia|done..]. Qed.
Lemma entries_malloc : respects keeps_entries malloc_ok.
Proof using Type. intros w a w' [= <- <-]. by apply entries_table. Qed.
Lemma entries_load off n p : respects keeps_entries (load off n p).
Proof using Type. apply respects_lift, _. Qed.
Lemma entries_bucket_get l : respects keeps_entries (bucket_get l).
Proof using Type. unfold bucket_get. proc_walk. Qed.
Lemma entries_entry_get l : respects keeps_entries (entry_get l).
Proof using Type. unfold entry_get. proc_walk. Qed.
Lemma entries_bucket_upd l f : respects keeps_entries (bucket_upd l f).
Proof using Type.
  unfold bucket_upd. apply respects_bind; [apply _|apply entries_bucket_get|intros b].
  apply respects_modify. intros w. by apply entries_table.
Qed.

(** Links may change, and [lastUsed] together with the clock. *)
Lemma entries_entry_upd l f : (∀ x, same_conn (f x) x ∧ lastUsed (f x) = lastUsed x) → respects keeps_entries (entry_upd l f).
Proof using Type.
  intros Hf w [] w' Hr. unfold entry_upd in Hr. apply bind_done in Hr as (x & w1 & Hg & Hm).
  unfold entry_get, gets, mbind, proc_bind in Hg. destruct (n_entries (w_nat w) !! l) as [y|] eqn:Hl; [|done].
  injection Hg as <- <-. injection Hm as <-. split; [done| |done]. intros k z Hz. cbn.
  destruct (decide (l = k)) as [<-|Hne].
  - simplify_eq. exists (f y). rewrite lookup_insert_eq. destruct (Hf y). by split_and!; [|..|left].
  - exists z. rewrite lookup_insert_ne by done. by split_and!; [..|left].
Qed.

Lemma entries_touch e : respects keeps_entries (update_nat_entry_time e).
Proof using Type.
  intros w [] w' Hr. unfold update_nat_entry_time, entry_upd, entry_get, current_time, gets, nat_modify, modify, mbind, proc_bind in Hr.
  cbn [w_nat upd] in Hr. destruct (n_entries (w_nat w) !! e) as [y|] eqn:Hl; [|done]. cbn [lift_opt mret proc_ret] in Hr.
  injection Hr as <-. split; [cbn; lia| |done]. intros k z Hz. cbn. destruct (decide (e = k)) as [<-|Hne].
  - simplify_eq. eexists. rewrite lookup_insert_eq. split; [reflexivity|]. split; [done|]. right. exists (w_clock w). split; [lia|done].
  - exists z. rewrite lookup_insert_ne by done. by split_and!; [..|left].
Qed.
End Race.
#[export] Hint Resolve entries_lock entries_unlock entries_time entries_malloc entries_load entries_bucket_get entries_entry_get
  entries_bucket_upd entries_touch : procs.

Section Sections.
Context `{PolarSSL, Env}.
Implicit Types w : world.

Lemma entries_search test b : respects keeps_entries (search test b).
Proof using Type.
  assert (∀ fuel e, respects keeps_entries (find_entry fuel test e)) as Hf.
  { induction fuel as [|fuel IH]; intros [e|]; cbn [find_entry]; proc_walk. }
  unfold search. proc_walk.
Qed.

Lemma entries_current_ip : respects keeps_entries current_ip.
Proof using Type.
  unfold current_ip, ipLock_lock, ipLock_unlock, gateInfo, deref, generate_ip_corrected, gate_get. proc_walk;
    apply respects_modify; intros w; by apply entries_table.
Qed.

Lemma entries_create_bucket extip extport key : respects keeps_entries (create_nat_bucket extip extport key).
Proof using Type. 
  intros w a w' Hr. unfold create_nat_bucket in Hr. apply bind_done in Hr as (ok & w1 & Hm & Hr).
  etrans; [by eapply entries_malloc|]. destruct ok; cbn [negb] in Hr; [|by injection Hr as _ <-].
  apply bind_done in Hr as (n & w2 & [= <- <-] & Hr). cbv zeta in Hr. apply bind_done in Hr as ([] & w2 & [= <-] & Hr).
  apply bind_done in Hr as (t & w3 & Ht & Hr). apply bind_done in Hr as ([] & w4 & [= <-] & [= _ <-]).
  unfold uthash in Ht. destruct (HASH_ADD_INT _ _ _ _ _) as [t' i| | |] eqn:Ha; [|done..]. injection Ht as <- <-.
  apply hash_order_add in Ha. split; [done|..].
  - intros l x Hx. exists x. by split_and!; [..|left].
  - intros l Hl. change (hd_error (hash_order t') = Some l). rewrite Ha.
    change (hd_error (hash_order (natTable (w_nat w1))) = Some l) in Hl. revert Hl.
    by destruct (hash_order (natTable (w_nat w1))).
Qed.

Lemma entries_link_head e bucket : respects keeps_entries (link_head e bucket).
Proof using Type. unfold link_head. proc_walk; by apply entries_entry_upd. Qed.

(** A new entry is at an address of its own. *)
Lemma entries_create_entry s sport proto bucket : respects keeps_entries (create_nat_entry s sport proto bucket).
Proof using Type.
  unfold create_nat_entry. apply respects_bind; [apply _|auto with procs|intros []; cbn [negb]; [|proc_walk]].
  apply respects_bind; [apply _|apply entries_current_ip|intros ip].
  intros w a w' Hr. apply bind_done in Hr as (n & w1 & [= <- <-] & Hr). cbv zeta in Hr.
  apply bind_done in Hr as ([] & w1 & Hm & Hr). apply bind_done in Hr as ([] & w2 & Hlink & [= _ <-]).
  etrans; [|by eapply entries_link_head]. injection Hm as <-. split; [done| |done]. intros l x Hx. exists x. cbn.
  rewrite lookup_insert_ne; [by split_and!; [..|left]|]. intros <-. by rewrite fresh_loc_None in Hx.
Qed.
#[local] Hint Resolve entries_search entries_create_bucket entries_create_entry : procs.

Lemma entries_inbound p : respects keeps_entries (inbound_section p).
Proof using Type. unfold inbound_section. proc_walk. Qed.
Lemma entries_outbound p : respects keeps_entries (outbound_section p).
Proof using Type. unfold outbound_section. cbv zeta. proc_walk. Qed.

(** ** A section leaves the table sound and its mutex free *)

Ltac unlock := eapply nat_runs_bind; [apply nat_runs_unlock|intros []]; nat_walk.

Lemma nat_runs_inbound_section p : nat_runs false false (inbound_section p).
Proof using Type.
  unfold inbound_section. nat_step; [nat_walk|]. eapply nat_runs_bind; [apply nat_runs_lock|intros []].
  do 3 (eapply (nat_runs_bind true true); [eauto using apart_load, nat_runs_apart with nat_runs|intros ?]). case_match; [|unlock].
  do 4 (eapply (nat_runs_bind true true); [eauto using apart_load, nat_runs_apart, nat_runs_search with nat_runs|intros ?]). case_match; [|unlock].
  eapply (nat_runs_bind true true); [apply nat_runs_touch|intros []]. unlock.
Qed.

Lemma nat_runs_outbound_section p : nat_runs false false (outbound_section p).
Proof using Type.
  unfold outbound_section. nat_step; [nat_walk|]. eapply nat_runs_bind; [apply nat_runs_lock|intros []].
  do 2 (eapply (nat_runs_bind true true); [eauto using apart_load, nat_runs_apart with nat_runs|intros ?]). apply nat_runs_bucket. intros [bl|]; [|unlock].
  do 4 (eapply (nat_runs_bind true true); [eauto using apart_load, nat_runs_apart, nat_runs_search with nat_runs|intros ?]).
  eapply (nat_runs_bind true true); [case_match; [nat_walk|apply nat_runs_create_entry]|intros [e|]]; [|unlock].
  eapply (nat_runs_bind true true); [apply nat_runs_touch|intros []]. unlock.
Qed.
End Sections.

(** ** The cleaner *)

Section Cleaner.
Context `{PolarSSL, Env}.
Implicit Types w : world.

Lemma clean_section_run b now w abs :
  nat_ok (w_nat w) abs → natTableLock (w_nat w) = false → b = None ∨ b = hash_head (natTable (w_nat w)) →
  ∃ n', clean_section b now w = Done tt (set_nat n' w) ∧ natTableLock n' = false ∧ (∃ abs', nat_ok n' abs')
    ∧ (∀ l e, n_entries (w_nat w) !! l = Some e → nat_expired now e = false →
        erase_links <$> n_entries n' !! l = Some (erase_links e))
    ∧ (∀ l e, b = hash_head (natTable (w_nat w)) → n_entries (w_nat w) !! l = Some e → nat_expired now e = true →
        n_entries n' !! l = None).
Proof using Type.
  intros Hn Hl Hb. unfold clean_section.
  set (n1 := w_nat w <| natTableLock := true |>).
  assert (nat_lock w = Done tt (set_nat n1 w)) as Hlock.
  { unfold nat_lock, gets, nat_modify, modify, mbind, proc_bind. by rewrite Hl. }
  assert (∃ n2, clean_buckets (length (hash_order (natTable n1))) now b (set_nat n1 w) = Done tt (set_nat n2 w)
    ∧ (∃ abs', nat_ok n2 abs') ∧ (∀ l e, n_entries (w_nat w) !! l = Some e → nat_expired now e = false →
        erase_links <$> n_entries n2 !! l = Some (erase_links e))
    ∧ (∀ l e, b = hash_head (natTable (w_nat w)) → n_entries (w_nat w) !! l = Some e → nat_expired now e = true →
        n_entries n2 !! l = None)) as (n2 & Hrun & Hok & Hkeep & Hfree).
  { destruct (decide (b = None)) as [->|Hne].
    - exists n1. split; [by destruct (length _)|]. split; [exists abs; by apply locked_ok|]. split; [by intros l e He _; cbn; rewrite He|].
      intros l e Hh He _. rewrite (nat_ok_hash_head _ _ Hn) in Hh. destruct abs; [|done].
      assert (l ∈ all_entries []) as Hin by (apply (no_entries _ _ Hn); by eexists). by apply elem_of_nil in Hin.
    - destruct Hb as [->| ->]; [done|]. change (natTable n1) with (natTable (w_nat w)). rewrite (nat_ok_hash_head _ _ Hn), (nat_ok_order _ _ Hn), length_fmap.
      pose proof (clean_buckets_run now (length abs) [] abs (set_nat n1 w) (locked_ok _ _ _ Hn) ltac:(done)) as Hc.
      apply wp_elim in Hc as ([] & w' & Hc & n2 & -> & Hn2 & Hsh). exists n2. split; [exact Hc|].
      split; [by eexists|]. cbn [app set_nat w_nat upd n_entries n1] in Hn2, Hsh.
      assert (∀ l e, n_entries (w_nat w) !! l = Some e → (l ∈ all_entries (cleaned now n1 abs) ↔ nat_expired now e = false)) as Hin.
      { intros l e He. rewrite elem_of_cleaned. change (live now n1 l) with (live now (w_nat w) l). rewrite (live_True now _ l e He).
        assert (l ∈ all_entries abs) by (apply (no_entries _ _ Hn); by eexists). destruct (nat_expired now e); naive_solver. }
      split; intros l e.
      + intros He Hx. assert (is_Some (n_entries n2 !! l)) as Hs by (apply (nat_ok_entry _ _ _ Hn2); by apply (Hin l e He)).
        rewrite (sh_entries _ _ Hsh l Hs). cbn. by rewrite He.
      + intros _ He Hx. destruct (n_entries n2 !! l) as [y|] eqn:Hy; [|done].
        assert (l ∈ all_entries (cleaned now n1 abs)) as Hc2 by (apply (no_entries _ _ Hn2); by eexists).
        apply (Hin l e He) in Hc2. congruence. }
  exists (n2 <| natTableLock := false |>). split; [|split; [done|split; [|done]]].
  - apply bind_done. exists tt, (set_nat n1 w). split; [exact Hlock|].
    apply bind_done. exists n1, (set_nat n1 w). split; [done|].
    apply bind_done. exists tt, (set_nat n2 w). split; [exact Hrun|done].
  - destruct Hok as [abs' Hok]. exists abs'. by apply locked_ok.
Qed.

(** Where the cleaner is: at the start of [clean_nat_table], with the head of
    the table in [b], or with the time in [now] as well: the clock's [k]-th
    reading. *)
Inductive cleaner := CleanIdle | CleanHead (b : option loc) | CleanReady (b : option loc) (k : nat).

(** The sections and statements of all threads. *)
Inductive turn : world * cleaner → world * cleaner → Prop :=
  | turn_inbound p r w w' c : inbound_section p w = Done r w' → turn (w, c) (w', c)
  | turn_outbound p r w w' c : outbound_section p w = Done r w' → turn (w, c) (w', c)
  | turn_head w : turn (w, CleanIdle) (w, CleanHead (hash_head (natTable (w_nat w))))
  | turn_time w b : turn (w, CleanHead b) (w <| w_clock ::= S |>, CleanReady b (w_clock w))
  | turn_clean w w' b k : clean_section b (env_clock k) w = Done tt w' → turn (w, CleanReady b k) (w', CleanIdle)
  | turn_rest w w' c :
      w_nat w' = w_nat w → w_ipLock w' = false → (w_clock w ≤ w_clock w')%nat → turn (w, c) (w', c).

(** The head the cleaner has read is still the head; or there was none. *)
Definition cleaner_ok w (c : cleaner) : Prop :=
  match c with
  | CleanIdle => True
  | CleanHead b => b = None ∨ b = hash_head (natTable (w_nat w))
  | CleanReady b k => (b = None ∨ b = hash_head (natTable (w_nat w))) ∧ (k < w_clock w)%nat
  end.
Definition sound (s : world * cleaner) : Prop := nat_ready false s.1 ∧ cleaner_ok s.1 s.2.

Lemma cleaner_ok_keeps w w' c : keeps_entries w w' → cleaner_ok w c → cleaner_ok w' c.
Proof using Type.
  intros [Hc _ Hh]. assert (∀ b, b = None ∨ b = hash_head (natTable (w_nat w)) → b = None ∨ b = hash_head (natTable (w_nat w'))) as Hb.
  { intros b [->|Hb]; [by left|]. destruct b as [l|]; [|by left]. right. symmetry. by apply Hh. }
  destruct c as [|b|b k]; cbn; [done|apply Hb|]. intros [? ?]. split; [by apply Hb|lia].
Qed.

Lemma turn_sound s s' : turn s s' → sound s → sound s'.
Proof using Type.
  intros Ht [Hr Hc]. destruct Ht as [p r w w' c Hp|p r w w' c Hp|w|w b|w w' b k Hp|w w' c Hn Hi Hk]; cbn [fst snd] in *.
  - pose proof (nat_runs_inbound_section p w Hr) as Hrun. rewrite Hp in Hrun. destruct Hrun as [Hr' _].
    split; [done|]. eapply cleaner_ok_keeps; [by eapply entries_inbound|done].
  - pose proof (nat_runs_outbound_section p w Hr) as Hrun. rewrite Hp in Hrun. destruct Hrun as [Hr' _].
    split; [done|]. eapply cleaner_ok_keeps; [by eapply entries_outbound|done].
  - split; [done|]. by right.
  - split; [by destruct Hr|]. split; [done|cbn; lia].
  - destruct Hr as [Hl (abs & Hok) Hi], Hc as [Hb _].
    destruct (clean_section_run b (env_clock k) w abs Hok Hl Hb) as (n' & Hrun & ? & ? & _).
    rewrite Hp in Hrun. injection Hrun as ->. by split.
  - destruct Hr as [Hl Ht _]. split; [change (nat_ready false w'); by split; rewrite ?Hn|]. apply (cleaner_ok_keeps w w'); [|done].
    apply entries_table; [done|by rewrite Hn..].
Qed.
End Cleaner.

(** ** The entry that a packet is rewritten with *)

Section InUse.
Context `{PolarSSL, Env}.
Implicit Types w : world.

(** [x] was used at a reading of the clock from the [k]-th on. *)
Definition used_since (k : nat) w (x : nat_entry) : Prop := ∃ i, (k ≤ i < w_clock w)%nat ∧ lastUsed x = env_clock i.

Definition ends_touched (m : prog (Z + loc)) : Prop := ∀ w e w1, m w = Done (inr e) w1 →
  ∃ x, n_entries (w_nat w1) !! e = Some x ∧ used_since (w_clock w) w1 x.

Lemma ends_touched_bind {A} (m : prog A) (k : A → prog (Z + loc)) :
  respects keeps_entries m → (∀ a, ends_touched (k a)) → ends_touched (m ≫= k).
Proof using Type.
  intros Hm Hk w e w2 (a & w1 & H1 & H2)%bind_done. destruct (Hk a w1 e w2 H2) as (x & Hx & i & Hi & Hu).
  exists x. split; [done|]. exists i. pose proof (ke_clock _ _ (Hm _ _ _ H1)). split; [lia|done].
Qed.
Lemma ends_touched_inl (m : prog unit) ret : respects keeps_entries m → ends_touched (m;; mret (inl ret)).
Proof using Type. intros _ w e w1 (a & w2 & _ & [=])%bind_done. Qed.
Lemma ends_touched_touch l : ends_touched (update_nat_entry_time l;; nat_unlock;; mret (inr l)).
Proof using Type.
  intros w e w1 ([] & w2 & Ht & Hr)%bind_done. apply bind_done in Hr as ([] & w3 & Hu & [= <- <-]). injection Hu as <-.
  unfold update_nat_entry_time, entry_upd, entry_get, current_time, gets, nat_modify, modify, mbind, proc_bind in Ht.
  cbn [w_nat upd] in Ht. destruct (n_entries (w_nat w) !! l) as [y|] eqn:Hl; [|done]. cbn [lift_opt mret proc_ret] in Ht.
  injection Ht as <-. eexists. cbn. rewrite lookup_insert_eq. split; [reflexivity|]. exists (w_clock w). split; [cbn; lia|done].
Qed.

Ltac touched :=
  repeat match goal with
  | |- ends_touched (update_nat_entry_time _ ≫= _) => apply ends_touched_touch
  | |- ends_touched (nat_unlock ≫= _) => apply ends_touched_inl; auto with procs
  | |- ends_touched (_ ≫= _) => apply ends_touched_bind; [|intros ?]
  | |- ends_touched (match ?x with _ => _ end) => destruct x
  end.

(** A critical section of a rewriting function. *)
Inductive section_of (p : packet_data) : prog (Z + loc) → Prop :=
  | of_inbound : section_of p (inbound_section p)
  | of_outbound : section_of p (outbound_section p).

Lemma section_touched p m : section_of p m → ends_touched m.
Proof using Type.
  intros [].
  - unfold inbound_section. touched; proc_walk; apply entries_search.
  - unfold outbound_section. cbv zeta. touched; proc_walk; auto using entries_search, entries_create_bucket, entries_create_entry.
Qed.

Lemma section_turn p m w r w' c : section_of p m → m w = Done r w' → turn (w, c) (w', c).
Proof using Type. intros [] Hr; [by eapply turn_inbound|by eapply turn_outbound]. Qed.

(** No reading of the clock before the [k']-th comes too late for an entry used
    since the [k]-th. *)
Definition in_time (k k' : nat) : Prop := ∀ i j, (k ≤ i < k')%nat → (j < k')%nat →
  time_offset (env_clock i) (env_clock j) ≤ NAT_CLEAN_TIME * 1000.

Definition in_use (e : loc) (x0 : nat_entry) (k : nat) w : Prop :=
  ∃ x, n_entries (w_nat w) !! e = Some x ∧ same_conn x x0 ∧ used_since k w x.

Lemma in_use_keeps e x0 k w w' : (k ≤ w_clock w)%nat → keeps_entries w w' → in_use e x0 k w → in_use e x0 k w'.
Proof using Type.
  intros Hk [Hc He _] (x & Hx & Hs & i & Hi & Hu). destruct (He e x Hx) as (x' & Hx' & Hs' & Hu').
  exists x'. split; [done|]. split; [by eapply conn_trans|]. destruct Hu' as [E|(j & Hj & E)].
  - exists i. split; [lia|congruence].
  - exists j. split; [lia|done].
Qed.

Lemma turn_clock s s' : turn s s' → sound s → (w_clock s.1 ≤ w_clock s'.1)%nat.
Proof using Type.
  intros Ht [Hr Hc]. destruct Ht as [p r w w' c Hp|p r w w' c Hp|w|w b|w w' b k Hp|w w' c]; cbn [fst snd] in *; [..|done].
  - by apply (ke_clock _ _ (entries_inbound p _ _ _ Hp)).
  - by apply (ke_clock _ _ (entries_outbound p _ _ _ Hp)).
  - done.
  - cbn. lia.
  - destruct Hr as [Hl (abs & Hok) Hi], Hc as [Hb _].
    destruct (clean_section_run b (env_clock k) w abs Hok Hl Hb) as (n' & Hrun & _).
    rewrite Hp in Hrun. by injection Hrun as ->.
Qed.

Lemma turn_in_use e x0 k s s' :
  turn s s' → sound s → (k ≤ w_clock s.1)%nat → in_time k (w_clock s'.1) → in_use e x0 k s.1 → in_use e x0 k s'.1.
Proof using Type.
  intros Ht [Hr Hc] Hk Htime Hu. destruct Ht as [p r w w' c Hp|p r w w' c Hp|w|w b|w w' b j Hp|w w' c Hn Hi Hcl]; cbn [fst snd] in *.
  - eapply in_use_keeps; [done|by eapply entries_inbound|done].
  - eapply in_use_keeps; [done|by eapply entries_outbound|done].
  - done.
  - eapply in_use_keeps; [done| |done]. apply entries_table; [cbn; lia|done..].
  - destruct Hr as [Hl (abs & Hok) Hi], Hc as [Hb Hj], Hu as (x & Hx & Hs & i & Hi' & Hu).
    destruct (clean_section_run b (env_clock j) w abs Hok Hl Hb) as (n' & Hrun & _ & _ & Hkeep & _).
    rewrite Hp in Hrun. injection Hrun as ->. cbn [set_nat w_clock w_nat upd] in *.
    assert (nat_expired (env_clock j) x = false) as Hx'.
    { unfold nat_expired. apply bool_decide_eq_false. rewrite Hu. 
      specialize (Htime i j ltac:(lia) ltac:(lia)). lia. }
    specialize (Hkeep e x Hx Hx'). destruct (n_entries n' !! e) as [x'|] eqn:He; [|done]. apply (inj Some) in Hkeep.
    exists x'. split; [done|]. split; [eapply conn_trans; [by apply erase_same_conn|done]|].
    exists i. split; [done|]. rewrite <- Hu. by apply (f_equal lastUsed) in Hkeep.
  - eapply in_use_keeps; [done| |done]. apply entries_table; [done|by rewrite Hn..].
Qed.

(** C22. Both rewriting functions read the entry they found after they gave
    the mutex back.  Whatever critical sections of other threads come in
    between, the cleaner's included, with the head of the table that it had read
    without the mutex: if no reading of the clock until then is more than
    [NAT_CLEAN_TIME] later than one of the packet's, the entry is still there,
    for the same connection. *)
Theorem entry_outlives_packet p m w c e w1 w2 c2 :
  sound (w, c) → section_of p m → m w = Done (inr e) w1 → rtc turn (w1, c) (w2, c2) →
  in_time (w_clock w) (w_clock w2) →
  ∃ x x2, n_entries (w_nat w1) !! e = Some x ∧ n_entries (w_nat w2) !! e = Some x2 ∧ same_conn x2 x.
Proof using Type.
  intros Hs Hm Hrun Hrtc Htime. destruct (section_touched p m Hm w e w1 Hrun) as (x & Hx & Hu).
  pose proof (section_turn p m w (inr e) w1 c Hm Hrun) as Ht1.
  pose proof (turn_sound _ _ Ht1 Hs) as Hs1. pose proof (turn_clock _ _ Ht1 Hs) as Hc1. cbn [fst] in Hc1.
  assert (sound (w2, c2) ∧ (w_clock w1 ≤ w_clock w2)%nat ∧ (in_time (w_clock w) (w_clock w2) → in_use e x (w_clock w) w2))
    as (_ & _ & Hfin).
  { change w2 with ((w2, c2).1) at 2 3 4. revert Hrtc. generalize (w2, c2). intros s2. apply (rtc_ind_r (λ s,
      sound s ∧ (w_clock w1 ≤ w_clock s.1)%nat ∧ (in_time (w_clock w) (w_clock s.1) → in_use e x (w_clock w) s.1))).
    - split_and!; [done|done|]. intros _. by exists x.
    - intros s s' _ Ht (Hs' & Hc & Hi). pose proof (turn_clock _ _ Ht Hs') as Hc'.
      split_and!; [by eapply turn_sound|lia|]. intros Htm. eapply turn_in_use; [done|done|lia|done|].
      apply Hi. intros i j ? ?. apply Htm; lia. }
  destruct (Hfin Htime) as (x2 & Hx2 & Hc & _). by exists x, x2.
Qed.

(** C23. If the clock moves on by more than that before the packet is
    rewritten, the cleaner frees the entry under it, and the rewriting reads
    freed memory (it returns only when it cannot get memory for its copy). *)
Theorem entry_freed_in_use p m w e w1 :
  sound (w, CleanIdle) → section_of p m → m w = Done (inr e) w1 →
  (∀ i, (w_clock w ≤ i < w_clock w1)%nat →
    time_offset (env_clock i) (env_clock (w_clock w1)) > NAT_CLEAN_TIME * 1000) →
  ∃ w2, rtc turn (w1, CleanIdle) (w2, CleanIdle) ∧ n_entries (w_nat w2) !! e = None
    ∧ ∀ rewrite r w3, send_rewritten rewrite e p w2 = Done r w3 → r = - ENOMEM.
Proof using Type.
  intros Hs Hm Hrun Htime. destruct (section_touched p m Hm w e w1 Hrun) as (x & Hx & i & Hi & Hu).
  destruct (turn_sound _ _ (section_turn p m w (inr e) w1 CleanIdle Hm Hrun) Hs) as [[Hl (abs & Hok) Hip] _]. cbn [fst] in *.
  set (w1' := w1 <| w_clock ::= S |>). set (b := hash_head (natTable (w_nat w1))).
  destruct (clean_section_run b (env_clock (w_clock w1)) w1' abs Hok Hl ltac:(by right)) as (n' & Hc & _ & _ & _ & Hfree).
  assert (n_entries n' !! e = None) as He.
  { apply (Hfree e x); [done|done|]. unfold nat_expired. apply bool_decide_eq_true. rewrite Hu. by apply Htime. }
  exists (set_nat n' w1'). split_and!; [|done|].
  - eapply rtc_l; [apply turn_head|]. eapply rtc_l; [apply turn_time|]. apply rtc_once. by apply turn_clean.
  - intros rewrite r w3 (np & w4 & Hcopy & Hr)%bind_done. destruct np as [np|]; [|by injection Hr].
    pose proof (apart_copy_packet p (set_nat n' w1') Hip) as Ha. rewrite Hcopy in Ha. destruct Ha as [Hn _].
    apply bind_done in Hr as (y & w5 & Hg & _). unfold entry_get, gets, mbind, proc_bind in Hg.
    rewrite Hn in Hg. cbn [set_nat w_nat upd] in Hg. by rewrite He in Hg.
Qed.
End InUse.

(** ** Evaluation: a request goes out while the cleaner runs *)

(** Half a minute passes between two readings of the clock. *)
Definition slow_env : Env := {|
  env_clock n := Timespec (100 + 30 * Z.of_nat n) 0; env_random := @env_random toy_env; env_malloc _ := true;
  env_sendto _ := 0; env_dies_locked := false; env_slack := 0 |}.

Definition section_reads (E : Env) (n : nat) : bool :=
  match @outbound_section toy E request1 worldA with Done (inr _) w => bool_decide (w_clock w = n) | _ => false end.

Lemma section_runs E n : section_reads E n = true →
  ∃ e w1, @outbound_section toy E request1 worldA = Done (inr e) w1 ∧ w_clock w1 = n.
Proof.
  unfold section_reads. destruct (outbound_section _ _) as [[r|e] w1| | |]; [done| |done..].
  intros Hn%bool_decide_eq_true. by exists e, w1.
Qed.

Lemma worldA_sound : @sound toy (worldA, CleanIdle).
Proof. split; [|done]. split; [done|exists []; apply nat_ok_init|done]. Qed.

(** The cleaner's three turns. *)
Lemma clean_turns `{PolarSSL, Env} (w : world) :
  sound (w, CleanIdle) → ∃ w2, rtc turn (w, CleanIdle) (w2, CleanIdle) ∧ w_clock w2 = S (w_clock w).
Proof.
  intros [[Hl (abs & Hok) _] _]. set (w' := w <| w_clock ::= S |>).
  destruct (clean_section_run (hash_head (natTable (w_nat w))) (env_clock (w_clock w)) w' abs Hok Hl ltac:(by right))
    as (n' & Hc & _). exists (set_nat n' w'). split; [|done].
  eapply rtc_l; [apply turn_head|]. eapply rtc_l; [apply turn_time|]. apply rtc_once. by apply turn_clean.
Qed.

Lemma entry_outlives_packet_witness :
  ∃ e w1 w2, @outbound_section toy toy_env request1 worldA = Done (inr e) w1
    ∧ rtc (@turn toy toy_env) (w1, CleanIdle) (w2, CleanIdle)
    ∧ ∃ x x2, n_entries (w_nat w1) !! e = Some x ∧ n_entries (w_nat w2) !! e = Some x2 ∧ same_conn x2 x.
Proof.
  destruct (section_runs toy_env 2 ltac:(vm_compute; reflexivity)) as (e & w1 & Hrun & Hclock).
  destruct (@clean_turns toy toy_env w1) as (w2 & Hturns & Hclock2).
  { apply (turn_sound (worldA, CleanIdle)); [by eapply turn_outbound|apply worldA_sound]. }
  exists e, w1, w2. split; [done|]. split; [done|].
  apply (@entry_outlives_packet toy toy_env request1 (outbound_section request1) worldA CleanIdle e w1 w2 CleanIdle);
    [exact worldA_sound|exact (@of_outbound toy toy_env request1)|exact Hrun|exact Hturns|].
  intros i j _ _. by vm_compute.
Defined.

Lemma entry_freed_in_use_witness :
  ∃ e w1 w2, @outbound_section toy slow_env request1 worldA = Done (inr e) w1
    ∧ rtc (@turn toy slow_env) (w1, CleanIdle) (w2, CleanIdle) ∧ n_entries (w_nat w2) !! e = None
    ∧ ∀ rewrite r w3, @send_rewritten toy slow_env rewrite e request1 w2 = Done r w3 → r = - ENOMEM.
Proof.
  destruct (section_runs slow_env 2 ltac:(vm_compute; reflexivity)) as (e & w1 & Hrun & Hclock).
  destruct (@entry_freed_in_use toy slow_env request1 (@outbound_section toy slow_env request1) worldA e w1) as (w2 & H1 & H2 & H3);
    [exact worldA_sound|exact (@of_outbound toy slow_env request1)|exact Hrun| |
     exists e, w1, w2; exact (conj Hrun (conj H1 (conj H2 H3)))].
  intros i Hi. rewrite Hclock in *. assert (i = 0 ∨ i = 1)%nat as [->| ->] by (cbn in Hi; lia); by vm_compute.
Defined.
